(* ===== verification/_CoqProject ===== *)
-Q . S2P
Prelude.v
Membership.v
CausalOrder.v
Convergence.v
MembershipSafety.v
OpLog.v
Rope.v
Grapheme.v
Word.v
WordSpec.v
Brackets.v
Buffer.v
BufferHistory.v
BufferCursor.v
CollabText.v
BufferSync.v
Keymap.v
DocAddress.v
Storage.v
DocStore.v
DocStoreSpec.v
DeriveCache.v
Lease.v
Json.v
ContentOps.v
Broadcast.v
Collection.v
Access.v
Rotation.v
Session.v
SessionSafety.v
KbNode.v
KbHandlers.v
KbSafety.v
ContentCrypto.v
OpSet.v
E2eClient.v
OrgLinks.v
KbStore.v
KbGraph.v
Float32.v
WindowView.v
WindowMoves.v
WindowTree.v
Wrap.v
Search.v
SearchOps.v
Identity.v
Handshake.v
Framing.v
