(* ===== verification/Prelude.v ===== *)
(** * MAE: a verification development

    MAE is a collaborative, Emacs-like editor written in Rust together with a
    daemon that hosts and synchronizes shared documents and knowledge bases
    (KBs). This library models the logic on which users rely for the integrity
    of their text and for who may read and write a shared KB.

    ** The program's parts and how they interact

    - The editor core ([crates/core]) edits a [Buffer] (a rope with an undo
      history) through motions and text objects ([word.rs]), with cursors whose
      columns are byte offsets on grapheme-cluster boundaries ([grapheme.rs]),
      driven by keymaps ([keymap.rs]). A shared buffer also feeds a [TextSync]
      ([shared/sync/src/text.rs]), a CRDT document with a mirror rope, and takes
      remote updates from it.
    - A KB has a collection document ([shared/sync/src/kb/collection_*.rs]): the
      manifest with its roster, policies, join requests and leases, and the
      membership op-log, a replicated set of signed, hash-chained records. Every
      peer derives members, governance, encryption mode and content keys from
      the log ([shared/sync/src/membership.rs]).
    - Edits travel as signed content ops ([content_ops.rs], [wire.rs]) addressed
      by document names ([shared/sync/src/lib.rs]).
    - The daemon keeps documents in memory over a write-ahead log with snapshots
      ([daemon/src/storage.rs], [doc_store.rs]), memoizes the membership
      derivation, decides access ([collab_handler/access.rs],
      [method_authz.rs]), serves each session's requests
      ([collab_handler/mod.rs], [sync_methods.rs], [docs_methods.rs]) and sends
      events to the other sessions ([shared/mcp/src/broadcast.rs]).

    ** Files and the code they model

    Editor:
    - [Prelude]: the notation [let?] (early exit or panic), tactics, the hint
      database [mae], lemmas on lists, options, sets, decimal text.
    - [Rope]: the interface of the rope crate with its laws, UTF-8 and UTF-16
      offsets. [Grapheme]: [grapheme.rs]. [Word], [WordSpec], [Brackets]:
      [word.rs] and what its motions, objects and bracket searches compute.
    - [Buffer]: [buffer.rs] and the cursor of [window.rs]; an operation on
      [&mut self] takes and returns the record [Buffer]. [BufferHistory]: undo
      and redo. [BufferCursor]: positions and clamping.
    - [CollabText]: [text.rs] over the interface [Yrs]; it is the instance of
      the interface [SyncDoc] against which [Buffer] is written. [BufferSync]:
      both together.
    - [Keymap]: [keymap.rs].
    - [WindowMoves]: the movement methods of [window.rs], over [Word] and
      [Buffer]. [WindowView]: cursor sets ([cursor.rs]), saved views and
      scrolling. [WindowTree]: the [WindowManager] of [window.rs], its tree of
      splits and groups and the rectangles it lays out. [Float32]: the
      single-precision arithmetic of its ratios. [Wrap]: word wrap ([wrap.rs])
      and the display-row commands of [editor/dispatch/nav.rs].
    - [Search]: [search.rs], the matches of a pattern, the next one, the
      substitution in a line, the word under the cursor. [SearchOps]: the search,
      substitution and global commands of [editor/search_ops.rs] over [Buffer].

    Membership:
    - [Membership]: [membership.rs]. [CausalOrder]: its traversal of the op
      tree. [Convergence]: independence of record order. [MembershipSafety]:
      guarantees of the derivation and its counterexamples.
    - [OpLog]: [collection_oplog.rs] and what signatures cover.
    - [Collection]: [collection_core.rs], [collection_roles.rs], the keys and
      the migration of [collection_crypto.rs], policies of [kb/mod.rs].
    - [Rotation]: the authoring functions of [collection_crypto.rs].
    - [Lease]: [collection_lease.rs] and [collab_handler/kb_lease.rs].

    Daemon:
    - [DocAddress]: addresses, save policies and state-vector comparison of
      [shared/sync/src/lib.rs], the shard hash of [storage.rs].
    - [Storage]: [storage.rs]. [DocStore]: the documents of [doc_store.rs], as
      a state and error monad whose steps are the code between await points.
      [DocStoreSpec]: the abstract store and the refinement.
    - [DeriveCache]: the membership cache, anchors and blocklist of
      [doc_store.rs].
    - [Json]: the JSON values of requests. [ContentOps]: [content_ops.rs],
      [wire.rs] and the relay check of [collab_handler/mod.rs].
    - [Broadcast]: [broadcast.rs].
    - [Access]: [access.rs], [method_authz.rs], [kb_id_guard.rs].
    - [Session]: the dispatch, gates and handlers of [collab_handler/mod.rs],
      [sync_methods.rs] and [docs_methods.rs], and the tool path of
      [shared/mcp/src/lib.rs]. [SessionSafety]: what they let through.
    - [KbNode]: the node document of [kb/node.rs], its hashes and rebirth.
    - [KbHandlers]: the [kb/*] handlers of [kb_membership.rs], [kb_content.rs],
      [kb_governance.rs], [kb_share_ownership.rs] and [kb_lease.rs] with their
      helpers and dispatch in [collab_handler/mod.rs], over the collection,
      op-log, store and gates above. [KbSafety]: what a request can reach.

    Connections:
    - [Identity]: keys, the identity files, [known_hosts] and [authorized_keys] of
      [shared/mcp/src/identity.rs], the pre-shared keys of [keystore.rs].
    - [Handshake]: the handshakes of [shared/mcp/src/auth.rs] as processes that
      exchange lines, and the session identity they lead to.
    - [Framing]: [read_message] and [write_framed] of [shared/mcp/src/lib.rs].

    Encrypted KBs:
    - [ContentCrypto]: [content_crypto.rs], sealing under the content key and
      wrapping that key to members.
    - [OpSet]: [op_set.rs], the replicated map of sealed ops the daemon stores
      for a node of an encrypted KB without being able to read it.
    - [E2eClient]: the client of encrypted KBs in
      [crates/mae/src/collab_bridge/mod.rs]: outgoing edits, incoming updates,
      key derivation, the planning of rotations and re-wraps, sequence gaps and
      reconnection.

    Knowledge base in the editor:
    - [OrgLinks]: the link grammar of node texts, [org.rs] and the scanners of
      [shared/kb/src/lib.rs].
    - [KbStore]: the in-memory [KnowledgeBase] of that file with its indexes, the
      conversion of nodes to CRDT documents and back, remote updates.
      [KbGraph]: its lookups, agenda, health report and walks over the links.

    ** What the theorems show

    - Membership: peers with the same records derive the same state whatever
      order they read them in; members have a signed origin; forged records are
      inert; the owner cannot be removed and its role is contained; removals
      need a quorum and win over concurrent acts; encryption cannot be switched
      off; signed bytes determine the signed fields; records survive storage.
    - Collection: the document keeps its type under every operation; an
      authorization epoch names one uninterrupted grant; a rotation on removal
      hands the new key to the remaining members only; leases are exclusive
      while they last and become available again.
    - Store: the detailed store (memory, snapshots, log, evictions, failing
      statements, restarts) refines a map from names to CRDT states, and an
      acknowledged update survives. The refinement is about whole requests; the
      interleavings of two requests at await points that break it are theorems
      of their own.
    - Gates: the cache of derived members is transparent; access to a joined KB
      is decided by its signed log; raw reads and writes of KB documents need
      membership; relayed edits are signed by a current editor; a member can
      change only its own identity; events reach exactly their subscribers.
    - Requests: a [kb/*] request changes documents of the KB it names and of no
      other; the gated methods fail without their role and then write nothing;
      an accepted node update passed role, signature, epoch and rebirth gates;
      listing shows only readable KBs; a reborn node reads as the old one and
      the hash its owner signs determines it.
    - Encryption: exactly the ciphertexts made under a key open under it, bound
      to their op; an encrypted KB's client sends no plaintext; replicas of an
      op set open the same ops whatever order they received them in; an edit
      sealed by one member is delivered once to another that holds the key.
    - Knowledge base: scanning inverts printing of links and ingest keeps exactly
      the links to nodes; every index of the store is exact under every
      operation but the merge of a remote update; lookups, walks and distances
      are what their definitions on the nodes say; a node survives its document;
      reconciliation never replaces a node.
    - Editor: undo and redo invert every edit in every reachable history; a
      shared buffer always shows its document; reconciliation reaches its
      target; cursors stay in bounds; motions progress; keymaps and macros round
      trip; brackets match.
    - Windows: the layout tree holds every open window once under every
      operation; its rectangles tile the screen; splits, closing, moving and
      focus changes do what they say to exactly the windows they name; the
      cursor is brought back into view, wrapped lines or not; the functions of
      the word wrap agree on one division of a line into rows, and moving by
      rows follows it.
    - Search: the next match is the nearest one that starts in the direction of
      the search, around the end of the buffer; a substitution replaces the
      matches in the lines of its range and nothing else, and over several lines
      is one step of the history; the global deletion removes exactly the lines
      it should.
    - Connections: a handshake accepts only a proof under a trusted key or a
      signature under an authorized one over its own nonce; the handshakes end,
      with the error each side should have; the trust files refine the map or
      the first-use pin they stand for; frames written one after the other are
      read back. The theorems [keyless_peer_is_accepted],
      [mirrored_signature_is_accepted] and [json_sessions_pass_every_gate] show
      what those proofs are worth as the code stands.
    - Departures: concrete inputs on which the code does something else than its
      comments or its purpose say, each a theorem about the same definitions.

    ** Parameters, bounds and fuel

    Code outside the repository is a class with its documented laws, and every
    theorem that uses one has a witness at a concrete instance: signatures,
    hashes and text encodings ([Crypto], [Base64], [Signer], [Hmac], [JsonText]), the rope ([Rope]),
    the CRDT ([Yrs], [YrsMerge], [YrsMap], [CollCodec], [KbCodec], [NodeCodec],
    [ReplicaCodec], [NodeReplica]), floating-point numbers ([F64]), the ciphers ([Aead], [KeyExchange]), the word diff ([WordDiff]),
    Unicode tables ([Segmentation], [WidthTables], [Unicode], [Lowercase], [UnicodeCase]),
    regular expressions ([Regex], [RegexNew]). Time,
    random tokens, client ids, storage outcomes and hash-map iteration orders
    are arguments of the definitions.

    Loops whose recursion is not structural take fuel that is computed from the
    input, and theorems show it is enough: the traversal of the op tree gets the
    number of ops (each round emits one), the cascade the number of members,
    the validity loop the iteration cap of the source itself (the source stops
    there too), the scanning loops of the motions the length of the text, the
    notation parsers and the link rewriting the length of their input, the
    distance walk the number of known ids, the wrap loops the length of the line
    (where a character is wider than its row no number of steps is enough, and
    that is a theorem), the word under the cursor the length of the text, the
    header and line loops of the framing the length of the stream. Two joined handshakes end within twelve moves.

    Machine integers are [N] or [nat] with the width written where the code can
    reach it: lease times saturate and generations wrap at 64 bits, epochs and
    tokens are parsed at 64 bits, bracket depths are [i32], CRDT lengths [u32].
    Screen coordinates are [u16] that wrap (the release profile), and the layout
    theorems show that none does; ratios are the Standard Library's IEEE 754
    floats at single precision. Line and offset arithmetic of the editor stays
    below the size of a text in memory and window identifiers below [2 ^ 32];
    they are not wrapped, except the line numbers a user types. A panic of the
    editor is [None]. The laws of the regular expression engine say that its matches
    are in order, apart and on character boundaries, not which they are.

    ** Not modelled

    File, process and socket access; drawing; the AI, LSP and DAP clients; the
    Scheme runtime; the headings and drawers of org files; ranked search and the
    Datalog engine behind the KB store: they are I/O or stand on external
    engines, or are large languages of their own. Of the modelled
    files: per-kind views of buffers, the animation of scrolling momentum,
    metrics, quotas, artifacts, [kb/query.*]. Requests are served one at a time: the
    interleaving of two handlers is modelled for the store only. Of the client
    of encrypted KBs, the connection loop and the editor's command queue are
    left out. Of connections, mutual TLS and the peer-to-peer mesh. The
    substitution theorems are about buffers that are not shared and texts
    without carriage returns ([carriage_return_joins_lines] shows why). The org
    file parser and the Scheme reader would be the next parts. *)
From Stdlib Require Export Ascii.
From stdpp Require Export base tactics option gmap strings sorting pretty numbers list.
From stdpp Require Export list_basics list_relations list_monad list_misc list_tactics.

(** ** Notations

    [let? x := e in k] is Rust's early exit: in a definition that models a
    function returning [Option], it is the [?] operator; in one that models a
    function that can panic, [None] is the panic and [let?] propagates it. *)
Declare Scope rust_scope.
Delimit Scope rust_scope with rust.
Notation "'let?' x ':=' e 'in' k" :=
  (match e with Some x => k | None => None end)
  (at level 10, x pattern, e at level 150, k at level 200, only parsing) : rust_scope.
Open Scope rust_scope.

(** ** Tactics and hints *)
Create HintDb mae.

(** Case analysis on the scrutinee of the first match of the goal, then of
    every hypothesis, keeping the equations and closing absurd cases. *)
Ltac case_goal :=
  match goal with
  | |- context [match ?x with _ => _ end] => destruct x eqn:?; simplify_eq/=
  end.
Ltac case_hyp :=
  match goal with
  | H : context [match ?x with _ => _ end] |- _ => destruct x eqn:?; simplify_eq/=
  end.
(** Turn boolean tests of the code into propositions. *)
Ltac bool_prop :=
  repeat match goal with
  | H : (_ && _) = true |- _ => apply andb_true_iff in H; destruct H
  | H : (_ || _) = false |- _ => apply orb_false_iff in H; destruct H
  | H : negb _ = true |- _ => apply negb_true_iff in H
  | H : negb _ = false |- _ => apply negb_false_iff in H
  | H : bool_decide _ = true |- _ => apply bool_decide_eq_true in H
  | H : bool_decide _ = false |- _ => apply bool_decide_eq_false in H
  end.

(** The cases of an operation's definition, in order. *)
Ltac op_cases H :=
  repeat (match type of H with
  | (if ?x then _ else _) = Some _ => destruct x eqn:?
  | (match ?x with _ => _ end) = Some _ => destruct x eqn:?
  end; try discriminate H; simplify_eq/=).

(** Case analysis on the innermost comparison [x <? y] of the goal. *)
Ltac ltb_case :=
  match goal with
  | |- context [?x <? ?y] =>
      lazymatch x with context [if _ then _ else _] => fail | _ => idtac end;
      lazymatch y with context [if _ then _ else _] => fail | _ => idtac end;
      destruct (Nat.ltb_spec x y)
  end.
(** Case analysis on the membership [H : x ∈ [a; b; ..]] in a concrete list. *)
Ltac each_elem H :=
  repeat (apply elem_of_cons in H as [->|H]); [..|by apply not_elem_of_nil in H].

(** ** Machine integers, decimal text *)

(** [usize::MAX]/[u64::MAX] on the 64-bit targets the program is built for. *)
Definition u64_max : N := 18446744073709551615.
Definition u8_max : N := 255.

(** [n.to_string()] of an unsigned integer. *)
Definition to_dec (n : N) : string := pretty n.

(** The value of one decimal digit. *)
Definition digit_val (c : Ascii.ascii) : option N :=
  let n := Ascii.N_of_ascii c in
  if bool_decide (48 <= n /\ n <= 57)%N then Some (n - 48)%N else None.

(** The digit loop of [str::parse] at an unsigned type whose maximum is [mx]:
    a non-digit and an overflow are both errors. *)
Fixpoint parse_digits (mx acc : N) (s : string) : option N :=
  match s with
  | EmptyString => Some acc
  | String c rest =>
      let? d := digit_val c in
      if bool_decide (10 * acc + d <= mx)%N then parse_digits mx (10 * acc + d) rest else None
  end.

(** [s.parse::<uN>().ok()]: an optional leading [+], then at least one digit. *)
Definition parse_uint (mx : N) (s : string) : option N :=
  let body := match s with
              | String "+"%char rest => rest
              | _ => s
              end in
  match body with
  | EmptyString => None
  | _ => parse_digits mx 0 body
  end.

(** ** Byte strings *)

(** [s.strip_prefix(p)]. *)
Fixpoint strip_prefix (p s : string) : option string :=
  match p, s with
  | EmptyString, _ => Some s
  | String a p', String b s' => if bool_decide (a = b) then strip_prefix p' s' else None
  | String _ _, EmptyString => None
  end.

(** The UTF-8 encoding of a Unicode scalar value. *)
Definition utf8 (c : N) : string :=
  let b (n : N) := Ascii.ascii_of_N n in
  if (c <? 128)%N then String (b c) ""
  else if (c <? 2048)%N then
    String (b (192 + c / 64)%N) (String (b (128 + c mod 64)%N) "")
  else if (c <? 65536)%N then
    String (b (224 + c / 4096)%N) (String (b (128 + (c / 64) mod 64)%N)
      (String (b (128 + c mod 64)%N) ""))
  else
    String (b (240 + c / 262144)%N) (String (b (128 + (c / 4096) mod 64)%N)
      (String (b (128 + (c / 64) mod 64)%N) (String (b (128 + c mod 64)%N) ""))).

(** The code points with Unicode's White_Space property: what
    [char::is_whitespace] tests. *)
Definition white_space : list N :=
  [9; 10; 11; 12; 13; 32; 133; 160; 5760; 8192; 8193; 8194; 8195; 8196; 8197;
   8198; 8199; 8200; 8201; 8202; 8232; 8233; 8239; 8287; 12288]%N.

(** Strip one of the encodings [ws] from the front of [s], if one is there. *)
Fixpoint strip_one (ws : list string) (s : string) : option string :=
  match ws with
  | [] => None
  | w :: ws' => match strip_prefix w s with
                | Some r => Some r
                | None => strip_one ws' s
                end
  end.

(** Strip such encodings from the front of [s] as long as there is one; each
    round shortens [s], so [String.length s] rounds are enough. *)
Fixpoint strip_many (fuel : nat) (ws : list string) (s : string) : string :=
  match fuel with
  | 0 => s
  | S fuel' => match strip_one ws s with
               | Some r => strip_many fuel' ws r
               | None => s
               end
  end.

(** [s.trim()] of a UTF-8 string: drop White_Space scalars from both ends. *)
Definition trim (s : string) : string :=
  let ws := map utf8 white_space in
  let s1 := strip_many (String.length s) ws s in
  String.rev (strip_many (String.length s1) (map String.rev ws) (String.rev s1)).

(** No byte of the string is NUL. *)
Fixpoint no_nul (s : string) : bool :=
  match s with
  | EmptyString => true
  | String c r => negb (bool_decide (c = Ascii.zero)) && no_nul r
  end.

(** ** Shared lemmas *)

Lemma foldl_as_foldr {A B} (f : A -> B -> A) (a : A) (l : list B) :
  foldl f a l = foldr (fun x acc => f acc x) a (reverse l).
Proof.
  revert a. induction l as [|x l IH] using rev_ind; intros a; [done|].
  by rewrite foldl_app, reverse_app, IH.
Qed.

(** A left fold does not depend on the order of the list when the steps of any
    two of its elements commute. *)
Lemma foldl_perm {A B} (f : A -> B -> A) (a : A) (l1 l2 : list B) :
  (forall x y acc, x ∈ l1 -> y ∈ l1 -> f (f acc x) y = f (f acc y) x) ->
  l1 ≡ₚ l2 -> foldl f a l1 = foldl f a l2.
Proof.
  intros Hc Hp. rewrite !foldl_as_foldr.
  apply (foldr_permutation (=)); [intros ? ? ? ->; done| |].
  - intros j1 a1 j2 a2 b _ H1 H2. apply Hc;
      rewrite <- elem_of_reverse; eauto using list_elem_of_lookup_2.
  - by rewrite !reverse_Permutation.
Qed.

(** A fold whose steps leave [P] true ends with [P] true. *)
Lemma foldl_inv {A B} (P : A -> Prop) (f : A -> B -> A) (a : A) (l : list B) :
  P a -> (forall acc x, x ∈ l -> P acc -> P (f acc x)) -> P (foldl f a l).
Proof.
  revert a. induction l as [|x l IH]; intros a Ha Hf; simpl; [done|].
  apply IH; [apply Hf; set_solver|]. intros; apply Hf; set_solver.
Qed.

Lemma foldl_ext {A B} (f g : A -> B -> A) (a : A) (l : list B) :
  (forall acc x, x ∈ l -> f acc x = g acc x) -> foldl f a l = foldl g a l.
Proof.
  revert a. induction l as [|x l IH]; intros a Hf; simpl; [done|].
  rewrite Hf by set_solver. apply IH. intros; apply Hf; set_solver.
Qed.

Lemma elem_of_List_filter {A} (f : A -> bool) (l : list A) x :
  x ∈ List.filter f l <-> x ∈ l /\ f x = true.
Proof. rewrite !list_elem_of_In. apply filter_In. Qed.

Lemma List_filter_perm {A} (f : A -> bool) (l1 l2 : list A) :
  l1 ≡ₚ l2 -> List.filter f l1 ≡ₚ List.filter f l2.
Proof.
  induction 1; simpl; repeat case_match; eauto using perm_swap, Permutation_trans.
Qed.

Lemma List_filter_ext {A} (f g : A -> bool) (l : list A) :
  (forall x, x ∈ l -> f x = g x) -> List.filter f l = List.filter g l.
Proof.
  intros Hf. apply filter_ext_in. intros x Hx. apply Hf. by apply list_elem_of_In.
Qed.

(** [find] on a permuted list, when all its hits are equal. *)
Lemma find_perm {A} (f : A -> bool) (l1 l2 : list A) :
  (forall x y, x ∈ l1 -> y ∈ l1 -> f x = true -> f y = true -> x = y) ->
  l1 ≡ₚ l2 -> List.find f l1 = List.find f l2.
Proof.
  intros Hu Hp.
  destruct (List.find f l1) as [x|] eqn:E1, (List.find f l2) as [y|] eqn:E2; try done.
  - apply find_some in E1 as [H1 F1], E2 as [H2 F2]. rewrite <- list_elem_of_In in H1, H2.
    f_equal. apply Hu; try done. by rewrite Hp.
  - apply find_some in E1 as [H1 F1]. rewrite <- list_elem_of_In, Hp, list_elem_of_In in H1.
    by rewrite (find_none _ _ E2 _ H1) in F1.
  - apply find_some in E2 as [H1 F1]. rewrite <- list_elem_of_In, <- Hp, list_elem_of_In in H1.
    by rewrite (find_none _ _ E1 _ H1) in F1.
Qed.

(** The strict byte order behind [String]'s [Ord] instance. *)
Lemma ltb_iff (a b : string) : String.ltb a b = true <-> String.le a b /\ a <> b.
Proof.
  unfold String.ltb, String.le, String.leb.
  destruct (a ?= b)%string eqn:E.
  - apply String.compare_eq_iff in E as ->. naive_solver.
  - split; [|done]. intros _. split; [done|]. intros ->.
    pose proof (String.compare_antisym b b) as Ha. by rewrite E in Ha.
  - split; [done|]. by intros [? _].
Qed.

Lemma ltb_false_iff (a b : string) : String.ltb a b = false <-> String.le b a.
Proof.
  rewrite <- not_true_iff_false, ltb_iff. split.
  - intros Hn. destruct (total String.le a b) as [Hab|]; [|done].
    destruct (decide (a = b)) as [->|]; [done|]. naive_solver.
  - intros Hba [Hab Hne]. apply Hne. by apply (anti_symm String.le).
Qed.

Lemma size_list_to_set_le `{Countable A} (l : list A) :
  size (list_to_set (C := gset A) l) <= length l.
Proof.
  induction l as [|x l IH]; cbn [list_to_set length]; [done|].
  pose proof (size_union_alt ({[x]} : gset A) (list_to_set l)) as Ha.
  assert (size (list_to_set (C := gset A) l ∖ {[x]}) <= size (list_to_set (C := gset A) l)).
  { apply subseteq_size. set_solver. }
  rewrite size_singleton in Ha. lia.
Qed.

Lemma existsb_perm {A} (f : A -> bool) (l1 l2 : list A) :
  l1 ≡ₚ l2 -> existsb f l1 = existsb f l2.
Proof.
  intros Hp. apply eq_bool_prop_intro. rewrite !Is_true_true, !existsb_exists.
  split; intros (x & Hx & Hf); exists x; (split; [|done]);
    rewrite <- list_elem_of_In in *; by rewrite ?Hp, <- ?Hp in *.
Qed.

(** ** Decimal text *)

(** The digits of [n] in front of [s] are read as [n]. *)
Lemma parse_digits_go mx n : exists k, forall a s, (a * 10 ^ k + n <= mx)%N ->
  parse_digits mx a (pretty_N_go n s) = parse_digits mx (a * 10 ^ k + n) s.
Proof.
  induction (N.lt_wf_0 n) as [n _ IH]. destruct (decide (n = 0)%N) as [->|Hn].
  { exists 0%N. intros a s Hmx. rewrite pretty_N_go_0. f_equal. simpl. lia. }
  destruct (IH (n / 10)%N) as [k Hk]; [apply N.div_lt; lia|].
  exists (N.succ k). intros a s Hmx. rewrite pretty_N_go_step by lia.
  pose proof (N.div_mod n 10 ltac:(lia)) as Hd. pose proof (N.mod_lt n 10 ltac:(lia)) as Hm.
  set (q := (n / 10)%N) in *. set (d := (n mod 10)%N) in *. clearbody q d.
  rewrite N.pow_succ_r' in *. rewrite Hk by lia. cbn [parse_digits].
  assert (Hdig : digit_val (pretty_N_char d) = Some d).
  { assert (d = 0 \/ d = 1 \/ d = 2 \/ d = 3 \/ d = 4 \/ d = 5 \/ d = 6 \/ d = 7 \/ d = 8 \/ d = 9)%N by lia.
    naive_solver. }
  rewrite Hdig, bool_decide_eq_true_2 by lia. f_equal. lia.
Qed.

(** The first character of a decimal numeral. *)
Lemma pretty_N_go_head n s : (0 < n)%N ->
  exists d s', (d < 10)%N /\ pretty_N_go n s = String (pretty_N_char d) s'.
Proof.
  revert s. induction (N.lt_wf_0 n) as [n _ IH]. intros s Hn. rewrite pretty_N_go_step by done.
  destruct (decide (n / 10 = 0)%N) as [->|Hq].
  - rewrite pretty_N_go_0. eexists _, _. split; [|done]. apply N.mod_lt. lia.
  - apply IH; [apply N.div_lt; lia|by apply N.neq_0_lt_0].
Qed.

Lemma to_dec_head n : exists d s', (d < 10)%N /\ to_dec n = String (pretty_N_char d) s'.
Proof.
  unfold to_dec, pretty, pretty_N. destruct (decide (n = 0)%N); [by exists 0%N, ""|].
  apply pretty_N_go_head. lia.
Qed.

Lemma to_dec_nonempty n : to_dec n <> "".
Proof. by destruct (to_dec_head n) as (d & s' & _ & ->). Qed.

(** Reading back a printed number. *)
Lemma parse_to_dec mx n : (n <= mx)%N -> parse_uint mx (to_dec n) = Some n.
Proof.
  intros Hn. assert (Hp : parse_digits mx 0 (to_dec n) = Some n).
  { unfold to_dec, pretty, pretty_N. destruct (decide (n = 0)%N) as [->|Hz].
    - simpl. by rewrite bool_decide_eq_true_2 by lia.
    - destruct (parse_digits_go mx n) as [k Hk]. by rewrite Hk by lia. }
  unfold parse_uint. destruct (to_dec_head n) as (d & s' & Hd & E). rewrite E in *.
  assert (d = 0 \/ d = 1 \/ d = 2 \/ d = 3 \/ d = 4 \/ d = 5 \/ d = 6 \/ d = 7 \/ d = 8 \/ d = 9)%N as Hc by lia.
  repeat destruct Hc as [->|Hc]; [..|subst d]; done.
Qed.

Lemma no_nul_go n s : no_nul s = true -> no_nul (pretty_N_go n s) = true.
Proof.
  revert s. induction (N.lt_wf_0 n) as [n _ IH]. intros s Hs.
  destruct (decide (n = 0)%N) as [->|Hn]; [by rewrite pretty_N_go_0|].
  rewrite pretty_N_go_step by lia. apply IH; [apply N.div_lt; lia|].
  simpl. rewrite Hs. pose proof (N.mod_lt n 10 ltac:(lia)) as Hm. set (d := (n mod 10)%N) in *. clearbody d.
  assert (d = 0 \/ d = 1 \/ d = 2 \/ d = 3 \/ d = 4 \/ d = 5 \/ d = 6 \/ d = 7 \/ d = 8 \/ d = 9)%N as Hc by lia.
  repeat destruct Hc as [->|Hc]; [..|subst d]; done.
Qed.

Lemma to_dec_no_nul n : no_nul (to_dec n) = true.
Proof. unfold to_dec, pretty, pretty_N. destruct (decide _); [done|]. by apply no_nul_go. Qed.

Lemma to_dec_inj n m : to_dec n = to_dec m -> n = m.
Proof. apply pretty_N_inj. Qed.

(** A parsed integer fits its type. *)
Lemma parse_digits_le mx s : forall acc n, (acc <= mx)%N -> parse_digits mx acc s = Some n -> (n <= mx)%N.
Proof.
  induction s as [|c s IH]; intros acc n Hacc; cbn [parse_digits]; [by intros [= <-]|].
  destruct (digit_val c) as [d|]; [|done]. case_bool_decide; [|done]. by apply IH.
Qed.
Lemma parse_uint_le mx s n : parse_uint mx s = Some n -> (n <= mx)%N.
Proof. unfold parse_uint. intros E. repeat case_match; try done; eapply parse_digits_le; try exact E; lia. Qed.

(** Prefixes and concatenation of byte strings. *)
Lemma strip_prefix_app p s : strip_prefix p (p +:+ s) = Some s.
Proof. induction p as [|c p IH]; [done|]. simpl. by rewrite bool_decide_eq_true_2. Qed.
Lemma strip_prefix_inv p s r : strip_prefix p s = Some r -> s = p +:+ r.
Proof.
  revert s. induction p as [|c p IH]; intros [|b s] H; simplify_eq/=; [done|done|].
  case_bool_decide as E; [|done]. subst b. by rewrite (IH s H).
Qed.
Lemma string_length_app a b : String.length (a +:+ b) = String.length a + String.length b.
Proof. induction a as [|c a IH]; [done|].
  change (String c a +:+ b) with (String c (a +:+ b)). cbn [String.length]. by rewrite IH.
Qed.
Lemma string_app_nil_r (s : string) : s +:+ "" = s.
Proof. induction s as [|c s IH]; [done|]. exact (f_equal (String c) IH). Qed.
Lemma string_app_assoc (a b c : string) : (a +:+ b) +:+ c = a +:+ (b +:+ c).
Proof. induction a as [|x a IH]; [done|]. exact (f_equal (String x) IH). Qed.

(** A positive number in binary digits. *)
Fixpoint bits (p : positive) : string :=
  match p with xH => "" | xO p => String "0" (bits p) | xI p => String "1" (bits p) end.
Fixpoint unbits (s : string) : positive :=
  match s with EmptyString => xH | String "1" r => xI (unbits r) | String _ r => xO (unbits r) end.
Lemma unbits_bits p : unbits (bits p) = p.
Proof. induction p as [p IH|p IH|]; cbn; by rewrite ?IH. Qed.

(** A sequence of deletions from a map. *)
Lemma deletes_lookup `{Countable K} {V} (ks : list K) : forall (m : gmap K V) i,
  foldl (fun m k => delete k m) m ks !! i = if bool_decide (i ∈ ks) then None else m !! i.
Proof.
  induction ks as [|x ks IH]; intros m i; [done|]. cbn [foldl]. rewrite IH. destruct (decide (i = x)) as [->|Hne].
  - rewrite lookup_delete_eq. rewrite (bool_decide_eq_true_2 (x ∈ x :: ks)) by (by left). by case_bool_decide.
  - rewrite lookup_delete_ne by done. do 2 case_bool_decide; try done; exfalso; set_solver.
Qed.
