(* ===== verification/Membership.v ===== *)
(** * Membership: the signed, hash-chained membership op-log

    Models [shared/sync/src/membership.rs] and the [Role] hierarchy of
    [shared/sync/src/kb/mod.rs]. The signature scheme, the hash and the text
    encodings come from other crates and are parameters (class [Crypto]).
    Byte strings and UTF-8 strings are both [string], a sequence of bytes. *)
From S2P Require Import Prelude.

(** ** The cryptographic interface

    [ed25519_dalek], [sha2], [hex] and [base64] are external crates.
    [vk_from_bytes pk] tells whether the 32 bytes decode to a verifying key;
    [ed25519_verify pk msg sig] is the verdict of [vk.verify]. *)
Class Crypto := {
  vk_from_bytes : string -> bool;
  ed25519_verify : string -> string -> string -> bool;
  sha256 : string -> string;
  hex_encode : string -> string;
  hex_decode : string -> option string;
  base64_nopad : string -> string;
}.

(** What the code relies on of the hexadecimal encoder and decoder. *)
Class HexLaws (C : Crypto) : Prop := {
  hex_decode_encode : forall b, hex_decode (hex_encode b) = Some b;
  hex_encode_empty : hex_encode "" = "";
  hex_no_nul : forall b, no_nul (hex_encode b) = true;
}.

(** ** Data *)

(** [kb::Role]. *)
Inductive Role := Owner | Editor | Viewer.
#[export] Instance Role_eq_dec : EqDecision Role.
Proof. solve_decision. Defined.

Definition Role_as_str (r : Role) : string :=
  match r with Owner => "owner" | Editor => "editor" | Viewer => "viewer" end.

Definition Role_parse (s : string) : option Role :=
  if bool_decide (s = "owner") then Some Owner
  else if bool_decide (s = "editor") then Some Editor
  else if bool_decide (s = "viewer") then Some Viewer
  else None.

Definition rank (r : Role) : nat :=
  match r with Viewer => 0 | Editor => 1 | Owner => 2 end.

Definition includes (r other : Role) : bool := rank other <=? rank r.

(** [kb::Encryption]. *)
Inductive Encryption := EncNone | E2e.
#[export] Instance Encryption_eq_dec : EqDecision Encryption.
Proof. solve_decision. Defined.

Inductive MembershipAction :=
  | Admit | Remove | SetRole | Revoke | SetGovernance | SetEncryption
  | Rebind | RegisterRecoveryKey | Rebirth.
#[export] Instance MembershipAction_eq_dec : EqDecision MembershipAction.
Proof. solve_decision. Defined.

Definition MembershipAction_as_str (a : MembershipAction) : string :=
  match a with
  | Admit => "admit" | Remove => "remove" | SetRole => "set_role"
  | Revoke => "revoke" | SetGovernance => "set_governance"
  | SetEncryption => "set_encryption" | Rebind => "rebind"
  | RegisterRecoveryKey => "register_recovery_key" | Rebirth => "rebirth"
  end.

Definition MembershipAction_parse (s : string) : option MembershipAction :=
  if bool_decide (s = "admit") then Some Admit
  else if bool_decide (s = "remove") then Some Remove
  else if bool_decide (s = "set_role") then Some SetRole
  else if bool_decide (s = "revoke") then Some Revoke
  else if bool_decide (s = "set_governance") then Some SetGovernance
  else if bool_decide (s = "set_encryption") then Some SetEncryption
  else if bool_decide (s = "rebind") then Some Rebind
  else if bool_decide (s = "register_recovery_key") then Some RegisterRecoveryKey
  else if bool_decide (s = "rebirth") then Some Rebirth
  else None.

Inductive ReplicationPolicy := Full | QueryOnly.
#[export] Instance ReplicationPolicy_eq_dec : EqDecision ReplicationPolicy.
Proof. solve_decision. Defined.

Definition ReplicationPolicy_as_str (p : ReplicationPolicy) : string :=
  match p with Full => "full" | QueryOnly => "query_only" end.

Definition ReplicationPolicy_parse (s : string) : option ReplicationPolicy :=
  if bool_decide (s = "full") then Some Full
  else if bool_decide (s = "query_only") then Some QueryOnly
  else None.

(** The fixed-size arrays [[u8; 32]] of the source are byte strings here; no
    operation of the module depends on their length. *)
Record MembershipOp := mkOp {
  kb_id : string;
  action : MembershipAction;
  subject : string;
  role : option Role;
  can_invite : bool;
  author : string;
  issued_at : N;
  expires_at : option N;
  epoch : N;
  prev_hash : string;
  wrapped_key : option string;
  new_pubkey : option string;
  new_wrap_pubkey : option string;
  recovery_pubkey : option string;
  replication : ReplicationPolicy;
  content_hash : option string;
}.
#[export] Instance MembershipOp_eq_dec : EqDecision MembershipOp.
Proof. solve_decision. Defined.

Record SignedMembershipOp := mkSigned {
  op : MembershipOp;
  sig : string;
  author_pubkey : string;
}.
#[export] Instance SignedMembershipOp_eq_dec : EqDecision SignedMembershipOp.
Proof. solve_decision. Defined.
(** The default element of [by_hash[..]] indexing, which panics in the source
    on an absent key; [CausalOrder] shows that no index is absent. *)
#[export] Instance SignedMembershipOp_inhabited : Inhabited SignedMembershipOp :=
  populate (mkSigned (mkOp "" Revoke "" None false "" 0 None 0 "" None None None None Full None) "" "").

Record ValidMember := mkMember {
  principal : string;
  m_role : Role;
  m_can_invite : bool;
  invited_by : string;
  m_epoch : N;
  m_replication : ReplicationPolicy;
}.
#[export] Instance ValidMember_eq_dec : EqDecision ValidMember.
Proof. solve_decision. Defined.

Inductive InviterRemovalPolicy := PendingOnly | CascadeAll | Retain.
#[export] Instance InviterRemovalPolicy_eq_dec : EqDecision InviterRemovalPolicy.
Proof. solve_decision. Defined.

Definition InviterRemovalPolicy_as_str (p : InviterRemovalPolicy) : string :=
  match p with
  | PendingOnly => "pending_only" | CascadeAll => "cascade_all" | Retain => "retain"
  end.

Definition InviterRemovalPolicy_parse (s : string) : option InviterRemovalPolicy :=
  if bool_decide (s = "pending_only") then Some PendingOnly
  else if bool_decide (s = "cascade_all") then Some CascadeAll
  else if bool_decide (s = "retain") then Some Retain
  else None.

Record MembershipView := mkView {
  cascade : InviterRemovalPolicy;
  blocklist : gset string;
}.
Definition default_view : MembershipView := mkView PendingOnly ∅.

Inductive Governance := SingleOwner | Quorum (threshold : N).
#[export] Instance Governance_eq_dec : EqDecision Governance.
Proof. solve_decision. Defined.

Definition to_spec (g : Governance) : string :=
  match g with
  | SingleOwner => "single-owner"
  | Quorum threshold => "quorum:" +:+ to_dec threshold
  end.

Definition parse_spec (s0 : string) : option Governance :=
  let s := trim s0 in
  if bool_decide (s = "single-owner") then Some SingleOwner
  else let? n := strip_prefix "quorum:" s in
       let? threshold := parse_uint u64_max n in
       if bool_decide (threshold = 0%N) then None else Some (Quorum threshold).

(** ** Signed records *)

Section Records.
Context `{Crypto}.

Definition fingerprint_of (pubkey : string) : string :=
  "SHA256:" +:+ base64_nopad (sha256 pubkey).

(** [field(&mut b, s)]: the field's bytes, then a NUL. *)
Definition field (s : string) : string := s +:+ String Ascii.zero "".

(** The version tag of the canonical encoding. *)
Definition canonical_version (o : MembershipOp) : string :=
  if bool_decide (action o = Rebirth) then "maememb/v6"
  else if bool_decide (action o = Rebind) then "maememb/v3"
  else if bool_decide (action o = RegisterRecoveryKey) then "maememb/v4"
  else if bool_decide (replication o = QueryOnly) then "maememb/v5"
  else if bool_decide (is_Some (wrapped_key o)) then "maememb/v2"
  else "maememb/v1".

(** The fields that follow the common header, by version. *)
Definition canonical_tail (o : MembershipOp) : string :=
  (if bool_decide (action o = Rebirth) then field (default "" (content_hash o)) else "") +:+
  (if bool_decide (action o = Rebind) then
     field (from_option hex_encode "" (new_pubkey o)) +:+
     field (from_option hex_encode "" (new_wrap_pubkey o))
   else if bool_decide (action o = RegisterRecoveryKey) then
     field (from_option hex_encode "" (recovery_pubkey o))
   else if bool_decide (replication o = QueryOnly) then
     field (from_option hex_encode "" (wrapped_key o)) +:+
     field (ReplicationPolicy_as_str (replication o))
   else match wrapped_key o with
        | Some wk => field (hex_encode wk)
        | None => ""
        end).

Definition canonical_bytes (o : MembershipOp) : string :=
  field (canonical_version o) +:+
  field (kb_id o) +:+
  field (MembershipAction_as_str (action o)) +:+
  field (subject o) +:+
  field (from_option Role_as_str "" (role o)) +:+
  field (if can_invite o then "1" else "0") +:+
  field (author o) +:+
  field (to_dec (issued_at o)) +:+
  field (from_option to_dec "" (expires_at o)) +:+
  field (to_dec (epoch o)) +:+
  field (prev_hash o) +:+
  canonical_tail o.

Definition verify (o : MembershipOp) (sg pubkey : string) : bool :=
  if negb (vk_from_bytes pubkey) then false
  else if negb (String.length sg =? 64) then false
  else ed25519_verify pubkey (canonical_bytes o) sg.

Definition fingerprint_matches (o : MembershipOp) (pubkey : string) : bool :=
  bool_decide (fingerprint_of pubkey = author o).

(** [MembershipOp::chain_hash]. *)
Definition op_chain_hash (o : MembershipOp) (sg : string) : string :=
  hex_encode (sha256 (canonical_bytes o +:+ sg)).

(** [SignedMembershipOp::chain_hash]. *)
Definition chain_hash (o : SignedMembershipOp) : string := op_chain_hash (op o) (sig o).

Definition verify_signed (o : SignedMembershipOp) : bool :=
  fingerprint_matches (op o) (author_pubkey o) && verify (op o) (sig o) (author_pubkey o).

(** *** Recovery keys *)

(** The order on [(issued_at, chain_hash)] ranks: [a < b]. *)
Definition rank_ltb (a b : N * string) : bool :=
  (a.1 <? b.1)%N || ((a.1 =? b.1)%N && String.ltb a.2 b.2).

(** One iteration of [build_recovery_registry]'s loop over [(best_rank, keys)]. *)
Definition registry_step (st : gmap string (N * string) * gmap string string)
    (o : SignedMembershipOp) : gmap string (N * string) * gmap string string :=
  let '(best, keys) := st in
  if negb (bool_decide (action (op o) = RegisterRecoveryKey))
     || negb (bool_decide (author (op o) = subject (op o)))
     || negb (verify_signed o)
  then st
  else match recovery_pubkey (op o) with
       | None => st
       | Some rpk =>
           let rk := (issued_at (op o), chain_hash o) in
           let better := match best !! subject (op o) with
                         | Some c => rank_ltb c rk
                         | None => true
                         end in
           if better
           then (<[subject (op o) := rk]> best, <[subject (op o) := rpk]> keys)
           else st
       end.

Definition build_recovery_registry (ops : list SignedMembershipOp) : gmap string string :=
  (foldl registry_step (∅, ∅) ops).2.

Definition is_recovery_signed_rebind (o : SignedMembershipOp)
    (registry : gmap string string) : bool :=
  bool_decide (action (op o) = Rebind)
  && bool_decide (registry !! author (op o) = Some (author_pubkey o))
  && verify (op o) (sig o) (author_pubkey o).

Definition crypto_valid (ops : list SignedMembershipOp) : list SignedMembershipOp :=
  let registry := build_recovery_registry ops in
  List.filter (fun o => verify_signed o || is_recovery_signed_rebind o registry) ops.

Definition recovery_registry := build_recovery_registry.
Definition is_recovery_rebind := is_recovery_signed_rebind.

(** ** The op tree *)

(** [crypto.iter().map(|o| (o.chain_hash(), *o)).collect()]: a later record
    with the same hash replaces an earlier one. *)
Definition index_by_hash (crypto : list SignedMembershipOp) : gmap string SignedMembershipOp :=
  foldl (fun m o => <[chain_hash o := o]> m) ∅ crypto.

(** The anchored-genesis test every derivation searches with. *)
Definition is_genesis_for (anchor : string) (o : SignedMembershipOp) : bool :=
  bool_decide (prev_hash (op o) = "")
  && bool_decide (action (op o) = Admit)
  && bool_decide (subject (op o) = author (op o))
  && bool_decide (author_pubkey o = anchor).

End Records.

(** The functions over an indexed op set need no cryptography. *)

Definition is_removal (a : MembershipAction) : bool :=
  bool_decide (a = Remove) || bool_decide (a = Revoke).

(** The walk of [ancestors]; [set] grows at every round but the last, inside
    the keys of [by_hash] and one more hash, so [size by_hash + 1] rounds are
    enough. *)
Fixpoint ancestors_loop (fuel : nat) (by_hash : gmap string SignedMembershipOp)
    (set : gset string) (cur : string) : gset string :=
  match fuel with
  | 0 => set
  | S fuel' =>
      if bool_decide (cur = "") then set
      else if bool_decide (cur ∈ set) then set
      else let set' := {[cur]} ∪ set in
           match by_hash !! cur with
           | Some r => ancestors_loop fuel' by_hash set' (prev_hash (op r))
           | None => set'
           end
  end.

Definition ancestors (by_hash : gmap string SignedMembershipOp) (h : string) : gset string :=
  ancestors_loop (S (size by_hash)) by_hash ∅
    (match by_hash !! h with Some r => prev_hash (op r) | None => "" end).

(** The children-adjacency map of [causal_order]. *)
Definition children_of (by_hash : gmap string SignedMembershipOp) : gmap string (gset string) :=
  map_fold (fun h o m => <[prev_hash (op o) := {[h]} ∪ default ∅ (m !! prev_hash (op o))]> m)
    ∅ by_hash.

(** Ascending iteration of a [BTreeSet<&str>] / an ascending [sort_unstable]. *)
Definition sort_asc (l : list string) : list string := merge_sort String.le l.
Definition set_asc (s : gset string) : list string := sort_asc (elements s).

(** Emit one generation: [if emitted.insert(h) { order.push(h) }]. *)
Fixpoint emit (frontier : list string) (emitted : gset string) (order : list string)
    : gset string * list string :=
  match frontier with
  | [] => (emitted, order)
  | h :: rest =>
      if bool_decide (h ∈ emitted) then emit rest emitted order
      else emit rest ({[h]} ∪ emitted) (order ++ [h])
  end.

(** The generation after [frontier]. *)
Definition next_frontier (children : gmap string (gset string)) (emitted : gset string)
    (frontier : list string) : list string :=
  flat_map (fun h => match children !! h with
                     | Some cs => List.filter (fun c => negb (bool_decide (c ∈ emitted))) (set_asc cs)
                     | None => []
                     end) frontier.

(** The breadth-first loop; every round emits a new hash, so [size by_hash + 1]
    rounds are enough ([bfs_fuel]). *)
Fixpoint bfs (fuel : nat) (children : gmap string (gset string)) (emitted : gset string)
    (order frontier : list string) : list string :=
  match fuel with
  | 0 => order
  | S fuel' =>
      match frontier with
      | [] => order
      | _ =>
          let frontier := sort_asc frontier in
          let '(emitted, order) := emit frontier emitted order in
          bfs fuel' children emitted order (next_frontier children emitted frontier)
      end
  end.

Definition causal_order (by_hash : gmap string SignedMembershipOp) (genesis : string) : list string :=
  match by_hash !! genesis with
  | None => []
  | Some _ => bfs (S (size by_hash)) (children_of by_hash) ∅ [] [genesis]
  end.

(** ** The resolver *)

(** [by_hash[h].op]. *)
Definition op_at (by_hash : gmap string SignedMembershipOp) (h : string) : MembershipOp :=
  op (by_hash !!! h).

Definition removal_threshold (g : Governance) : N :=
  match g with SingleOwner => 1 | Quorum threshold => N.max threshold 1 end.

(** The tally loop of [effective_removal]. *)
Fixpoint removal_tally (target : string) (needed : N)
    (by_hash : gmap string SignedMembershipOp) (valid : gset string)
    (authors : gset string) (order : list string) : option string :=
  match order with
  | [] => None
  | h :: rest =>
      if negb (bool_decide (h ∈ valid)) then removal_tally target needed by_hash valid authors rest
      else
        let o := op_at by_hash h in
        if is_removal (action o) && bool_decide (subject o = target) then
          let authors' := {[author o]} ∪ authors in
          if (needed <=? N.of_nat (size authors'))%N then Some h
          else removal_tally target needed by_hash valid authors' rest
        else removal_tally target needed by_hash valid authors rest
  end.

Definition effective_removal (target : string) (governance : Governance)
    (by_hash : gmap string SignedMembershipOp) (order : list string) (valid : gset string)
    : option string :=
  removal_tally target (removal_threshold governance) by_hash valid ∅ order.

(** An op past its timebox: [expires_at.is_some_and(|exp| now >= exp)]. *)
Definition expired (now : N) (o : MembershipOp) : bool :=
  match expires_at o with Some e => (e <=? now)%N | None => false end.

(** [anc.get(k).map(|s| s.contains(x)).unwrap_or(false)]. *)
Definition in_past (anc : gmap string (gset string)) (k x : string) : bool :=
  match anc !! k with Some s => bool_decide (x ∈ s) | None => false end.

(** One iteration of the [SetRole] overlay of [build_members]. *)
Definition overlay_step (by_hash : gmap string SignedMembershipOp) (valid : gset string)
    (anc : gmap string (gset string)) (h p : string) (entry : ValidMember) (sh : string)
    : ValidMember :=
  if negb (bool_decide (sh ∈ valid)) then entry
  else
    let s := op_at by_hash sh in
    if bool_decide (action s = SetRole) && bool_decide (subject s = p) && in_past anc sh h then
      match role s with
      | Some nr => mkMember (principal entry) nr (m_can_invite entry) (invited_by entry)
                            (epoch s) (replication s)
      | None => entry
      end
    else entry.

(** One iteration of the admit loop of [build_members]. *)
Definition admit_step (by_hash : gmap string SignedMembershipOp) (order : list string)
    (valid : gset string) (anc : gmap string (gset string)) (genesis_hash : string)
    (governance : Governance) (now : N) (out : gmap string ValidMember) (h : string)
    : gmap string ValidMember :=
  if negb (bool_decide (h ∈ valid)) then out
  else
    let o := op_at by_hash h in
    let is_genesis := bool_decide (h = genesis_hash) in
    if negb (is_genesis || bool_decide (action o = Admit)) then out
    else
      let p := subject o in
      let dominated := match effective_removal p governance by_hash order valid with
                       | Some rh => negb (in_past anc h rh)
                       | None => false
                       end in
      if dominated then out
      else
        let r := default (if is_genesis then Owner else Viewer) (role o) in
        let entry := mkMember p r (is_genesis || can_invite o) (author o) (epoch o) (replication o) in
        let entry := foldl (overlay_step by_hash valid anc h p) entry order in
        if expired now o then out else <[p := entry]> out.

(** One iteration of the identity-rotation post-pass of [build_members]. *)
Definition rebind_step (by_hash : gmap string SignedMembershipOp) (valid : gset string)
    (out : gmap string ValidMember) (h : string) : gmap string ValidMember :=
  if negb (bool_decide (h ∈ valid)) then out
  else
    let o := op_at by_hash h in
    if negb (bool_decide (action o = Rebind)) then out
    else match out !! author o with
         | None => out
         | Some e =>
             let e := mkMember (subject o) (m_role e) (m_can_invite e) (invited_by e)
                               (m_epoch e) (m_replication e) in
             let out := <[subject o := e]> (delete (author o) out) in
             (fun m => if bool_decide (invited_by m = author o)
                       then mkMember (principal m) (m_role m) (m_can_invite m) (subject o)
                                     (m_epoch m) (m_replication m)
                       else m) <$> out
         end.

Definition build_members (by_hash : gmap string SignedMembershipOp) (order : list string)
    (valid : gset string) (anc : gmap string (gset string)) (genesis_hash : string)
    (governance : Governance) (now : N) : gmap string ValidMember :=
  let out := foldl (admit_step by_hash order valid anc genesis_hash governance now) ∅ order in
  foldl (rebind_step by_hash valid) out order.

Definition membership_at (by_hash : gmap string SignedMembershipOp) (order : list string)
    (valid : gset string) (anc : gmap string (gset string)) (target_anc : gset string)
    (genesis_hash : string) (governance : Governance) (now : N) : gmap string ValidMember :=
  build_members by_hash order (valid ∩ target_anc) anc genesis_hash governance now.

Section Resolver.
Context `{Crypto}.

Definition authorized (mp : gmap string ValidMember) (o : MembershipOp) (owner : string)
    (governance : Governance) : bool :=
  match mp !! author o with
  | None => false
  | Some a =>
      match action o with
      | Admit =>
          if negb (bool_decide (m_role a = Owner)) && negb (m_can_invite a) then false
          else includes (m_role a) (default Viewer (role o))
      | SetRole => bool_decide (m_role a = Owner) && bool_decide (is_Some (mp !! subject o))
      | Remove | Revoke =>
          let owner_protected := bool_decide (governance = SingleOwner)
                                 && bool_decide (subject o = owner) in
          bool_decide (m_role a = Owner) && negb owner_protected
          && bool_decide (is_Some (mp !! subject o))
      | SetGovernance => bool_decide (m_role a = Owner)
      | SetEncryption => bool_decide (m_role a = Owner)
      | Rebirth =>
          bool_decide (m_role a = Owner)
          && match content_hash o with Some h => negb (bool_decide (h = "")) | None => false end
          && negb (bool_decide (subject o = ""))
      | Rebind =>
          match new_pubkey o with
          | Some npk => bool_decide (is_Some (new_wrap_pubkey o))
                        && bool_decide (fingerprint_of npk = subject o)
                        && negb (bool_decide (subject o = author o))
                        && negb (bool_decide (is_Some (mp !! subject o)))
          | None => false
          end
      | RegisterRecoveryKey =>
          bool_decide (subject o = author o) && bool_decide (is_Some (recovery_pubkey o))
      end
  end.

(** The body of the fixpoint loop: does hash [h] survive the pass over [valid]? *)
Definition survives (by_hash : gmap string SignedMembershipOp) (order : list string)
    (anc : gmap string (gset string)) (genesis_hash owner : string) (governance : Governance)
    (now : N) (valid : gset string) (h : string) : bool :=
  let o := op_at by_hash h in
  if expired now o then false
  else if bool_decide (h = genesis_hash) then true
  else
    let mp := membership_at by_hash order valid anc (anc !!! h) genesis_hash governance now in
    if negb (authorized mp o owner governance) then false
    else if negb (is_removal (action o)) then
      match effective_removal (author o) governance by_hash order valid with
      | Some rh => bool_decide (h ∈ anc !!! rh) || bool_decide (rh ∈ anc !!! h)
      | None => true
      end
    else true.

(** One pass: the set [next] built from [valid]. *)
Definition validity_pass (by_hash : gmap string SignedMembershipOp) (order : list string)
    (anc : gmap string (gset string)) (genesis_hash owner : string) (governance : Governance)
    (now : N) (valid : gset string) : gset string :=
  list_to_set (List.filter (survives by_hash order anc genesis_hash owner governance now valid) order).

(** [for _ in 0..max_iter { .. if stable { break } }]. *)
Fixpoint validity_loop (pass : gset string -> gset string) (n : nat) (valid : gset string)
    : gset string :=
  match n with
  | 0 => valid
  | S n' =>
      let next := pass valid in
      if bool_decide (next = valid) then next else validity_loop pass n' next
  end.

(** The principals a cascade round drops. *)
Definition orphans (owner : string) (members : gmap string ValidMember) : list string :=
  map principal (List.filter (fun m => negb (bool_decide (principal m = owner))
                                   && negb (bool_decide (invited_by m ∈ dom members)))
                        (map snd (map_to_list members))).

(** The inviter-removal cascade; every round but the last removes a member, so
    [size members + 1] rounds are enough. *)
Fixpoint cascade_loop (fuel : nat) (owner : string) (members : gmap string ValidMember)
    : gmap string ValidMember :=
  match fuel with
  | 0 => members
  | S fuel' =>
      match orphans owner members with
      | [] => members
      | os => cascade_loop fuel' owner (foldl (fun m p => delete p m) members os)
      end
  end.

(** Step 1 of the derivation: honoured, locally unblocked records. *)
Definition admissible (ops : list SignedMembershipOp) (view : MembershipView)
    : list SignedMembershipOp :=
  let registry := build_recovery_registry ops in
  List.filter (fun o => (verify_signed o || is_recovery_signed_rebind o registry)
                   && negb (bool_decide (author (op o) ∈ blocklist view))) ops.

(** The causal past of every op of the order. *)
Definition ancestor_map (by_hash : gmap string SignedMembershipOp) (order : list string)
    : gmap string (gset string) :=
  foldl (fun m h => <[h := ancestors by_hash h]> m) ∅ order.

(** Steps 3 and 4: the hashes that survive the fixpoint. *)
Definition valid_ops (by_hash : gmap string SignedMembershipOp) (genesis_hash owner : string)
    (governance : Governance) (now : N) : gset string :=
  let order := causal_order by_hash genesis_hash in
  let anc := ancestor_map by_hash order in
  validity_loop (validity_pass by_hash order anc genesis_hash owner governance now)
    (length order + 2) (list_to_set order).

(** Steps 3 to 7, from the indexed records and the genesis. *)
Definition members_from (by_hash : gmap string SignedMembershipOp) (genesis_hash : string)
    (now : N) (governance : Governance) (view : MembershipView) : gmap string ValidMember :=
  let owner := subject (op_at by_hash genesis_hash) in
  let order := causal_order by_hash genesis_hash in
  let anc := ancestor_map by_hash order in
  let valid := valid_ops by_hash genesis_hash owner governance now in
  let members := build_members by_hash order valid anc genesis_hash governance now in
  let members := if bool_decide (cascade view = CascadeAll)
                 then cascade_loop (S (size members)) owner members else members in
  if bool_decide (blocklist view = ∅) then members
  else filter (fun '(p, _) => p ∉ blocklist view) members.

Definition derive_valid_members_governed (ops : list SignedMembershipOp) (anchor : string)
    (now : N) (governance : Governance) (view : MembershipView) : gmap string ValidMember :=
  let crypto := admissible ops view in
  let by_hash := index_by_hash crypto in
  match List.find (is_genesis_for anchor) crypto with
  | Some g => members_from by_hash (chain_hash g) now governance view
  | None => ∅
  end.

Definition derive_valid_members_with (ops : list SignedMembershipOp) (anchor : string)
    (now : N) (view : MembershipView) : gmap string ValidMember :=
  derive_valid_members_governed ops anchor now SingleOwner view.

Definition derive_valid_members (ops : list SignedMembershipOp) (anchor : string) (now : N)
    : gmap string ValidMember :=
  derive_valid_members_with ops anchor now default_view.

(** ** The owner-rooted readers *)

(** The guard of [owner_principal_chain]'s inner loop. *)
Definition chain_extends (chain : gset string) (o : SignedMembershipOp) : bool :=
  let bound := match new_pubkey (op o) with
               | Some pk => bool_decide (fingerprint_of pk = subject (op o))
               | None => false
               end in
  bool_decide (action (op o) = Rebind)
  && bound && negb (bool_decide (subject (op o) = author (op o)))
  && bool_decide (author (op o) ∈ chain) && negb (bool_decide (subject (op o) ∈ chain)).

(** The inner loop: one pass over the records, with the [grew] flag. *)
Definition chain_pass (crypto : list SignedMembershipOp) (chain : gset string)
    : gset string * bool :=
  foldl (fun '(chain, grew) o =>
           if chain_extends chain o then ({[subject (op o)]} ∪ chain, true) else (chain, grew))
    (chain, false) crypto.

(** [for _ in 0..max_passes { .. if !grew { break } }]. *)
Fixpoint chain_loop (n : nat) (crypto : list SignedMembershipOp) (chain : gset string)
    : gset string :=
  match n with
  | 0 => chain
  | S n' => let '(chain', grew) := chain_pass crypto chain in
            if grew then chain_loop n' crypto chain' else chain'
  end.

Definition owner_principal_chain (crypto : list SignedMembershipOp) (genesis_owner : string)
    : gset string :=
  chain_loop (length crypto + 1) crypto {[genesis_owner]}.

Definition is_owner_principal (ops : list SignedMembershipOp) (anchor fp : string) : bool :=
  let crypto := crypto_valid ops in
  match List.find (is_genesis_for anchor) crypto with
  | Some g => bool_decide (fp ∈ owner_principal_chain crypto (subject (op g)))
  | None => false
  end.

Definition owner_anchor_pubkey (ops : list SignedMembershipOp) (owner_fp : string)
    : option string :=
  author_pubkey <$> List.find (fun o =>
    bool_decide (prev_hash (op o) = "")
    && bool_decide (action (op o) = Admit)
    && bool_decide (subject (op o) = author (op o))
    && bool_decide (fingerprint_of (author_pubkey o) = owner_fp)) (crypto_valid ops).

Definition derive_governance (ops : list SignedMembershipOp) (anchor : string) : Governance :=
  let crypto := crypto_valid ops in
  let by_hash := index_by_hash crypto in
  match List.find (is_genesis_for anchor) crypto with
  | None => SingleOwner
  | Some g =>
      let owners := owner_principal_chain crypto (subject (op g)) in
      foldl (fun gov h =>
               let o := op_at by_hash h in
               if bool_decide (action o = SetGovernance) && bool_decide (author o ∈ owners)
               then match parse_spec (subject o) with Some g' => g' | None => gov end
               else gov)
        SingleOwner (causal_order by_hash (chain_hash g))
  end.

Definition derive_encryption (ops : list SignedMembershipOp) (anchor : string) : Encryption :=
  let crypto := crypto_valid ops in
  match List.find (is_genesis_for anchor) crypto with
  | None => EncNone
  | Some g =>
      let owners := owner_principal_chain crypto (subject (op g)) in
      if existsb (fun o => bool_decide (action (op o) = SetEncryption)
                           && bool_decide (author (op o) ∈ owners)
                           && bool_decide (subject (op o) = "e2e")) crypto
      then E2e else EncNone
  end.

(** One iteration of [derive_rebirths]'s loop. *)
Definition rebirth_step (owners : gset string) (out : gmap string (N * string))
    (o : SignedMembershipOp) : gmap string (N * string) :=
  if negb (bool_decide (action (op o) = Rebirth) && bool_decide (author (op o) ∈ owners))
  then out
  else match content_hash (op o) with
       | None => out
       | Some hash =>
           if bool_decide (hash = "") then out
           else
             let cand := epoch (op o) in
             match out !! subject (op o) with
             | Some (have_epoch, have_hash) =>
                 if (cand <? have_epoch)%N then out
                 else if (have_epoch =? cand)%N then
                   if String.ltb hash have_hash
                   then <[subject (op o) := (cand, hash)]> out else out
                 else <[subject (op o) := (cand, hash)]> out
             | None => <[subject (op o) := (cand, hash)]> out
             end
       end.

Definition derive_rebirths (ops : list SignedMembershipOp) (anchor : string)
    : gmap string (N * string) :=
  let crypto := crypto_valid ops in
  match List.find (is_genesis_for anchor) crypto with
  | None => ∅
  | Some g => foldl (rebirth_step (owner_principal_chain crypto (subject (op g)))) ∅ crypto
  end.

Definition find_wrapped_content_key (ops : list SignedMembershipOp) (anchor my_fingerprint : string)
    : option string :=
  let crypto := crypto_valid ops in
  let by_hash := index_by_hash crypto in
  let? g := List.find (is_genesis_for anchor) crypto in
  let owners := owner_principal_chain crypto (subject (op g)) in
  foldl (fun latest h =>
           let o := op_at by_hash h in
           if bool_decide (author o ∈ owners) && bool_decide (subject o = my_fingerprint)
           then match wrapped_key o with Some wk => Some wk | None => latest end
           else latest)
    None (causal_order by_hash (chain_hash g)).

(** [content_crypto::unwrap_as_member(..).ok()] opens the blob with the AEAD of
    an external crate: [unwrap] stands for it. *)
Definition derive_content_key {Key : Type} (unwrap : string -> string -> option Key)
    (ops : list SignedMembershipOp) (anchor my_fingerprint my_secret : string) : option Key :=
  let? wrapped := find_wrapped_content_key ops anchor my_fingerprint in
  unwrap wrapped my_secret.

Definition replication_history (ops : list SignedMembershipOp) (anchor p : string)
    : list ReplicationPolicy :=
  let crypto := crypto_valid ops in
  let by_hash := index_by_hash crypto in
  match List.find (is_genesis_for anchor) crypto with
  | None => []
  | Some g =>
      let genesis_hash := chain_hash g in
      omap (fun h =>
              let o := op_at by_hash h in
              let relevant := bool_decide (subject o = p)
                              && (bool_decide (h = genesis_hash)
                                  || bool_decide (action o = Admit)
                                  || bool_decide (action o = SetRole)) in
              if relevant then Some (replication o) else None)
        (causal_order by_hash genesis_hash)
  end.

Definition had_full_replication_window (ops : list SignedMembershipOp) (anchor p : string)
    : option bool :=
  let history := replication_history ops anchor p in
  let? lst := last history in
  if negb (bool_decide (lst = QueryOnly)) then None
  else Some (bool_decide (Full ∈ removelast history)).

(** The self-anchoring readers take the first genesis-shaped record. *)
Definition is_self_genesis (o : SignedMembershipOp) : bool :=
  bool_decide (prev_hash (op o) = "")
  && bool_decide (action (op o) = Admit)
  && bool_decide (subject (op o) = author (op o)).

Definition had_full_replication_window_self_anchored (ops : list SignedMembershipOp) (p : string)
    : option bool :=
  let? g := List.find is_self_genesis (crypto_valid ops) in
  had_full_replication_window ops (author_pubkey g) p.

Definition current_replication_self_anchored (ops : list SignedMembershipOp) (p : string)
    : option ReplicationPolicy :=
  let? g := List.find is_self_genesis (crypto_valid ops) in
  last (replication_history ops (author_pubkey g) p).

End Resolver.

(** ** A concrete cryptography for the examples and witnesses

    Keys are short strings; every 64-byte signature verifies for the key it
    starts with; the hash of a long message is the 4-byte tag that follows
    the key in the signature, and short messages hash to themselves. *)
Module Toy.

Definition hex_digit (n : N) : ascii :=
  Ascii.ascii_of_N (if (n <? 10)%N then 48 + n else 87 + n)%N.

Fixpoint hex (s : string) : string :=
  match s with
  | EmptyString => ""
  | String c r => let n := Ascii.N_of_ascii c in
                  String (hex_digit (n / 16)%N) (String (hex_digit (n mod 16)%N) (hex r))
  end.

Definition unhex_digit (c : ascii) : option N :=
  let n := Ascii.N_of_ascii c in
  if (48 <=? n)%N && (n <=? 57)%N then Some (n - 48)%N
  else if (97 <=? n)%N && (n <=? 102)%N then Some (n - 87)%N
  else None.

Fixpoint unhex (s : string) : option string :=
  match s with
  | EmptyString => Some ""
  | String a (String b r) =>
      let? x := unhex_digit a in
      let? y := unhex_digit b in
      let? rest := unhex r in
      Some (String (Ascii.ascii_of_N (16 * x + y)%N) rest)
  | String _ EmptyString => None
  end.

Definition hash (m : string) : string :=
  if 64 <? String.length m
  then String.substring (String.length m - 62) 4 m else m.

#[export] Instance toy : Crypto := {|
  vk_from_bytes _ := true;
  ed25519_verify pk _ sg := bool_decide (String.substring 0 2 sg = pk);
  sha256 := hash;
  hex_encode := hex;
  hex_decode := unhex;
  base64_nopad s := s;
|}.

(** A checksum of a text, and a number as letters. *)
Fixpoint checksum (acc : N) (m : string) : N :=
  match m with EmptyString => acc | String a m' => checksum ((acc * 31 + Ascii.N_of_ascii a) mod 4294967296) m' end.
Fixpoint letters (k : nat) (n : N) : string :=
  match k with 0 => "" | S k' => String (Ascii.ascii_of_N (97 + n mod 26)) (letters k' (n / 26)) end.

(** The principal of a two-byte key. *)
Definition fp (k : string) : string := "SHA256:" +:+ k.

(** A 64-byte signature by key [k] with hash tag [tag] (2 and 4 bytes). *)
Definition sign (k tag : string) : string :=
  k +:+ tag +:+ String.concat "" (replicate 58 "0").

(** The hash of a record signed with tag [tag]. *)
Definition h (tag : string) : string := hex tag.

(** A record of action [a] about [s], by key [k], on top of [prev]. *)
Definition rec_ (tag : string) (a : MembershipAction) (s : string) (r : option Role)
    (inv : bool) (k prev : string) : SignedMembershipOp :=
  mkSigned (mkOp "kb" a s r inv (fp k) 0 None 0 prev None None None None Full None)
    (sign k tag) k.

Definition genesis : SignedMembershipOp := rec_ "gene" Admit (fp "ow") (Some Owner) true "ow" "".

(** A log the witnesses share: the owner admits an editor who may invite, the
    editor admits a viewer, the owner removes the viewer. *)
Definition adm1 : SignedMembershipOp := rec_ "adm1" Admit (fp "ed") (Some Editor) true "ow" (h "gene").
Definition adm2 : SignedMembershipOp := rec_ "adm2" Admit (fp "vi") (Some Viewer) false "ed" (h "adm1").
Definition rem1 : SignedMembershipOp := rec_ "rem1" Remove (fp "vi") None false "ow" (h "adm2").
Definition log : list SignedMembershipOp := [genesis; adm1; adm2; rem1].

End Toy.
