(* ===== verification/CausalOrder.v ===== *)
(** * CausalOrder: the op tree of the membership log

    Correctness of [causal_order] and [ancestors] of
    [shared/sync/src/membership.rs]: the emitted order is a duplicate-free
    topological order of exactly the ops reachable from the genesis, and the
    ancestor sets are the strict causal pasts, all of whose members come
    earlier in the order. *)
From S2P Require Import Prelude Membership.

Section Tree.
Context (bh : gmap string SignedMembershipOp) (g : string).

(** [p] is the parent of [h]: the [prev_hash] link of an indexed op. *)
Definition parent_of (h p : string) : Prop :=
  exists o, bh !! h = Some o /\ prev_hash (op o) = p.

(** Reachability from the genesis along parent links. *)
Inductive reachable : string -> Prop :=
| reach_genesis : is_Some (bh !! g) -> reachable g
| reach_child p h : reachable p -> parent_of h p -> reachable h.

(** What [causal_order] promises of its result. *)
Record causal_order_ok (order : list string) : Prop := {
  co_nodup : NoDup order;
  co_head : head order = Some g;
  co_indexed : forall h, h ∈ order -> is_Some (bh !! h);
  co_parent : forall i h, order !! i = Some h -> h <> g ->
    exists j p, j < i /\ order !! j = Some p /\ parent_of h p;
  co_complete : forall h, h ∈ order <-> reachable h;
}.

Lemma parent_fun h p q : parent_of h p -> parent_of h q -> p = q.
Proof. intros (o & E & <-) (o' & E' & <-). congruence. Qed.

Lemma sort_asc_perm l : sort_asc l ≡ₚ l.
Proof. apply merge_sort_Permutation. Qed.

Lemma elem_of_set_asc (s : gset string) c : c ∈ set_asc s <-> c ∈ s.
Proof. unfold set_asc. by rewrite sort_asc_perm, elem_of_elements. Qed.

Lemma NoDup_set_asc (s : gset string) : NoDup (set_asc s).
Proof. unfold set_asc. rewrite sort_asc_perm. apply NoDup_elements. Qed.

Lemma children_of_spec p c :
  c ∈ default ∅ (children_of bh !! p) <-> parent_of c p.
Proof.
  unfold children_of, parent_of. revert c.
  apply (map_fold_weak_ind (fun m (bh' : gmap string SignedMembershipOp) =>
    forall c, c ∈ default ∅ (m !! p) <-> exists o, bh' !! c = Some o /\ prev_hash (op o) = p)).
  - intros c. rewrite lookup_empty. simpl. set_solver.
  - intros h o m r Hm IH c. destruct (decide (prev_hash (op o) = p)) as [<-|Hne].
    + rewrite lookup_insert_eq. simpl. rewrite elem_of_union, elem_of_singleton, IH.
      destruct (decide (c = h)) as [->|Hc].
      * rewrite lookup_insert_eq. naive_solver.
      * rewrite lookup_insert_ne by done. naive_solver.
    + rewrite lookup_insert_ne by done. rewrite IH.
      destruct (decide (c = h)) as [->|Hc].
      * rewrite lookup_insert_eq, Hm. naive_solver.
      * by rewrite lookup_insert_ne by done.
Qed.

(** Emitting a duplicate-free generation of fresh hashes appends it. *)
Lemma emit_fresh F E L :
  NoDup F -> (forall x, x ∈ F -> x ∉ E) ->
  emit F E L = (list_to_set F ∪ E, L ++ F).
Proof.
  revert E L. induction F as [|x F IH]; intros E L Hnd Hf; simpl.
  - f_equal; [set_solver|]. by rewrite app_nil_r.
  - apply NoDup_cons in Hnd as [Hx Hnd].
    rewrite bool_decide_eq_false_2 by (apply Hf; set_solver).
    rewrite IH; [|done|].
    + f_equal; [set_solver|]. by rewrite <- app_assoc.
    + intros y Hy. assert (y <> x) by set_solver. specialize (Hf y). set_solver.
Qed.

Lemma elem_of_next_frontier E F c :
  c ∈ next_frontier (children_of bh) E F <-> c ∉ E /\ exists p, p ∈ F /\ parent_of c p.
Proof.
  unfold next_frontier. rewrite list_elem_of_In, in_flat_map. split.
  - intros (p & Hp & Hc). pose proof (children_of_spec p c) as Hs.
    destruct (children_of bh !! p) as [cs|]; [|done].
    rewrite <- list_elem_of_In, elem_of_List_filter, elem_of_set_asc in Hc.
    destruct Hc as [Hc Hn]. bool_prop. split; [done|]. exists p.
    split; [by apply list_elem_of_In|]. by apply Hs.
  - intros (Hn & p & Hp & Hpar). exists p. split; [by apply list_elem_of_In|].
    apply children_of_spec in Hpar. destruct (children_of bh !! p) as [cs|]; simpl in *; [|set_solver].
    rewrite <- list_elem_of_In, elem_of_List_filter, elem_of_set_asc. split; [done|].
    by rewrite bool_decide_eq_false_2.
Qed.

Lemma NoDup_next_frontier E F : NoDup F -> NoDup (next_frontier (children_of bh) E F).
Proof.
  induction F as [|p F IH]; intros Hnd; [constructor|].
  apply NoDup_cons in Hnd as [Hp Hnd].
  change (next_frontier (children_of bh) E (p :: F)) with
    ((match children_of bh !! p with
      | Some cs => List.filter (fun c => negb (bool_decide (c ∈ E))) (set_asc cs)
      | None => [] end) ++ next_frontier (children_of bh) E F).
  apply NoDup_app. split_and!.
  - destruct (children_of bh !! p); [|constructor].
    apply NoDup_ListNoDup, List.NoDup_filter, NoDup_ListNoDup, NoDup_set_asc.
  - intros c Hc Hc2. apply elem_of_next_frontier in Hc2 as (_ & q & Hq & Hpar).
    pose proof (children_of_spec p c) as Hs.
    destruct (children_of bh !! p) as [cs|]; [|set_solver].
    rewrite elem_of_List_filter, elem_of_set_asc in Hc. destruct Hc as [Hc _].
    apply Hs in Hc. by rewrite (parent_fun _ _ _ Hc Hpar) in Hp.
  - by apply IH.
Qed.

(** The loop invariant of the breadth-first search. *)
Record bfs_inv (E : gset string) (L F : list string) : Prop := {
  bi_E : E = list_to_set L;
  bi_nodup : NoDup L;
  bi_F : NoDup F;
  bi_fresh : forall x, x ∈ F -> x ∉ E;
  bi_dom : forall x, x ∈ L ++ F -> is_Some (bh !! x);
  bi_head : head (L ++ F) = Some g;
  bi_par : forall i h, L !! i = Some h -> h <> g ->
    exists j p, j < i /\ L !! j = Some p /\ parent_of h p;
  bi_parF : forall h, h ∈ F -> h <> g -> exists p, p ∈ L /\ parent_of h p;
  bi_closed : forall p c, p ∈ L -> parent_of c p -> c ∈ L \/ c ∈ F;
  bi_reach : forall x, x ∈ L ++ F -> reachable x;
}.

Lemma bfs_inv_init : is_Some (bh !! g) -> bfs_inv ∅ [] [g].
Proof.
  intros Hg. split; simpl; [set_solver|constructor|apply NoDup_singleton|set_solver
    |set_solver|done|done|set_solver|set_solver|].
  intros x ->%list_elem_of_singleton. by constructor.
Qed.

Lemma bfs_inv_step E L F :
  bfs_inv E L F -> F <> [] ->
  let F1 := sort_asc F in
  bfs_inv (list_to_set F1 ∪ E) (L ++ F1) (next_frontier (children_of bh) (list_to_set F1 ∪ E) F1).
Proof.
  intros [HE Hnd HF Hfr Hdom Hhd Hpar HparF Hcl Hre] Hne F1.
  assert (HP : F1 ≡ₚ F) by apply sort_asc_perm.
  assert (HF1 : NoDup F1) by (by rewrite HP).
  assert (Hmem : forall x, x ∈ F1 <-> x ∈ F) by (intros x; by rewrite HP).
  assert (HLF : forall x, x ∈ L ++ F1 <-> x ∈ L \/ x ∈ F) by set_solver.
  split.
  - set_solver.
  - apply NoDup_app. set_solver.
  - by apply NoDup_next_frontier.
  - intros x [? _]%elem_of_next_frontier. done.
  - intros x [Hx|Hx]%elem_of_app; [apply Hdom; set_solver|].
    apply elem_of_next_frontier in Hx as (_ & p & _ & o & Ho & _). by exists o.
  - destruct L as [|y L]; [|done]. simpl in *.
    destruct F as [|x F]; [done|]. injection Hhd as ->. destruct F as [|y F].
    + assert (F1 = [g]) as -> by (by apply Permutation_singleton_r). done.
    + exfalso. destruct (HparF y) as (p & Hp & _); [set_solver| |set_solver].
      intros ->. apply NoDup_cons in HF as [HF _]. set_solver.
  - intros i h Hi Hg. apply lookup_app_Some in Hi as [Hi|[Hi1 Hi2]].
    + destruct (Hpar i h Hi Hg) as (j & p & Hj & Hp & Hq). exists j, p.
      split; [done|]. split; [|done]. by apply lookup_app_l_Some.
    + destruct (HparF h) as (p & Hp & Hq); [|done|].
      { apply Hmem. by eapply list_elem_of_lookup_2. }
      apply list_elem_of_lookup in Hp as [j Hj]. exists j, p.
      pose proof (lookup_lt_Some _ _ _ Hj). split; [lia|]. split; [|done].
      by apply lookup_app_l_Some.
  - intros h (_ & p & Hp & Hq)%elem_of_next_frontier _. exists p. set_solver.
  - intros p c Hp Hc. apply HLF in Hp. rewrite HLF, elem_of_next_frontier.
    destruct (decide (c ∈ L \/ c ∈ F)) as [|Hn]; [by left|]. right. split; [set_solver|].
    exists p. split; [|done]. destruct Hp as [Hp|Hp]; [|by apply Hmem].
    destruct (Hcl p c Hp Hc); set_solver.
  - intros x [Hx|Hx]%elem_of_app; [apply Hre; set_solver|].
    apply elem_of_next_frontier in Hx as (_ & p & Hp & Hq).
    apply (reach_child p); [|done]. apply Hre. set_solver.
Qed.

(** Every round with a non-empty frontier emits, so the fuel is never short:
    the search ends with an empty frontier. *)
Lemma bfs_fuel n E L F :
  bfs_inv E L F -> size bh < n + length L ->
  exists E' L', bfs n (children_of bh) E L F = L' /\ bfs_inv E' L' [].
Proof.
  revert E L F. induction n as [|n IH]; intros E L F HI Hn.
  - exfalso. destruct HI as [_ Hnd _ _ Hdom _ _ _ _ _].
    assert (length L <= size bh); [|lia].
    rewrite <- size_dom, <- (size_list_to_set (C := gset string) L Hnd).
    apply subseteq_size. intros x Hx. apply elem_of_dom, Hdom. set_solver.
  - destruct F as [|x F]; [by exists E, L|].
    cbn [bfs]. pose proof (bfs_inv_step E L (x :: F) HI ltac:(done)) as HI'. simpl in HI'.
    remember (sort_asc (x :: F)) as F1 eqn:EF.
    assert (HP : F1 ≡ₚ x :: F) by (subst; apply sort_asc_perm).
    rewrite emit_fresh.
    + apply (IH _ _ _ HI'). rewrite length_app, HP. simpl. lia.
    + rewrite HP. apply HI.
    + intros y. rewrite HP. apply HI.
Qed.

Lemma bfs_done_ok E L : bfs_inv E L [] -> causal_order_ok L.
Proof.
  intros [HE Hnd _ _ Hdom Hhd Hpar _ Hcl Hre]. rewrite app_nil_r in *.
  split; try done. intros h. split; [apply Hre|].
  induction 1 as [|p h Hp IH Hq].
  - destruct L; simplify_eq/=. set_solver.
  - destruct (Hcl p h IH Hq); set_solver.
Qed.

Lemma causal_order_correct : is_Some (bh !! g) -> causal_order_ok (causal_order bh g).
Proof.
  intros [o Ho]. unfold causal_order. rewrite Ho.
  destruct (bfs_fuel (S (size bh)) ∅ [] [g]) as (E & L & -> & HI);
    [by apply bfs_inv_init|simpl; lia|]. by eapply bfs_done_ok.
Qed.

(** ** Ancestors *)

(** Strict ancestry: one or more links, none of them through the empty hash. *)
Inductive strict_ancestor : string -> string -> Prop :=
| anc_parent h p : parent_of h p -> p <> "" -> strict_ancestor h p
| anc_step h p x : parent_of h p -> p <> "" -> strict_ancestor p x -> strict_ancestor h x.

Lemma ancestors_loop_sound n S0 cur x :
  x ∈ ancestors_loop n bh S0 cur -> x ∈ S0 \/ (cur <> "" /\ (x = cur \/ strict_ancestor cur x)).
Proof.
  revert S0 cur. induction n as [|n IH]; intros S0 cur Hx; simpl in Hx; [by left|].
  repeat case_bool_decide; [by left..|]. destruct (bh !! cur) as [r|] eqn:E; [|set_solver].
  destruct (IH _ _ Hx) as [Hx'|[Hne Hx']]; [set_solver|]. right. split; [done|]. right.
  assert (parent_of cur (prev_hash (op r))) by (by exists r).
  destruct Hx' as [->|Hx']; [by apply anc_parent|by eapply anc_step].
Qed.

(** The set the walk returns holds [cur] and is closed under parents. *)
Lemma ancestors_loop_closed n S0 cur :
  (forall y p, y ∈ S0 -> parent_of y p -> p <> "" -> p ∈ S0 \/ p = cur) ->
  (forall y, y ∈ S0 -> is_Some (bh !! y)) ->
  size bh < n + size S0 ->
  let S1 := ancestors_loop n bh S0 cur in
  S0 ⊆ S1 /\ (cur <> "" -> cur ∈ S1) /\
  (forall y p, y ∈ S1 -> parent_of y p -> p <> "" -> p ∈ S1).
Proof.
  revert S0 cur. induction n as [|n IH]; intros S0 cur Hcl Hdom Hn.
  - exfalso. assert (size S0 <= size bh); [|lia]. rewrite <- size_dom.
    apply subseteq_size. intros y Hy. by apply elem_of_dom, Hdom.
  - simpl. repeat case_bool_decide.
    + split_and!; [done|done|]. intros y p Hy Hp Hne. destruct (Hcl y p Hy Hp Hne); congruence.
    + split_and!; [done|done|]. intros y p Hy Hp Hne. destruct (Hcl y p Hy Hp Hne); congruence.
    + destruct (bh !! cur) as [r|] eqn:E.
      * destruct (IH ({[cur]} ∪ S0) (prev_hash (op r))) as (H1 & H2 & H3).
        { intros y p [->%elem_of_singleton|Hy]%elem_of_union Hp Hne.
          - right. destruct Hp as (o & Ho & <-). congruence.
          - destruct (Hcl y p Hy Hp Hne); set_solver. }
        { intros y [->%elem_of_singleton|Hy]%elem_of_union; [by eexists|by apply Hdom]. }
        { rewrite size_union by set_solver. rewrite size_singleton. lia. }
        split_and!; [set_solver|set_solver|]. done.
      * split_and!; [set_solver|set_solver|].
        intros y p [->%elem_of_singleton|Hy]%elem_of_union Hp Hne.
        { destruct Hp as (o & Ho & _). congruence. }
        destruct (Hcl y p Hy Hp Hne); set_solver.
Qed.

Lemma ancestors_correct h x :
  is_Some (bh !! h) -> x ∈ ancestors bh h <-> strict_ancestor h x.
Proof.
  intros [o Ho]. unfold ancestors. rewrite Ho.
  assert (Hp : parent_of h (prev_hash (op o))) by (by exists o).
  destruct (ancestors_loop_closed (S (size bh)) ∅ (prev_hash (op o))) as (_ & H2 & H3);
    [set_solver|set_solver|rewrite size_empty; lia|]. split.
  - intros [?|[Hne [->|Hx]]]%ancestors_loop_sound; [set_solver|by apply anc_parent|].
    by eapply anc_step.
  - assert (Hgen : forall a b, strict_ancestor a b ->
      a ∈ ancestors_loop (S (size bh)) bh ∅ (prev_hash (op o)) ->
      b ∈ ancestors_loop (S (size bh)) bh ∅ (prev_hash (op o))).
    { induction 1; intros Ha; [by eapply H3|]. apply IHstrict_ancestor. by eapply H3. }
    intros Hx. inversion Hx as [h' p Hq Hne|h' p x' Hq Hne Hx']; simplify_eq.
    + rewrite (parent_fun _ _ _ Hp Hq) in *. by apply H2.
    + apply Hgen in Hx'; [done|]. rewrite (parent_fun _ _ _ Hp Hq) in *. by apply H2.
Qed.

Lemma strict_ancestor_dom h x : strict_ancestor h x -> is_Some (bh !! h).
Proof. by destruct 1 as [? ? (o & ? & _)|? ? ? (o & ? & _)]; exists o. Qed.

(** In a tree whose root links to nothing, a strict ancestor of an op comes
    strictly before it. *)
Lemma ancestor_before order i h x :
  causal_order_ok order -> parent_of g "" ->
  order !! i = Some h -> strict_ancestor h x -> exists j, j < i /\ order !! j = Some x.
Proof.
  intros Hok Hg. revert h. induction (lt_wf i) as [i _ IH]; intros h Hi Hx.
  assert (Hlink : forall p, parent_of h p -> p <> "" -> exists j, j < i /\ order !! j = Some p).
  { intros p Hp Hne. destruct (co_parent _ Hok i h Hi) as (j & q & Hj & Hq & Hpq).
    - intros ->. by rewrite (parent_fun _ _ _ Hp Hg) in Hne.
    - exists j. by rewrite (parent_fun _ _ _ Hp Hpq). }
  destruct Hx as [h p Hp Hne|h p x Hp Hne Hx]; [by apply Hlink|].
  destruct (Hlink p Hp Hne) as (j & Hj & Ej).
  destruct (IH j Hj p Ej Hx) as (k & Hk & Ek). exists k. split; [lia|done].
Qed.

Lemma ancestor_map_lookup order h :
  ancestor_map bh order !! h = (if bool_decide (h ∈ order) then Some (ancestors bh h) else None).
Proof.
  unfold ancestor_map. induction order as [|x l IH] using rev_ind; [done|].
  rewrite foldl_snoc. destruct (decide (x = h)) as [->|Hne].
  - rewrite lookup_insert_eq, bool_decide_eq_true_2; [done|set_solver].
  - rewrite lookup_insert_ne, IH by done. repeat case_bool_decide; set_solver.
Qed.

Lemma ancestor_map_total order h :
  h ∈ order -> ancestor_map bh order !!! h = ancestors bh h.
Proof.
  intros Hh. apply lookup_total_correct. by rewrite ancestor_map_lookup, bool_decide_eq_true_2.
Qed.
End Tree.

(** ** Properties *)

(** [causal_order] on an indexed genesis terminates with a duplicate-free
    order that starts at the genesis, lists exactly the ops reachable from it
    (orphans and forged roots are dropped), puts every op after its parent,
    and only names indexed hashes, so no [by_hash[h]] on it panics. *)
Theorem causal_order_topological (bh : gmap string SignedMembershipOp) (g : string) :
  is_Some (bh !! g) -> causal_order_ok bh g (causal_order bh g).
Proof. apply causal_order_correct. Qed.

(** The ancestor set of an op of the order is its strict causal past
    along the [prev_hash] links, and every ancestor precedes the op. *)
Theorem ancestors_are_causal_past (bh : gmap string SignedMembershipOp) (g h x : string) (i : nat) :
  parent_of bh g "" -> causal_order bh g !! i = Some h ->
  (x ∈ ancestors bh h <-> strict_ancestor bh h x) /\
  (x ∈ ancestors bh h -> exists j, j < i /\ causal_order bh g !! j = Some x).
Proof.
  intros Hg Hi.
  assert (Hs : is_Some (bh !! g)) by (destruct Hg as (o & ? & _); by exists o).
  pose proof (causal_order_correct bh g Hs) as Hok.
  assert (Hh : is_Some (bh !! h)).
  { eapply co_indexed; [done|]. by eapply list_elem_of_lookup_2. }
  split; [by apply ancestors_correct|].
  intros Hx%ancestors_correct; [|done]. by eapply ancestor_before.
Qed.

(** ** Witnesses *)
#[local] Existing Instance Toy.toy.

(** The order of the sample log starts at its genesis and is the chain itself. *)
Lemma causal_order_topological_witness :
  causal_order_ok (index_by_hash Toy.log) (Toy.h "gene")
    (causal_order (index_by_hash Toy.log) (Toy.h "gene")) /\
  causal_order (index_by_hash Toy.log) (Toy.h "gene") = map Toy.h ["gene"; "adm1"; "adm2"; "rem1"].
Proof.
  split; [|by vm_compute]. apply causal_order_topological. by exists Toy.genesis.
Defined.

(** The removal of the sample log has the editor's admission in its past. *)
Lemma ancestors_are_causal_past_witness :
  (Toy.h "adm1" ∈ ancestors (index_by_hash Toy.log) (Toy.h "rem1") <->
     strict_ancestor (index_by_hash Toy.log) (Toy.h "rem1") (Toy.h "adm1")) /\
  (Toy.h "adm1" ∈ ancestors (index_by_hash Toy.log) (Toy.h "rem1") -> exists j, j < 3 /\
     causal_order (index_by_hash Toy.log) (Toy.h "gene") !! j = Some (Toy.h "adm1")).
Proof.
  apply ancestors_are_causal_past; [by exists Toy.genesis|by vm_compute].
Defined.
