(* ===== verification/Convergence.v ===== *)
(** * Convergence: peers that hold the same ops derive the same state

    The collection's op-log is a map of records read in arbitrary order
    ([oplog_ops] of [shared/sync/src/kb/collection_oplog.rs]). The theorems
    show that the derivations of [shared/sync/src/membership.rs] do not depend
    on that order when hashes do not collide and the anchored genesis is
    unique, and what goes wrong when the owner signed two geneses. *)
From S2P Require Import Prelude Membership CausalOrder.

Section Index.
Context `{Crypto}.

(** No two records of the list share a chain hash. *)
Definition no_collision (ops : list SignedMembershipOp) : Prop :=
  forall a b, a ∈ ops -> b ∈ ops -> chain_hash a = chain_hash b -> a = b.

(** All records of the list that pass the anchored-genesis test are equal. *)
Definition unique_genesis (anchor : string) (ops : list SignedMembershipOp) : Prop :=
  forall a b, a ∈ ops -> b ∈ ops ->
    is_genesis_for anchor a = true -> is_genesis_for anchor b = true -> a = b.

(** Two op-logs that carry the same set of records, with multiplicity. *)
Record same_log (anchor : string) (l1 l2 : list SignedMembershipOp) : Prop := {
  sl_perm : l1 ≡ₚ l2;
  sl_hash : no_collision l1;
  sl_root : unique_genesis anchor l1;
}.

Lemma index_lookup_Some l h o :
  index_by_hash l !! h = Some o -> o ∈ l /\ chain_hash o = h.
Proof.
  unfold index_by_hash. induction l as [|x l IH] using rev_ind; [done|].
  rewrite foldl_snoc. destruct (decide (chain_hash x = h)) as [<-|Hne].
  - rewrite lookup_insert_eq. intros [=->]. set_solver.
  - rewrite lookup_insert_ne by done. intros [? ?]%IH. set_solver.
Qed.

Lemma index_lookup_is_Some l o : o ∈ l -> is_Some (index_by_hash l !! chain_hash o).
Proof.
  unfold index_by_hash. induction l as [|x l IH] using rev_ind; [set_solver|].
  rewrite foldl_snoc. intros [Ho| ->%list_elem_of_singleton]%elem_of_app.
  - destruct (decide (chain_hash x = chain_hash o)) as [->|Hne].
    + rewrite lookup_insert_eq. by eexists.
    + rewrite lookup_insert_ne by done. by apply IH.
  - rewrite lookup_insert_eq. by eexists.
Qed.

Lemma index_lookup l o :
  no_collision l -> o ∈ l -> index_by_hash l !! chain_hash o = Some o.
Proof.
  intros Hc Ho. destruct (index_lookup_is_Some l o Ho) as [o' Ho'].
  rewrite Ho'. f_equal. apply index_lookup_Some in Ho' as [? ?]. by apply Hc.
Qed.

Lemma index_perm l1 l2 : no_collision l1 -> l1 ≡ₚ l2 -> index_by_hash l1 = index_by_hash l2.
Proof.
  intros Hc. apply foldl_perm. intros x y acc Hx Hy.
  destruct (decide (chain_hash x = chain_hash y)) as [E|Hne].
  - by rewrite (Hc x y Hx Hy E).
  - by rewrite insert_insert_ne.
Qed.

(** *** The recovery registry *)

Lemma rank_ltb_irrefl a : rank_ltb a a = false.
Proof.
  unfold rank_ltb. rewrite N.ltb_irrefl, N.eqb_refl. simpl. by apply ltb_false_iff.
Qed.

Lemma rank_ltb_iff a b : rank_ltb a b = true <->
  (a.1 < b.1)%N \/ (a.1 = b.1 /\ String.le a.2 b.2 /\ a.2 <> b.2).
Proof.
  unfold rank_ltb. rewrite orb_true_iff, andb_true_iff, N.ltb_lt, N.eqb_eq, ltb_iff. done.
Qed.

Lemma rank_ltb_trans a b c : rank_ltb a b = true -> rank_ltb b c = true -> rank_ltb a c = true.
Proof.
  rewrite !rank_ltb_iff. intros [H1|(H1 & H2 & H3)] [H4|(H4 & H5 & H6)]; [left; lia..|].
  right. split; [congruence|]. split; [by etrans|]. intros Eq. rewrite Eq in *.
  apply H6. by apply (anti_symm String.le).
Qed.

Lemma rank_ltb_total a b : rank_ltb a b = false -> rank_ltb b a = false -> a = b.
Proof.
  rewrite <- !not_true_iff_false, !rank_ltb_iff. destruct a as [n s], b as [m t]; simpl.
  intros H1 H2. assert (n = m) as -> by lia. f_equal.
  destruct (decide (s = t)) as [|Hne]; [done|].
  destruct (total String.le s t); naive_solver.
Qed.

Lemma rank_ltb_asym a b : rank_ltb a b = true -> rank_ltb b a = false.
Proof.
  intros Hab. destruct (rank_ltb b a) eqn:Hba; [|done].
  by rewrite <- (rank_ltb_irrefl a), (rank_ltb_trans _ _ _ Hab Hba).
Qed.

(** What a record registers, if it counts: the subject, its rank and its key. *)
Definition registers (o : SignedMembershipOp) : option (string * (N * string) * string) :=
  if bool_decide (action (op o) = RegisterRecoveryKey)
     && bool_decide (author (op o) = subject (op o)) && verify_signed o
  then rpk ← recovery_pubkey (op o); Some (subject (op o), (issued_at (op o), chain_hash o), rpk)
  else None.

Lemma registry_step_alt st o :
  registry_step st o =
  match registers o with
  | None => st
  | Some (s, rk, rpk) =>
      if (match st.1 !! s with Some c => rank_ltb c rk | None => true end)
      then (<[s := rk]> st.1, <[s := rpk]> st.2) else st
  end.
Proof.
  unfold registry_step, registers. destruct st as [best keys]. simpl.
  repeat case_bool_decide; simpl; try done.
  destruct (verify_signed o); simpl; [|done]. by destruct (recovery_pubkey (op o)).
Qed.

Lemma registry_step_comm l x y st :
  no_collision l -> x ∈ l -> y ∈ l ->
  registry_step (registry_step st x) y = registry_step (registry_step st y) x.
Proof.
  intros Hc Hx Hy. rewrite !registry_step_alt.
  destruct (registers x) as [[[s r] k]|] eqn:Ex, (registers y) as [[[s' r'] k']|] eqn:Ey; try done.
  assert (Hsame : r = r' -> k = k').
  { unfold registers in Ex, Ey. repeat case_match; simplify_option_eq.
    intros [= _ E]. by rewrite (Hc x y Hx Hy E) in *; simplify_eq. }
  destruct st as [best keys]; simpl.
  destruct (decide (s = s')) as [<-|Hne].
  - destruct (rank_ltb r r') eqn:L1, (rank_ltb r' r) eqn:L2.
    + apply rank_ltb_asym in L1. congruence.
    + destruct (best !! s) as [c|] eqn:Eb; simpl; rewrite ?Eb, ?lookup_insert_eq, ?L1, ?L2;
        [|by rewrite !insert_insert_eq].
      destruct (rank_ltb c r) eqn:C1; simpl; rewrite ?lookup_insert_eq, ?L1, ?L2, ?Eb, ?C1.
      * rewrite (rank_ltb_trans _ _ _ C1 L1). simpl. by rewrite lookup_insert_eq, L2, !insert_insert_eq.
      * destruct (rank_ltb c r') eqn:C2; simpl; by rewrite ?lookup_insert_eq, ?L2, ?Eb, ?C1.
    + destruct (best !! s) as [c|] eqn:Eb; simpl; rewrite ?Eb, ?lookup_insert_eq, ?L1, ?L2;
        [|by rewrite !insert_insert_eq].
      destruct (rank_ltb c r') eqn:C1; simpl; rewrite ?lookup_insert_eq, ?L1, ?L2, ?Eb, ?C1.
      * rewrite (rank_ltb_trans _ _ _ C1 L2). simpl. by rewrite lookup_insert_eq, L1, !insert_insert_eq.
      * destruct (rank_ltb c r) eqn:C2; simpl; by rewrite ?lookup_insert_eq, ?L1, ?Eb, ?C1.
    + pose proof (rank_ltb_total _ _ L1 L2) as <-. by rewrite (Hsame eq_refl).
  - assert (Hl : forall v, <[s := v]> best !! s' = best !! s').
    { intros. by rewrite lookup_insert_ne. }
    assert (Hr : forall v, <[s' := v]> best !! s = best !! s).
    { intros. by rewrite lookup_insert_ne. }
    destruct (match best !! s with Some c => rank_ltb c r | None => true end) eqn:B1,
      (match best !! s' with Some c => rank_ltb c r' | None => true end) eqn:B2;
      simpl; rewrite ?Hl, ?Hr, ?B1, ?B2; try done.
    f_equal; by rewrite insert_insert_ne.
Qed.

Lemma build_recovery_registry_perm l1 l2 :
  no_collision l1 -> l1 ≡ₚ l2 -> build_recovery_registry l1 = build_recovery_registry l2.
Proof.
  intros Hc Hp. unfold build_recovery_registry. f_equal. apply foldl_perm; [|done].
  intros x y acc Hx Hy. by eapply registry_step_comm.
Qed.

Lemma crypto_valid_perm l1 l2 :
  no_collision l1 -> l1 ≡ₚ l2 -> crypto_valid l1 ≡ₚ crypto_valid l2.
Proof.
  intros Hc Hp. unfold crypto_valid. rewrite (build_recovery_registry_perm l1 l2) by done.
  by apply List_filter_perm.
Qed.

Lemma admissible_perm view l1 l2 :
  no_collision l1 -> l1 ≡ₚ l2 -> admissible l1 view ≡ₚ admissible l2 view.
Proof.
  intros Hc Hp. unfold admissible. rewrite (build_recovery_registry_perm l1 l2) by done.
  by apply List_filter_perm.
Qed.

Lemma crypto_valid_sub l : crypto_valid l ⊆ l.
Proof. intros x [? _]%elem_of_List_filter. done. Qed.

Lemma admissible_sub view l : admissible l view ⊆ l.
Proof. intros x [? _]%elem_of_List_filter. done. Qed.

Lemma no_collision_sub l l' : l' ⊆ l -> no_collision l -> no_collision l'.
Proof. intros Hs Hc a b Ha Hb. apply Hc; set_solver. Qed.

Lemma unique_genesis_sub anchor l l' : l' ⊆ l -> unique_genesis anchor l -> unique_genesis anchor l'.
Proof. intros Hs Hc a b Ha Hb. apply Hc; set_solver. Qed.

(** The two ingredients of every derivation: the honoured records, indexed,
    and the genesis. *)
Lemma same_log_crypto anchor l1 l2 : same_log anchor l1 l2 ->
  index_by_hash (crypto_valid l1) = index_by_hash (crypto_valid l2) /\
  List.find (is_genesis_for anchor) (crypto_valid l1) =
  List.find (is_genesis_for anchor) (crypto_valid l2).
Proof.
  intros [Hp Hc Hg]. pose proof (crypto_valid_perm l1 l2 Hc Hp) as Hcp. split.
  - apply index_perm; [|done]. by eapply no_collision_sub; [apply crypto_valid_sub|].
  - apply find_perm; [|done]. by eapply unique_genesis_sub; [apply crypto_valid_sub|].
Qed.

(** *** The owner's rotation chain as a closure *)

(** The link a record adds to the owner's chain. *)
Definition rebind_link (o : SignedMembershipOp) : Prop :=
  action (op o) = Rebind /\ (exists pk, new_pubkey (op o) = Some pk /\ fingerprint_of pk = subject (op o))
  /\ subject (op o) <> author (op o).

(** The owner, and whoever a chain of bound rebinds of [crypto] leads to. *)
Inductive owner_chain (crypto : list SignedMembershipOp) (owner : string) : string -> Prop :=
| oc_owner : owner_chain crypto owner owner
| oc_rebind o : o ∈ crypto -> rebind_link o ->
    owner_chain crypto owner (author (op o)) -> owner_chain crypto owner (subject (op o)).

Lemma chain_extends_spec chain o :
  chain_extends chain o = true <->
  rebind_link o /\ author (op o) ∈ chain /\ subject (op o) ∉ chain.
Proof.
  unfold chain_extends, rebind_link.
  destruct (new_pubkey (op o)); repeat case_bool_decide; simpl; naive_solver.
Qed.

Lemma chain_pass_spec crypto chain chain' grew :
  chain_pass crypto chain = (chain', grew) ->
  chain ⊆ chain' /\ chain' ⊆ chain ∪ list_to_set (map (fun o => subject (op o)) crypto) /\
  (grew = true -> size chain < size chain') /\
  (grew = false -> chain' = chain /\ forall o, o ∈ crypto -> chain_extends chain o = false).
Proof.
  unfold chain_pass. revert chain' grew.
  induction crypto as [|o l IH] using rev_ind; intros chain' grew; simpl.
  - intros [= <- <-]. split_and!; try done; set_solver.
  - rewrite foldl_snoc. destruct (foldl _ (chain, false) l) as [c1 g1] eqn:E1.
    destruct (IH c1 g1 eq_refl) as (H1 & H2 & H3 & H4).
    rewrite map_app, list_to_set_app_L. simpl.
    destruct (chain_extends c1 o) eqn:E; intros [= <- <-].
    + apply chain_extends_spec in E as (_ & _ & Hn). clear IH H3 H4 E1. split_and!; [set_solver|set_solver| |done].
      intros _. rewrite size_union, size_singleton by set_solver.
      pose proof (subseteq_size _ _ H1). lia.
    + split_and!; [done|by rewrite H2; clear; set_solver|done|]. intros Hg. destruct (H4 Hg) as [-> H5].
      split; [done|]. intros x [Hx| ->%list_elem_of_singleton]%elem_of_app; [by apply H5|done].
Qed.

Lemma chain_pass_sound crypto owner chain :
  (forall x, x ∈ chain -> owner_chain crypto owner x) ->
  forall x, x ∈ (chain_pass crypto chain).1 -> owner_chain crypto owner x.
Proof.
  intros Hc. unfold chain_pass.
  apply (foldl_inv (fun st : gset string * bool => forall x, x ∈ st.1 -> owner_chain crypto owner x));
    [done|].
  intros [c grew] o Ho IH. destruct (chain_extends c o) eqn:E; [|done]. simpl.
  apply chain_extends_spec in E as (Hl & Ha & _).
  intros x [->%elem_of_singleton|Hx]%elem_of_union; [|by apply IH].
  apply oc_rebind; [done|done|]. by apply IH.
Qed.

Lemma chain_loop_spec n crypto owner chain :
  owner ∈ chain ->
  chain ⊆ {[owner]} ∪ list_to_set (map (fun o => subject (op o)) crypto) ->
  (forall x, x ∈ chain -> owner_chain crypto owner x) ->
  length crypto + 1 < n + size chain ->
  forall x, x ∈ chain_loop n crypto chain <-> owner_chain crypto owner x.
Proof.
  revert chain. induction n as [|n IH]; intros chain Hown Hsub Hc Hn x.
  - exfalso. pose proof (subseteq_size _ _ Hsub) as Hs.
    pose proof (size_union_alt ({[owner]} : gset string)
      (list_to_set (map (fun o => subject (op o)) crypto))) as Ha.
    assert (size (list_to_set (C := gset string) (map (fun o => subject (op o)) crypto) ∖ {[owner]})
      <= length crypto); [|rewrite size_singleton in Ha; lia].
    transitivity (size (list_to_set (C := gset string) (map (fun o => subject (op o)) crypto))).
    + apply subseteq_size. set_solver.
    + rewrite <- (length_map (fun o => subject (op o)) crypto). apply size_list_to_set_le.
  - simpl. destruct (chain_pass crypto chain) as [chain' grew] eqn:E.
    pose proof (chain_pass_sound crypto owner chain Hc) as Hs. rewrite E in Hs. simpl in Hs.
    destruct (chain_pass_spec _ _ _ _ E) as (H1 & H2 & H3 & H4). destruct grew.
    + apply IH; [by apply H1|clear -H2 Hsub; set_solver|done|]. specialize (H3 eq_refl). lia.
    + destruct (H4 eq_refl) as [-> Hcl]. split; [apply Hc|].
      induction 1 as [|o Ho Hl Ha IHa]; [done|].
      destruct (decide (subject (op o) ∈ chain)) as [|Hn']; [done|].
      specialize (Hcl o Ho). rewrite (proj2 (chain_extends_spec chain o)) in Hcl; done.
Qed.

Lemma owner_principal_chain_spec crypto owner x :
  x ∈ owner_principal_chain crypto owner <-> owner_chain crypto owner x.
Proof.
  apply chain_loop_spec; [set_solver|set_solver| |rewrite size_singleton; lia].
  intros y ->%elem_of_singleton. constructor.
Qed.

Lemma owner_principal_chain_perm c1 c2 owner :
  c1 ≡ₚ c2 -> owner_principal_chain c1 owner = owner_principal_chain c2 owner.
Proof.
  intros Hp. apply set_eq. intros x. rewrite !owner_principal_chain_spec.
  split; (induction 1 as [|o Ho Hl _ IH]; [apply oc_owner|apply oc_rebind; [|done..]]);
    [by rewrite <- Hp|by rewrite Hp].
Qed.

(** *** Rebirths *)

(** The boundary a record proposes for a node, if it counts. *)
Definition proposes (owners : gset string) (o : SignedMembershipOp) : option (string * (N * string)) :=
  if bool_decide (action (op o) = Rebirth) && bool_decide (author (op o) ∈ owners)
  then match content_hash (op o) with
       | Some hash => if bool_decide (hash = "") then None
                      else Some (subject (op o), (epoch (op o), hash))
       | None => None
       end
  else None.

(** [b] replaces [a]: a later epoch, or the same epoch and a smaller hash. *)
Definition supersedes (b a : N * string) : bool :=
  (a.1 <? b.1)%N || ((a.1 =? b.1)%N && String.ltb b.2 a.2).

Lemma rebirth_step_alt owners out o :
  rebirth_step owners out o =
  match proposes owners o with
  | None => out
  | Some (s, b) =>
      if (match out !! s with Some a => supersedes b a | None => true end)
      then <[s := b]> out else out
  end.
Proof.
  unfold rebirth_step, proposes, supersedes.
  destruct (bool_decide _ && bool_decide _); simpl; [|done].
  destruct (content_hash (op o)) as [hh|]; [|done]. case_bool_decide; [done|].
  destruct (out !! subject (op o)) as [[e a]|]; [|done]. simpl.
  destruct (N.ltb_spec (epoch (op o)) e), (N.ltb_spec e (epoch (op o))); simpl; try done; [lia|..].
  - destruct (N.eqb_spec e (epoch (op o))); [lia|done].
  - destruct (N.eqb_spec e (epoch (op o))); [lia|done].
  - destruct (N.eqb_spec e (epoch (op o))); [done|lia].
Qed.

Lemma supersedes_iff b a : supersedes b a = true <->
  (a.1 < b.1)%N \/ (a.1 = b.1 /\ String.le b.2 a.2 /\ b.2 <> a.2).
Proof. unfold supersedes. by rewrite orb_true_iff, andb_true_iff, N.ltb_lt, N.eqb_eq, ltb_iff. Qed.

Lemma supersedes_trans a b c :
  supersedes c b = true -> supersedes b a = true -> supersedes c a = true.
Proof.
  rewrite !supersedes_iff. intros [H1|(H1 & H2 & H3)] [H4|(H4 & H5 & H6)]; [left; lia..|].
  right. split; [congruence|]. split; [by etrans|]. intros Eq. rewrite Eq in *.
  apply H6. by apply (anti_symm String.le).
Qed.

Lemma supersedes_total a b : supersedes a b = false -> supersedes b a = false -> a = b.
Proof.
  rewrite <- !not_true_iff_false, !supersedes_iff. destruct a as [n s], b as [m t]; simpl.
  intros H1 H2. assert (n = m) as -> by lia. f_equal.
  destruct (decide (s = t)) as [|Hne]; [done|].
  destruct (total String.le s t); naive_solver.
Qed.

Lemma supersedes_asym a b : supersedes a b = true -> supersedes b a = false.
Proof.
  intros Hab. destruct (supersedes b a) eqn:Hba; [|done].
  pose proof (supersedes_trans _ _ _ Hab Hba) as Hr. apply supersedes_iff in Hr as [?|(_ & _ & ?)]; [lia|done].
Qed.

Lemma supersedes_irrefl a : supersedes a a = false.
Proof. destruct (supersedes a a) eqn:E; [|done]. by rewrite (supersedes_asym _ _ E) in E. Qed.

(** [ob] is the best proposal of the records [l] for node [s]. *)
Definition best_for (owners : gset string) (l : list SignedMembershipOp) (s : string)
    (ob : option (N * string)) : Prop :=
  match ob with
  | None => forall o b, o ∈ l -> proposes owners o <> Some (s, b)
  | Some b => (exists o, o ∈ l /\ proposes owners o = Some (s, b)) /\
              (forall o b', o ∈ l -> proposes owners o = Some (s, b') -> supersedes b' b = false)
  end.

Lemma best_for_skip owners l o s ob :
  (forall b, proposes owners o <> Some (s, b)) -> best_for owners l s ob ->
  best_for owners (l ++ [o]) s ob.
Proof.
  intros Hn. destruct ob as [b|]; simpl.
  - intros [(x & Hx & Hp) Hb]. split; [exists x; set_solver|].
    intros y b' [Hy| ->%list_elem_of_singleton]%elem_of_app Hp'; [by eapply Hb|by destruct (Hn b')].
  - intros Hb y b' [Hy| ->%list_elem_of_singleton]%elem_of_app; [by apply Hb|by apply Hn].
Qed.

Lemma best_for_offer owners l o s b ob :
  proposes owners o = Some (s, b) -> best_for owners l s ob ->
  best_for owners (l ++ [o]) s
    (if match ob with Some a => supersedes b a | None => true end then Some b else ob).
Proof.
  intros Ho Hb. destruct ob as [a|]; simpl in Hb.
  - destruct Hb as [(x & Hx & Hp) Hb]. destruct (supersedes b a) eqn:Eb; simpl.
    + split; [exists o; set_solver|].
      intros y b' [Hy| ->%list_elem_of_singleton]%elem_of_app Hb'.
      * destruct (supersedes b' b) eqn:E'; [|done].
        rewrite <- (Hb y b' Hy Hb'). symmetry. by eapply supersedes_trans.
      * simplify_eq. apply supersedes_irrefl.
    + split; [exists x; set_solver|].
      intros y b' [Hy| ->%list_elem_of_singleton]%elem_of_app Hb'; [by eapply Hb|congruence].
  - simpl. split; [exists o; set_solver|].
    intros y b' [Hy| ->%list_elem_of_singleton]%elem_of_app Hb'; [by destruct (Hb y b' Hy)|].
    simplify_eq. apply supersedes_irrefl.
Qed.

(** The loop leaves, for every node, the best proposal of its records. *)
Lemma rebirth_fold_spec owners l s :
  best_for owners l s (foldl (rebirth_step owners) ∅ l !! s).
Proof.
  induction l as [|o l IH] using rev_ind; [simpl; rewrite lookup_empty; intros o b Ho; by apply not_elem_of_nil in Ho|].
  rewrite foldl_snoc, rebirth_step_alt.
  set (out := foldl (rebirth_step owners) ∅ l) in *. clearbody out.
  destruct (proposes owners o) as [[t b]|] eqn:E; [|apply best_for_skip; [congruence|done]].
  destruct (decide (t = s)) as [->|Hne].
  - pose proof (best_for_offer _ _ _ _ _ _ E IH) as Hb. revert Hb.
    destruct (match out !! s with Some a => supersedes b a | None => true end);
      [by rewrite lookup_insert_eq|done].
  - apply best_for_skip; [congruence|].
    destruct (match out !! t with Some a => supersedes b a | None => true end);
      [by rewrite lookup_insert_ne|done].
Qed.

Lemma rebirth_fold_perm owners l1 l2 :
  l1 ≡ₚ l2 -> foldl (rebirth_step owners) ∅ l1 = foldl (rebirth_step owners) ∅ l2.
Proof.
  intros Hp. apply map_eq. intros s.
  pose proof (rebirth_fold_spec owners l1 s) as H1. pose proof (rebirth_fold_spec owners l2 s) as H2.
  destruct (foldl _ _ l1 !! s) as [b1|], (foldl _ _ l2 !! s) as [b2|]; simpl in *; try done.
  - destruct H1 as [(o1 & I1 & P1) M1], H2 as [(o2 & I2 & P2) M2]. f_equal.
    apply supersedes_total; [apply (M2 o1 b1)|apply (M1 o2 b2)]; try done;
      [by rewrite <- Hp|by rewrite Hp].
  - destruct H1 as [(o1 & I1 & P1) _]. destruct (H2 o1 b1); [by rewrite <- Hp|done].
  - destruct H2 as [(o1 & I1 & P1) _]. destruct (H1 o1 b2); [by rewrite Hp|done].
Qed.

(** ** Properties *)


(** The owner-rooted readers converge too: governance, encryption mode,
    rebirths, wrapped content key, replication history and the owner test do
    not depend on the order in which the records were read. *)
Theorem readers_order_independent anchor l1 l2 p :
  same_log anchor l1 l2 ->
  derive_governance l1 anchor = derive_governance l2 anchor /\
  derive_encryption l1 anchor = derive_encryption l2 anchor /\
  derive_rebirths l1 anchor = derive_rebirths l2 anchor /\
  find_wrapped_content_key l1 anchor p = find_wrapped_content_key l2 anchor p /\
  replication_history l1 anchor p = replication_history l2 anchor p /\
  is_owner_principal l1 anchor p = is_owner_principal l2 anchor p.
Proof.
  intros Hs. destruct (same_log_crypto _ _ _ Hs) as [Hi Hf].
  pose proof (crypto_valid_perm l1 l2 (sl_hash _ _ _ Hs) (sl_perm _ _ _ Hs)) as Hp.
  assert (Ho : forall o, owner_principal_chain (crypto_valid l1) o = owner_principal_chain (crypto_valid l2) o).
  { intros o. by apply owner_principal_chain_perm. }
  unfold derive_governance, derive_encryption, derive_rebirths, find_wrapped_content_key,
    replication_history, is_owner_principal. rewrite Hi, Hf.
  destruct (List.find _ (crypto_valid l2)) as [g|]; [|by split_and!]. rewrite Ho. split_and!; try done.
  - rewrite (existsb_perm _ (crypto_valid l1) (crypto_valid l2)) by done. done.
  - by apply rebirth_fold_perm.
Qed.
(** The owner test decides reachability: a principal passes
    [is_owner_principal] exactly when the log holds an honoured anchored
    genesis and a chain of honoured, key-bound rebinds leads from its subject
    to the principal; the pass bound of the code's loop never cuts it short. *)
Theorem owner_test_decides_rotation_chain ops anchor p :
  is_owner_principal ops anchor p = true <->
  exists g, List.find (is_genesis_for anchor) (crypto_valid ops) = Some g /\
    owner_chain (crypto_valid ops) (subject (op g)) p.
Proof.
  unfold is_owner_principal. destruct (List.find _ _) as [g|].
  - rewrite bool_decide_eq_true, owner_principal_chain_spec. naive_solver.
  - naive_solver.
Qed.

(** [derive_rebirths] selects, for every node, the best owner-signed
    boundary of the log: the highest epoch and, among equal epochs, the
    smallest content hash; a node has an entry exactly when some owner-signed
    record with a content hash proposes one. *)
Theorem rebirth_boundary_is_best ops anchor g s :
  List.find (is_genesis_for anchor) (crypto_valid ops) = Some g ->
  best_for (owner_principal_chain (crypto_valid ops) (subject (op g))) (crypto_valid ops) s
    (derive_rebirths ops anchor !! s).
Proof. intros Hf. unfold derive_rebirths. rewrite Hf. apply rebirth_fold_spec. Qed.

(** Both hypotheses of [same_log] can be tested on a concrete log. *)
Lemma no_collision_NoDup ops : NoDup (map chain_hash ops) -> no_collision ops.
Proof.
  induction ops as [|o ops IH]; simpl; intros Hn a b Ha Hb E; [by apply not_elem_of_nil in Ha|].
  apply NoDup_cons in Hn as [Hno Hn].
  assert (Hin : forall x, x ∈ ops -> chain_hash x <> chain_hash o).
  { intros x Hx Ex. apply Hno. rewrite <- Ex. by apply list_elem_of_fmap_2. }
  apply elem_of_cons in Ha as [->|Ha], Hb as [->|Hb]; [done| | |by apply (IH Hn)].
  - by destruct (Hin b Hb).
  - by destruct (Hin a Ha).
Qed.

Lemma unique_genesis_one anchor g ops :
  List.filter (is_genesis_for anchor) ops = [g] -> unique_genesis anchor ops.
Proof.
  intros Hf a b Ha Hb Ga Gb.
  assert (Hg : forall x, x ∈ ops -> is_genesis_for anchor x = true -> x = g).
  { intros x Hx Gx. apply list_elem_of_singleton. rewrite <- Hf.
    apply elem_of_List_filter. by split. }
  by rewrite (Hg a), (Hg b).
Qed.
End Index.

(** ** Witnesses *)
#[local] Existing Instance Toy.toy.

Lemma toy_log_no_collision : no_collision Toy.log.
Proof. apply no_collision_NoDup. apply (bool_decide_unpack (NoDup _)). by vm_compute. Qed.

Lemma toy_same_log : same_log "ow" Toy.log (reverse Toy.log).
Proof.
  split; [by rewrite reverse_Permutation|apply toy_log_no_collision|].
  apply (unique_genesis_one _ Toy.genesis). by vm_compute.
Qed.


Lemma readers_order_independent_witness :
  derive_governance Toy.log "ow" = derive_governance (reverse Toy.log) "ow" /\
  derive_encryption Toy.log "ow" = derive_encryption (reverse Toy.log) "ow" /\
  derive_rebirths Toy.log "ow" = derive_rebirths (reverse Toy.log) "ow" /\
  find_wrapped_content_key Toy.log "ow" (Toy.fp "ed") =
    find_wrapped_content_key (reverse Toy.log) "ow" (Toy.fp "ed") /\
  replication_history Toy.log "ow" (Toy.fp "ed") =
    replication_history (reverse Toy.log) "ow" (Toy.fp "ed") /\
  is_owner_principal Toy.log "ow" (Toy.fp "ed") =
    is_owner_principal (reverse Toy.log) "ow" (Toy.fp "ed").
Proof. apply readers_order_independent, toy_same_log. Defined.

(** Two boundaries of one epoch for node n: the smaller hash wins. *)
Lemma rebirth_boundary_is_best_witness :
  let reb tag hash := mkSigned
    (mkOp "kb" Rebirth "n" None false (Toy.fp "ow") 0 None 4 (Toy.h "gene") None None None None Full (Some hash))
    (Toy.sign "ow" tag) "ow" in
  let l := [Toy.genesis; reb "reb1" "cc"; reb "reb2" "aa"] in
  best_for (owner_principal_chain (crypto_valid l) (subject (op Toy.genesis))) (crypto_valid l) "n"
    (derive_rebirths l "ow" !! "n") /\ derive_rebirths l "ow" !! "n" = Some (4%N, "aa").
Proof.
  intros reb l. split; [|by vm_compute]. apply rebirth_boundary_is_best. by vm_compute.
Defined.
