(* ===== verification/MembershipSafety.v ===== *)
(** * MembershipSafety: what a derived membership guarantees

    Safety theorems about [derive_valid_members_governed] of
    [shared/sync/src/membership.rs]: every member is backed by an honoured
    record of the op tree, forged records change nothing, the blocklist and
    the owner protection hold, removals need their quorum, the cascade leaves
    no orphan, and the validity loop reaches a fixpoint on logs without
    removals. The last section holds concrete logs on which the derivation
    departs from what the source's comments say of it. *)
From S2P Require Import Prelude Membership CausalOrder Convergence.

Section Safety.
Context `{Crypto}.

(** An honoured record: signed by its author's key, or a rebind signed by the
    author's registered recovery key. *)
Definition honoured (ops : list SignedMembershipOp) (o : SignedMembershipOp) : bool :=
  verify_signed o || is_recovery_signed_rebind o (build_recovery_registry ops).

Lemma elem_of_admissible ops view o :
  o ∈ admissible ops view <->
  o ∈ ops /\ honoured ops o = true /\ author (op o) ∉ blocklist view.
Proof.
  unfold admissible, honoured. rewrite elem_of_List_filter, andb_true_iff, negb_true_iff,
    bool_decide_eq_false. tauto.
Qed.

Lemma admissible_crypto_valid ops view : admissible ops view ⊆ crypto_valid ops.
Proof.
  intros o (Ho & Hh & _)%elem_of_admissible. apply elem_of_List_filter. done.
Qed.

(** ** The validity loop *)

Lemma validity_loop_pass (P : gset string -> Prop) pass n v :
  0 < n -> P v -> (forall u, P u -> P (pass u)) ->
  exists u, P u /\ validity_loop pass n v = pass u.
Proof.
  intros Hn Hv Hp. destruct n as [|n]; [lia|]. clear Hn. revert v Hv.
  induction n as [|n IH]; intros v Hv; cbn [validity_loop].
  - exists v. split; [done|]. by case_bool_decide.
  - case_bool_decide; [by exists v|]. apply IH. by apply Hp.
Qed.

Section Fixed.
Context (bh : gmap string SignedMembershipOp) (gh owner : string) (gov : Governance) (now : N).

Abbreviation order := (causal_order bh gh).
Abbreviation anc := (ancestor_map bh order).
Abbreviation pass := (validity_pass bh order anc gh owner gov now).
Abbreviation valid := (valid_ops bh gh owner gov now).

Lemma elem_of_pass v h :
  h ∈ pass v <-> h ∈ order /\ survives bh order anc gh owner gov now v h = true.
Proof. unfold validity_pass. by rewrite elem_of_list_to_set, elem_of_List_filter. Qed.

(** The surviving set is one pass over some set of ops of the order. *)
Lemma valid_ops_pass : exists v, v ⊆ list_to_set order /\ valid = pass v.
Proof.
  apply (validity_loop_pass (fun v => v ⊆ list_to_set order)); [lia|done|].
  intros u _ h Hh. apply elem_of_pass in Hh as [Hh _]. set_solver.
Qed.

Lemma valid_ops_order h : h ∈ valid -> h ∈ order.
Proof. destruct valid_ops_pass as (v & _ & ->). intros Hh. by apply elem_of_pass in Hh as [? _]. Qed.

Lemma valid_ops_unexpired h : h ∈ valid -> expired now (op_at bh h) = false.
Proof.
  destruct valid_ops_pass as (v & _ & ->). intros [_ Hh]%elem_of_pass.
  unfold survives in Hh. by destruct (expired now (op_at bh h)).
Qed.

Lemma valid_ops_genesis : is_Some (bh !! gh) -> expired now (op_at bh gh) = false -> gh ∈ valid.
Proof.
  intros Hg He. destruct valid_ops_pass as (v & _ & ->). apply elem_of_pass. split.
  - pose proof (causal_order_correct bh gh Hg) as Hok. apply Hok. by constructor.
  - unfold survives. by rewrite He, bool_decide_eq_true_2.
Qed.

(** An op other than the genesis survives only if its author was authorized by
    the membership of the op's own causal past. *)
Lemma valid_ops_authorized h : h ∈ valid -> h <> gh ->
  exists v, v ⊆ list_to_set order /\
    authorized (membership_at bh order v anc (anc !!! h) gh gov now) (op_at bh h) owner gov = true.
Proof.
  destruct valid_ops_pass as (v & Hv & ->). intros [_ Hh]%elem_of_pass Hne. exists v.
  split; [done|]. unfold survives in Hh. destruct (expired now (op_at bh h)); [done|].
  rewrite bool_decide_eq_false_2 in Hh by done.
  by destruct (authorized _ (op_at bh h) owner gov).
Qed.

End Fixed.

(** ** The member map *)

(** The key under which a member is stored is its principal. *)
Definition keyed (m : gmap string ValidMember) : Prop :=
  forall p e, m !! p = Some e -> principal e = p.

Lemma overlay_principal bh valid anc h p e l :
  principal (foldl (overlay_step bh valid anc h p) e l) = principal e.
Proof.
  apply (foldl_inv (fun e' => principal e' = principal e)); [done|].
  intros acc sh _ <-. unfold overlay_step. repeat case_match; done.
Qed.

Lemma admit_step_cases bh order valid anc gh gov now out h :
  admit_step bh order valid anc gh gov now out h = out \/
  (h ∈ valid /\ (h = gh \/ action (op_at bh h) = Admit) /\
   exists e, admit_step bh order valid anc gh gov now out h = <[subject (op_at bh h) := e]> out /\
     e = foldl (overlay_step bh valid anc h (subject (op_at bh h)))
           (mkMember (subject (op_at bh h))
              (default (if bool_decide (h = gh) then Owner else Viewer) (role (op_at bh h)))
              (bool_decide (h = gh) || can_invite (op_at bh h)) (author (op_at bh h))
              (epoch (op_at bh h)) (replication (op_at bh h))) order).
Proof.
  unfold admit_step. destruct (bool_decide (h ∈ valid)) eqn:Ev; simpl; [|by left].
  bool_prop. destruct (negb _) eqn:Ea; [by left|]. apply negb_false_iff, orb_true_iff in Ea.
  match goal with |- context [if ?b then out else _] => destruct b; [by left|] end.
  destruct (expired now (op_at bh h)); [by left|]. right. split; [done|]. split.
  - destruct Ea as [Ea|Ea]; bool_prop; tauto.
  - by eexists.
Qed.

Lemma rebind_step_cases bh valid out h :
  rebind_step bh valid out h = out \/
  (h ∈ valid /\ action (op_at bh h) = Rebind /\
   exists e, out !! author (op_at bh h) = Some e /\
     rebind_step bh valid out h =
       (fun m => if bool_decide (invited_by m = author (op_at bh h))
                 then mkMember (principal m) (m_role m) (m_can_invite m) (subject (op_at bh h))
                               (m_epoch m) (m_replication m) else m) <$>
       <[subject (op_at bh h) := mkMember (subject (op_at bh h)) (m_role e) (m_can_invite e)
            (invited_by e) (m_epoch e) (m_replication e)]> (delete (author (op_at bh h)) out)).
Proof.
  unfold rebind_step. destruct (bool_decide (h ∈ valid)) eqn:Ev; simpl; [|by left].
  destruct (bool_decide (action (op_at bh h) = Rebind)) eqn:Ea; simpl; [|by left]. bool_prop.
  destruct (out !! author (op_at bh h)) as [e|] eqn:Eo; [|by left].
  right. split_and!; [done..|]. by exists e.
Qed.

(** An invariant of the map that the two kinds of step preserve holds of the
    built map. *)
Lemma build_members_inv (P : gmap string ValidMember -> Prop) bh order valid anc gh gov now :
  P ∅ ->
  (forall out h, h ∈ order -> P out -> P (admit_step bh order valid anc gh gov now out h)) ->
  (forall out h, h ∈ order -> P out -> P (rebind_step bh valid out h)) ->
  P (build_members bh order valid anc gh gov now).
Proof.
  intros H0 H1 H2. unfold build_members.
  apply foldl_inv; [apply foldl_inv; [done|]|]; intros; eauto.
Qed.

Lemma build_members_keyed bh order valid anc gh gov now :
  keyed (build_members bh order valid anc gh gov now).
Proof.
  apply build_members_inv; [done| |].
  - intros out h _ Hk. destruct (admit_step_cases bh order valid anc gh gov now out h)
      as [->|(_ & _ & e & -> & ->)]; [done|].
    intros p e'. rewrite lookup_insert. case_decide as E; [|apply Hk].
    intros [= <-]. by rewrite overlay_principal.
  - intros out h _ Hk. destruct (rebind_step_cases bh valid out h)
      as [->|(_ & _ & e & _ & ->)]; [done|].
    intros p e'. rewrite lookup_fmap, lookup_insert. case_decide as E; simpl.
    + intros [= <-]. by case_bool_decide.
    + rewrite lookup_delete. case_decide; [done|]. intros (x & Hx & ->)%fmap_Some.
      apply Hk in Hx. by case_bool_decide.
Qed.

(** Every member is the subject of a surviving admit (or of the genesis), or
    of a surviving rebind. *)
Lemma build_members_origin bh order valid anc gh gov now p e :
  build_members bh order valid anc gh gov now !! p = Some e ->
  exists h, h ∈ order /\ h ∈ valid /\ subject (op_at bh h) = p /\
    (h = gh \/ action (op_at bh h) = Admit \/ action (op_at bh h) = Rebind).
Proof.
  revert p e. apply (build_members_inv (fun m => forall p e, m !! p = Some e -> exists h,
    h ∈ order /\ h ∈ valid /\ subject (op_at bh h) = p /\
    (h = gh \/ action (op_at bh h) = Admit \/ action (op_at bh h) = Rebind))).
  - intros p e. by rewrite lookup_empty.
  - intros out h Ho Hk p e'. destruct (admit_step_cases bh order valid anc gh gov now out h)
      as [->|(Hv & Ha & e & -> & _)]; [apply Hk|].
    rewrite lookup_insert. case_decide as E; [|apply Hk]. intros _. exists h. tauto.
  - intros out h Ho Hk p e'. destruct (rebind_step_cases bh valid out h)
      as [->|(Hv & Ha & e & _ & ->)]; [apply Hk|].
    rewrite lookup_fmap, lookup_insert. case_decide as E; [intros _; exists h; tauto|].
    rewrite lookup_delete. case_decide; [done|]. intros (x & Hx & _)%fmap_Some. by eapply Hk.
Qed.

(** ** The cascade and the blocklist *)

Lemma delete_all_lookup (l : list string) (m : gmap string ValidMember) p :
  foldl (fun m p => delete p m) m l !! p = if bool_decide (p ∈ l) then None else m !! p.
Proof.
  revert m. induction l as [|x l IH]; intros m; [done|].
  cbn [foldl]. rewrite IH, lookup_delete. repeat case_bool_decide; repeat case_decide; set_solver.
Qed.

Lemma delete_all_sub (l : list string) (m : gmap string ValidMember) :
  foldl (fun m p => delete p m) m l ⊆ m.
Proof.
  apply map_subseteq_spec. intros p e. rewrite delete_all_lookup. by case_bool_decide.
Qed.

Lemma elem_of_orphans owner m p :
  p ∈ orphans owner m <-> exists q e, m !! q = Some e /\ principal e = p /\
    p <> owner /\ invited_by e ∉ dom m.
Proof.
  unfold orphans. rewrite list_elem_of_In, in_map_iff. split.
  - intros (e & <- & He). rewrite <- list_elem_of_In, elem_of_List_filter, list_elem_of_In, in_map_iff in He.
    destruct He as [([q e'] & Hq & Hin) Hb]. simpl in Hq. subst e'. bool_prop.
    rewrite <- list_elem_of_In, elem_of_map_to_list in Hin. by exists q, e.
  - intros (q & e & Hq & <- & Hne & Hi). exists e. split; [done|].
    rewrite <- list_elem_of_In, elem_of_List_filter, list_elem_of_In, in_map_iff. split.
    + exists (q, e). split; [done|]. by rewrite <- list_elem_of_In, elem_of_map_to_list.
    + by rewrite !bool_decide_eq_false_2.
Qed.

Lemma cascade_loop_spec n owner m :
  keyed m -> size m < n ->
  cascade_loop n owner m ⊆ m /\
  (forall e, m !! owner = Some e -> cascade_loop n owner m !! owner = Some e) /\
  (forall p e, cascade_loop n owner m !! p = Some e ->
     p = owner \/ is_Some (cascade_loop n owner m !! invited_by e)).
Proof.
  revert m. induction n as [|n IH]; intros m Hk Hn; [lia|]. cbn [cascade_loop].
  destruct (orphans owner m) as [|x os] eqn:Eo.
  - split_and!; [done|done|]. intros p e Hp. destruct (decide (p = owner)) as [|Hne]; [by left|].
    right. apply elem_of_dom. destruct (decide (invited_by e ∈ dom m)) as [|Hi]; [done|].
    assert (p ∈ orphans owner m) as Hin by (apply elem_of_orphans; exists p, e; eauto).
    rewrite Eo in Hin. set_solver.
  - assert (Hx : x ∈ orphans owner m) by (rewrite Eo; set_solver).
    assert (Hno : owner ∉ x :: os).
    { rewrite <- Eo. by intros (? & ? & _ & _ & ? & _)%elem_of_orphans. }
    pose proof (delete_all_sub (x :: os) m) as Hs.
    set (m' := foldl (fun m p => delete p m) m (x :: os)) in *.
    assert (Hk' : keyed m') by (intros p e Hp; apply Hk; by eapply lookup_weaken).
    assert (Hsz : size m' < size m).
    { apply elem_of_orphans in Hx as (q & e & Hq & Hp & _). rewrite (Hk _ _ Hq) in Hp. subst q.
      rewrite <- !size_dom. apply subset_size. split; [by apply subseteq_dom|].
      intros Hc. assert (x ∈ dom m') as [e' He']%elem_of_dom by (apply Hc, elem_of_dom; by exists e).
      unfold m' in He'. rewrite delete_all_lookup, bool_decide_eq_true_2 in He'; [done|set_solver]. }
    destruct (IH m' Hk' ltac:(lia)) as (H1 & H2 & H3). split_and!; [by etrans| |done].
    intros e He. apply H2. unfold m'. by rewrite delete_all_lookup, bool_decide_eq_false_2.
Qed.

Lemma members_from_sub bh gh now gov view :
  members_from bh gh now gov view ⊆
  build_members bh (causal_order bh gh) (valid_ops bh gh (subject (op_at bh gh)) gov now)
    (ancestor_map bh (causal_order bh gh)) gh gov now.
Proof.
  unfold members_from. set (m := build_members _ _ _ _ _ _ _).
  assert (Hc : (if bool_decide (cascade view = CascadeAll)
     then cascade_loop (S (size m)) (subject (op_at bh gh)) m else m) ⊆ m).
  { case_bool_decide; [|done]. apply cascade_loop_spec; [apply build_members_keyed|lia]. }
  destruct (bool_decide (blocklist view = ∅)); [done|].
  etrans; [apply map_filter_subseteq|done].
Qed.

(** ** From the log to the indexed ops *)

Lemma op_at_Some bh h o : bh !! h = Some o -> op_at bh h = op o.
Proof. intros E. unfold op_at. by rewrite (lookup_total_correct _ _ _ E). Qed.

(** The genesis the derivation found: honoured, unblocked and indexed. *)
Lemma genesis_found ops view anchor g :
  no_collision ops -> List.find (is_genesis_for anchor) (admissible ops view) = Some g ->
  let bh := index_by_hash (admissible ops view) in
  g ∈ admissible ops view /\ is_genesis_for anchor g = true /\
  bh !! chain_hash g = Some g /\ op_at bh (chain_hash g) = op g.
Proof.
  intros Hc Hf bh. apply find_some in Hf as [Hin Hg]. apply list_elem_of_In in Hin.
  assert (Hb : bh !! chain_hash g = Some g).
  { apply index_lookup; [|done]. by eapply no_collision_sub; [apply admissible_sub|]. }
  split_and!; [done..|]. by apply op_at_Some.
Qed.

Lemma is_genesis_for_spec anchor o : is_genesis_for anchor o = true ->
  prev_hash (op o) = "" /\ action (op o) = Admit /\ subject (op o) = author (op o) /\
  author_pubkey o = anchor.
Proof. unfold is_genesis_for. intros. by bool_prop. Qed.

(** An indexed hash of the order names a record of the log. *)
Lemma order_record l gh h :
  h ∈ causal_order (index_by_hash l) gh -> exists o,
    o ∈ l /\ chain_hash o = h /\ op_at (index_by_hash l) h = op o /\
    reachable (index_by_hash l) gh h.
Proof.
  intros Hh. destruct (index_by_hash l !! gh) as [x|] eqn:Eg.
  2: { unfold causal_order in Hh. rewrite Eg in Hh. by apply not_elem_of_nil in Hh. }
  pose proof (causal_order_correct (index_by_hash l) gh ltac:(by exists x)) as Hok.
  destruct (co_indexed _ _ _ Hok h Hh) as [o Ho]. exists o.
  pose proof (index_lookup_Some _ _ _ Ho) as [? ?]. split_and!; [done..| |].
  - by apply op_at_Some.
  - by apply Hok.
Qed.

(** Under single-owner governance no surviving removal targets the owner. *)
Lemma no_owner_removal bh gh owner now h :
  action (op_at bh gh) = Admit ->
  h ∈ valid_ops bh gh owner SingleOwner now ->
  is_removal (action (op_at bh h)) && bool_decide (subject (op_at bh h) = owner) = false.
Proof.
  intros Hg Hh. destruct (is_removal (action (op_at bh h))) eqn:Er; [|done]. simpl.
  case_bool_decide as Es; [|done]. exfalso.
  destruct (decide (h = gh)) as [->|Hne]; [by rewrite Hg in Er|].
  destruct (valid_ops_authorized bh gh owner SingleOwner now h Hh Hne) as (v & _ & Ha).
  unfold authorized in Ha. destruct (_ !! author (op_at bh h)) as [a|]; [|done].
  rewrite (bool_decide_eq_true_2 (SingleOwner = SingleOwner)),
    (bool_decide_eq_true_2 (subject (op_at bh h) = owner)) in Ha by done.
  destruct (action (op_at bh h)); try done;
    by destruct (bool_decide (m_role a = Owner)).
Qed.

Lemma removal_tally_None target n bh valid authors l :
  (forall h, h ∈ l -> h ∈ valid ->
     is_removal (action (op_at bh h)) && bool_decide (subject (op_at bh h) = target) = false) ->
  removal_tally target n bh valid authors l = None.
Proof.
  induction l as [|h l IH]; intros Hn; cbn [removal_tally]; [done|].
  rewrite IH by (intros; apply Hn; set_solver). case_bool_decide as Hv; simpl; [|done].
  by rewrite (Hn h) by set_solver.
Qed.

(** *** Who removed a principal *)

(** The distinct authors of the surviving removals of [target] in [l]. *)
Definition removers (bh : gmap string SignedMembershipOp) (valid : gset string) (target : string)
    (l : list string) : gset string :=
  list_to_set (map (fun h => author (op_at bh h))
    (List.filter (fun h => bool_decide (h ∈ valid) && is_removal (action (op_at bh h))
                           && bool_decide (subject (op_at bh h) = target)) l)).

Lemma removers_app bh valid target l1 l2 :
  removers bh valid target (l1 ++ l2) = removers bh valid target l1 ∪ removers bh valid target l2.
Proof. unfold removers. by rewrite List.filter_app, map_app, list_to_set_app_L. Qed.

Lemma removers_nil_below bh valid target gov :
  (N.of_nat (size (removers bh valid target [])) < removal_threshold gov)%N.
Proof.
  replace (removers bh valid target []) with (∅ : gset string) by done.
  rewrite size_empty. destruct gov; simpl; lia.
Qed.

Lemma removal_tally_spec target n bh valid l0 l :
  (N.of_nat (size (removers bh valid target l0)) < n)%N ->
  match removal_tally target n bh valid (removers bh valid target l0) l with
  | None => (N.of_nat (size (removers bh valid target (l0 ++ l))) < n)%N
  | Some h => exists l1 l2, l = l1 ++ h :: l2 /\ h ∈ valid /\
      is_removal (action (op_at bh h)) = true /\ subject (op_at bh h) = target /\
      (N.of_nat (size (removers bh valid target (l0 ++ l1))) < n)%N /\
      (n <= N.of_nat (size (removers bh valid target (l0 ++ l1 ++ [h]))))%N
  end.
Proof.
  revert l0. induction l as [|h l IH]; intros l0 Hl0; cbn [removal_tally].
  { by rewrite app_nil_r. }
  assert (Hone : removers bh valid target [h] =
    if bool_decide (h ∈ valid) && is_removal (action (op_at bh h))
       && bool_decide (subject (op_at bh h) = target)
    then {[author (op_at bh h)]} else ∅).
  { unfold removers. cbn [List.filter]. case_match; simpl; set_solver. }
  assert (Hsnoc : forall b, removers bh valid target [h] = b ->
    removers bh valid target (l0 ++ [h]) = b ∪ removers bh valid target l0).
  { intros b <-. rewrite removers_app. set_solver. }
  assert (Hskip : removers bh valid target [h] = ∅ ->
    match removal_tally target n bh valid (removers bh valid target l0) l with
    | None => (N.of_nat (size (removers bh valid target (l0 ++ h :: l))) < n)%N
    | Some h' => exists l1 l2, h :: l = l1 ++ h' :: l2 /\ h' ∈ valid /\
        is_removal (action (op_at bh h')) = true /\ subject (op_at bh h') = target /\
        (N.of_nat (size (removers bh valid target (l0 ++ l1))) < n)%N /\
        (n <= N.of_nat (size (removers bh valid target (l0 ++ l1 ++ [h']))))%N
    end).
  { intros He. assert (Es : removers bh valid target (l0 ++ [h]) = removers bh valid target l0)
      by (rewrite (Hsnoc _ He); set_solver).
    specialize (IH (l0 ++ [h])). rewrite Es in IH. specialize (IH Hl0).
    destruct (removal_tally _ _ _ _ _ l) as [h'|].
    - destruct IH as (l1 & l2 & -> & ? & ? & ? & ? & ?). exists (h :: l1), l2.
      rewrite <- !app_assoc in *. by split_and!.
    - by rewrite <- app_assoc in IH. }
  destruct (bool_decide (h ∈ valid)) eqn:Ev; simpl in *; [|by apply Hskip].
  destruct (is_removal (action (op_at bh h)) && bool_decide (subject (op_at bh h) = target)) eqn:Er;
    [|by apply Hskip].
  rewrite <- (Hsnoc _ Hone). apply andb_true_iff in Er as [Er1 Er2]. bool_prop.
  destruct (N.leb_spec n (N.of_nat (size (removers bh valid target (l0 ++ [h]))))) as [Hle|Hlt].
  - exists [], l. rewrite app_nil_r. by split_and!.
  - specialize (IH (l0 ++ [h]) Hlt). destruct (removal_tally _ _ _ _ _ l) as [h'|].
    + destruct IH as (l1 & l2 & -> & ? & ? & ? & ? & ?). exists (h :: l1), l2.
      rewrite <- !app_assoc in *. by split_and!.
    + by rewrite <- app_assoc in IH.
Qed.

(** *** Dishonoured records *)

Lemma registry_step_dishonoured st o : verify_signed o = false -> registry_step st o = st.
Proof.
  intros Hv. unfold registry_step. destruct st as [best keys]. rewrite Hv.
  by destruct (negb (bool_decide (action _ = _))), (negb (bool_decide (author _ = _))).
Qed.

Lemma registry_drop l1 bad l2 :
  verify_signed bad = false ->
  build_recovery_registry (l1 ++ bad :: l2) = build_recovery_registry (l1 ++ l2).
Proof.
  intros Hv. unfold build_recovery_registry. rewrite !foldl_app. cbn [foldl].
  by rewrite registry_step_dishonoured.
Qed.

Lemma honoured_drop l1 bad l2 :
  honoured (l1 ++ bad :: l2) bad = false ->
  crypto_valid (l1 ++ bad :: l2) = crypto_valid (l1 ++ l2) /\
  forall view, admissible (l1 ++ bad :: l2) view = admissible (l1 ++ l2) view.
Proof.
  unfold honoured. intros [Hv Hr]%orb_false_iff.
  pose proof (registry_drop l1 bad l2 Hv) as Hreg.
  unfold crypto_valid, admissible. rewrite Hreg in *. split; [|intros view];
    rewrite !List.filter_app; cbn [List.filter]; by rewrite Hv, Hr.
Qed.

(** *** Rebind links and the owner role *)

Lemma valid_rebind_link l gh owner gov now h :
  action (op_at (index_by_hash l) gh) = Admit ->
  h ∈ valid_ops (index_by_hash l) gh owner gov now ->
  action (op_at (index_by_hash l) h) = Rebind ->
  exists o, o ∈ l /\ op_at (index_by_hash l) h = op o /\ rebind_link o.
Proof.
  intros Hg Hh Ha. assert (h <> gh) as Hne by congruence.
  destruct (order_record l gh h (valid_ops_order _ _ _ _ _ _ Hh)) as (o & Ho & _ & Eo & _).
  exists o. split_and!; [done..|].
  destruct (valid_ops_authorized _ _ _ _ _ _ Hh Hne) as (v & _ & Hau).
  unfold authorized in Hau. rewrite Ha, Eo in *.
  destruct (_ !! author (op o)); [|done]. destruct (new_pubkey (op o)) as [pk|] eqn:Ek; [|done].
  bool_prop. split_and!; [done| |done]. by exists pk.
Qed.

Lemma overlay_owner bh valid anc h p e l :
  (forall sh, sh ∈ l -> sh ∈ valid -> action (op_at bh sh) = SetRole -> role (op_at bh sh) <> Some Owner) ->
  m_role (foldl (overlay_step bh valid anc h p) e l) = Owner -> m_role e = Owner.
Proof.
  intros Hn. apply (foldl_inv (fun e' => m_role e' = Owner -> m_role e = Owner)); [done|].
  intros acc sh Hsh IH. unfold overlay_step. destruct (bool_decide (sh ∈ valid)) eqn:Ev; [|done].
  simpl. destruct (_ && _ && _) eqn:E; [|done]. bool_prop.
  destruct (role (op_at bh sh)) as [nr|] eqn:Er; [|done]. simpl. intros ->.
  by destruct (Hn sh Hsh Ev).
Qed.

Lemma build_members_owner_role l gh owner gov now p e :
  let bh := index_by_hash l in
  action (op_at bh gh) = Admit -> subject (op_at bh gh) = owner ->
  (forall o, o ∈ l -> chain_hash o <> gh -> role (op o) <> Some Owner) ->
  build_members bh (causal_order bh gh) (valid_ops bh gh owner gov now)
    (ancestor_map bh (causal_order bh gh)) gh gov now !! p = Some e ->
  m_role e = Owner -> owner_chain l owner p.
Proof.
  intros bh Hg Hown Hno. revert p e. set (order := causal_order bh gh).
  assert (Hrole : forall h, h ∈ order -> h <> gh -> role (op_at bh h) <> Some Owner).
  { intros h Hh Hne. destruct (order_record l gh h Hh) as (o & Ho & Hc & Eo & _).
    fold bh in Eo. rewrite Eo. apply Hno; [done|congruence]. }
  apply (build_members_inv (fun m => forall p e, m !! p = Some e -> m_role e = Owner -> owner_chain l owner p)).
  - intros p e. by rewrite lookup_empty.
  - intros out h Ho Hk p e'. destruct (admit_step_cases bh order (valid_ops bh gh owner gov now)
      (ancestor_map bh order) gh gov now out h) as [->|(Hv & Ha & e & -> & ->)]; [apply Hk|].
    rewrite lookup_insert. case_decide as E; [|apply Hk]. intros [= <-] Hr.
    apply overlay_owner in Hr.
    + simpl in Hr. destruct (decide (h = gh)) as [->|Hne].
      * rewrite <- E, Hown. apply oc_owner.
      * rewrite bool_decide_eq_false_2 in Hr by done. specialize (Hrole h Ho Hne).
        destruct (role (op_at bh h)); naive_solver.
    + intros sh Hsh _ Ha'. apply Hrole; [done|]. congruence.
  - intros out h Ho Hk p e'. destruct (rebind_step_cases bh (valid_ops bh gh owner gov now) out h)
      as [->|(Hv & Ha & e & He & ->)]; [apply Hk|].
    rewrite lookup_fmap, lookup_insert. case_decide as E; simpl.
    + intros [= <-] Hr. assert (m_role e = Owner) as Hr' by (revert Hr; by case_bool_decide).
      destruct (valid_rebind_link l gh owner gov now h Hg Hv Ha) as (o & Hin & Eo & Hl).
      rewrite <- E. fold bh in Eo. rewrite Eo in *. apply oc_rebind; [done|done|]. by eapply Hk.
    + rewrite lookup_delete. case_decide; [done|]. intros (x & Hx & ->)%fmap_Some Hr.
      eapply Hk; [done|]. revert Hr. by case_bool_decide.
Qed.

(** *** The owner stays *)

Lemma admit_step_genesis bh order valid anc gh gov now out :
  gh ∈ valid -> effective_removal (subject (op_at bh gh)) gov bh order valid = None ->
  expired now (op_at bh gh) = false ->
  is_Some (admit_step bh order valid anc gh gov now out gh !! subject (op_at bh gh)).
Proof.
  intros Hv Hr He. unfold admit_step. rewrite (bool_decide_eq_true_2 _ Hv), Hr, He.
  rewrite (bool_decide_eq_true_2 (gh = gh)) by done. simpl. rewrite lookup_insert_eq. by eexists.
Qed.

Lemma admit_step_keeps bh order valid anc gh gov now out h p :
  is_Some (out !! p) -> is_Some (admit_step bh order valid anc gh gov now out h !! p).
Proof.
  intros Hp. destruct (admit_step_cases bh order valid anc gh gov now out h)
    as [->|(_ & _ & e & -> & _)]; [done|]. rewrite lookup_insert. case_decide; [by eexists|done].
Qed.

Lemma rebind_step_keeps bh valid out h p :
  (action (op_at bh h) = Rebind -> author (op_at bh h) <> p) ->
  is_Some (out !! p) -> is_Some (rebind_step bh valid out h !! p).
Proof.
  intros Hn Hp. destruct (rebind_step_cases bh valid out h) as [->|(_ & Ha & e & _ & ->)]; [done|].
  rewrite lookup_fmap, fmap_is_Some, lookup_insert. case_decide; [by eexists|].
  rewrite lookup_delete_ne; [done|by apply Hn].
Qed.

Lemma build_members_owner_present bh gh now :
  let owner := subject (op_at bh gh) in
  is_Some (bh !! gh) -> action (op_at bh gh) = Admit -> expired now (op_at bh gh) = false ->
  (forall h, h ∈ causal_order bh gh -> action (op_at bh h) = Rebind -> author (op_at bh h) <> owner) ->
  is_Some (build_members bh (causal_order bh gh) (valid_ops bh gh owner SingleOwner now)
    (ancestor_map bh (causal_order bh gh)) gh SingleOwner now !! owner).
Proof.
  intros owner Hg Ha He Hr. pose proof (causal_order_correct bh gh Hg) as Hok.
  assert (Hf : effective_removal owner SingleOwner bh (causal_order bh gh)
    (valid_ops bh gh owner SingleOwner now) = None).
  { apply removal_tally_None. intros h _ Hh. by eapply no_owner_removal. }
  unfold build_members. apply (foldl_inv (fun m => is_Some (m !! owner))).
  - assert (Hs : forall l l', l = gh :: l' -> is_Some (foldl (admit_step bh (causal_order bh gh)
      (valid_ops bh gh owner SingleOwner now) (ancestor_map bh (causal_order bh gh)) gh SingleOwner now)
      ∅ l !! owner)).
    { intros l l' ->. cbn [foldl]. apply (foldl_inv (fun m => is_Some (m !! owner))).
      - apply admit_step_genesis; [by apply valid_ops_genesis|done|done].
      - intros. by apply admit_step_keeps. }
    pose proof (co_head _ _ _ Hok) as Hh.
    destruct (causal_order bh gh) as [|x l] eqn:Eo; [done|]. injection Hh as ->. by eapply Hs.
  - intros out h Hh. apply rebind_step_keeps. by apply Hr.
Qed.

Lemma members_from_owner bh gh now view :
  let owner := subject (op_at bh gh) in
  owner ∉ blocklist view ->
  is_Some (build_members bh (causal_order bh gh) (valid_ops bh gh owner SingleOwner now)
    (ancestor_map bh (causal_order bh gh)) gh SingleOwner now !! owner) ->
  is_Some (members_from bh gh now SingleOwner view !! owner).
Proof.
  intros owner Hb Hp. unfold members_from. fold owner. set (m := build_members _ _ _ _ _ _ _) in *.
  assert (Hc : is_Some ((if bool_decide (cascade view = CascadeAll)
     then cascade_loop (S (size m)) owner m else m) !! owner)).
  { case_bool_decide; [|done]. destruct Hp as [e He]. exists e.
    eapply cascade_loop_spec; [apply build_members_keyed|lia|done]. }
  destruct (bool_decide (blocklist view = ∅)); [done|].
  destruct Hc as [e He]. exists e. by apply map_lookup_filter_Some.
Qed.

(** *** Convergence of the validity loop *)

Lemma validity_loop_stable pass n v m :
  m < n -> Nat.iter m pass v = Nat.iter (S m) pass v ->
  pass (validity_loop pass n v) = validity_loop pass n v.
Proof.
  revert v m. induction n as [|n IH]; intros v m Hm Hst; [lia|]. cbn [validity_loop].
  case_bool_decide as E; [by rewrite E, E|].
  destruct m as [|m]; [by simpl in Hst|].
  apply (IH (pass v) m); [lia|]. rewrite <- !Nat.iter_succ_r. done.
Qed.

(** Without removals, whether an op survives depends on its ancestors only. *)
Lemma survives_local bh gh owner gov now v1 v2 h :
  (forall x, x ∈ causal_order bh gh -> is_removal (action (op_at bh x)) = false) ->
  h ∈ causal_order bh gh ->
  (forall x, x ∈ ancestors bh h -> x ∈ v1 <-> x ∈ v2) ->
  survives bh (causal_order bh gh) (ancestor_map bh (causal_order bh gh)) gh owner gov now v1 h =
  survives bh (causal_order bh gh) (ancestor_map bh (causal_order bh gh)) gh owner gov now v2 h.
Proof.
  intros Hr Hh Hv. unfold survives, membership_at. rewrite ancestor_map_total by done.
  assert (v1 ∩ ancestors bh h = v2 ∩ ancestors bh h) as -> by (apply set_eq; set_solver).
  assert (Hno : forall v t, effective_removal t gov bh (causal_order bh gh) v = None).
  { intros v t. apply removal_tally_None. intros x Hx _. by rewrite Hr. }
  by rewrite !Hno.
Qed.

Lemma validity_settles bh gh owner gov now k i h v :
  let pass := validity_pass bh (causal_order bh gh) (ancestor_map bh (causal_order bh gh)) gh owner gov now in
  (forall x, x ∈ causal_order bh gh -> is_removal (action (op_at bh x)) = false) ->
  parent_of bh gh "" -> i < k -> causal_order bh gh !! i = Some h ->
  h ∈ Nat.iter k pass v <-> h ∈ Nat.iter (S k) pass v.
Proof.
  intros pass Hr Hroot. revert i h. induction k as [|k IH]; intros i h Hi Eh; [lia|].
  assert (Hh : h ∈ causal_order bh gh) by (by eapply list_elem_of_lookup_2).
  change (h ∈ pass (Nat.iter k pass v) <-> h ∈ pass (Nat.iter (S k) pass v)).
  unfold pass at 1 3. rewrite !elem_of_pass.
  rewrite (survives_local bh gh owner gov now (Nat.iter k pass v) (Nat.iter (S k) pass v) h); [done..|].
  assert (Hs : is_Some (bh !! gh)) by (destruct Hroot as (o & ? & _); by exists o).
  pose proof (causal_order_correct bh gh Hs) as Hok.
  intros x Hx. apply ancestors_correct in Hx; [|by eapply co_indexed].
  destruct (ancestor_before bh gh _ i h x Hok Hroot Eh Hx) as (j & Hj & Ej).
  apply (IH j); [lia|done].
Qed.

Lemma validity_fixpoint bh gh owner gov now v :
  let order := causal_order bh gh in
  let pass := validity_pass bh order (ancestor_map bh order) gh owner gov now in
  (forall x, x ∈ order -> is_removal (action (op_at bh x)) = false) -> parent_of bh gh "" ->
  Nat.iter (S (length order)) pass v = Nat.iter (S (S (length order))) pass v.
Proof.
  intros order pass Hno Hroot. apply set_eq. intros h.
  assert (Hin : forall k, h ∈ Nat.iter (S k) pass v -> exists i, i < S (length order) /\ order !! i = Some h).
  { intros k Hh. change (h ∈ pass (Nat.iter k pass v)) in Hh.
    apply elem_of_pass in Hh as [[i Hi]%list_elem_of_lookup _].
    exists i. split; [apply Nat.lt_lt_succ_r; by eapply lookup_lt_Some|done]. }
  split; intros Hh; destruct (Hin _ Hh) as (i & Hlt & Hi);
    by apply (validity_settles bh gh owner gov now _ i h v Hno Hroot Hlt Hi).
Qed.

(** *** Encryption *)

Lemma registry_step_other st o : action (op o) <> RegisterRecoveryKey -> registry_step st o = st.
Proof.
  intros Hn. unfold registry_step. destruct st as [best keys].
  by rewrite bool_decide_eq_false_2.
Qed.

Lemma registry_app_other l more :
  (forall o, o ∈ more -> action (op o) <> RegisterRecoveryKey) ->
  build_recovery_registry (l ++ more) = build_recovery_registry l.
Proof.
  intros Hn. unfold build_recovery_registry. rewrite foldl_app. f_equal.
  apply (foldl_inv (fun st => st = foldl registry_step (∅, ∅) l)); [done|].
  intros acc o Ho ->. by apply registry_step_other, Hn.
Qed.

Lemma owner_chain_mono c1 c2 owner x : c1 ⊆ c2 -> owner_chain c1 owner x -> owner_chain c2 owner x.
Proof.
  intros Hs. induction 1 as [|o Ho Hl _ IH]; [apply oc_owner|]. apply oc_rebind; [set_solver|done..].
Qed.

Lemma find_app_Some {A} (f : A -> bool) l1 l2 x :
  List.find f l1 = Some x -> List.find f (l1 ++ l2) = Some x.
Proof. induction l1 as [|y l1 IH]; simpl; [done|]. by destruct (f y). Qed.

(** ** Properties *)

(** C10. Provenance: every derived member is the subject of an honoured,
    unblocked, unexpired [Admit] or [Rebind] record of the log that the
    parent links connect to an honoured genesis signed by the trust anchor. *)
Theorem members_have_signed_origin ops anchor now gov view p m :
  no_collision ops ->
  derive_valid_members_governed ops anchor now gov view !! p = Some m ->
  exists g o, g ∈ ops /\ honoured ops g = true /\ is_genesis_for anchor g = true /\
    o ∈ ops /\ honoured ops o = true /\ author (op o) ∉ blocklist view /\
    subject (op o) = p /\ (action (op o) = Admit \/ action (op o) = Rebind) /\
    expired now (op o) = false /\
    reachable (index_by_hash (admissible ops view)) (chain_hash g) (chain_hash o).
Proof.
  intros Hc Hd. unfold derive_valid_members_governed in Hd.
  destruct (List.find _ _) as [g|] eqn:Ef; [|done].
  destruct (genesis_found ops view anchor g Hc Ef) as (Hg & Hgen & Hb & Eg).
  pose proof Hgen as Hs. apply is_genesis_for_spec in Hs as (_ & Ha & _ & _).
  pose proof (lookup_weaken _ _ _ _ Hd (members_from_sub _ _ _ _ _)) as Hm.
  apply build_members_origin in Hm as (h & Ho & Hv & Es & Hact).
  destruct (order_record _ _ _ Ho) as (o & Hin & Hh & Eo & Hreach).
  apply elem_of_admissible in Hg as (Hg1 & Hg2 & _), Hin as (Ho1 & Ho2 & Ho3).
  apply valid_ops_unexpired in Hv. rewrite Eo in *. subst h.
  exists g, o. split_and!; try done.
  destruct Hact as [Hgo|[?|?]]; [|by left|by right]. left. rewrite Hgo in Eo. congruence.
Qed.

(** Forged records are inert: a record that is neither signed by its
    author's key nor a rebind under the author's registered recovery key can
    be inserted anywhere without changing any derived state. *)
Theorem forged_records_are_inert l1 bad l2 anchor now gov view p :
  honoured (l1 ++ bad :: l2) bad = false ->
  derive_valid_members_governed (l1 ++ bad :: l2) anchor now gov view =
    derive_valid_members_governed (l1 ++ l2) anchor now gov view /\
  derive_governance (l1 ++ bad :: l2) anchor = derive_governance (l1 ++ l2) anchor /\
  derive_encryption (l1 ++ bad :: l2) anchor = derive_encryption (l1 ++ l2) anchor /\
  derive_rebirths (l1 ++ bad :: l2) anchor = derive_rebirths (l1 ++ l2) anchor /\
  find_wrapped_content_key (l1 ++ bad :: l2) anchor p = find_wrapped_content_key (l1 ++ l2) anchor p /\
  owner_anchor_pubkey (l1 ++ bad :: l2) p = owner_anchor_pubkey (l1 ++ l2) p.
Proof.
  intros [Hcv Had]%honoured_drop.
  unfold derive_valid_members_governed, derive_governance, derive_encryption, derive_rebirths,
    find_wrapped_content_key, owner_anchor_pubkey. rewrite Hcv, Had. by split_and!.
Qed.


(** The owner role does not spread by itself: when no record but the
    genesis grants [Owner], every derived member that holds it is the owner or
    a successor along its chain of key-bound rebinds. *)
Theorem owner_role_is_contained ops anchor now gov view g p m :
  no_collision ops ->
  List.find (is_genesis_for anchor) (admissible ops view) = Some g ->
  (forall o, o ∈ ops -> o <> g -> role (op o) <> Some Owner) ->
  derive_valid_members_governed ops anchor now gov view !! p = Some m ->
  m_role m = Owner -> owner_chain (admissible ops view) (subject (op g)) p.
Proof.
  intros Hc Hf Hno Hd Hr. unfold derive_valid_members_governed in Hd. rewrite Hf in Hd.
  destruct (genesis_found ops view anchor g Hc Hf) as (Hg & Hgen & Hb & Eg).
  apply is_genesis_for_spec in Hgen as (_ & Ha & _ & _).
  pose proof (lookup_weaken _ _ _ _ Hd (members_from_sub _ _ _ _ _)) as Hm.
  rewrite Eg in Hm. eapply build_members_owner_role in Hm; rewrite ?Eg; try done.
  intros o Ho Hne. apply Hno; [by eapply admissible_sub|congruence].
Qed.

(** A locally blocked principal is never in the derived map. *)
Theorem blocked_principals_are_absent ops anchor now gov view p :
  p ∈ blocklist view -> derive_valid_members_governed ops anchor now gov view !! p = None.
Proof.
  intros Hp. unfold derive_valid_members_governed. destruct (List.find _ _); [|apply lookup_empty].
  unfold members_from. rewrite bool_decide_eq_false_2 by set_solver.
  apply map_lookup_filter_None. right. intros e _. set_solver.
Qed.

(** A removal takes effect exactly at the quorum: [effective_removal] is
    [None] as long as fewer distinct authors than the threshold have a
    surviving removal of the target, and otherwise names the removal record
    at which the threshold is reached in causal order. *)
Theorem removal_needs_quorum target gov bh order valid :
  match effective_removal target gov bh order valid with
  | None => (N.of_nat (size (removers bh valid target order)) < removal_threshold gov)%N
  | Some h => exists l1 l2, order = l1 ++ h :: l2 /\ h ∈ valid /\
      is_removal (action (op_at bh h)) = true /\ subject (op_at bh h) = target /\
      (N.of_nat (size (removers bh valid target l1)) < removal_threshold gov)%N /\
      (removal_threshold gov <= N.of_nat (size (removers bh valid target (l1 ++ [h]))))%N
  end.
Proof.
  apply (removal_tally_spec target (removal_threshold gov) bh valid [] order), removers_nil_below.
Qed.

(** After a [CascadeAll] derivation without a blocklist every member but
    the owner has its inviter in the derived map: the cascade loop runs to
    completion and leaves no orphan. *)
Theorem cascade_leaves_no_orphan ops anchor now gov view g p m :
  no_collision ops ->
  List.find (is_genesis_for anchor) (admissible ops view) = Some g ->
  cascade view = CascadeAll -> blocklist view = ∅ ->
  derive_valid_members_governed ops anchor now gov view !! p = Some m ->
  p = subject (op g) \/
  is_Some (derive_valid_members_governed ops anchor now gov view !! invited_by m).
Proof.
  intros Hc Hf Hcas Hbl. unfold derive_valid_members_governed. rewrite Hf.
  destruct (genesis_found ops view anchor g Hc Hf) as (_ & _ & _ & Eg).
  unfold members_from. rewrite Eg, !bool_decide_eq_true_2 by done.
  apply cascade_loop_spec; [apply build_members_keyed|lia].
Qed.

(** On a log without removals the validity loop reaches a fixpoint within
    its iteration cap: one more pass over the surviving set changes nothing. *)
Theorem validity_converges_without_removals ops anchor now gov view g :
  no_collision ops ->
  List.find (is_genesis_for anchor) (admissible ops view) = Some g ->
  (forall o, o ∈ ops -> is_removal (action (op o)) = false) ->
  let bh := index_by_hash (admissible ops view) in
  let order := causal_order bh (chain_hash g) in
  let v := valid_ops bh (chain_hash g) (subject (op g)) gov now in
  validity_pass bh order (ancestor_map bh order) (chain_hash g) (subject (op g)) gov now v = v.
Proof.
  intros Hc Hf Hr bh order. destruct (genesis_found ops view anchor g Hc Hf) as (_ & Hgen & Hb & _).
  apply is_genesis_for_spec in Hgen as (Hp & _). fold bh in Hb.
  assert (Hno : forall x, x ∈ order -> is_removal (action (op_at bh x)) = false).
  { intros x Hx. destruct (order_record _ _ _ Hx) as (o & Ho & _ & Eo & _).
    fold bh in Eo. rewrite Eo. apply Hr. by eapply admissible_sub. }
  apply (validity_loop_stable _ _ _ (S (length order))); [unfold order; lia|].
  apply validity_fixpoint; [done|by exists g].
Qed.

(** Strong removal at a fixpoint: if [s] is effectively removed, then no
    surviving non-removal op of [s] is concurrent with that removal. *)
Theorem strong_removal_at_fixpoint bh gh owner gov now v s rh h :
  let order := causal_order bh gh in
  let anc := ancestor_map bh order in
  validity_pass bh order anc gh owner gov now v = v ->
  effective_removal s gov bh order v = Some rh ->
  h ∈ v -> h <> gh -> author (op_at bh h) = s -> is_removal (action (op_at bh h)) = false ->
  h ∈ ancestors bh rh \/ rh ∈ ancestors bh h.
Proof.
  intros order anc Hfix Hrem Hh Hne Ha Hact. rewrite <- Hfix in Hh.
  apply elem_of_pass in Hh as [Ho Hs]. unfold survives in Hs.
  destruct (expired now (op_at bh h)); [done|]. rewrite bool_decide_eq_false_2 in Hs by done.
  destruct (authorized _ _ _ _); [|done]. fold order in Hs. rewrite Hact, Ha, Hrem in Hs. simpl in Hs.
  assert (rh ∈ order) as Hrh.
  { pose proof (removal_tally_spec s (removal_threshold gov) bh v [] order) as Hq.
    unfold effective_removal in Hrem. unfold removers in Hq. simpl in Hq. rewrite Hrem in Hq.
    destruct Hq as (l1 & l2 & -> & _); [apply (removers_nil_below bh v s gov)|].
    set_solver. }
  fold anc in Hs. unfold anc in Hs. rewrite !ancestor_map_total in Hs by done.
  apply orb_true_iff in Hs as [?|?]; bool_prop; tauto.
Qed.

(** The encryption mode is a one-way latch: records appended to a log that
    derives [E2e], whatever they say and whoever signed them, cannot bring it
    back to plaintext, unless they re-register a recovery key. *)
Theorem encryption_latch ops more anchor :
  derive_encryption ops anchor = E2e ->
  (forall o, o ∈ more -> action (op o) <> RegisterRecoveryKey) ->
  derive_encryption (ops ++ more) anchor = E2e.
Proof.
  intros Hd Hn. unfold derive_encryption in *.
  assert (Hcv : exists tl, crypto_valid (ops ++ more) = crypto_valid ops ++ tl).
  { unfold crypto_valid. rewrite registry_app_other, List.filter_app by done. by eexists. }
  destruct Hcv as [tl Hcv]. rewrite Hcv.
  destruct (List.find _ (crypto_valid ops)) as [g|] eqn:Ef; [|done].
  rewrite (find_app_Some _ _ _ _ Ef).
  destruct (existsb _ (crypto_valid ops)) eqn:Ex; [|done].
  apply existsb_exists in Ex as (o & Ho & Hb). bool_prop.
  rewrite (proj2 (existsb_exists _ (crypto_valid ops ++ tl))); [done|].
  exists o. split; [apply in_app_iff; by left|].
  rewrite !bool_decide_eq_true_2; [done|done| |done].
  apply owner_principal_chain_spec. eapply owner_chain_mono; [|by apply owner_principal_chain_spec].
  set_solver.
Qed.
End Safety.

(** ** Witnesses *)
#[local] Existing Instance Toy.toy.

(** The derived membership of a sample log under single-owner governance. *)
Definition members_of (l : list SignedMembershipOp) : gmap string ValidMember :=
  derive_valid_members_governed l "ow" 0 SingleOwner default_view.

Lemma members_have_signed_origin_witness :
  exists g o, g ∈ Toy.log /\ honoured Toy.log g = true /\ is_genesis_for "ow" g = true /\
    o ∈ Toy.log /\ honoured Toy.log o = true /\ author (op o) ∉ blocklist default_view /\
    subject (op o) = Toy.fp "ed" /\ (action (op o) = Admit \/ action (op o) = Rebind) /\
    expired 0 (op o) = false /\
    reachable (index_by_hash (admissible Toy.log default_view)) (chain_hash g) (chain_hash o).
Proof.
  apply (members_have_signed_origin Toy.log "ow" 0 SingleOwner default_view (Toy.fp "ed")
    (mkMember (Toy.fp "ed") Editor true (Toy.fp "ow") 0 Full)); [apply toy_log_no_collision|by vm_compute].
Defined.

(** A record that claims the owner as author under another key. *)
Lemma forged_records_are_inert_witness :
  let bad := mkSigned (op Toy.rem1) (Toy.sign "xx" "bad1") "xx" in
  derive_valid_members_governed ([Toy.genesis] ++ bad :: [Toy.adm1]) "ow" 0 SingleOwner default_view =
    derive_valid_members_governed ([Toy.genesis] ++ [Toy.adm1]) "ow" 0 SingleOwner default_view.
Proof.
  intros bad. apply (forged_records_are_inert [Toy.genesis] bad [Toy.adm1] "ow" 0 SingleOwner default_view "").
  by vm_compute.
Defined.


Lemma owner_role_is_contained_witness :
  owner_chain (admissible Toy.log default_view) (Toy.fp "ow") (Toy.fp "ow").
Proof.
  apply (owner_role_is_contained Toy.log "ow" 0 SingleOwner default_view Toy.genesis (Toy.fp "ow")
    (mkMember (Toy.fp "ow") Owner true (Toy.fp "ow") 0 Full));
    [apply toy_log_no_collision|by vm_compute| |by vm_compute|done].
  intros o Ho Hne. unfold Toy.log in Ho. by each_elem Ho.
Defined.

Lemma blocked_principals_are_absent_witness :
  derive_valid_members_governed Toy.log "ow" 0 SingleOwner (mkView PendingOnly {[Toy.fp "ed"]})
    !! Toy.fp "ed" = None /\ is_Some (members_of Toy.log !! Toy.fp "ed").
Proof.
  split; [|vm_compute; by eexists]. apply blocked_principals_are_absent. simpl. set_solver.
Defined.

(** The editor admits a viewer and is removed: the cascade drops the viewer. *)
Lemma cascade_leaves_no_orphan_witness :
  let l := [Toy.genesis; Toy.adm1; Toy.adm2] in
  let m := derive_valid_members_governed l "ow" 0 SingleOwner (mkView CascadeAll ∅) in
  (Toy.fp "vi" = Toy.fp "ow" \/ is_Some (m !! Toy.fp "ed")) /\
  dom (derive_valid_members_governed
         (l ++ [Toy.rec_ "rem2" Remove (Toy.fp "ed") None false "ow" (Toy.h "adm2")])
         "ow" 0 SingleOwner (mkView CascadeAll ∅)) = {[Toy.fp "ow"]}.
Proof.
  intros l m. split; [|apply (bool_decide_unpack (_ = _)); by vm_compute].
  apply (cascade_leaves_no_orphan l "ow" 0 SingleOwner (mkView CascadeAll ∅) Toy.genesis (Toy.fp "vi")
    (mkMember (Toy.fp "vi") Viewer false (Toy.fp "ed") 0 Full)); [|by vm_compute|done|done|by vm_compute].
  apply no_collision_NoDup. apply (bool_decide_unpack (NoDup _)). by vm_compute.
Defined.

Lemma validity_converges_without_removals_witness :
  let l := [Toy.genesis; Toy.adm1; Toy.adm2] in
  let bh := index_by_hash (admissible l default_view) in
  let order := causal_order bh (chain_hash Toy.genesis) in
  let v := valid_ops bh (chain_hash Toy.genesis) (subject (op Toy.genesis)) SingleOwner 0 in
  validity_pass bh order (ancestor_map bh order) (chain_hash Toy.genesis) (subject (op Toy.genesis))
    SingleOwner 0 v = v.
Proof.
  intros l. refine (validity_converges_without_removals l "ow" 0 SingleOwner default_view Toy.genesis _ _ _).
  - apply no_collision_NoDup. apply (bool_decide_unpack (NoDup _)). by vm_compute.
  - by vm_compute.
  - intros o Ho. unfold l in Ho. by each_elem Ho.
Defined.

Lemma strong_removal_at_fixpoint_witness :
  let l := [Toy.genesis; Toy.adm1; Toy.adm2; Toy.rec_ "rem3" Remove (Toy.fp "ed") None false "ow" (Toy.h "adm2")] in
  let bh := index_by_hash l in
  Toy.h "adm2" ∈ ancestors bh (Toy.h "rem3") \/ Toy.h "rem3" ∈ ancestors bh (Toy.h "adm2").
Proof.
  intros l bh. refine (strong_removal_at_fixpoint bh (Toy.h "gene") (Toy.fp "ow") SingleOwner 0
    (valid_ops bh (Toy.h "gene") (Toy.fp "ow") SingleOwner 0) (Toy.fp "ed")
    (Toy.h "rem3") (Toy.h "adm2") _ _ _ _ _ _); [apply (bool_decide_unpack (_ = _)); by vm_compute|by vm_compute| |done|by vm_compute|by vm_compute].
  apply (bool_decide_unpack (_ ∈ _)). by vm_compute.
Defined.

Lemma encryption_latch_witness :
  let e2e := Toy.rec_ "e2e1" SetEncryption "e2e" None false "ow" (Toy.h "gene") in
  let off := Toy.rec_ "off1" SetEncryption "none" None false "ow" (Toy.h "e2e1") in
  derive_encryption ([Toy.genesis; e2e] ++ [off]) "ow" = E2e.
Proof.
  intros e2e off. apply encryption_latch; [by vm_compute|].
  by intros o ->%list_elem_of_singleton.
Defined.

(** ** Behaviours the source's comments rule out

    Concrete logs, evaluated on the model. *)

(** An [Admit] is not restricted to new principals: an invited editor who
    may invite can re-admit the anchored owner as a viewer, and the owner,
    though it cannot be removed, then holds the role [Viewer]. *)
Theorem invited_editor_can_demote_owner :
  let dem1 := Toy.rec_ "dem1" Admit (Toy.fp "ow") (Some Viewer) false "ed" (Toy.h "adm1") in
  (m_role <$> members_of [Toy.genesis; Toy.adm1] !! Toy.fp "ow") = Some Owner /\
  (m_role <$> members_of [Toy.genesis; Toy.adm1; dem1] !! Toy.fp "ow") = Some Viewer.
Proof. by vm_compute. Qed.

(** The log of two mutually dependent removals, with [pad] extra inert records. *)
Definition mutual_removals (pad : list SignedMembershipOp) : list SignedMembershipOp :=
  let own tag a s k prev := Toy.rec_ tag a (Toy.fp s) (Some Owner) true k (Toy.h prev) in
  [ Toy.genesis; own "adB0" Admit "bb" "ow" "gene"; own "adC0" Admit "cc" "ow" "adB0";
    own "X1__" Admit "aa" "cc" "adC0"; own "R1__" Remove "bb" "aa" "X1__";
    own "X2__" Admit "dd" "bb" "adC0"; own "R2__" Remove "cc" "dd" "X2__" ] ++ pad.

(** The validity fixpoint does not shrink monotonically: two removals
    whose authors were admitted by each other's targets make it oscillate, so
    the derived membership is decided by where the iteration cap stops, and
    appending an inert governance record brings removed owners back. *)
Theorem validity_loop_oscillates :
  let gov tag := Toy.rec_ tag SetGovernance "single-owner" None false "ow" (Toy.h "adC0") in
  dom (members_of (mutual_removals [])) = {[Toy.fp "ow"]} /\
  dom (members_of (mutual_removals [gov "gov1"])) = {[Toy.fp "ow"; Toy.fp "bb"; Toy.fp "cc"]} /\
  dom (members_of (mutual_removals [gov "gov1"; gov "gov2"])) =
    {[Toy.fp "ow"; Toy.fp "bb"; Toy.fp "cc"; Toy.fp "aa"; Toy.fp "dd"]}.
Proof. intros. split_and!; apply (bool_decide_unpack (_ = _)); by vm_compute. Qed.

(** A member that rotated its key cannot be removed: the rebind pass runs
    after the removals and re-inserts the successor, although the owner's
    removal of it survives the validity fixpoint. *)
Theorem rotated_member_survives_removal :
  let reb1 := mkSigned (mkOp "kb" Rebind (Toy.fp "m2") None false (Toy.fp "ed") 0 None 0 (Toy.h "adm1")
      None (Some "m2") (Some "wrap") None Full None) (Toy.sign "ed" "reb1") "ed" in
  let rem2 := Toy.rec_ "rem2" Remove (Toy.fp "m2") None false "ow" (Toy.h "reb1") in
  let l := [Toy.genesis; Toy.adm1; reb1; rem2] in
  Toy.h "rem2" ∈ valid_ops (index_by_hash l) (Toy.h "gene") (Toy.fp "ow") SingleOwner 0 /\
  is_Some (members_of l !! Toy.fp "m2").
Proof.
  intros reb1 rem2 l. split; [apply (bool_decide_unpack (_ ∈ _)); by vm_compute|].
  vm_compute. by eexists.
Qed.

(** With two records that pass the genesis test the derivation depends on
    the order of the log: the first genesis found decides which subtree
    counts. *)
Theorem two_geneses_diverge :
  let gen2 := Toy.rec_ "gen2" Admit (Toy.fp "ow") (Some Owner) true "ow" "" in
  let adm2 := Toy.rec_ "adm2" Admit (Toy.fp "vi") (Some Viewer) false "ow" (Toy.h "gen2") in
  let l := [Toy.genesis; Toy.adm1; gen2; adm2] in
  dom (members_of l) = {[Toy.fp "ow"; Toy.fp "ed"]} /\
  dom (members_of (reverse l)) = {[Toy.fp "ow"; Toy.fp "vi"]}.
Proof. intros. split_and!; apply (bool_decide_unpack (_ = _)); by vm_compute. Qed.

(** The encryption latch does not survive a recovery: after the owner
    recovered to a new key and that key switched encryption on, the holder of
    the old key can register another recovery key, which voids the recovery
    and with it the encryption record. *)
Theorem reregistration_reopens_encryption :
  let reg tag rk t :=
    mkSigned (mkOp "kb" RegisterRecoveryKey (Toy.fp "ow") None false (Toy.fp "ow") t None 0 (Toy.h "gene")
      None None None (Some rk) Full None) (Toy.sign "ow" tag) "ow" in
  let reb := mkSigned (mkOp "kb" Rebind (Toy.fp "n2") None false (Toy.fp "ow") 2 None 0 (Toy.h "reg1")
      None (Some "n2") (Some "wrap") None Full None) (Toy.sign "rk" "reb1") "rk" in
  let e2e := Toy.rec_ "e2e1" SetEncryption "e2e" None false "n2" (Toy.h "reb1") in
  let l := [Toy.genesis; reg "reg1" "rk" 1%N; reb; e2e] in
  derive_encryption l "ow" = E2e /\ derive_encryption (l ++ [reg "reg2" "zz" 3%N]) "ow" = EncNone.
Proof. by vm_compute. Qed.
