(* ===== verification/OpLog.v ===== *)
(** * OpLog: the membership op-log and what a signature covers

    Models [shared/sync/src/kb/collection_oplog.rs]: the records of the
    [YMap<chain_hash -> op record>] as finite maps from field names to text, how
    an op is written into one and read back. The second half is about
    [MembershipOp::canonical_bytes] of [shared/sync/src/membership.rs]: the
    signed bytes determine the fields each version signs, and no others. *)
From S2P Require Import Prelude Membership.

Section OpLog.
Context `{Crypto}.

(** A record of the log: field name to text. *)
Notation OpRecord := (gmap string string).
(** The log, as the document holds it locally: chain hash to record. *)
Notation Log := (gmap string (gmap string string)).

(** [rec.insert(..)] of an optional field. *)
Definition insert_opt (k : string) (v : option string) (rec : OpRecord) : OpRecord :=
  match v with Some x => <[k := x]> rec | None => rec end.

(** The record [append_signed_op] writes. *)
Definition encode_op_record (o : MembershipOp) (sg pubkey : string) : OpRecord :=
  let rec : OpRecord := ∅ in
  let rec := <["kb_id" := kb_id o]> rec in
  let rec := <["action" := MembershipAction_as_str (action o)]> rec in
  let rec := <["subject" := subject o]> rec in
  let rec := <["role" := from_option Role_as_str "" (role o)]> rec in
  let rec := <["can_invite" := if can_invite o then "1" else "0"]> rec in
  let rec := <["author" := author o]> rec in
  let rec := <["issued_at" := to_dec (issued_at o)]> rec in
  let rec := <["expires_at" := from_option to_dec "" (expires_at o)]> rec in
  let rec := <["epoch" := to_dec (epoch o)]> rec in
  let rec := <["prev_hash" := prev_hash o]> rec in
  let rec := <["sig" := hex_encode sg]> rec in
  let rec := <["author_pubkey" := hex_encode pubkey]> rec in
  let rec := insert_opt "wrapped_key" (hex_encode <$> wrapped_key o) rec in
  let rec := insert_opt "new_pubkey" (hex_encode <$> new_pubkey o) rec in
  let rec := insert_opt "new_wrap_pubkey" (hex_encode <$> new_wrap_pubkey o) rec in
  let rec := insert_opt "recovery_pubkey" (hex_encode <$> recovery_pubkey o) rec in
  let rec := insert_opt "content_hash"
               (match content_hash o with
                | Some h => if bool_decide (h = "") then None else Some h
                | None => None
                end) rec in
  if bool_decide (replication o = QueryOnly)
  then <["replication" := ReplicationPolicy_as_str QueryOnly]> rec else rec.

(** [b.try_into().ok()] at [[u8; 32]]. *)
Definition array32 (b : string) : option string :=
  if String.length b =? 32 then Some b else None.

(** [.filter(|s| !s.is_empty())]. *)
Definition non_empty (v : option string) : option string :=
  match v with Some s => if bool_decide (s = "") then None else Some s | None => None end.

Definition decode_op_record (rec : OpRecord) : option SignedMembershipOp :=
  let get (k : string) := rec !! k in
  let role_s := default "" (get "role") in
  let? rl := (if bool_decide (role_s = "") then Some None
              else let? r := Role_parse role_s in Some (Some r)) in
  let expires_s := default "" (get "expires_at") in
  let? exp := (if bool_decide (expires_s = "") then Some None
               else let? e := parse_uint u64_max expires_s in Some (Some e)) in
  let? sig_s := get "sig" in
  let? sg := hex_decode sig_s in
  let? pk_s := get "author_pubkey" in
  let? pk_b := hex_decode pk_s in
  let? pk := array32 pk_b in
  let? kb := get "kb_id" in
  let? act_s := get "action" in
  let? act := MembershipAction_parse act_s in
  let? sub := get "subject" in
  let? auth := get "author" in
  let? iss_s := get "issued_at" in
  let? iss := parse_uint u64_max iss_s in
  let key k := let? s := non_empty (get k) in let? b := hex_decode s in array32 b in
  Some (mkSigned
    (mkOp kb act sub rl (bool_decide (get "can_invite" = Some "1")) auth iss exp
       (default 0%N (let? s := get "epoch" in parse_uint u64_max s))
       (default "" (get "prev_hash"))
       (let? s := non_empty (get "wrapped_key") in hex_decode s)
       (key "new_pubkey") (key "new_wrap_pubkey") (key "recovery_pubkey")
       (default Full (let? s := get "replication" in ReplicationPolicy_parse s))
       (non_empty (get "content_hash")))
    sg pk).

(** [append_signed_op]: the record replaces one under the same hash. *)
Definition append_signed_op (log : Log) (o : MembershipOp) (sg pubkey : string) : Log :=
  <[op_chain_hash o sg := encode_op_record o sg pubkey]> log.

(** [oplog_ops], in the iteration order of the map. *)
Definition oplog_ops (log : Log) : list SignedMembershipOp :=
  omap decode_op_record (map snd (map_to_list log)).
Definition oplog_len (log : Log) : nat := size log.

(** [Iterator::max] of strings. *)
Fixpoint max_string (l : list string) : option string :=
  match l with
  | [] => None
  | h :: l' => match max_string l' with
               | Some m => Some (if String.ltb m h then h else m)
               | None => Some h
               end
  end.

Definition oplog_head (log : Log) : option string :=
  let ops := oplog_ops log in
  let referenced := List.filter (fun p => negb (bool_decide (p = ""))) (map (fun o => prev_hash (op o)) ops) in
  max_string (List.filter (fun h => negb (bool_decide (h ∈ referenced))) (map chain_hash ops)).

Definition build_membership_op (log : Log) (kb : string) (act : MembershipAction) (sub : string)
    (rl : option Role) (inv : bool) (auth : string) (iss : N) (exp : option N) (ep : N) : MembershipOp :=
  mkOp kb act sub rl inv auth iss exp ep (default "" (oplog_head log)) None None None None Full None.

(** ** Lemmas *)

(** What a record that a peer built looks like: 64-bit counters, 32-byte keys,
    no present-but-empty optional field. *)
Definition key_ok (k : option string) : bool :=
  match k with Some b => String.length b =? 32 | None => true end.
Definition op_ok (o : SignedMembershipOp) : bool :=
  (issued_at (op o) <=? u64_max)%N && (epoch (op o) <=? u64_max)%N &&
  match expires_at (op o) with Some e => (e <=? u64_max)%N | None => true end &&
  (String.length (author_pubkey o) =? 32) && key_ok (new_pubkey (op o)) &&
  key_ok (new_wrap_pubkey (op o)) && key_ok (recovery_pubkey (op o)) &&
  negb (bool_decide (wrapped_key (op o) = Some "")) &&
  negb (bool_decide (content_hash (op o) = Some "")).

Lemma Role_round_trip r : Role_parse (Role_as_str r) = Some r.
Proof. by destruct r. Qed.
Lemma Action_round_trip a : MembershipAction_parse (MembershipAction_as_str a) = Some a.
Proof. by destruct a. Qed.

Lemma lookup_insert_opt_eq k v rec : rec !! k = None -> insert_opt k v rec !! k = v.
Proof. intros Hn. destruct v; simpl; [apply lookup_insert_eq|done]. Qed.
Lemma lookup_insert_opt_ne k k' v rec : k <> k' -> insert_opt k v rec !! k' = rec !! k'.
Proof. intros Hn. destruct v; simpl; [by apply lookup_insert_ne|done]. Qed.

(** Reads a field of a record built by a chain of insertions at constant keys. *)
Ltac read_field :=
  repeat first
    [ rewrite lookup_insert_eq
    | rewrite lookup_insert_ne by done
    | rewrite lookup_insert_opt_ne by done
    | rewrite lookup_insert_opt_eq by read_field ];
  try reflexivity.

(** The text each field name holds in an encoded record. *)
Definition field_of (o : MembershipOp) (sg pubkey k : string) : option string :=
  if bool_decide (k = "kb_id") then Some (kb_id o)
  else if bool_decide (k = "action") then Some (MembershipAction_as_str (action o))
  else if bool_decide (k = "subject") then Some (subject o)
  else if bool_decide (k = "role") then Some (from_option Role_as_str "" (role o))
  else if bool_decide (k = "can_invite") then Some (if can_invite o then "1" else "0")
  else if bool_decide (k = "author") then Some (author o)
  else if bool_decide (k = "issued_at") then Some (to_dec (issued_at o))
  else if bool_decide (k = "expires_at") then Some (from_option to_dec "" (expires_at o))
  else if bool_decide (k = "epoch") then Some (to_dec (epoch o))
  else if bool_decide (k = "prev_hash") then Some (prev_hash o)
  else if bool_decide (k = "sig") then Some (hex_encode sg)
  else if bool_decide (k = "author_pubkey") then Some (hex_encode pubkey)
  else if bool_decide (k = "wrapped_key") then hex_encode <$> wrapped_key o
  else if bool_decide (k = "new_pubkey") then hex_encode <$> new_pubkey o
  else if bool_decide (k = "new_wrap_pubkey") then hex_encode <$> new_wrap_pubkey o
  else if bool_decide (k = "recovery_pubkey") then hex_encode <$> recovery_pubkey o
  else if bool_decide (k = "content_hash") then non_empty (content_hash o)
  else if bool_decide (k = "replication") then
    (if bool_decide (replication o = QueryOnly) then Some "query_only" else None)
  else None.
Definition field_names : list string :=
  ["kb_id"; "action"; "subject"; "role"; "can_invite"; "author"; "issued_at"; "expires_at";
   "epoch"; "prev_hash"; "sig"; "author_pubkey"; "wrapped_key"; "new_pubkey"; "new_wrap_pubkey";
   "recovery_pubkey"; "content_hash"; "replication"].

Lemma encode_lookup o sg pubkey k : k ∈ field_names ->
  encode_op_record o sg pubkey !! k = field_of o sg pubkey k.
Proof.
  intros Hk. unfold encode_op_record.
  repeat (apply elem_of_cons in Hk as [-> | Hk]); [..|by apply elem_of_nil in Hk];
    unfold field_of; destruct (bool_decide (replication o = QueryOnly)) eqn:E; read_field.
Qed.

Section Laws.
Context `{!HexLaws _}.

Lemma hex_encode_nonempty b : b <> "" -> hex_encode b <> "".
Proof.
  intros Hb He. pose proof (hex_decode_encode b) as Hd.
  rewrite He, <- hex_encode_empty, hex_decode_encode in Hd. naive_solver.
Qed.

(** An optional field written as hexadecimal reads back, unless it was present
    and empty. *)
Lemma hex_field_round_trip (v : option string) : v <> Some "" ->
  (let? s := non_empty (hex_encode <$> v) in hex_decode s) = v.
Proof.
  intros Hv. destruct v as [b|]; simpl; [|done].
  rewrite bool_decide_eq_false_2 by (apply hex_encode_nonempty; congruence).
  apply hex_decode_encode.
Qed.
Lemma key_field_round_trip (v : option string) : key_ok v = true ->
  (let? s := non_empty (hex_encode <$> v) in let? b := hex_decode s in array32 b) = v.
Proof.
  intros Hv. destruct v as [b|]; simpl in *; [|done].
  rewrite bool_decide_eq_false_2 by (apply hex_encode_nonempty; by intros ->).
  rewrite hex_decode_encode. unfold array32. by rewrite Hv.
Qed.

Lemma non_empty_id v : v <> Some "" -> non_empty v = v.
Proof. destruct v; simpl; [case_bool_decide; naive_solver|done]. Qed.

Lemma decode_encode o : op_ok o = true ->
  decode_op_record (encode_op_record (op o) (sig o) (author_pubkey o)) = Some o.
Proof.
  unfold op_ok. rewrite !andb_true_iff, !negb_true_iff, !bool_decide_eq_false, !N.leb_le.
  intros ((((((((Hi & He) & Hx) & Hp) & Hn) & Hw) & Hr) & Hk) & Hc).
  unfold decode_op_record. rewrite !encode_lookup by set_solver. unfold field_of. simpl.
  rewrite !hex_decode_encode, Action_round_trip, !parse_to_dec by done.
  rewrite hex_field_round_trip, !key_field_round_trip by done.
  destruct o as [[kb act sub rl inv auth iss exp ep prev wk np nw rp repl ch] sg pk]; simpl in *.
  replace (array32 pk) with (Some pk) by (unfold array32; by rewrite Hp).
  rewrite !non_empty_id by (rewrite ?non_empty_id; done).
  destruct rl as [r|]; simpl;
    [rewrite bool_decide_eq_false_2 by (by destruct r); rewrite Role_round_trip|];
  (destruct exp as [e|]; simpl;
    [rewrite bool_decide_eq_false_2 by apply to_dec_nonempty; apply N.leb_le in Hx; rewrite parse_to_dec by done|]);
  destruct inv, repl; reflexivity.
Qed.

(** Appending an op and reading the log back. The op appended is among the
    ops read, byte for byte, with its signature and key; every other record of
    the log is read as before; appending the same op again changes nothing. *)
Theorem appended_op_is_read_back (log : Log) o : op_ok o = true ->
  let log' := append_signed_op log (op o) (sig o) (author_pubkey o) in
  o ∈ oplog_ops log' /\
  (forall x, x ∈ oplog_ops log' <->
     x = o \/ x ∈ oplog_ops (delete (chain_hash o) log)) /\
  append_signed_op log' (op o) (sig o) (author_pubkey o) = log' /\
  (log !! chain_hash o = None -> oplog_len log' = S (oplog_len log)).
Proof.
  intros Hok log'.
  assert (Hin : forall x, x ∈ oplog_ops log' <-> x = o \/ x ∈ oplog_ops (delete (chain_hash o) log)).
  { intros x. unfold log', append_signed_op. fold (chain_hash o). unfold oplog_ops.
    rewrite <- insert_delete_eq, map_to_list_insert by apply lookup_delete_eq.
    simpl. rewrite decode_encode by done. by rewrite elem_of_cons. }
  split_and!.
  - apply Hin. by left.
  - done.
  - apply insert_insert_eq.
  - intros Hn. by apply map_size_insert_None.
Qed.

(** ** What the signed bytes determine *)

(** Texts without NUL and no optional field that is present and empty: the
    encoding separates its fields by NUL and writes an absent one as [""]. *)
Definition canonical_ok (o : MembershipOp) : bool :=
  forallb no_nul [kb_id o; subject o; author o; prev_hash o; default "" (content_hash o)] &&
  forallb (fun v => negb (bool_decide (v = Some "")))
    [wrapped_key o; new_pubkey o; new_wrap_pubkey o; recovery_pubkey o; content_hash o].

(** The fields under the signature, by action; the others are erased. *)
Definition signed_view (o : MembershipOp) : MembershipOp :=
  let keys := bool_decide (action o = Rebind \/ action o = RegisterRecoveryKey) in
  mkOp (kb_id o) (action o) (subject o) (role o) (can_invite o) (author o) (issued_at o)
    (expires_at o) (epoch o) (prev_hash o)
    (if keys then None else wrapped_key o)
    (if bool_decide (action o = Rebind) then new_pubkey o else None)
    (if bool_decide (action o = Rebind) then new_wrap_pubkey o else None)
    (if bool_decide (action o = RegisterRecoveryKey) then recovery_pubkey o else None)
    (if keys then Full else replication o)
    (if bool_decide (action o = Rebirth) then content_hash o else None).

Lemma field_app_inj s s' r r' : no_nul s = true -> no_nul s' = true ->
  field s +:+ r = field s' +:+ r' -> s = s' /\ r = r'.
Proof.
  unfold field. revert s'. induction s as [|c s IH]; intros [|c' s']; simpl; intros Hs Hs' E.
  - by inversion E.
  - inversion E; subst. by rewrite bool_decide_eq_true_2 in Hs'.
  - inversion E; subst. by rewrite bool_decide_eq_true_2 in Hs.
  - apply andb_true_iff in Hs as [_ Hs], Hs' as [_ Hs']. inversion E as [[Ec E']].
    by destruct (IH s' Hs Hs' E') as [-> ->].
Qed.
Lemma field_inj s s' : no_nul s = true -> no_nul s' = true -> field s = field s' -> s = s'.
Proof.
  intros Hs Hs' E. apply (field_app_inj s s' "" "" Hs Hs'). by rewrite E.
Qed.
Lemma field_nonempty s : field s <> "".
Proof. by destruct s. Qed.

Lemma hex_opt_no_nul v : no_nul (from_option hex_encode "" v) = true.
Proof. destruct v; [apply hex_no_nul|done]. Qed.
Lemma dec_opt_no_nul v : no_nul (from_option to_dec "" v) = true.
Proof. destruct v; [apply to_dec_no_nul|done]. Qed.
Lemma hex_opt_inj u v : u <> Some "" -> v <> Some "" ->
  from_option hex_encode "" u = from_option hex_encode "" v -> u = v.
Proof.
  intros Hu Hv E. rewrite <- (hex_field_round_trip u Hu), <- (hex_field_round_trip v Hv).
  destruct u as [a|], v as [b|]; simpl in *; try done; first [by rewrite E|by rewrite <- E].
Qed.
Lemma dec_opt_inj u v : from_option to_dec "" u = from_option to_dec "" v -> u = v.
Proof.
  destruct u, v; simpl; intros E; try done.
  - f_equal. by apply to_dec_inj.
  - by apply to_dec_nonempty in E.
  - symmetry in E. by apply to_dec_nonempty in E.
Qed.
Lemma role_opt_inj u v : from_option Role_as_str "" u = from_option Role_as_str "" v -> u = v.
Proof. by destruct u as [[]|], v as [[]|]. Qed.
Lemma action_inj a b : MembershipAction_as_str a = MembershipAction_as_str b -> a = b.
Proof. intros E. apply (f_equal MembershipAction_parse) in E. rewrite !Action_round_trip in E. by inversion E. Qed.

(** The wrapped key and the replication marker, as versions 1, 2, 5 and 6 sign
    them. *)
Definition wrap_part (wk : option string) (p : ReplicationPolicy) : string :=
  if bool_decide (p = QueryOnly)
  then field (from_option hex_encode "" wk) +:+ field (ReplicationPolicy_as_str p)
  else match wk with Some k => field (hex_encode k) | None => "" end.

Lemma wrap_part_inj u v p q : u <> Some "" -> v <> Some "" ->
  wrap_part u p = wrap_part v q -> u = v /\ p = q.
Proof.
  intros Hu Hv. unfold wrap_part. destruct p, q; simpl.
  - destruct u as [a|], v as [b|]; intros E; try done.
    + apply field_inj in E; try apply hex_no_nul. apply (f_equal hex_decode) in E.
      rewrite !hex_decode_encode in E. by simplify_eq.
    + by apply field_nonempty in E.
    + symmetry in E. by apply field_nonempty in E.
  - destruct u as [a|]; intros E.
    + rewrite <- (string_app_nil_r (field (hex_encode a))) in E.
      apply field_app_inj in E as [_ E]; [done|apply hex_no_nul|apply hex_opt_no_nul].
    + by destruct (from_option hex_encode "" v).
  - destruct v as [b|]; intros E; symmetry in E.
    + rewrite <- (string_app_nil_r (field (hex_encode b))) in E.
      apply field_app_inj in E as [_ E]; [done|apply hex_no_nul|apply hex_opt_no_nul].
    + by destruct (from_option hex_encode "" u).
  - intros E. apply field_app_inj in E as [E _]; [|apply hex_opt_no_nul..].
    split; [|done]. by apply hex_opt_inj.
Qed.

Lemma canonical_tail_eq o : canonical_tail o =
  match action o with
  | Rebind => field (from_option hex_encode "" (new_pubkey o)) +:+
              field (from_option hex_encode "" (new_wrap_pubkey o))
  | RegisterRecoveryKey => field (from_option hex_encode "" (recovery_pubkey o))
  | Rebirth => field (default "" (content_hash o)) +:+ wrap_part (wrapped_key o) (replication o)
  | _ => wrap_part (wrapped_key o) (replication o)
  end.
Proof. unfold canonical_tail. by destruct (action o). Qed.

Lemma canonical_ok_spec o : canonical_ok o = true ->
  (no_nul (kb_id o) = true /\ no_nul (subject o) = true /\ no_nul (author o) = true /\
   no_nul (prev_hash o) = true /\ no_nul (default "" (content_hash o)) = true) /\
  wrapped_key o <> Some "" /\ new_pubkey o <> Some "" /\ new_wrap_pubkey o <> Some "" /\
  recovery_pubkey o <> Some "" /\ content_hash o <> Some "".
Proof.
  unfold canonical_ok. simpl. rewrite !andb_true_iff, !negb_true_iff, !bool_decide_eq_false. tauto.
Qed.

(** Splits an equality of field sequences into equalities of the fields. *)
Ltac peel E :=
  repeat (apply field_app_inj in E as [? E];
    [|first [done | apply to_dec_no_nul | apply dec_opt_no_nul | apply hex_opt_no_nul ]..]).

Lemma canonical_head_inj a b : canonical_ok a = true -> canonical_ok b = true ->
  canonical_bytes a = canonical_bytes b ->
  kb_id a = kb_id b /\ action a = action b /\ subject a = subject b /\ role a = role b /\
  can_invite a = can_invite b /\ author a = author b /\ issued_at a = issued_at b /\
  expires_at a = expires_at b /\ epoch a = epoch b /\ prev_hash a = prev_hash b /\
  canonical_tail a = canonical_tail b.
Proof.
  intros Ha Hb E. apply canonical_ok_spec in Ha as [(?&?&?&?&?) _], Hb as [(?&?&?&?&?) _].
  unfold canonical_bytes in E.
  assert (forall o, no_nul (canonical_version o) = true).
  { intros o. unfold canonical_version. by repeat case_bool_decide. }
  assert (forall c, no_nul (MembershipAction_as_str c) = true) by (by intros []).
  assert (forall r, no_nul (from_option Role_as_str "" r) = true) by (by intros [[]|]).
  assert (forall b : bool, no_nul (if b then "1" else "0") = true) by (by intros []).
  peel E. split_and!; try done.
  - by apply action_inj.
  - by apply role_opt_inj.
  - by destruct (can_invite a), (can_invite b).
  - by apply to_dec_inj.
  - by apply dec_opt_inj.
  - by apply to_dec_inj.
Qed.

Lemma canonical_tail_inj a b : canonical_ok a = true -> canonical_ok b = true ->
  action a = action b -> canonical_tail a = canonical_tail b ->
  match action a with
  | Rebind => new_pubkey a = new_pubkey b /\ new_wrap_pubkey a = new_wrap_pubkey b
  | RegisterRecoveryKey => recovery_pubkey a = recovery_pubkey b
  | Rebirth => content_hash a = content_hash b /\
               wrapped_key a = wrapped_key b /\ replication a = replication b
  | _ => wrapped_key a = wrapped_key b /\ replication a = replication b
  end.
Proof.
  intros Ha Hb Eact E.
  apply canonical_ok_spec in Ha as ((?&?&?&?&?)&?&?&?&?&Hca), Hb as ((?&?&?&?&?)&?&?&?&?&Hcb).
  rewrite !canonical_tail_eq, <- Eact in E.
  destruct (action a); try (by apply wrap_part_inj).
  - apply field_app_inj in E as [E1 E2]; try apply hex_opt_no_nul.
    apply field_inj in E2; try apply hex_opt_no_nul. by split; apply hex_opt_inj.
  - apply field_inj in E; try apply hex_opt_no_nul. by apply hex_opt_inj.
  - apply field_app_inj in E as [E1 E2]; try done. apply wrap_part_inj in E2; try done.
    split; [|done]. destruct (content_hash a), (content_hash b); naive_solver.
Qed.

Lemma canonical_of_view o : canonical_bytes (signed_view o) = canonical_bytes o.
Proof.
  unfold canonical_bytes. rewrite !canonical_tail_eq. unfold canonical_version, signed_view. simpl.
  by destruct (action o).
Qed.

(** C36. The signed bytes determine the signed fields. Two ops have the same
    canonical bytes exactly when they agree on every field their version signs:
    no two readings of one signature differ in the KB, the action, the subject,
    the role, the invite right, the author, the times, the epoch, the link to the
    past, or in the keys, replication marker and content hash the action signs.
    The fields [signed_view] erases are the ones a relay can rewrite freely. *)
Theorem canonical_bytes_bind_signed_fields a b :
  canonical_ok a = true -> canonical_ok b = true ->
  canonical_bytes a = canonical_bytes b <-> signed_view a = signed_view b.
Proof.
  intros Ha Hb. split; intros E.
  - destruct (canonical_head_inj a b Ha Hb E) as (?&Eact&?&?&?&?&?&?&?&?&Et).
    pose proof (canonical_tail_inj a b Ha Hb Eact Et) as Hs. unfold signed_view.
    rewrite <- Eact. destruct (action a); simpl; destruct_and?; f_equal; done.
  - by rewrite <- (canonical_of_view a), <- (canonical_of_view b), E.
Qed.

End Laws.

(** ** The head of the log *)

Lemma max_string_spec l m : max_string l = Some m ->
  m ∈ l /\ (forall x, x ∈ l -> String.le x m).
Proof.
  revert m. induction l as [|h l IH]; intros m; [done|]. cbn [max_string].
  destruct (max_string l) as [m'|] eqn:E; intros Hm; simplify_eq.
  - destruct (IH m' eq_refl) as [Hin Hle]. destruct (String.ltb m' h) eqn:Hlt.
    + apply ltb_iff in Hlt as [Hlt _]. split; [set_solver|].
      intros x [-> | Hx]%elem_of_cons; [done|]. trans m'; [by apply Hle|done].
    + apply ltb_false_iff in Hlt. split; [set_solver|].
      intros x [-> | Hx]%elem_of_cons; [done|by apply Hle].
  - destruct l as [|x l]; [|cbn in E; by destruct (max_string l)].
    split; [set_solver|]. by intros x ->%list_elem_of_singleton.
Qed.
Lemma max_string_none l : max_string l = None -> l = [].
Proof. destruct l; [done|]. cbn. by destruct (max_string l). Qed.

(** A tip: an op of the log whose hash no op of the log extends. *)
Definition is_tip (log : Log) (h : string) : Prop :=
  (exists o, o ∈ oplog_ops log /\ chain_hash o = h) /\
  (forall o, o ∈ oplog_ops log -> prev_hash (op o) = h -> h = "").

Lemma oplog_head_candidates (log : Log) h :
  let ops := oplog_ops log in
  let referenced := List.filter (fun p => negb (bool_decide (p = "")))
                      (map (fun o => prev_hash (op o)) ops) in
  h ∈ List.filter (fun h => negb (bool_decide (h ∈ referenced))) (map chain_hash ops) <-> is_tip log h.
Proof.
  intros ops referenced. rewrite elem_of_List_filter, negb_true_iff, bool_decide_eq_false.
  unfold is_tip, referenced. rewrite elem_of_List_filter, negb_true_iff, bool_decide_eq_false.
  rewrite !list_elem_of_In, !in_map_iff. setoid_rewrite list_elem_of_In.
  split.
  - intros [(o & <- & Ho) Hn]. split; [by exists o|]. intros o' Ho' E.
    destruct (decide (chain_hash o = "")) as [|Hne]; [done|]. exfalso. apply Hn. split; [|done].
    by exists o'.
  - intros [(o & Ho & <-) Hn]. split; [by exists o|]. intros [(o' & E & Ho') Hne]. naive_solver.
Qed.

(** The head of the log. [oplog_head] is the greatest hash among the tips of
    the log, and is absent exactly when there is no tip; a new op built on the
    log links to it, and every field it carries is under its signature. *)
Theorem head_is_greatest_tip (log : Log) kb act sub rl inv auth iss exp ep :
  let o := build_membership_op log kb act sub rl inv auth iss exp ep in
  (forall h, oplog_head log = Some h <->
     is_tip log h /\ forall x, is_tip log x -> String.le x h) /\
  (oplog_head log = None <-> forall h, ~ is_tip log h) /\
  prev_hash o = default "" (oplog_head log) /\ signed_view o = o.
Proof.
  intros o.
  assert (exists tips, oplog_head log = max_string tips /\ forall h, h ∈ tips <-> is_tip log h)
    as (tips & Eh & Htips) by (eexists; split; [done|intros; apply oplog_head_candidates]).
  split_and!; rewrite ?Eh.
  - intros h. split.
    + intros [Hin Hle]%max_string_spec. split; [by apply Htips|]. intros x Hx. by apply Hle, Htips.
    + intros [Hin Hle]. apply Htips in Hin. destruct (max_string tips) as [m|] eqn:E.
      * apply max_string_spec in E as [Hm Hge]. f_equal. apply (anti_symm String.le).
        -- by apply Hle, Htips.
        -- by apply Hge.
      * apply max_string_none in E as ->. by apply elem_of_nil in Hin.
  - split.
    + intros ->%max_string_none h Hh. apply Htips in Hh. by apply elem_of_nil in Hh.
    + intros Hn. destruct (max_string tips) as [m|] eqn:E; [|done].
      apply max_string_spec in E as [Hm _]. by apply Htips, Hn in Hm.
  - by rewrite <- Eh.
  - unfold signed_view, o, build_membership_op. simpl. by repeat case_bool_decide.
Qed.

End OpLog.

(** ** Witnesses and the unsigned key *)
Module OpLogWitnesses.
#[local] Existing Instance Toy.toy.

Lemma unhex_hex b : Toy.unhex (Toy.hex b) = Some b.
Proof.
  induction b as [|c b IH]; [done|]. cbn [Toy.hex Toy.unhex]. rewrite IH.
  by destruct c as [[] [] [] [] [] [] [] []].
Qed.
Lemma hex_digits_no_nul b : no_nul (Toy.hex b) = true.
Proof.
  induction b as [|c b IH]; [done|]. cbn [Toy.hex no_nul]. rewrite IH.
  by destruct c as [[] [] [] [] [] [] [] []].
Qed.
#[export] Instance toy_hex_laws : HexLaws Toy.toy.
Proof. split; [exact unhex_hex|done|exact hex_digits_no_nul]. Qed.

(** The genesis of the example log under a 32-byte key. *)
Definition long_key : string := "ow" +:+ String.concat "" (replicate 30 "k").
Definition signed_genesis : SignedMembershipOp :=
  mkSigned (op Toy.genesis) (sig Toy.genesis) long_key.

Lemma appended_op_is_read_back_witness :
  op_ok signed_genesis = true /\
  signed_genesis ∈ oplog_ops (append_signed_op ∅ (op signed_genesis) (sig signed_genesis) long_key).
Proof.
  split; [by vm_compute|]. refine (proj1 (appended_op_is_read_back ∅ signed_genesis _)). by vm_compute.
Defined.

(** The owner hands over to the key [o2]. *)
Definition handover : SignedMembershipOp :=
  mkSigned (mkOp "kb" Rebind (Toy.fp "o2") None false (Toy.fp "ow") 0 None 0 (Toy.h "gene")
              None (Some "o2") (Some "w2") None Full None)
    (Toy.sign "ow" "rebi") "ow".

Definition with_wrapped_key (o : SignedMembershipOp) (wk : option string) : SignedMembershipOp :=
  let a := op o in
  mkSigned (mkOp (kb_id a) (action a) (subject a) (role a) (can_invite a) (author a) (issued_at a)
              (expires_at a) (epoch a) (prev_hash a) wk (new_pubkey a) (new_wrap_pubkey a)
              (recovery_pubkey a) (replication a) (content_hash a))
    (sig o) (author_pubkey o).

Lemma canonical_bytes_bind_signed_fields_witness :
  let a := op handover in let b := op (with_wrapped_key handover (Some "evil")) in
  (canonical_ok a = true /\ canonical_ok b = true) /\
  (canonical_bytes a = canonical_bytes b <-> signed_view a = signed_view b) /\
  signed_view a = signed_view b.
Proof.
  split; [by vm_compute|]. split; [|done].
  apply canonical_bytes_bind_signed_fields; by vm_compute.
Defined.

(** The signature of a rotation does not cover a wrapped key, and the key is
    honoured. Under every signature scheme and hash, a relay may attach any
    wrapped key to a [Rebind] or [RegisterRecoveryKey] record: the record keeps
    its signed bytes, its hash and its verdict. On the owner's hand-over the
    new owner identity then reads the relay's key as its content key. *)
Theorem relay_can_plant_wrapped_key :
  (forall (C : Crypto) o wk, bool_decide (action (op o) ∈ [Rebind; RegisterRecoveryKey]) = true ->
     canonical_bytes (op (with_wrapped_key o wk)) = canonical_bytes (op o) /\
     chain_hash (with_wrapped_key o wk) = chain_hash o /\
     verify_signed (with_wrapped_key o wk) = verify_signed o) /\
  find_wrapped_content_key [Toy.genesis; handover] "ow" (Toy.fp "o2") = None /\
  find_wrapped_content_key [Toy.genesis; with_wrapped_key handover (Some "evil")] "ow" (Toy.fp "o2")
    = Some "evil".
Proof.
  split; [|by vm_compute]. intros C o wk Hact%bool_decide_eq_true.
  assert (E : canonical_bytes (op (with_wrapped_key o wk)) = canonical_bytes (op o)).
  { unfold canonical_bytes, canonical_version. rewrite !canonical_tail_eq. cbn.
    by repeat (apply elem_of_cons in Hact as [-> | Hact]); [..|apply elem_of_nil in Hact]. }
  split; [done|]. unfold chain_hash, op_chain_hash, verify_signed, verify, fingerprint_matches.
  by rewrite E.
Qed.

End OpLogWitnesses.
