(* ===== verification/Rope.v ===== *)
(** * Rope: text, byte offsets, and the interface of the rope library

    The editor keeps its text in a [ropey::Rope], an external crate: class
    [Rope] lists the operations the code calls, and class [RopeLaws] states
    their documented behaviour over the sequence of characters of the rope.
    A Rust [char] is its code point, a [&str] the list of its characters; the
    byte offsets of the source are offsets into the UTF-8 encoding of that
    list. A panic is [None]. *)
From S2P Require Import Prelude.

(** ** Characters and UTF-8 lengths *)

(** [char::len_utf8]. *)
Definition char_len (c : N) : nat :=
  if (c <? 128)%N then 1 else if (c <? 2048)%N then 2 else if (c <? 65536)%N then 3 else 4.

(** [str::len]. *)
Fixpoint byte_len (s : list N) : nat :=
  match s with [] => 0 | c :: s' => char_len c + byte_len s' end.

(** [str::is_char_boundary]. *)
Fixpoint is_char_boundary (s : list N) (i : nat) : bool :=
  match i, s with
  | 0, _ => true
  | S _, [] => false
  | S _, c :: s' => (char_len c <=? i) && is_char_boundary s' (i - char_len c)
  end.

(** The number of characters that end at or before byte [b]. *)
Fixpoint chars_before (s : list N) (b : nat) : nat :=
  match s with
  | [] => 0
  | c :: s' => if char_len c <=? b then S (chars_before s' (b - char_len c)) else 0
  end.

(** [&s[..b]] and [&s[b..]]: a panic off a character boundary. *)
Definition str_to (s : list N) (b : nat) : option (list N) :=
  if is_char_boundary s b then Some (take (chars_before s b) s) else None.
Definition str_from (s : list N) (b : nat) : option (list N) :=
  if is_char_boundary s b then Some (drop (chars_before s b) s) else None.

(** [s.char_indices()]: the characters with the byte offsets they start at. *)
Fixpoint char_indices_from (b : nat) (s : list N) : list (nat * N) :=
  match s with [] => [] | c :: s' => (b, c) :: char_indices_from (b + char_len c) s' end.
Definition char_indices (s : list N) : list (nat * N) := char_indices_from 0 s.

(** [char::is_whitespace]. *)
Definition is_whitespace (c : N) : bool := bool_decide (c ∈ white_space).

(** ** Lines *)

(** Whether a line ends after [c], when [rest] follows: line feed, vertical
    tab, form feed, next line, line and paragraph separator, and a carriage
    return that no line feed follows. *)
Definition breaks_line (c : N) (rest : list N) : bool :=
  bool_decide (c ∈ [10; 11; 12; 133; 8232; 8233]%N)
  || (bool_decide (c = 13%N) && negb (bool_decide (head rest = Some 10%N))).

(** The lines of a text, each with the line break that ends it. *)
Fixpoint split_lines (s : list N) : list (list N) :=
  match s with
  | [] => [[]]
  | c :: rest =>
      if breaks_line c rest then [c] :: split_lines rest
      else match split_lines rest with
           | l :: ls => (c :: l) :: ls
           | [] => [[c]]
           end
  end.

(** The line that holds position [i]; positions past the end are on the last. *)
Fixpoint line_of (ls : list (list N)) (len : list N -> nat) (i : nat) : nat :=
  match ls with
  | [] => 0
  | l :: ls' => match ls' with
                | [] => 0
                | _ => if i <? len l then 0 else S (line_of ls' len (i - len l))
                end
  end.

(** ** The rope interface *)

Class Rope (R : Type) := {
  rope_chars : R -> list N;
  len_chars : R -> nat;
  len_bytes : R -> nat;
  len_lines : R -> nat;
  char_at : R -> nat -> option N;
  line : R -> nat -> option (list N);
  line_to_char : R -> nat -> option nat;
  line_to_byte : R -> nat -> option nat;
  char_to_line : R -> nat -> option nat;
  byte_to_line : R -> nat -> option nat;
  char_to_byte : R -> nat -> option nat;
  byte_to_char : R -> nat -> option nat;
  slice : R -> nat -> nat -> option (list N);
  insert : R -> nat -> list N -> option R;
  remove : R -> nat -> nat -> option R;
  from_str : list N -> R;
}.

(** The documented behaviour: every operation is a function of the text, and
    panics exactly outside the range it documents. *)
Class RopeLaws (R : Type) `{Rope R} : Prop := {
  rope_len_chars : forall r : R, len_chars r = length (rope_chars r);
  rope_len_bytes : forall r : R, len_bytes r = byte_len (rope_chars r);
  rope_len_lines : forall r : R, len_lines r = length (split_lines (rope_chars r));
  rope_char_at : forall (r : R) i, char_at r i = rope_chars r !! i;
  rope_line : forall (r : R) i, line r i = split_lines (rope_chars r) !! i;
  rope_line_to_char : forall (r : R) i, line_to_char r i =
    if i <=? length (split_lines (rope_chars r))
    then Some (length (concat (take i (split_lines (rope_chars r))))) else None;
  rope_line_to_byte : forall (r : R) i, line_to_byte r i =
    if i <=? length (split_lines (rope_chars r))
    then Some (byte_len (concat (take i (split_lines (rope_chars r))))) else None;
  rope_char_to_line : forall (r : R) i, char_to_line r i =
    if i <=? length (rope_chars r) then Some (line_of (split_lines (rope_chars r)) length i) else None;
  rope_byte_to_line : forall (r : R) i, byte_to_line r i =
    if i <=? byte_len (rope_chars r) then Some (line_of (split_lines (rope_chars r)) byte_len i) else None;
  rope_char_to_byte : forall (r : R) i, char_to_byte r i =
    if i <=? length (rope_chars r) then Some (byte_len (take i (rope_chars r))) else None;
  rope_byte_to_char : forall (r : R) i, byte_to_char r i =
    if i <=? byte_len (rope_chars r) then Some (chars_before (rope_chars r) i) else None;
  rope_slice : forall (r : R) a b, slice r a b =
    if (a <=? b) && (b <=? length (rope_chars r))
    then Some (take (b - a) (drop a (rope_chars r))) else None;
  rope_insert : forall (r : R) i s, rope_chars <$> insert r i s =
    if i <=? length (rope_chars r)
    then Some (take i (rope_chars r) ++ s ++ drop i (rope_chars r)) else None;
  rope_remove : forall (r : R) a b, rope_chars <$> remove r a b =
    if (a <=? b) && (b <=? length (rope_chars r))
    then Some (take a (rope_chars r) ++ drop b (rope_chars r)) else None;
  rope_from_str : forall s, rope_chars (from_str s : R) = s;
}.

(** A rope that is the list of its characters; it satisfies the laws, and the
    witnesses compute with it. *)
Module ListRope.

#[export] Instance list_rope : Rope (list N) := {|
  rope_chars r := r;
  len_chars := length;
  len_bytes := byte_len;
  len_lines r := length (split_lines r);
  char_at r i := r !! i;
  line r i := split_lines r !! i;
  line_to_char r i := if i <=? length (split_lines r)
                      then Some (length (concat (take i (split_lines r)))) else None;
  line_to_byte r i := if i <=? length (split_lines r)
                      then Some (byte_len (concat (take i (split_lines r)))) else None;
  char_to_line r i := if i <=? length r then Some (line_of (split_lines r) length i) else None;
  byte_to_line r i := if i <=? byte_len r then Some (line_of (split_lines r) byte_len i) else None;
  char_to_byte r i := if i <=? length r then Some (byte_len (take i r)) else None;
  byte_to_char r i := if i <=? byte_len r then Some (chars_before r i) else None;
  slice r a b := if (a <=? b) && (b <=? length r) then Some (take (b - a) (drop a r)) else None;
  insert r i s := if i <=? length r then Some (take i r ++ s ++ drop i r) else None;
  remove r a b := if (a <=? b) && (b <=? length r) then Some (take a r ++ drop b r) else None;
  from_str s := s;
|}.

#[export] Instance list_rope_laws : RopeLaws (list N).
Proof. split; intros; simpl; try done; by case_match. Qed.

(** An ASCII literal as text. *)
Fixpoint ascii_text (s : string) : list N :=
  match s with
  | EmptyString => []
  | String c s' => Ascii.N_of_ascii c :: ascii_text s'
  end.

End ListRope.

(** ** Lemmas on UTF-8 offsets *)

Lemma char_len_pos c : 1 <= char_len c.
Proof. unfold char_len. repeat case_match; lia. Qed.

Lemma char_len_le4 c : char_len c <= 4.
Proof. unfold char_len. repeat case_match; lia. Qed.

Lemma byte_len_app s t : byte_len (s ++ t) = byte_len s + byte_len t.
Proof. induction s; simpl; lia. Qed.

Lemma byte_len_take_le s i : byte_len (take i s) <= byte_len s.
Proof. rewrite <- (take_drop i s) at 2. rewrite byte_len_app. lia. Qed.

(** The boundaries are the byte offsets of the characters, and the end. *)
Lemma is_char_boundary_spec s b :
  is_char_boundary s b = true <-> exists i, i <= length s /\ b = byte_len (take i s).
Proof.
  revert b. induction s as [|c s IH]; intros b.
  - destruct b; simpl; split; try done; [by exists 0|].
    intros (i & Hi & Hb). rewrite take_nil in Hb. done.
  - destruct b as [|b]; [split; [|done]; exists 0; simpl; split; [lia|done]|].
    cbn [is_char_boundary]. rewrite andb_true_iff, Nat.leb_le, IH. split.
    + intros [Hc (i & Hi & Hb)]. exists (S i). simpl. split; lia.
    + intros (i & Hi & Hb). pose proof (char_len_pos c). destruct i as [|i]; [done|]. simpl in *.
      split; [lia|]. exists i. split; lia.
Qed.

Lemma chars_before_le s b : chars_before s b <= length s.
Proof. revert b. induction s as [|c s IH]; intros b; simpl; [lia|]. case_match; [|lia]. specialize (IH (b - char_len c)). lia. Qed.

(** [chars_before] finds the last boundary at or before [b]. *)
Lemma chars_before_spec s b :
  byte_len (take (chars_before s b) s) <= b /\
  (forall i, i <= length s -> byte_len (take i s) <= b -> i <= chars_before s b).
Proof.
  revert b. induction s as [|c s IH]; intros b; simpl.
  - split; [lia|]. intros i Hi _. lia.
  - destruct (Nat.leb_spec (char_len c) b) as [Hc|Hc].
    + destruct (IH (b - char_len c)) as [H1 H2]. simpl. split; [lia|].
      intros [|i] Hi Hb; [lia|]. simpl in Hb. apply le_n_S, H2; lia.
    + simpl. split; [lia|]. intros [|i] Hi Hb; [lia|]. simpl in Hb. lia.
Qed.

Lemma byte_len_take_mono s i j : i <= j -> byte_len (take i s) <= byte_len (take j s).
Proof.
  intros Hij. replace (take i s) with (take i (take j s)) by (rewrite take_take; f_equal; lia).
  apply byte_len_take_le.
Qed.

Lemma byte_len_take_lt s i j : i < j -> j <= length s -> byte_len (take i s) < byte_len (take j s).
Proof.
  revert i j. induction s as [|c s IH]; intros [|i] [|j] Hij Hj; simpl in *; try lia.
  - pose proof (char_len_pos c). lia.
  - specialize (IH i j). lia.
Qed.

Lemma chars_before_boundary s i : i <= length s -> chars_before s (byte_len (take i s)) = i.
Proof.
  intros Hi. destruct (chars_before_spec s (byte_len (take i s))) as [H1 H2].
  specialize (H2 i Hi ltac:(lia)). pose proof (chars_before_le s (byte_len (take i s))).
  destruct (decide (i < chars_before s (byte_len (take i s)))) as [Hlt|]; [|lia].
  pose proof (byte_len_take_lt s _ _ Hlt ltac:(lia)). lia.
Qed.

Lemma chars_before_all s b : byte_len s <= b -> chars_before s b = length s.
Proof.
  intros Hb. destruct (chars_before_spec s b) as [_ H2].
  pose proof (chars_before_le s b). specialize (H2 (length s)). rewrite take_ge in H2 by lia. lia.
Qed.

(** ** Lemmas on lines *)

Lemma split_lines_concat s : concat (split_lines s) = s.
Proof.
  induction s as [|c s IH]; simpl; [done|]. destruct (breaks_line c s); simpl; [by rewrite IH|].
  destruct (split_lines s) as [|l ls]; simpl in *; by rewrite <- IH.
Qed.

Lemma split_lines_cons s : exists l ls, split_lines s = l :: ls.
Proof. destruct s as [|c s]; simpl; [eauto|]. repeat case_match; eauto. Qed.

Lemma split_lines_length s : 1 <= length (split_lines s).
Proof. destruct (split_lines_cons s) as (l & ls & ->). simpl. lia. Qed.

(** Position [i] lies on line [line_of ls i]: not before its start, and before
    its end unless the line is the last. *)
Lemma line_of_spec (ls : list (list N)) i :
  ls <> [] -> let k := line_of ls length i in
  k < length ls /\ length (concat (take k ls)) <= i /\
  (S k < length ls -> i < length (concat (take (S k) ls))).
Proof.
  revert i. induction ls as [|l ls IH]; intros i Hn; [done|]. cbn zeta. simpl.
  destruct ls as [|l' ls']; [simpl; lia|].
  destruct (Nat.ltb_spec i (length l)) as [Hi|Hi].
  - simpl. rewrite app_nil_r. lia.
  - destruct (IH (i - length l) ltac:(done)) as (H1 & H2 & H3).
    cbn [take concat length] in *. rewrite !length_app in *. lia.
Qed.

(** ** UTF-16 code units *)

(** [char::len_utf16]. *)
Definition char_u16 (c : N) : nat := if (c <? 65536)%N then 1 else 2.
Fixpoint utf16_len (s : list N) : nat :=
  match s with [] => 0 | c :: s' => char_u16 c + utf16_len s' end.

(** The number of characters that end at or before code unit [u]. *)
Fixpoint chars_before_u16 (s : list N) (u : nat) : nat :=
  match s with
  | [] => 0
  | c :: s' => if char_u16 c <=? u then S (chars_before_u16 s' (u - char_u16 c)) else 0
  end.

(** The conversions of the rope between characters and code units. *)
Class RopeUtf16 (R : Type) := {
  len_utf16_cu : R -> nat;
  char_to_utf16_cu : R -> nat -> option nat;
  utf16_cu_to_char : R -> nat -> option nat;
}.
Class RopeUtf16Laws (R : Type) `{Rope R, RopeUtf16 R} : Prop := {
  rope_len_utf16 : forall r : R, len_utf16_cu r = utf16_len (rope_chars r);
  rope_char_to_utf16 : forall (r : R) i, char_to_utf16_cu r i =
    if i <=? length (rope_chars r) then Some (utf16_len (take i (rope_chars r))) else None;
  rope_utf16_to_char : forall (r : R) u, utf16_cu_to_char r u =
    if u <=? utf16_len (rope_chars r) then Some (chars_before_u16 (rope_chars r) u) else None;
}.

Module ListRopeUtf16.
Import ListRope.
#[export] Instance list_rope_utf16 : RopeUtf16 (list N) := {|
  len_utf16_cu := utf16_len;
  char_to_utf16_cu r i := if i <=? length r then Some (utf16_len (take i r)) else None;
  utf16_cu_to_char r u := if u <=? utf16_len r then Some (chars_before_u16 r u) else None;
|}.
#[export] Instance list_rope_utf16_laws : RopeUtf16Laws (list N).
Proof. by split. Qed.
End ListRopeUtf16.

Lemma char_u16_pos c : 1 <= char_u16 c.
Proof. unfold char_u16. case_match; lia. Qed.
Lemma utf16_len_app s t : utf16_len (s ++ t) = utf16_len s + utf16_len t.
Proof. induction s; simpl; lia. Qed.
Lemma length_utf16_len s : length s <= utf16_len s.
Proof. induction s as [|c s IH]; simpl; [lia|]. pose proof (char_u16_pos c). lia. Qed.
Lemma utf16_len_take_le s i : utf16_len (take i s) <= utf16_len s.
Proof. rewrite <- (take_drop i s) at 2. rewrite utf16_len_app. lia. Qed.
Lemma chars_before_u16_boundary s i :
  i <= length s -> chars_before_u16 s (utf16_len (take i s)) = i.
Proof.
  revert i. induction s as [|c s IH]; intros [|i] Hi; simpl in *; try lia.
  - pose proof (char_u16_pos c). by rewrite (proj2 (Nat.leb_gt _ _)) by lia.
  - rewrite (proj2 (Nat.leb_le _ _)) by lia. f_equal.
    rewrite Nat.add_comm, Nat.add_sub. apply IH. lia.
Qed.
