(* ===== verification/Grapheme.v ===== *)
(** * Grapheme: byte columns that sit on grapheme-cluster boundaries

    Models [crates/core/src/grapheme.rs]. Segmentation into clusters and the
    width tables are external crates: parameters (classes [Segmentation] and
    [WidthTables]). A cursor column of the editor is a byte offset into a line. *)
From S2P Require Import Prelude Rope.

(** [unicode_segmentation]: [s.graphemes(true)]. *)
Class Segmentation := { graphemes : list N -> list (list N) }.

(** Extended grapheme clusters partition the text into non-empty pieces. *)
Class SegmentationLaws `{Segmentation} : Prop := {
  graphemes_concat : forall s, concat (graphemes s) = s;
  graphemes_nonempty : forall s g, g ∈ graphemes s -> g <> [];
}.

(** [unicode_width]: [None] is the undefined width of a control character. *)
Class WidthTables := {
  char_width : N -> option nat;
  char_width_cjk : N -> option nat;
  str_width : list N -> nat;
  str_width_cjk : list N -> nat;
}.

Record WidthPolicy := mkWidthPolicy { ambiguous_wide : bool; control_char_width : nat }.
Definition default_width_policy : WidthPolicy := mkWidthPolicy false 0.

(** [floor_char_boundary]'s loop, downward from [idx]. *)
Fixpoint floor_loop (s : list N) (idx : nat) : nat :=
  match idx with
  | 0 => 0
  | S idx' => if negb (is_char_boundary s idx) then floor_loop s idx' else idx
  end.

Definition floor_char_boundary (s : list N) (byte_idx : nat) : nat :=
  floor_loop s (Nat.min byte_idx (byte_len s)).

(** In a debug build ([debug = true]) an offset off a boundary is a failed
    [debug_assert!]; in a release build it is rounded down. *)
Definition checked_byte_boundary (debug : bool) (s : list N) (byte_idx : nat) : option nat :=
  if (byte_idx <=? byte_len s) && is_char_boundary s byte_idx then Some byte_idx
  else if debug then None
  else Some (floor_loop s (Nat.min byte_idx (byte_len s))).

(** [s.char_indices().nth(i).map(|(i, _)| i).unwrap_or(s.len())]. *)
Definition char_idx_to_byte_idx (s : list N) (char_idx : nat) : nat :=
  match char_indices s !! char_idx with Some (i, _) => i | None => byte_len s end.

Section Clusters.
Context `{Segmentation}.

Definition grapheme_count (s : list N) : nat := length (graphemes s).

(** [s.grapheme_indices(true)]: the clusters with their byte offsets. *)
Fixpoint indices_from (b : nat) (gs : list (list N)) : list (nat * list N) :=
  match gs with [] => [] | g :: gs' => (b, g) :: indices_from (b + byte_len g) gs' end.
Definition grapheme_indices (s : list N) : list (nat * list N) := indices_from 0 (graphemes s).

Definition grapheme_to_byte_offset (s : list N) (grapheme_idx : nat) : nat :=
  match grapheme_indices s !! grapheme_idx with Some (b, _) => b | None => byte_len s end.

Definition grapheme_to_char_offset (s : list N) (grapheme_idx : nat) : option nat :=
  length <$> str_to s (grapheme_to_byte_offset s grapheme_idx).

Definition next_grapheme_boundary (s : list N) (byte_idx : nat) : nat :=
  let from := floor_char_boundary s byte_idx in
  match List.find (fun e => from <? e)
          (map (fun '(i, g) => i + byte_len g) (grapheme_indices s)) with
  | Some e => e
  | None => byte_len s
  end.

(** [for (i, _) in .. { if stop(i) { break } last = i }]. *)
Fixpoint last_before (stop : nat -> bool) (last : nat) (ixs : list (nat * list N)) : nat :=
  match ixs with
  | [] => last
  | (i, _) :: rest => if stop i then last else last_before stop i rest
  end.

Definition prev_grapheme_boundary (s : list N) (byte_idx : nat) : nat :=
  let from := floor_char_boundary s byte_idx in
  last_before (fun i => from <=? i) 0 (grapheme_indices s).

Definition snap_to_grapheme_boundary (s : list N) (byte_idx : nat) : nat :=
  if byte_len s <=? byte_idx then byte_len s
  else
    let target := floor_char_boundary s byte_idx in
    last_before (fun i => target <? i) 0 (grapheme_indices s).

(** [line_grapheme_count]: the clusters of a line without trailing newlines. *)
Fixpoint trim_end (c : N) (s : list N) : list N :=
  match s with
  | [] => []
  | d :: s' => match trim_end c s' with
               | [] => if bool_decide (d = c) then [] else [d]
               | r => d :: r
               end
  end.
Definition line_grapheme_count (l : list N) : nat := grapheme_count (trim_end 10 l).

Section Widths.
Context `{WidthTables}.

Definition char_width_with (c : N) (policy : WidthPolicy) : nat :=
  default (control_char_width policy)
    (if ambiguous_wide policy then char_width_cjk c else char_width c).

Definition char_width_or (c : N) (fallback : nat) : nat := default fallback (char_width c).

Definition grapheme_width (g : list N) (policy : WidthPolicy) : nat :=
  match g with
  | [c] => default (control_char_width policy)
             (if ambiguous_wide policy then char_width_cjk c else char_width c)
  | _ => if ambiguous_wide policy then str_width_cjk g else str_width g
  end.

Definition display_width_with (s : list N) (policy : WidthPolicy) : nat :=
  list_sum (map (fun g => grapheme_width g policy) (graphemes s)).
Definition display_width (s : list N) : nat := display_width_with s default_width_policy.

Definition display_width_up_to_grapheme (s : list N) (grapheme_idx : nat) : nat :=
  list_sum (map str_width (take grapheme_idx (graphemes s))).

Definition display_width_of_prefix_with (s : list N) (byte_idx : nat) (policy : WidthPolicy)
    : option nat :=
  let? p := str_to s (floor_char_boundary s byte_idx) in
  Some (display_width_with p policy).

(** The forward walk of [byte_offset_for_max_width_with]. *)
Fixpoint clamp_width (debug : bool) (s : list N) (policy : WidthPolicy) (max_width cols : nat)
    (ixs : list (nat * list N)) : option nat :=
  match ixs with
  | [] => Some (byte_len s)
  | (b, g) :: rest =>
      let w := grapheme_width g policy in
      if max_width <? cols + w then checked_byte_boundary debug s b
      else clamp_width debug s policy max_width (cols + w) rest
  end.

Definition byte_offset_for_max_width_with (debug : bool) (s : list N) (max_width : nat)
    (policy : WidthPolicy) : option nat :=
  clamp_width debug s policy max_width 0 (grapheme_indices s).

Definition byte_offset_for_max_width (debug : bool) (s : list N) (max_width : nat) : option nat :=
  byte_offset_for_max_width_with debug s max_width default_width_policy.

(** The backward walk, over the reversed clusters; it returns [start]. *)
Fixpoint clamp_width_back (policy : WidthPolicy) (max_width cols start : nat)
    (ixs : list (nat * list N)) : nat :=
  match ixs with
  | [] => start
  | (b, g) :: rest =>
      let w := grapheme_width g policy in
      if max_width <? cols + w then start
      else clamp_width_back policy max_width (cols + w) b rest
  end.

Definition byte_offset_for_max_width_from_end_with (debug : bool) (s : list N) (max_width : nat)
    (policy : WidthPolicy) : option nat :=
  checked_byte_boundary debug s
    (clamp_width_back policy max_width 0 (byte_len s) (reverse (grapheme_indices s))).

Definition byte_offset_for_max_width_from_end (debug : bool) (s : list N) (max_width : nat)
    : option nat :=
  byte_offset_for_max_width_from_end_with debug s max_width default_width_policy.

End Widths.

(** The byte offsets of the cluster boundaries of [s], the end included. *)
Definition boundary (s : list N) (b : nat) : Prop :=
  exists k, k <= length (graphemes s) /\ b = byte_len (concat (take k (graphemes s))).

End Clusters.

(** ** Lemmas *)

Lemma floor_loop_spec s idx :
  let f := floor_loop s idx in
  is_char_boundary s f = true /\ f <= idx /\
  (forall c, is_char_boundary s c = true -> c <= idx -> c <= f).
Proof.
  induction idx as [|idx IH]; cbn zeta.
  - split_and!; [by destruct s|done|]. intros; simpl; lia.
  - cbn [floor_loop]. destruct (is_char_boundary s (S idx)) eqn:E; simpl.
    + split_and!; [done|lia|auto with lia].
    + destruct IH as (H1 & H2 & H3). split_and!; [done|lia|].
      intros c Hc Hle. apply H3; [done|].
      destruct (decide (c = S idx)) as [->|]; [by rewrite E in Hc|lia].
Qed.

(** [floor_char_boundary] is the last character boundary at or before the
    offset, and rounds to the character that [chars_before] counts. *)
Lemma floor_char_boundary_spec s b :
  let f := floor_char_boundary s b in
  is_char_boundary s f = true /\ f <= b /\ f <= byte_len s /\
  (forall c, is_char_boundary s c = true -> c <= b -> c <= f).
Proof.
  cbn zeta. destruct (floor_loop_spec s (Nat.min b (byte_len s))) as (H1 & H2 & H3).
  fold (floor_char_boundary s b) in *. split_and!; [done|lia|lia|].
  intros c Hc Hb. apply H3; [done|]. apply is_char_boundary_spec in Hc as (i & Hi & ->).
  pose proof (byte_len_take_le s i). lia.
Qed.

Lemma floor_char_boundary_chars s b :
  floor_char_boundary s b = byte_len (take (chars_before s b) s).
Proof.
  destruct (floor_char_boundary_spec s b) as (H1 & H2 & H3 & H4).
  destruct (chars_before_spec s b) as [H5 H6]. apply Nat.le_antisymm.
  - apply is_char_boundary_spec in H1 as (i & Hi & Hb). rewrite Hb in *.
    apply byte_len_take_mono, H6; [done|lia].
  - apply H4; [|done]. apply is_char_boundary_spec. exists (chars_before s b).
    split; [apply chars_before_le|done].
Qed.

Lemma floor_char_boundary_id s b : is_char_boundary s b = true -> floor_char_boundary s b = b.
Proof. destruct (floor_char_boundary_spec s b) as (_ & H2 & _ & H4). intros Hb%H4; lia. Qed.

(** The offset of the cluster boundary [k]. *)
Notation offs gs k := (byte_len (concat (take k gs))).

Lemma byte_len_pos g : g <> [] -> 0 < byte_len g.
Proof. destruct g as [|c g]; [done|]. intros _. simpl. pose proof (char_len_pos c). lia. Qed.

Lemma offs_mono gs j k : j <= k -> offs gs j <= offs gs k.
Proof.
  intros Hjk. replace (take j gs) with (take j (take k gs)) by (rewrite take_take; f_equal; lia).
  rewrite <- (take_drop j (take k gs)) at 2. rewrite concat_app, byte_len_app. lia.
Qed.

Lemma offs_strict gs j k :
  (forall g, g ∈ gs -> g <> []) -> j < k -> k <= length gs -> offs gs j < offs gs k.
Proof.
  intros Hn Hjk Hk. apply Nat.lt_le_trans with (offs gs (S j)); [|by apply offs_mono].
  destruct (lookup_lt_is_Some_2 gs j ltac:(lia)) as [g Hg].
  rewrite (take_S_r gs j g Hg), concat_app, byte_len_app. simpl. rewrite app_nil_r.
  pose proof (byte_len_pos g (Hn g (list_elem_of_lookup_2 _ _ _ Hg))). lia.
Qed.

Lemma indices_from_lookup b gs k :
  indices_from b gs !! k = (fun g => (b + offs gs k, g)) <$> gs !! k.
Proof.
  revert b k. induction gs as [|g gs IH]; intros b [|k]; simpl; try done.
  - by rewrite Nat.add_0_r.
  - rewrite IH. destruct (gs !! k); simpl; [|done]. rewrite byte_len_app. do 2 f_equal. lia.
Qed.

Lemma indices_from_length b gs : length (indices_from b gs) = length gs.
Proof. revert b. induction gs as [|g gs IH]; intros b; simpl; [done|]. by rewrite IH. Qed.

(** Where the walks of [prev_grapheme_boundary] and [snap_to_grapheme_boundary]
    stop, for the threshold [t] of their [break]. *)
Lemma last_before_spec t last b gs :
  let r := last_before (fun i => t <=? i) last (indices_from b gs) in
  (r = last /\ (gs = [] \/ t <= b)) \/
  (exists k, k < length gs /\ r = b + offs gs k /\ r < t /\
     forall j, k < j -> j < length gs -> t <= b + offs gs j).
Proof.
  revert last b. induction gs as [|g gs IH]; intros last b; cbn zeta; simpl; [by left; auto|].
  destruct (Nat.leb_spec t b) as [Hb|Hb]; [by left; auto|]. right.
  destruct (IH b (b + byte_len g)) as [[Hr Hs]|(k & Hk & Hr & Ht & Hj)].
  - exists 0. rewrite Hr. simpl. split_and!; [lia|lia|lia|]. intros [|j] Hj1 Hj2; [lia|].
    simpl in *. rewrite byte_len_app. destruct Hs as [->|?]; [simpl in *; lia|lia].
  - exists (S k). rewrite Hr. simpl. rewrite byte_len_app. split_and!; [lia|lia|lia|].
    intros [|j] Hj1 Hj2; [lia|]. simpl. rewrite byte_len_app. specialize (Hj j). lia.
Qed.

Lemma find_end_spec from b gs :
  match List.find (fun e => from <? e) (map (fun '(i, g) => i + byte_len g) (indices_from b gs)) with
  | Some e => exists k, k < length gs /\ e = b + offs gs (S k) /\ from < e /\
                forall j, 1 <= j -> j <= k -> b + offs gs j <= from
  | None => forall j, 1 <= j -> j <= length gs -> b + offs gs j <= from
  end.
Proof.
  revert b. induction gs as [|g gs IH]; intros b; simpl; [intros; lia|].
  destruct (Nat.ltb_spec from (b + byte_len g)) as [Hf|Hf].
  - exists 0. simpl. rewrite app_nil_r. split_and!; [lia|done|done|lia].
  - specialize (IH (b + byte_len g)). destruct (List.find _ _) as [e|].
    + destruct IH as (k & Hk & He & Hlt & Hj). exists (S k).
      split_and!; [lia| |done|].
      * rewrite He. simpl. rewrite byte_len_app. simpl. lia.
      * intros [|[|j]] H1 H2; [lia|simpl; rewrite app_nil_r; lia|].
        specialize (Hj (S j)). simpl in *. rewrite byte_len_app in *. lia.
    + intros [|[|j]] H1 H2; [lia|simpl; rewrite app_nil_r; lia|].
      specialize (IH (S j)). simpl in *. rewrite byte_len_app in *. lia.
Qed.

Section Laws.
Context `{SegmentationLaws}.

Lemma offs_all s : offs (graphemes s) (length (graphemes s)) = byte_len s.
Proof. by rewrite take_ge, graphemes_concat by lia. Qed.

Lemma offs_le s k : offs (graphemes s) k <= byte_len s.
Proof.
  rewrite <- (graphemes_concat s) at 2. rewrite <- (take_drop k (graphemes s)) at 2.
  rewrite concat_app, byte_len_app. lia.
Qed.

Lemma split_at_boundary s k :
  s = concat (take k (graphemes s)) ++ concat (drop k (graphemes s)).
Proof. by rewrite <- concat_app, take_drop, graphemes_concat. Qed.

Lemma boundary_char s b : boundary s b -> is_char_boundary s b = true.
Proof.
  intros (k & Hk & ->). apply is_char_boundary_spec. pose proof (split_at_boundary s k) as Hs.
  set (p := concat (take k (graphemes s))) in *. clearbody p.
  exists (length p). rewrite Hs. split; [rewrite length_app; lia|by rewrite take_app_length].
Qed.

Lemma boundary_0 s : boundary s 0.
Proof. exists 0. simpl. split; [lia|done]. Qed.

Lemma boundary_end s : boundary s (byte_len s).
Proof. exists (length (graphemes s)). by rewrite offs_all. Qed.

Lemma prev_spec s b :
  let f := floor_char_boundary s b in let p := prev_grapheme_boundary s b in
  boundary s p /\ p <= f /\ (0 < f -> p < f) /\ (forall x, boundary s x -> x < f -> x <= p).
Proof.
  cbn zeta. unfold prev_grapheme_boundary, grapheme_indices.
  destruct (floor_char_boundary_spec s b) as (_ & _ & Hfl & _).
  set (f := floor_char_boundary s b) in *. clearbody f.
  destruct (last_before_spec f 0 0 (graphemes s)) as [[-> Hs]|(k & Hk & -> & Ht & Hj)].
  - destruct Hs as [Hs|Hs].
    + pose proof (offs_all s) as Ha. rewrite Hs in Ha. simpl in Ha.
      split_and!; [apply boundary_0|lia|lia|]. intros x _ ?. lia.
    + split_and!; [apply boundary_0|lia|lia|]. intros x _ ?. lia.
  - simpl in *. split_and!; [exists k; split; [lia|done]|lia|done|].
    intros x (j & Hjl & ->) Hx. apply offs_mono. destruct (decide (j <= k)) as [|Hn]; [done|].
    destruct (decide (j = length (graphemes s))) as [->|]; [rewrite offs_all in Hx; lia|].
    specialize (Hj j). lia.
Qed.

Lemma next_spec s b :
  let f := floor_char_boundary s b in let n := next_grapheme_boundary s b in
  boundary s n /\ f <= n /\ (f < byte_len s -> f < n) /\ (forall x, boundary s x -> f < x -> n <= x).
Proof.
  cbn zeta. unfold next_grapheme_boundary, grapheme_indices.
  destruct (floor_char_boundary_spec s b) as (_ & _ & Hfl & _).
  set (f := floor_char_boundary s b) in *. clearbody f.
  pose proof (find_end_spec f 0 (graphemes s)) as Hf. destruct (List.find _ _) as [e|]; simpl in Hf.
  - destruct Hf as (k & Hk & -> & Hlt & Hj). simpl. split_and!; [by exists (S k)|lia|lia|].
    intros x (j & Hjl & ->) Hx. apply offs_mono. destruct (decide (S k <= j)) as [|Hn]; [done|].
    destruct j as [|j]; [simpl in Hx; lia|]. specialize (Hj (S j)). lia.
  - split_and!; [apply boundary_end|lia| |].
    + pose proof (offs_all s) as Ha. destruct (length (graphemes s)) as [|n] eqn:El; [simpl in Ha; lia|].
      specialize (Hf (S n)). lia.
    + intros x (j & Hjl & ->) Hx. destruct j as [|j]; [simpl in Hx; lia|]. specialize (Hf (S j)). lia.
Qed.

Lemma snap_spec s b :
  let p := snap_to_grapheme_boundary s b in
  boundary s p /\ p <= b /\ (forall x, boundary s x -> x <= b -> x <= p).
Proof.
  cbn zeta. unfold snap_to_grapheme_boundary. destruct (Nat.leb_spec (byte_len s) b) as [Hb|Hb].
  { split_and!; [apply boundary_end|done|]. intros x (k & _ & ->) _. apply offs_le. }
  destruct (floor_char_boundary_spec s b) as (_ & Hfb & Hfl & Hg).
  assert (Hx : forall x, boundary s x -> x <= b -> x <= floor_char_boundary s b).
  { intros x Hbx. by apply Hg, boundary_char. }
  set (f := floor_char_boundary s b) in *. clearbody f. clear Hg. unfold grapheme_indices.
  change (fun i => f <? i) with (fun i => S f <=? i).
  destruct (last_before_spec (S f) 0 0 (graphemes s)) as [[-> Hs]|(k & Hk & -> & Ht & Hj)].
  - destruct Hs as [Hs|Hs]; [|lia].
    pose proof (offs_all s) as Ha. rewrite Hs in Ha. simpl in Ha. lia.
  - simpl in *. split_and!; [exists k; split; [lia|done]|lia|].
    intros x Hbx Hle. specialize (Hx x Hbx Hle). destruct Hbx as (j & Hjl & ->).
    apply offs_mono. destruct (decide (j <= k)) as [|Hn]; [done|].
    destruct (decide (j = length (graphemes s))) as [->|]; [rewrite offs_all in Hx; lia|].
    specialize (Hj j). lia.
Qed.

End Laws.

Section Clamp.
Context `{SegmentationLaws, WidthTables}.

Lemma checked_boundary debug s b : boundary s b -> checked_byte_boundary debug s b = Some b.
Proof.
  intros Hb. pose proof (boundary_char s b Hb) as Hc. unfold checked_byte_boundary.
  destruct Hb as (k & _ & ->). pose proof (offs_le s k). rewrite Hc.
  by rewrite (proj2 (Nat.leb_le _ _)) by lia.
Qed.

(** The width of the first [k] clusters. *)
Definition clusters_width (s : list N) (policy : WidthPolicy) (k : nat) : nat :=
  list_sum (map (fun g => grapheme_width g policy) (take k (graphemes s))).

(** The forward walk, started at the cluster [i]. *)
Lemma clamp_width_spec debug s policy max_width i gs :
  drop i (graphemes s) = gs -> i <= length (graphemes s) ->
  clusters_width s policy i <= max_width ->
  exists k, k <= length (graphemes s) /\
    clamp_width debug s policy max_width (clusters_width s policy i)
      (indices_from (offs (graphemes s) i) gs) = Some (offs (graphemes s) k) /\
    clusters_width s policy k <= max_width /\
    (k < length (graphemes s) -> max_width < clusters_width s policy (S k)).
Proof.
  revert i. induction gs as [|g gs IH]; intros i Hd Hi Hw; cbn [indices_from clamp_width].
  - exists i. assert (i = length (graphemes s)) as ->.
    { apply (f_equal length) in Hd. rewrite length_drop in Hd. simpl in Hd. lia. }
    split_and!; [done|by rewrite offs_all|done|lia].
  - assert (Hg : graphemes s !! i = Some g).
    { rewrite <- (Nat.add_0_r i), <- lookup_drop, Hd. done. }
    assert (HS : clusters_width s policy (S i) = clusters_width s policy i + grapheme_width g policy).
    { unfold clusters_width. rewrite (take_S_r _ _ _ Hg), map_app, list_sum_app. simpl. lia. }
    pose proof (lookup_lt_Some _ _ _ Hg).
    destruct (Nat.ltb_spec max_width (clusters_width s policy i + grapheme_width g policy)) as [Hlt|Hle].
    + exists i. rewrite HS. split_and!; [done| |done|lia]. apply checked_boundary. by exists i.
    + rewrite <- HS in *.
      replace (offs (graphemes s) i + byte_len g) with (offs (graphemes s) (S i)).
      2: { rewrite (take_S_r _ _ _ Hg), concat_app, byte_len_app. simpl. by rewrite app_nil_r. }
      apply IH; [|lia|done]. rewrite (drop_S _ g i Hg) in Hd. by simplify_eq.
Qed.

(** ** Properties *)

(** [snap_to_grapheme_boundary] is the greatest cluster boundary at or
    before the offset, for any offset; the result is where a slice of the line
    does not panic, and snapping again changes nothing. *)
Theorem snap_is_greatest_boundary s b :
  let p := snap_to_grapheme_boundary s b in
  boundary s p /\ p <= b /\ (forall x, boundary s x -> x <= b -> x <= p) /\
  is_Some (str_to s p) /\ snap_to_grapheme_boundary s p = p.
Proof.
  cbn zeta. destruct (snap_spec s b) as (Hb & Hle & Hmax). split_and!; [done|done|done| |].
  - unfold str_to. rewrite boundary_char by done. by eexists.
  - destruct (snap_spec s (snap_to_grapheme_boundary s b)) as (_ & Hle' & Hmax').
    apply Nat.le_antisymm; [done|]. by apply Hmax'.
Qed.

(** Stepping right and stepping left are inverse on cluster boundaries:
    each moves by exactly one cluster, and back. *)
Theorem grapheme_steps_invert s b :
  boundary s b ->
  (b < byte_len s -> b < next_grapheme_boundary s b /\
     prev_grapheme_boundary s (next_grapheme_boundary s b) = b) /\
  (0 < b -> prev_grapheme_boundary s b < b /\
     next_grapheme_boundary s (prev_grapheme_boundary s b) = b).
Proof.
  intros Hb. pose proof (floor_char_boundary_id s b (boundary_char s b Hb)) as Hf.
  destruct (next_spec s b) as (Hn1 & Hn2 & Hn3 & Hn4), (prev_spec s b) as (Hp1 & Hp2 & Hp3 & Hp4).
  rewrite Hf in *. split; intros Hlt.
  - set (n := next_grapheme_boundary s b) in *.
    pose proof (floor_char_boundary_id s n (boundary_char s n Hn1)) as Hfn.
    destruct (prev_spec s n) as (Hq1 & Hq2 & Hq3 & Hq4). rewrite Hfn in *.
    split; [by apply Hn3|]. apply Nat.le_antisymm; [|apply Hq4; auto].
    destruct (decide (b < prev_grapheme_boundary s n)) as [Hlt'|]; [|lia].
    specialize (Hn4 _ Hq1 Hlt'). lia.
  - set (n := prev_grapheme_boundary s b) in *.
    pose proof (floor_char_boundary_id s n (boundary_char s n Hp1)) as Hfn.
    destruct (next_spec s n) as (Hq1 & Hq2 & Hq3 & Hq4). rewrite Hfn in *.
    split; [by apply Hp3|]. apply Nat.le_antisymm; [apply Hq4; auto|].
    destruct (decide (next_grapheme_boundary s n < b)) as [Hlt'|]; [|lia].
    specialize (Hp4 _ Hq1 Hlt').
    destruct (floor_char_boundary_spec s b) as (_ & _ & Hle & _). rewrite Hf in Hle. lia.
Qed.

(** The width clamp returns in both build modes the end of the longest
    prefix of whole clusters that fits the width, and never trips the
    [debug_assert!] of [checked_byte_boundary]. *)
Theorem width_clamp_is_longest_prefix debug s max_width policy :
  exists k, k <= length (graphemes s) /\
    byte_offset_for_max_width_with debug s max_width policy =
      Some (byte_len (concat (take k (graphemes s)))) /\
    clusters_width s policy k <= max_width /\
    (k < length (graphemes s) -> max_width < clusters_width s policy (S k)).
Proof. apply (clamp_width_spec debug s policy max_width 0 (graphemes s)); [done|lia|apply Nat.le_0_l]. Qed.

End Clamp.

(** ** Witnesses *)

(** A segmentation that attaches the combining diacritical marks. *)
Module ToySegmentation.

Definition combining (c : N) : bool := (768 <=? c)%N && (c <=? 879)%N.

Fixpoint clusters (s : list N) : list (list N) :=
  match s with
  | [] => []
  | c :: rest =>
      match clusters rest with
      | (d :: g) :: gs => if combining d then (c :: d :: g) :: gs else [c] :: (d :: g) :: gs
      | gs => [c] :: gs
      end
  end.

#[export] Instance toy_segmentation : Segmentation := { graphemes := clusters }.

#[export] Instance toy_segmentation_laws : SegmentationLaws.
Proof.
  split; simpl.
  - intros s. induction s as [|c s IH]; simpl; [done|].
    destruct (clusters s) as [|[|d g] gs]; simpl in *; [by subst|by rewrite IH|].
    destruct (combining d); simpl; by rewrite <- IH.
  - intros s. induction s as [|c s IH]; intros g Hg; simpl in Hg; [by apply not_elem_of_nil in Hg|].
    destruct (clusters s) as [|[|d g'] gs]; [by apply list_elem_of_singleton in Hg as ->| |].
    + apply elem_of_cons in Hg as [->|Hg]; [done|by apply IH].
    + destruct (combining d); apply elem_of_cons in Hg as [->|Hg]; try done; apply IH; set_solver.
Qed.

End ToySegmentation.
#[local] Existing Instance ToySegmentation.toy_segmentation.
#[local] Existing Instance ToySegmentation.toy_segmentation_laws.

(** The text e, combining acute, x, euro sign: boundaries 0, 3, 4 and 7. *)
Lemma grapheme_steps_invert_witness :
  let s := [101; 769; 120; 8364]%N in
  boundary s 3 /\
  (3 < byte_len s -> 3 < next_grapheme_boundary s 3 /\
     prev_grapheme_boundary s (next_grapheme_boundary s 3) = 3) /\
  (0 < 3 -> prev_grapheme_boundary s 3 < 3 /\
     next_grapheme_boundary s (prev_grapheme_boundary s 3) = 3) /\
  next_grapheme_boundary s 4 = 7.
Proof.
  intros s. assert (Hb : boundary s 3) by (exists 1; by vm_compute; auto with lia).
  split; [done|]. pose proof (grapheme_steps_invert s 3 Hb) as [H1 H2]. by split_and!.
Defined.

(** Inside the accented letter the offset snaps back to its start. *)
Lemma snap_is_greatest_boundary_witness :
  let s := [101; 769; 120; 8364]%N in
  snap_to_grapheme_boundary s 2 = 0 /\
  boundary s (snap_to_grapheme_boundary s 6) /\ snap_to_grapheme_boundary s 6 = 4.
Proof.
  intros s. split; [by vm_compute|]. split; [|by vm_compute]. apply (snap_is_greatest_boundary s 6).
Defined.

(** Width tables in which a cluster is as wide as its first character, and the
    euro sign is ambiguous. *)
#[local] Instance toy_widths : WidthTables := {
  char_width _ := Some 1;
  char_width_cjk c := Some (if (c =? 8364)%N then 2 else 1);
  str_width _ := 1;
  str_width_cjk _ := 1;
}.

(** With wide ambiguous characters the euro sign no longer fits in three
    columns: the clamp stops in front of it. *)
Lemma width_clamp_is_longest_prefix_witness :
  let s := [101; 769; 120; 8364]%N in
  let policy := mkWidthPolicy true 0 in
  byte_offset_for_max_width_with true s 3 policy = Some 4 /\
  exists k, k <= length (graphemes s) /\
    byte_offset_for_max_width_with true s 3 policy = Some (byte_len (concat (take k (graphemes s)))) /\
    clusters_width s policy k <= 3 /\
    (k < length (graphemes s) -> 3 < clusters_width s policy (S k)).
Proof.
  intros s policy. split; [by vm_compute|]. exact (width_clamp_is_longest_prefix true s 3 policy).
Defined.
