(* ===== verification/Word.v ===== *)
(** * Word: vi word motions, bracket matching, paragraphs and text objects

    Models [crates/core/src/word.rs]. Positions are character offsets; a motion
    returns [option], where [None] is the panic of an out-of-range
    [rope.char(..)]. [char::is_alphanumeric] is a table lookup of the standard
    library and is a parameter (class [Unicode]). *)
From S2P Require Import Prelude Rope Grapheme.

Class Unicode := { is_alphanumeric : N -> bool }.

Inductive CharClass := Word | Punctuation | Whitespace | Newline.
#[export] Instance CharClass_eq_dec : EqDecision CharClass.
Proof. solve_decision. Defined.

(** [x as i32]: the depth counters are 32-bit and wrap in a release build. *)
Definition i32 (z : Z) : Z := ((z + 2147483648) mod 4294967296 - 2147483648)%Z.

(** [matches!(c, CharClass::Whitespace | CharClass::Newline)]. *)
Definition blank (c : CharClass) : bool :=
  bool_decide (c = Whitespace) || bool_decide (c = Newline).

Section Motions.
Context {R : Type} `{Rope R, Unicode}.
Implicit Types (r : R) (pos : nat).

Definition classify (ch : N) : CharClass :=
  if bool_decide (ch = 10%N) || bool_decide (ch = 13%N) then Newline
  else if is_whitespace ch then Whitespace
  else if is_alphanumeric ch || bool_decide (ch = 95%N) then Word
  else Punctuation.

Definition max_pos r : nat := len_chars r - 1.

(** [while p < len { if !f(classify(rope.char(p))) { break } p += 1 }]; [p]
    grows in every round, so [len_chars] rounds are enough. *)
Fixpoint skip_forward (fuel : nat) r (f : CharClass -> bool) (p : nat) : option nat :=
  match fuel with
  | 0 => Some p
  | S fuel' =>
      if p <? len_chars r then
        let? c := char_at r p in
        if f (classify c) then skip_forward fuel' r f (S p) else Some p
      else Some p
  end.

(** [while p + 1 < len { if !f(classify(rope.char(p + 1))) { break } p += 1 }]. *)
Fixpoint run_forward (fuel : nat) r (f : CharClass -> bool) (p : nat) : option nat :=
  match fuel with
  | 0 => Some p
  | S fuel' =>
      if p + 1 <? len_chars r then
        let? c := char_at r (p + 1) in
        if f (classify c) then run_forward fuel' r f (S p) else Some p
      else Some p
  end.

(** [while p > 0 && f(classify(rope.char(p))) { p -= 1 }]. *)
Fixpoint skip_backward r (f : CharClass -> bool) (p : nat) : option nat :=
  match p with
  | 0 => Some 0
  | S p' => let? c := char_at r p in
            if f (classify c) then skip_backward r f p' else Some p
  end.

(** [while p > 0 { if !f(classify(rope.char(p - 1))) { break } p -= 1 }]. *)
Fixpoint run_backward r (f : CharClass -> bool) (p : nat) : option nat :=
  match p with
  | 0 => Some 0
  | S p' => let? c := char_at r p' in
            if f (classify c) then run_backward r f p' else Some p
  end.

(** The test that ends the early returns of the forward motions. *)
Definition at_end r pos : bool := bool_decide (len_chars r = 0) || (max_pos r <=? pos).

Definition word_start_forward r pos : option nat :=
  if at_end r pos then Some (max_pos r)
  else
    let? c := char_at r pos in
    let start_class := classify c in
    if bool_decide (start_class = Newline) then Some (Nat.min (pos + 1) (max_pos r))
    else
      let? p := skip_forward (len_chars r) r (fun k => bool_decide (k = start_class)) pos in
      let? p := skip_forward (len_chars r) r (fun k => bool_decide (k = Whitespace)) p in
      Some (Nat.min p (max_pos r)).

Definition word_start_backward r pos : option nat :=
  if bool_decide (len_chars r = 0) || bool_decide (pos = 0) then Some 0
  else
    let p := Nat.min pos (len_chars r) - 1 in
    let? p := skip_backward r blank p in
    if bool_decide (p = 0) then Some 0
    else
      let? c := char_at r p in
      run_backward r (fun k => bool_decide (k = classify c)) p.

Definition word_end_forward r pos : option nat :=
  if at_end r pos then Some (max_pos r)
  else
    let p := if pos + 1 <? len_chars r then pos + 1 else pos in
    let? p := skip_forward (len_chars r) r blank p in
    if len_chars r <=? p then Some (max_pos r)
    else
      let? c := char_at r p in
      let? p := run_forward (len_chars r) r (fun k => bool_decide (k = classify c)) p in
      Some (Nat.min p (max_pos r)).

Definition big_word_start_forward r pos : option nat :=
  if at_end r pos then Some (max_pos r)
  else
    let? p := skip_forward (len_chars r) r (fun k => negb (blank k)) pos in
    let? p := skip_forward (len_chars r) r blank p in
    Some (Nat.min p (max_pos r)).

(** The position is not clamped here: an offset past the end panics. *)
Definition big_word_start_backward r pos : option nat :=
  if bool_decide (len_chars r = 0) || bool_decide (pos = 0) then Some 0
  else
    let? p := skip_backward r blank (pos - 1) in
    if bool_decide (p = 0) then Some 0
    else run_backward r (fun k => negb (blank k)) p.

Definition big_word_end_forward r pos : option nat :=
  if at_end r pos then Some (max_pos r)
  else
    let p := if pos + 1 <? len_chars r then pos + 1 else pos in
    let? p := skip_forward (len_chars r) r blank p in
    if len_chars r <=? p then Some (max_pos r)
    else
      let? p := run_forward (len_chars r) r (fun k => negb (blank k)) p in
      Some (Nat.min p (max_pos r)).

(** The downward scan of [word_end_backward] and [big_word_end_backward]:
    stop at the first [q] that is [inside] and has nothing or an [outside]
    character after it. The character after [q] is read only when there is one. *)
Fixpoint scan_end r (inside : CharClass -> bool) (outside : CharClass -> CharClass -> bool) (q : nat)
    : option nat :=
  let? c := char_at r q in
  let? boundary := (if len_chars r <=? q + 1 then Some true
                    else let? d := char_at r (q + 1) in Some (outside (classify c) (classify d))) in
  if inside (classify c) && boundary then Some q
  else match q with
       | 0 => Some 0
       | S q' => scan_end r inside outside q'
       end.

Definition word_end_backward r pos : option nat :=
  if bool_decide (len_chars r = 0) || bool_decide (pos = 0) then Some 0
  else scan_end r (fun k => bool_decide (k = Word) || bool_decide (k = Punctuation))
         (fun k next => negb (bool_decide (next = k))) (pos - 1).

Definition big_word_end_backward r pos : option nat :=
  if bool_decide (len_chars r = 0) || bool_decide (pos = 0) then Some 0
  else scan_end r (fun k => negb (blank k)) (fun _ next => blank next) (pos - 1).

(** *** Lines *)

Definition line_text r (ln : nat) : option (list N) :=
  if len_lines r <=? ln then Some []
  else let? s := line r ln in Some (trim_end 13 (trim_end 10 s)).

Definition first_non_blank_col r (ln : nat) : option nat :=
  let? text := line_text r ln in
  Some (match List.find (fun '(_, ch) => negb (is_whitespace ch)) (char_indices text) with
        | Some (i, _) => i
        | None => 0
        end).

(** [is_blank_line] reads the characters of the line slice in order. *)
Definition is_blank_line r (ln : nat) : option bool :=
  if len_lines r <=? ln then Some true
  else
    let? s := line r ln in
    Some (forallb (fun ch => bool_decide (ch = 10%N) || bool_decide (ch = 13%N) || is_whitespace ch) s).

(** [while l < total && is_blank_line(rope, l) == b { l += 1 }]. *)
Fixpoint lines_forward (fuel : nat) r (b : bool) (l : nat) : option nat :=
  match fuel with
  | 0 => Some l
  | S fuel' =>
      if l <? len_lines r then
        let? x := is_blank_line r l in
        if Bool.eqb x b then lines_forward fuel' r b (S l) else Some l
      else Some l
  end.

(** [while l > 0 && is_blank_line(rope, l) == b { l -= 1 }]. *)
Fixpoint lines_backward r (b : bool) (l : nat) : option nat :=
  match l with
  | 0 => Some 0
  | S l' => let? x := is_blank_line r l in
            if Bool.eqb x b then lines_backward r b l' else Some l
  end.

(** The source first walks a discarded [l] over the same lines; the returned
    value is computed from the second [let mut l = line + 1] on. *)
Definition paragraph_forward r (ln : nat) : option nat :=
  let total := len_lines r in
  if bool_decide (total = 0) then Some 0
  else
    let? l0 := lines_forward total r false (ln + 1) in
    let? _ := lines_forward total r true l0 in
    let? on_blank := (if ln <? total then is_blank_line r ln else Some false) in
    let? l :=
      (if on_blank : bool then
         let? l := lines_forward total r true (ln + 1) in
         lines_forward total r false l
       else lines_forward total r false (ln + 1)) in
    Some (Nat.min l (total - 1)).

Definition paragraph_backward r (ln : nat) : option nat :=
  if bool_decide (len_chars r = 0) || bool_decide (ln = 0) then Some 0
  else
    let l := Nat.min ln (len_lines r - 1) in
    if bool_decide (l = 0) then Some 0
    else
      let? on_blank := is_blank_line r ln in
      if on_blank : bool then
        let? l := lines_backward r true (l - 1) in
        lines_backward r false l
      else lines_backward r false (l - 1).

(** *** Finding a character on a line; the columns are byte columns *)

Section Find.
Context `{Segmentation}.

Definition find_char_forward r (ln col : nat) (target : N) : option (option nat) :=
  let? text := line_text r ln in
  let from := next_grapheme_boundary text col in
  if byte_len text <=? from then Some None
  else
    let? rest := str_from text from in
    Some ((fun '(i, _) => from + i) <$>
            List.find (fun '(_, c) => bool_decide (c = target)) (char_indices rest)).

Definition find_char_backward r (ln col : nat) (target : N) : option (option nat) :=
  let? text := line_text r ln in
  if bool_decide (col = 0) then Some None
  else
    let? before := str_to text (floor_char_boundary text col) in
    Some (fst <$> List.find (fun '(_, c) => bool_decide (c = target)) (reverse (char_indices before))).

Definition find_char_forward_till r (ln col : nat) (target : N) : option (option nat) :=
  let? text := line_text r ln in
  let? found := find_char_forward r ln col target in
  Some ((fun c => Nat.max (prev_grapheme_boundary text c) col) <$> found).

Definition find_char_backward_till r (ln col : nat) (target : N) : option (option nat) :=
  let? text := line_text r ln in
  let? found := find_char_backward r ln col target in
  Some ((fun c => Nat.min (next_grapheme_boundary text c) col) <$> found).
End Find.

(** *** Brackets *)

(** The bracket [ch] closes or opens, and whether the search goes forward. *)
Definition bracket_target (ch : N) : option (N * bool) :=
  match ch with
  | 40%N => Some (41%N, true)
  | 91%N => Some (93%N, true)
  | 123%N => Some (125%N, true)
  | 41%N => Some (40%N, false)
  | 93%N => Some (91%N, false)
  | 125%N => Some (123%N, false)
  | _ => None
  end.

(** The forward loop of [matching_bracket]. *)
Fixpoint match_forward (fuel : nat) r (target ch : N) (depth : Z) (p : nat) : option (option nat) :=
  match fuel with
  | 0 => Some None
  | S fuel' =>
      if p <? len_chars r then
        let? c := char_at r p in
        if bool_decide (c = target) then
          let depth := i32 (depth - 1) in
          if bool_decide (depth = 0%Z) then Some (Some p)
          else match_forward fuel' r target ch depth (S p)
        else if bool_decide (c = ch) then match_forward fuel' r target ch (i32 (depth + 1)) (S p)
        else match_forward fuel' r target ch depth (S p)
      else Some None
  end.

(** The backward loop of [matching_bracket]. *)
Fixpoint match_backward r (target ch : N) (depth : Z) (p : nat) : option (option nat) :=
  let? c := char_at r p in
  let depth' := if bool_decide (c = target) then i32 (depth - 1)
                else if bool_decide (c = ch) then i32 (depth + 1) else depth in
  if bool_decide (c = target) && bool_decide (depth' = 0%Z) then Some (Some p)
  else match p with
       | 0 => Some None
       | S p' => match_backward r target ch depth' p'
       end.

Definition matching_bracket r pos : option (option nat) :=
  if len_chars r <=? pos then Some None
  else
    let? ch := char_at r pos in
    match bracket_target ch with
    | None => Some None
    | Some (target, true) => match_forward (len_chars r) r target ch 1 (pos + 1)
    | Some (target, false) =>
        match pos with
        | 0 => Some None
        | S p => match_backward r target ch 1 p
        end
    end.

(** *** Text objects *)

(** The backward search of [paired_delimiter_range] for the unmatched opener. *)
Fixpoint find_open r (open close : N) (depth : Z) (p : nat) : option (option nat) :=
  let? ch := char_at r p in
  if bool_decide (ch = close) then
    match p with 0 => Some None | S p' => find_open r open close (i32 (depth + 1)) p' end
  else if bool_decide (ch = open) then
    if bool_decide (depth = 0%Z) then Some (Some p)
    else match p with 0 => Some None | S p' => find_open r open close (i32 (depth - 1)) p' end
  else match p with 0 => Some None | S p' => find_open r open close depth p' end.

(** Its forward search for the closer. *)
Fixpoint find_close (fuel : nat) r (open close : N) (depth : Z) (p : nat) : option (option nat) :=
  match fuel with
  | 0 => Some None
  | S fuel' =>
      if p <? len_chars r then
        let? ch := char_at r p in
        if bool_decide (ch = open) then find_close fuel' r open close (i32 (depth + 1)) (S p)
        else if bool_decide (ch = close) then
          let depth := i32 (depth - 1) in
          if bool_decide (depth = 0%Z) then Some (Some p)
          else find_close fuel' r open close depth (S p)
        else find_close fuel' r open close depth (S p)
      else Some None
  end.

Definition paired_delimiter_range r pos (open close : N) (inner : bool)
    : option (option (nat * nat)) :=
  let? ch := char_at r pos in
  let search_start := if bool_decide (ch = close) && (0 <? pos) then pos - 1 else pos in
  let? found_open := find_open r open close 0 search_start in
  match found_open with
  | None => Some None
  | Some open_pos =>
      let? found_close := find_close (len_chars r) r open close 1 (open_pos + 1) in
      match found_close with
      | None => Some None
      | Some close_pos =>
          Some (Some (if inner then (open_pos + 1, close_pos) else (open_pos, close_pos + 1)))
      end
  end.

(** The columns of the quotes among the first [n] characters of the line. *)
Fixpoint quote_positions (quote : N) (i n : nat) (s : list N) : list nat :=
  match n, s with
  | S n', c :: s' =>
      if bool_decide (c = quote) then i :: quote_positions quote (S i) n' s'
      else quote_positions quote (S i) n' s'
  | _, _ => []
  end.

(** The loop over consecutive pairs of quote columns. *)
Fixpoint quote_pair (col line_start : nat) (inner : bool) (qs : list nat) : option (nat * nat) :=
  match qs with
  | q_open :: q_close :: rest =>
      if (q_open <=? col) && (col <=? q_close) then
        let abs_open := line_start + q_open in
        let abs_close := line_start + q_close in
        Some (if inner then (abs_open + 1, abs_close) else (abs_open, abs_close + 1))
      else quote_pair col line_start inner rest
  | _ => None
  end.

(** [pos - line_start] underflows, a panic, when the position is before the
    start of its line. *)
Definition quote_range r pos (quote : N) (inner : bool) : option (option (nat * nat)) :=
  let? line_idx := char_to_line r pos in
  let? line_start := line_to_char r line_idx in
  let? ln := line r line_idx in
  let line_len := length ln in
  if pos <? line_start then None
  else
    let col := pos - line_start in
    let? effective_len :=
      (if 0 <? line_len then
         let? c := ln !! (line_len - 1) in
         Some (if bool_decide (c = 10%N) then line_len - 1 else line_len)
       else Some line_len) in
    Some (quote_pair col line_start inner (quote_positions quote 0 effective_len ln)).

Definition text_object_range r pos (obj : N) (inner : bool) : option (option (nat * nat)) :=
  if bool_decide (len_chars r = 0) || (len_chars r <=? pos) then Some None
  else match obj with
       | 40%N | 41%N => paired_delimiter_range r pos 40 41 inner
       | 91%N | 93%N => paired_delimiter_range r pos 91 93 inner
       | 123%N | 125%N => paired_delimiter_range r pos 123 125 inner
       | 60%N | 62%N => paired_delimiter_range r pos 60 62 inner
       | 34%N | 39%N | 96%N => quote_range r pos obj inner
       | _ => Some None
       end.

(** [while end < len && f(classify(rope.char(end))) { end += 1 }] is
    [skip_forward], [while start > 0 && f(classify(rope.char(start - 1)))] is
    [run_backward]; the "around" extension shared by both word objects. *)
Definition around r (extend_left : bool) (start end_ : nat) : option (nat * nat) :=
  let? e := skip_forward (len_chars r) r (fun k => bool_decide (k = Whitespace)) end_ in
  if bool_decide (e = end_) && extend_left then
    let? s := run_backward r (fun k => bool_decide (k = Whitespace)) start in
    Some (s, e)
  else Some (start, e).

Definition word_object_range r pos (inner : bool) : option (option (nat * nat)) :=
  if bool_decide (len_chars r = 0) || (len_chars r <=? pos) then Some None
  else
    let? c := char_at r pos in
    let cls := classify c in
    let? start := run_backward r (fun k => bool_decide (k = cls)) pos in
    let? end_ := skip_forward (len_chars r) r (fun k => bool_decide (k = cls)) (pos + 1) in
    if inner then Some (Some (start, end_))
    else let? range := around r true start end_ in Some (Some range).

Definition big_word_object_range r pos (inner : bool) : option (option (nat * nat)) :=
  if bool_decide (len_chars r = 0) || (len_chars r <=? pos) then Some None
  else
    let? ch := char_at r pos in
    let on_ws := blank (classify ch) in
    let f k := Bool.eqb (blank k) on_ws in
    let? start := run_backward r f pos in
    let? end_ := skip_forward (len_chars r) r f (pos + 1) in
    if inner then Some (Some (start, end_))
    else let? range := around r (negb on_ws) start end_ in Some (Some range).

End Motions.
