(* ===== verification/WordSpec.v ===== *)
(** * WordSpec: what the word motions and word objects compute

    The loops of [Word] as statements about runs of character classes, and the
    properties of the eight word motions, the paragraph motions and the word
    text objects. *)
From S2P Require Import Prelude Rope Grapheme Word.

Section Runs.
Context {R : Type} `{RopeLaws R, Unicode}.
Implicit Types (r : R) (f : CharClass -> bool).

(** Every position of [[a, b)] holds a character whose class satisfies [f]. *)
Definition run (l : list N) f (a b : nat) : Prop :=
  forall i, a <= i -> i < b -> exists c, l !! i = Some c /\ f (classify c) = true.

(** No character at [i], or one whose class does not satisfy [f]. *)
Definition stops (l : list N) f (i : nat) : Prop :=
  forall c, l !! i = Some c -> f (classify c) = false.

Lemma run_empty l f a : run l f a a.
Proof. intros i ??. lia. Qed.

Lemma run_cons l f a b c :
  l !! a = Some c -> f (classify c) = true -> run l f (S a) b -> run l f a b.
Proof.
  intros Hc Hf Hr i Hi1 Hi2. destruct (decide (i = a)) as [->|]; [by exists c|]. apply Hr; lia.
Qed.

Lemma run_snoc l f a b c :
  l !! b = Some c -> f (classify c) = true -> run l f a b -> run l f a (S b).
Proof.
  intros Hc Hf Hr i Hi1 Hi2. destruct (decide (i = b)) as [->|]; [by exists c|]. apply Hr; lia.
Qed.

Lemma char_lt r i : i < len_chars r -> exists c, char_at r i = Some c /\ rope_chars r !! i = Some c.
Proof.
  rewrite rope_len_chars. intros [c Hc]%lookup_lt_is_Some_2. exists c. by rewrite rope_char_at.
Qed.

Lemma lookup_len r i c : rope_chars r !! i = Some c -> i < len_chars r.
Proof. rewrite rope_len_chars. apply lookup_lt_Some. Qed.

Lemma skip_forward_spec fuel r f p :
  len_chars r <= p + fuel -> exists q,
    skip_forward fuel r f p = Some q /\ p <= q /\ q <= Nat.max p (len_chars r) /\
    run (rope_chars r) f p q /\ stops (rope_chars r) f q.
Proof.
  assert (Hend : forall p, len_chars r <= p -> stops (rope_chars r) f p).
  { intros p' Hp c Hc%lookup_len. lia. }
  revert p. induction fuel as [|fuel IH]; intros p Hf; simpl.
  { exists p. split_and!; [done|lia|lia|apply run_empty|apply Hend; lia]. }
  destruct (Nat.ltb_spec p (len_chars r)) as [Hp|Hp].
  2: { exists p. split_and!; [done|lia|lia|apply run_empty|by apply Hend]. }
  destruct (char_lt r p Hp) as (c & -> & Hc). destruct (f (classify c)) eqn:E.
  - destruct (IH (S p)) as (q & -> & Hq1 & Hq2 & Hr & Hs); [lia|].
    exists q. split_and!; [done|lia|lia|by eapply run_cons|done].
  - exists p. split_and!; [done|lia|lia|apply run_empty|]. intros d Hd. by simplify_eq.
Qed.

Lemma run_forward_spec fuel r f p :
  len_chars r <= p + fuel -> p < len_chars r -> exists q,
    run_forward fuel r f p = Some q /\ p <= q /\ q < len_chars r /\
    run (rope_chars r) f (S p) (S q) /\ stops (rope_chars r) f (S q).
Proof.
  assert (Hend : forall p, len_chars r <= p -> stops (rope_chars r) f p).
  { intros p' Hp c Hc%lookup_len. lia. }
  revert p. induction fuel as [|fuel IH]; intros p Hf Hlt; [lia|]. cbn [run_forward].
  rewrite Nat.add_1_r. destruct (Nat.ltb_spec (S p) (len_chars r)) as [Hp|Hp].
  2: { exists p. split_and!; [done|lia|lia|apply run_empty|by apply Hend]. }
  destruct (char_lt r (S p) Hp) as (c & -> & Hc). destruct (f (classify c)) eqn:E.
  - destruct (IH (S p)) as (q & -> & Hq1 & Hq2 & Hr & Hs); [lia|lia|].
    exists q. split_and!; [done|lia|lia|by eapply run_cons|done].
  - exists p. split_and!; [done|lia|lia|apply run_empty|]. intros d Hd. by simplify_eq.
Qed.

Lemma skip_backward_spec r f p :
  p < len_chars r -> exists q,
    skip_backward r f p = Some q /\ q <= p /\ run (rope_chars r) f (S q) (S p) /\
    (q = 0 \/ stops (rope_chars r) f q).
Proof.
  induction p as [|p IH]; intros Hp; cbn [skip_backward].
  { exists 0. split_and!; [done|lia|apply run_empty|by left]. }
  destruct (char_lt r (S p) Hp) as (c & -> & Hc). destruct (f (classify c)) eqn:E.
  - destruct IH as (q & -> & Hq & Hr & Hs); [lia|].
    exists q. split_and!; [done|lia|by eapply run_snoc|done].
  - exists (S p). split_and!; [done|lia|apply run_empty|]. right. intros d Hd. by simplify_eq.
Qed.

Lemma run_backward_spec r f p :
  p <= len_chars r -> exists q,
    run_backward r f p = Some q /\ q <= p /\ run (rope_chars r) f q p /\
    (q = 0 \/ stops (rope_chars r) f (q - 1)).
Proof.
  induction p as [|p IH]; intros Hp; cbn [run_backward].
  { exists 0. split_and!; [done|lia|apply run_empty|by left]. }
  destruct (char_lt r p Hp) as (c & -> & Hc). destruct (f (classify c)) eqn:E.
  - destruct IH as (q & -> & Hq & Hr & Hs); [lia|].
    exists q. split_and!; [done|lia|by eapply run_snoc|done].
  - exists (S p). split_and!; [done|lia|apply run_empty|]. right. simpl. rewrite Nat.sub_0_r.
    intros d Hd. by simplify_eq.
Qed.

(** A loop that starts on a character it accepts moves. *)
Lemma run_advances r f p q c :
  rope_chars r !! p = Some c -> f (classify c) = true -> stops (rope_chars r) f q ->
  p <= q -> p < q.
Proof.
  intros Hc Hf Hs Hle. destruct (decide (p = q)) as [->|]; [|lia].
  by rewrite (Hs c Hc) in Hf.
Qed.

Lemma at_end_spec r pos : at_end r pos = false <-> pos < max_pos r.
Proof.
  unfold at_end, max_pos. rewrite orb_false_iff, bool_decide_eq_false, Nat.leb_gt. lia.
Qed.

Lemma at_end_true r pos : at_end r pos = true <-> max_pos r <= pos.
Proof. rewrite <- not_false_iff_true, at_end_spec. lia. Qed.

(** The [boundary] test of the downward scan does not panic. *)
Lemma scan_boundary r (outside : CharClass -> CharClass -> bool) k q :
  exists b, (if len_chars r <=? S q then Some true
    else let? d := char_at r (S q) in Some (outside k (classify d))) = Some b /\
  (b = true -> forall d, rope_chars r !! S q = Some d -> outside k (classify d) = true).
Proof.
  destruct (Nat.leb_spec (len_chars r) (S q)) as [Hl|Hl].
  - exists true. split; [done|]. intros _ d Hd%lookup_len. lia.
  - destruct (char_lt r _ Hl) as (d & -> & Hd). eexists. split; [done|].
    intros ? d' Hd'. by simplify_eq.
Qed.

(** The downward scan stays below its start, and stops at 0 or at an end. *)
Lemma scan_end_spec r inside outside q :
  q < len_chars r -> exists p, scan_end r inside outside q = Some p /\ p <= q /\
    (p = 0 \/ exists c, rope_chars r !! p = Some c /\ inside (classify c) = true /\
       (forall d, rope_chars r !! S p = Some d -> outside (classify c) (classify d) = true)).
Proof.
  induction q as [|q IH]; intros Hq; cbn [scan_end];
    destruct (char_lt r _ Hq) as (c & -> & Hc); rewrite Nat.add_1_r;
    match goal with |- context [len_chars r <=? S ?n] =>
      destruct (scan_boundary r outside (classify c) n) as (b & -> & Hb) end;
    destruct (inside (classify c) && b) eqn:E.
  - exists 0. split_and!; [done|lia|by left].
  - exists 0. split_and!; [done|lia|by left].
  - apply andb_true_iff in E as [Hi ->]. exists (S q). split_and!; [done|lia|]. right. exists c. auto.
  - destruct IH as (p & -> & Hp & Hs); [lia|]. exists p. split_and!; [done|lia|done].
Qed.

(** *** The motions, one by one *)

Lemma word_start_forward_lands r pos c :
  pos < max_pos r -> rope_chars r !! pos = Some c -> classify c <> Newline ->
  exists q p, word_start_forward r pos = Some (Nat.min p (max_pos r)) /\
    pos < q /\ q <= p /\ p <= len_chars r /\
    run (rope_chars r) (fun k => bool_decide (k = classify c)) pos q /\
    stops (rope_chars r) (fun k => bool_decide (k = classify c)) q /\
    run (rope_chars r) (fun k => bool_decide (k = Whitespace)) q p /\
    stops (rope_chars r) (fun k => bool_decide (k = Whitespace)) p.
Proof.
  intros Hp Hc Hn. unfold word_start_forward. rewrite (proj2 (at_end_spec r pos) Hp), rope_char_at, Hc.
  rewrite bool_decide_eq_false_2 by done. unfold max_pos in Hp.
  destruct (skip_forward_spec (len_chars r) r (fun k => bool_decide (k = classify c)) pos)
    as (q & -> & Hq1 & Hq2 & Hr1 & Hs1); [lia|].
  destruct (skip_forward_spec (len_chars r) r (fun k => bool_decide (k = Whitespace)) q)
    as (p & -> & Hp1 & Hp2 & Hr2 & Hs2); [lia|].
  exists q, p. split_and!; try done; [|lia].
  eapply run_advances; [done| |done|done]. by apply bool_decide_eq_true_2.
Qed.

Lemma word_end_forward_lands r pos :
  pos < max_pos r -> exists p q, word_end_forward r pos = Some (Nat.min q (max_pos r)) /\
    pos < p /\ p <= q /\ q <= len_chars r /\ run (rope_chars r) blank (S pos) p /\
    (p = q /\ len_chars r <= p \/
     exists c, rope_chars r !! p = Some c /\ blank (classify c) = false /\ q < len_chars r /\
       run (rope_chars r) (fun k => bool_decide (k = classify c)) p (S q) /\
       stops (rope_chars r) (fun k => bool_decide (k = classify c)) (S q)).
Proof.
  intros Hp. unfold word_end_forward. rewrite (proj2 (at_end_spec r pos) Hp). unfold max_pos in Hp.
  rewrite Nat.add_1_r, (proj2 (Nat.ltb_lt (S pos) _)) by lia.
  destruct (skip_forward_spec (len_chars r) r blank (S pos)) as (p & -> & Hp1 & Hp2 & Hr1 & Hs1); [lia|].
  destruct (Nat.leb_spec (len_chars r) p) as [Hl|Hl].
  { exists p, p. unfold max_pos. rewrite Nat.min_r by lia. split_and!; try done; try lia; by left. }
  destruct (char_lt r p Hl) as (c & -> & Hc).
  destruct (run_forward_spec (len_chars r) r (fun k => bool_decide (k = classify c)) p)
    as (q & -> & Hq1 & Hq2 & Hr2 & Hs2); [lia|lia|].
  exists p, q. split_and!; try done; try lia; []. right. exists c. split_and!; try done; [by apply Hs1|].
  eapply run_cons; [done| |done]. by apply bool_decide_eq_true_2.
Qed.

Lemma word_start_backward_lands r pos :
  0 < pos -> 0 < len_chars r -> exists p q, word_start_backward r pos = Some p /\
    p <= q /\ q < Nat.min pos (len_chars r) /\
    run (rope_chars r) blank (S q) (Nat.min pos (len_chars r)) /\
    (p = 0 \/ exists c, rope_chars r !! q = Some c /\ blank (classify c) = false /\
       run (rope_chars r) (fun k => bool_decide (k = classify c)) p (S q) /\
       stops (rope_chars r) (fun k => bool_decide (k = classify c)) (p - 1)).
Proof.
  intros Hp Hl. unfold word_start_backward. rewrite !bool_decide_eq_false_2 by lia. simpl.
  destruct (skip_backward_spec r blank (Nat.min pos (len_chars r) - 1)) as (q & -> & Hq & Hr & Hs); [lia|].
  replace (S (Nat.min pos (len_chars r) - 1)) with (Nat.min pos (len_chars r)) in Hr by lia.
  case_bool_decide as E.
  { exists 0, q. split_and!; try done; try lia; by left. }
  destruct (char_lt r q) as (c & -> & Hc); [lia|].
  destruct (run_backward_spec r (fun k => bool_decide (k = classify c)) q)
    as (p & -> & Hp1 & Hr2 & Hs2); [lia|].
  exists p, q. split_and!; try done; try lia. destruct Hs2 as [->|Hs2]; [by left|]. right. exists c.
  split_and!; try done.
  - destruct Hs as [->|Hs]; [done|by apply Hs].
  - eapply run_snoc; [done| |done]. by apply bool_decide_eq_true_2.
Qed.

Lemma big_word_start_forward_moves r pos :
  pos < max_pos r -> exists p, big_word_start_forward r pos = Some (Nat.min p (max_pos r)) /\ pos < p.
Proof.
  intros Hp. unfold big_word_start_forward. rewrite (proj2 (at_end_spec r pos) Hp). unfold max_pos in Hp.
  destruct (skip_forward_spec (len_chars r) r (fun k => negb (blank k)) pos)
    as (q & -> & Hq1 & Hq2 & Hr1 & Hs1); [lia|].
  destruct (skip_forward_spec (len_chars r) r blank q) as (p & -> & Hp1 & Hp2 & Hr2 & Hs2); [lia|].
  exists p. split; [done|]. destruct (char_lt r pos) as (c & _ & Hc); [lia|].
  destruct (decide (pos = q)) as [->|]; [|lia]. eapply run_advances; [done| |done|done].
  specialize (Hs1 c Hc). by apply negb_false_iff in Hs1.
Qed.

Lemma big_word_end_forward_moves r pos :
  pos < max_pos r -> exists p, big_word_end_forward r pos = Some (Nat.min p (max_pos r)) /\ pos < p.
Proof.
  intros Hp. unfold big_word_end_forward. rewrite (proj2 (at_end_spec r pos) Hp). unfold max_pos in Hp.
  rewrite Nat.add_1_r, (proj2 (Nat.ltb_lt (S pos) _)) by lia.
  destruct (skip_forward_spec (len_chars r) r blank (S pos)) as (p & -> & Hp1 & Hp2 & Hr1 & Hs1); [lia|].
  destruct (Nat.leb_spec (len_chars r) p) as [Hl|Hl].
  { exists p. unfold max_pos. rewrite Nat.min_r by lia. split; [done|lia]. }
  destruct (run_forward_spec (len_chars r) r (fun k => negb (blank k)) p)
    as (q & -> & Hq1 & Hq2 & _); [lia|lia|]. exists q. split; [done|lia].
Qed.

Lemma big_word_start_backward_moves r pos :
  0 < pos -> pos <= len_chars r -> exists p, big_word_start_backward r pos = Some p /\ p < pos.
Proof.
  intros Hp Hl. unfold big_word_start_backward. rewrite !bool_decide_eq_false_2 by lia. simpl.
  destruct (skip_backward_spec r blank (pos - 1)) as (q & -> & Hq & _); [lia|].
  case_bool_decide; [exists 0; split; [done|lia]|].
  destruct (run_backward_spec r (fun k => negb (blank k)) q) as (p & -> & Hp1 & _); [lia|].
  exists p. split; [done|lia].
Qed.

Lemma scan_motion_moves r inside outside pos :
  0 < pos -> pos <= len_chars r -> exists p,
    (if bool_decide (len_chars r = 0) || bool_decide (pos = 0) then Some 0
     else scan_end r inside outside (pos - 1)) = Some p /\ p < pos.
Proof.
  intros Hp Hl. rewrite !bool_decide_eq_false_2 by lia. simpl.
  destruct (scan_end_spec r inside outside (pos - 1)) as (p & -> & Hq & _); [lia|].
  exists p. split; [done|lia].
Qed.

(** *** Word objects *)

Lemma around_spec r extend_left start end_ :
  start <= end_ -> end_ <= len_chars r -> exists s e, around r extend_left start end_ = Some (s, e) /\
    s <= start /\ end_ <= e /\ e <= len_chars r /\
    run (rope_chars r) (fun k => bool_decide (k = Whitespace)) s start /\
    run (rope_chars r) (fun k => bool_decide (k = Whitespace)) end_ e /\
    stops (rope_chars r) (fun k => bool_decide (k = Whitespace)) e /\
    (s < start -> e = end_ /\ extend_left = true).
Proof.
  intros Hse He. unfold around.
  destruct (skip_forward_spec (len_chars r) r (fun k => bool_decide (k = Whitespace)) end_)
    as (e & -> & He1 & He2 & Hr & Hs); [lia|].
  destruct (bool_decide (e = end_) && extend_left) eqn:E.
  - bool_prop. subst.
    destruct (run_backward_spec r (fun k => bool_decide (k = Whitespace)) start)
      as (s & -> & Hs1 & Hr2 & _); [lia|]. exists s, end_. by split_and!; try lia.
  - exists start, e. split_and!; try done; try lia; [apply run_empty].
Qed.

(** The run of [f]-characters around [pos], as both word objects compute it. *)
Lemma object_run r f pos c :
  rope_chars r !! pos = Some c -> f (classify c) = true -> exists start end_,
    run_backward r f pos = Some start /\ skip_forward (len_chars r) r f (pos + 1) = Some end_ /\
    start <= pos /\ pos < end_ /\ end_ <= len_chars r /\ run (rope_chars r) f start end_ /\
    (start = 0 \/ stops (rope_chars r) f (start - 1)) /\ stops (rope_chars r) f end_.
Proof.
  intros Hc Hf. pose proof (lookup_len r pos c Hc) as Hl.
  destruct (run_backward_spec r f pos) as (s & -> & Hs1 & Hs2 & Hs3); [lia|].
  rewrite Nat.add_1_r.
  destruct (skip_forward_spec (len_chars r) r f (S pos)) as (e & -> & He1 & He2 & He3 & He4); [lia|].
  exists s, e. split_and!; try done; try lia.
  intros i Hi1 Hi2. destruct (decide (i < pos)); [by apply Hs2|].
  destruct (decide (i = pos)) as [->|]; [by exists c|]. apply He3; lia.
Qed.

(** *** Paragraphs *)

Lemma is_blank_line_total r l : exists b, is_blank_line r l = Some b.
Proof.
  unfold is_blank_line. rewrite rope_len_lines, rope_line.
  destruct (Nat.leb_spec (length (split_lines (rope_chars r))) l) as [|Hl]; [by eexists|].
  apply lookup_lt_is_Some_2 in Hl as [s ->]. by eexists.
Qed.

Lemma lines_forward_spec fuel r b l :
  len_lines r <= l + fuel -> exists k, lines_forward fuel r b l = Some k /\
    l <= k /\ k <= Nat.max l (len_lines r) /\
    (k < len_lines r -> is_blank_line r k = Some (negb b)).
Proof.
  revert l. induction fuel as [|fuel IH]; intros l Hf; simpl.
  { exists l. split_and!; [done|lia|lia|lia]. }
  destruct (Nat.ltb_spec l (len_lines r)) as [Hl|Hl]; [|exists l; split_and!; [done|lia|lia|lia]].
  destruct (is_blank_line_total r l) as [x Hx]. rewrite Hx. destruct (Bool.eqb x b) eqn:E.
  - destruct (IH (S l)) as (k & -> & ?); [lia|]. exists k. split_and!; [done|lia|lia|naive_solver].
  - exists l. split_and!; [done|lia|lia|]. intros _. rewrite Hx. destruct x, b; naive_solver.
Qed.

Lemma lines_backward_spec r b l : exists k, lines_backward r b l = Some k /\
  k <= l /\ (k = 0 \/ is_blank_line r k = Some (negb b)).
Proof.
  induction l as [|l (k & Hk & IH)]; cbn [lines_backward]; [exists 0; auto|].
  destruct (is_blank_line_total r (S l)) as [x Hx]. rewrite Hx. destruct (Bool.eqb x b) eqn:E.
  - exists k. rewrite Hk. split_and!; [done|lia|naive_solver].
  - exists (S l). split_and!; [done|lia|]. right. rewrite Hx. destruct x, b; naive_solver.
Qed.

(** ** Properties *)

(** The four forward word motions never panic, whatever the offset, stay
    on a valid cursor position, and move strictly forward until the last one. *)
Theorem forward_motions_progress r pos motion :
  motion ∈ [word_start_forward; word_end_forward; big_word_start_forward; big_word_end_forward] ->
  exists p, motion r pos = Some p /\ p <= max_pos r /\ (pos < max_pos r -> pos < p).
Proof.
  intros Hm. destruct (decide (pos < max_pos r)) as [Hp|Hp].
  - destruct (char_lt r pos) as (c & Hc & Hc'); [unfold max_pos in Hp; lia|].
    each_elem Hm.
    + destruct (decide (classify c = Newline)) as [E|E].
      * unfold word_start_forward. rewrite (proj2 (at_end_spec r pos) Hp), Hc.
        rewrite bool_decide_eq_true_2 by done. eexists. split; [done|lia].
      * destruct (word_start_forward_lands r pos c Hp Hc' E) as (q & p & -> & ?). eexists. split; [done|lia].
    + destruct (word_end_forward_lands r pos Hp) as (p & q & -> & ?). eexists. split; [done|lia].
    + destruct (big_word_start_forward_moves r pos Hp) as (p & -> & ?). eexists. split; [done|lia].
    + destruct (big_word_end_forward_moves r pos Hp) as (p & -> & ?). eexists. split; [done|lia].
  - pose proof (proj2 (at_end_true r pos) ltac:(lia)) as E. exists (max_pos r).
    unfold word_start_forward, word_end_forward, big_word_start_forward, big_word_end_forward in Hm.
    each_elem Hm; rewrite E; split_and!; try done; lia.
Qed.

(** The four backward word motions, started inside the buffer, never panic
    and move strictly backward until the start. *)
Theorem backward_motions_progress r pos motion :
  motion ∈ [word_start_backward; word_end_backward; big_word_start_backward; big_word_end_backward] ->
  pos <= len_chars r ->
  exists p, motion r pos = Some p /\ p <= pos /\ (0 < pos -> p < pos).
Proof.
  intros Hm Hl. destruct (decide (pos = 0)) as [->|Hp].
  - exists 0. unfold word_start_backward, word_end_backward, big_word_start_backward,
      big_word_end_backward in Hm.
    each_elem Hm; rewrite (bool_decide_eq_true_2 (0 = 0)), orb_true_r by done; split_and!; try done; lia.
  - each_elem Hm.
    + destruct (word_start_backward_lands r pos) as (p & q & -> & ?); [lia|lia|]. exists p. split; [done|lia].
    + destruct (scan_motion_moves r (fun k => bool_decide (k = Word) || bool_decide (k = Punctuation))
        (fun k next => negb (bool_decide (next = k))) pos) as (p & ? & ?); [lia|lia|]. exists p. split; [done|lia].
    + destruct (big_word_start_backward_moves r pos) as (p & -> & ?); [lia|lia|]. exists p. split; [done|lia].
    + destruct (scan_motion_moves r (fun k => negb (blank k)) (fun _ next => blank next) pos)
        as (p & ? & ?); [lia|lia|]. exists p. split; [done|lia].
Qed.
(** [w] lands on the start of the next word: past the rest of the run of
    the cursor's class and the whitespace after it, clamped to the last
    position; on a newline it steps over it. *)
Theorem w_lands_on_next_word r pos c :
  pos < max_pos r -> rope_chars r !! pos = Some c ->
  (classify c = Newline -> word_start_forward r pos = Some (S pos)) /\
  (classify c <> Newline -> exists q p, word_start_forward r pos = Some (Nat.min p (max_pos r)) /\
     pos < q /\ q <= p /\ p <= len_chars r /\
     run (rope_chars r) (fun k => bool_decide (k = classify c)) pos q /\
     stops (rope_chars r) (fun k => bool_decide (k = classify c)) q /\
     run (rope_chars r) (fun k => bool_decide (k = Whitespace)) q p /\
     stops (rope_chars r) (fun k => bool_decide (k = Whitespace)) p).
Proof.
  intros Hp Hc. split; intros E; [|by apply word_start_forward_lands].
  unfold word_start_forward. rewrite (proj2 (at_end_spec r pos) Hp), rope_char_at, Hc.
  rewrite bool_decide_eq_true_2 by done. f_equal. lia.
Qed.

(** [b] clamps an offset past the end, goes back over blanks, and lands on
    the first character of a maximal run of one class, or at the start. *)
Theorem b_lands_on_word_start r pos :
  0 < pos -> 0 < len_chars r -> exists p q, word_start_backward r pos = Some p /\
    p <= q /\ q < Nat.min pos (len_chars r) /\
    run (rope_chars r) blank (S q) (Nat.min pos (len_chars r)) /\
    (p = 0 \/ exists c, rope_chars r !! q = Some c /\ blank (classify c) = false /\
       run (rope_chars r) (fun k => bool_decide (k = classify c)) p (S q) /\
       stops (rope_chars r) (fun k => bool_decide (k = classify c)) (p - 1)).
Proof. apply word_start_backward_lands. Qed.

(** The inner word object is the maximal run of the cursor's class around
    the cursor, and the inner WORD object the maximal run of blanks or of
    non-blanks; the around objects extend them by whitespace after, or, when
    there is none, before. *)
Theorem word_objects_are_maximal_runs r pos c :
  rope_chars r !! pos = Some c ->
  forall obj, obj ∈ [(word_object_range, fun k => bool_decide (k = classify c));
                     (big_word_object_range, fun k => Bool.eqb (blank k) (blank (classify c)))] ->
  exists start end_ s e,
    obj.1 r pos true = Some (Some (start, end_)) /\ obj.1 r pos false = Some (Some (s, e)) /\
    start <= pos /\ pos < end_ /\ end_ <= len_chars r /\
    run (rope_chars r) obj.2 start end_ /\
    (start = 0 \/ stops (rope_chars r) obj.2 (start - 1)) /\ stops (rope_chars r) obj.2 end_ /\
    s <= start /\ end_ <= e /\ e <= len_chars r /\
    run (rope_chars r) (fun k => bool_decide (k = Whitespace)) s start /\
    run (rope_chars r) (fun k => bool_decide (k = Whitespace)) end_ e /\
    (s < start -> e = end_).
Proof.
  intros Hc obj Hobj. pose proof (lookup_len r pos c Hc) as Hl.
  each_elem Hobj; unfold word_object_range, big_word_object_range; cbn [fst snd];
    rewrite bool_decide_eq_false_2, (proj2 (Nat.leb_gt _ _)), rope_char_at, Hc by lia; simpl.
  - destruct (object_run r (fun k => bool_decide (k = classify c)) pos c Hc)
      as (st & en & -> & -> & ?); [by apply bool_decide_eq_true_2|].
    destruct (around_spec r true st en) as (s & e & -> & ?); [lia|lia|].
    exists st, en, s, e. naive_solver.
  - destruct (object_run r (fun k => Bool.eqb (blank k) (blank (classify c))) pos c Hc)
      as (st & en & -> & -> & ?); [apply eqb_reflx|].
    destruct (around_spec r (negb (blank (classify c))) st en) as (s & e & -> & ?); [lia|lia|].
    exists st, en, s, e. naive_solver.
Qed.

(** The paragraph motions never panic, stay inside the buffer, make
    progress, and land on a blank line or on the last (first) line. *)
Theorem paragraph_motions_land r ln :
  (exists l, paragraph_forward r ln = Some l /\ l < len_lines r /\
     (S ln < len_lines r -> ln < l) /\
     (is_blank_line r l = Some true \/ l = len_lines r - 1)) /\
  (exists l, paragraph_backward r ln = Some l /\ l <= ln /\ l < len_lines r /\
     (0 < len_chars r -> 0 < ln -> l < ln) /\ (is_blank_line r l = Some true \/ l = 0)).
Proof.
  assert (Ht : 1 <= len_lines r) by (rewrite rope_len_lines; apply split_lines_length). split.
  - unfold paragraph_forward. rewrite bool_decide_eq_false_2 by lia.
    destruct (lines_forward_spec (len_lines r) r false (ln + 1)) as (l0 & Hl0 & Hl1 & Hl2 & Hl3); [lia|].
    rewrite Hl0. destruct (lines_forward_spec (len_lines r) r true l0) as (l1 & -> & _); [lia|].
    assert (Hob : exists ob, (if ln <? len_lines r then is_blank_line r ln else Some false) = Some ob).
    { case_match; [apply is_blank_line_total|by eexists]. }
    destruct Hob as [[|] ->].
    + destruct (lines_forward_spec (len_lines r) r true (ln + 1)) as (l2 & -> & ? & ? & _); [lia|].
      destruct (lines_forward_spec (len_lines r) r false l2) as (l3 & -> & ? & ? & Hb); [lia|].
      exists (Nat.min l3 (len_lines r - 1)). split_and!; [done|lia|lia|].
      destruct (decide (l3 < len_lines r)); [left; rewrite Nat.min_l by lia; auto|right; lia].
    + exists (Nat.min l0 (len_lines r - 1)). split_and!; [done|lia|lia|].
      destruct (decide (l0 < len_lines r)); [left; rewrite Nat.min_l by lia; auto|right; lia].
  - unfold paragraph_backward.
    destruct (bool_decide (len_chars r = 0) || bool_decide (ln = 0)) eqn:E.
    { exists 0. apply orb_true_iff in E as [E|E]; bool_prop; split_and!; try done; try lia; auto. }
    bool_prop. case_bool_decide as E2; [exists 0; split_and!; try done; try lia; auto|].
    destruct (is_blank_line_total r ln) as [[|] ->].
    + destruct (lines_backward_spec r true (Nat.min ln (len_lines r - 1) - 1)) as (l1 & -> & ? & _).
      destruct (lines_backward_spec r false l1) as (l2 & -> & ? & Hb).
      exists l2. split_and!; [done|lia|lia|lia|naive_solver].
    + destruct (lines_backward_spec r false (Nat.min ln (len_lines r - 1) - 1)) as (l2 & -> & ? & Hb).
      exists l2. split_and!; [done|lia|lia|lia|naive_solver].
Qed.

(** Only [b] guards an offset past the end: the other three backward
    motions panic there on a non-empty buffer. *)
Theorem unclamped_backward_motions_panic r pos :
  0 < len_chars r -> len_chars r < pos ->
  is_Some (word_start_backward r pos) /\ big_word_start_backward r pos = None /\
  word_end_backward r pos = None /\ big_word_end_backward r pos = None.
Proof.
  intros Hl Hp. split; [destruct (word_start_backward_lands r pos) as (p & ? & -> & _); [lia|lia|by eexists]|].
  assert (Hn : char_at r (pos - 1) = None).
  { rewrite rope_char_at. apply lookup_ge_None_2. rewrite <- rope_len_chars. lia. }
  unfold big_word_start_backward, word_end_backward, big_word_end_backward.
  rewrite !bool_decide_eq_false_2 by lia. destruct (pos - 1) as [|p] eqn:E; [lia|].
  cbn [orb skip_backward scan_end]. by rewrite Hn.
Qed.

End Runs.

(** ** Witnesses *)

(** ASCII letters and digits. *)
Module AsciiUnicode.
Definition alnum (c : N) : bool :=
  ((48 <=? c) && (c <=? 57) || (65 <=? c) && (c <=? 90) || (97 <=? c) && (c <=? 122))%N.
#[export] Instance ascii_unicode : Unicode := { is_alphanumeric := alnum }.
End AsciiUnicode.

Module WordWitnesses.
#[local] Existing Instance ListRope.list_rope.
#[local] Existing Instance ListRope.list_rope_laws.
#[local] Existing Instance AsciiUnicode.ascii_unicode.

Definition sample : list N := ListRope.ascii_text "let  foo = bar(x, y)".

Lemma forward_motions_progress_witness :
  exists p, word_start_forward sample 5 = Some p /\ p <= max_pos sample /\ (5 < max_pos sample -> 5 < p).
Proof. apply forward_motions_progress. set_solver. Defined.

Lemma backward_motions_progress_witness :
  exists p, word_end_backward sample 8 = Some p /\ p <= 8 /\ (0 < 8 -> p < 8).
Proof. apply backward_motions_progress; [set_solver|vm_compute; lia]. Defined.

(** From the f of foo, [w] goes to the equals sign, over foo and a space. *)
Lemma w_lands_on_next_word_witness :
  word_start_forward sample 5 = Some 9 /\
  exists q p, word_start_forward sample 5 = Some (Nat.min p (max_pos sample)) /\
     5 < q /\ q <= p /\ p <= len_chars sample /\
     run (rope_chars sample) (fun k => bool_decide (k = classify 102)) 5 q /\
     stops (rope_chars sample) (fun k => bool_decide (k = classify 102)) q /\
     run (rope_chars sample) (fun k => bool_decide (k = Whitespace)) q p /\
     stops (rope_chars sample) (fun k => bool_decide (k = Whitespace)) p.
Proof.
  split; [by vm_compute|].
  assert (Hp : 5 < max_pos sample) by (vm_compute; lia).
  by apply (w_lands_on_next_word sample 5 102 Hp ltac:(by vm_compute)).
Defined.

(** An offset past the end is clamped; [b] lands on the closing parenthesis. *)
Lemma b_lands_on_word_start_witness :
  word_start_backward sample 99 = Some 19 /\
  exists p q, word_start_backward sample 99 = Some p /\
    p <= q /\ q < Nat.min 99 (len_chars sample) /\
    run (rope_chars sample) blank (S q) (Nat.min 99 (len_chars sample)) /\
    (p = 0 \/ exists c, rope_chars sample !! q = Some c /\ blank (classify c) = false /\
       run (rope_chars sample) (fun k => bool_decide (k = classify c)) p (S q) /\
       stops (rope_chars sample) (fun k => bool_decide (k = classify c)) (p - 1)).
Proof.
  split; [by vm_compute|]. apply (b_lands_on_word_start sample 99); vm_compute; lia.
Defined.

Lemma word_objects_are_maximal_runs_witness :
  word_object_range sample 6 false = Some (Some (5, 9)) /\
  exists start end_ s e,
    word_object_range sample 6 true = Some (Some (start, end_)) /\
    word_object_range sample 6 false = Some (Some (s, e)) /\ start <= 6 /\ 6 < end_.
Proof.
  split; [by vm_compute|].
  destruct (word_objects_are_maximal_runs sample 6 111 ltac:(by vm_compute)
    (word_object_range, fun k => bool_decide (k = classify 111)) ltac:(apply elem_of_cons; by left))
    as (st & en & s & e & H1 & H2 & H3 & H4 & _).
  exists st, en, s, e. by split_and!.
Defined.

Lemma unclamped_backward_motions_panic_witness :
  is_Some (word_start_backward sample 42) /\ big_word_start_backward sample 42 = None /\
  word_end_backward sample 42 = None /\ big_word_end_backward sample 42 = None.
Proof. apply unclamped_backward_motions_panic; vm_compute; lia. Defined.
(** Two paragraphs: from the first line to the blank one, and back. *)
Lemma paragraph_motions_land_witness :
  let r := ListRope.ascii_text "ab" ++ [10; 10]%N ++ ListRope.ascii_text "cd" in
  paragraph_forward r 0 = Some 1 /\ paragraph_backward r 2 = Some 1 /\
  exists l, paragraph_forward r 0 = Some l /\ l < len_lines r.
Proof.
  intros r. do 2 (split; [by vm_compute|]).
  destruct (paragraph_motions_land r 0) as [(l & H1 & H2 & _) _]. exists l. by split.
Defined.

End WordWitnesses.
