(* ===== verification/Brackets.v ===== *)
(** * Brackets: matching brackets and delimiter text objects

    The bracket searches of [Word] counted against the nesting depth of the
    text: what [matching_bracket], [paired_delimiter_range] and [quote_range]
    return. *)
From S2P Require Import Prelude Rope Grapheme Word WordSpec.

(** ** Nesting depth *)

(** How a character changes the depth of the pair [o], [c]. *)
Definition delta (o c x : N) : Z :=
  if bool_decide (x = o) then 1 else if bool_decide (x = c) then -1 else 0.

Fixpoint balance (o c : N) (l : list N) : Z :=
  match l with [] => 0 | x :: l' => delta o c x + balance o c l' end.

(** The depth before position [i]. *)
Definition depth_at (o c : N) (l : list N) (i : nat) : Z := balance o c (take i l).

(** Positions [a] and [b] hold a matching pair: an opener and a closer with
    a balanced text in between. *)
Definition matched (o c : N) (l : list N) (a b : nat) : Prop :=
  a < b /\ l !! a = Some o /\ l !! b = Some c /\
  depth_at o c l b = depth_at o c l (S a) /\
  forall i, a < i -> i <= b -> (depth_at o c l (S a) <= depth_at o c l i)%Z.

Lemma balance_app o c l1 l2 : balance o c (l1 ++ l2) = (balance o c l1 + balance o c l2)%Z.
Proof. induction l1; simpl; lia. Qed.

Lemma depth_step o c l i x :
  l !! i = Some x -> depth_at o c l (S i) = (depth_at o c l i + delta o c x)%Z.
Proof. intros Hx. unfold depth_at. rewrite (take_S_r _ _ _ Hx), balance_app. simpl. lia. Qed.

Lemma delta_bound o c x : (-1 <= delta o c x <= 1)%Z.
Proof. unfold delta. repeat case_bool_decide; lia. Qed.

Lemma depth_past o c l i : length l <= i -> depth_at o c l (S i) = depth_at o c l i.
Proof. intros Hi. unfold depth_at. by rewrite !take_ge by lia. Qed.

Lemma depth_bound o c l i j :
  i <= j -> (Z.abs (depth_at o c l j - depth_at o c l i) <= Z.of_nat (j - i))%Z.
Proof.
  induction 1 as [|j Hij IH]; [lia|]. destruct (l !! j) as [x|] eqn:E.
  - rewrite (depth_step _ _ _ _ _ E). pose proof (delta_bound o c x). lia.
  - apply lookup_ge_None in E. rewrite depth_past by done. lia.
Qed.

Lemma i32_id z : (-2147483648 <= z < 2147483648)%Z -> i32 z = z.
Proof. intros Hz. unfold i32. rewrite Z.mod_small by lia. lia. Qed.

Lemma delta_open o c : delta o c o = 1%Z.
Proof. unfold delta. by rewrite bool_decide_eq_true_2. Qed.
Lemma delta_close o c : o <> c -> delta o c c = (-1)%Z.
Proof. intros. unfold delta. rewrite bool_decide_eq_false_2 by done. by rewrite bool_decide_eq_true_2. Qed.
Lemma delta_other o c x : x <> o -> x <> c -> delta o c x = 0%Z.
Proof. intros. unfold delta. by rewrite !bool_decide_eq_false_2 by done. Qed.

(** Case analysis on the test [x = v] of the searches. *)
Ltac on_char x v :=
  destruct (decide (x = v)) as [->|?];
  [rewrite ?(bool_decide_eq_true_2 (v = v)) by done
  |rewrite ?(bool_decide_eq_false_2 (x = v)) by done].

Section Search.
Context {R : Type} `{RopeLaws R, Unicode}.
Context (r : R) (o c : N) (Hoc : o <> c) (Hlen : (Z.of_nat (len_chars r) < 2147483648)%Z).
Notation l := (rope_chars r).
Notation D := (depth_at o c (rope_chars r)).

(** The forward search, from the opener [a], at [p]. *)
Lemma match_forward_spec fuel a p :
  a < p -> p <= len_chars r -> len_chars r <= p + fuel ->
  (forall i, a < i -> i <= p -> (D (S a) <= D i)%Z) ->
  match match_forward fuel r c o (1 + D p - D (S a)) p with
  | Some (Some b) => p <= b /\ l !! b = Some c /\ D b = D (S a) /\
                     forall i, a < i -> i <= b -> (D (S a) <= D i)%Z
  | Some None => forall i, a < i -> i <= len_chars r -> (D (S a) <= D i)%Z
  | None => False
  end.
Proof.
  revert p. induction fuel as [|fuel IH]; intros p Hap Hp Hf Hinv; cbn [match_forward].
  { intros i Hi1 Hi2. apply Hinv; lia. }
  destruct (Nat.ltb_spec p (len_chars r)) as [Hlt|Hge]; [|intros i Hi1 Hi2; apply Hinv; lia].
  destruct (char_lt r p Hlt) as (x & -> & Hx).
  pose proof (depth_step o c l p x Hx) as HS. pose proof (Hinv p Hap ltac:(lia)) as Hdp.
  pose proof (depth_bound o c l (S a) p Hap) as Hbd.
  assert (Hnext : (D (S a) <= D (S p))%Z ->
    match match_forward fuel r c o (1 + D (S p) - D (S a)) (S p) with
    | Some (Some b) => p <= b /\ l !! b = Some c /\ D b = D (S a) /\
                       forall i, a < i -> i <= b -> (D (S a) <= D i)%Z
    | Some None => forall i, a < i -> i <= len_chars r -> (D (S a) <= D i)%Z
    | None => False
    end).
  { intros Hd. assert (Hpre : forall i, a < i -> i <= S p -> (D (S a) <= D i)%Z).
    { intros i Hi1 Hi2. destruct (decide (i = S p)) as [->|]; [done|]. apply Hinv; lia. }
    specialize (IH (S p) ltac:(lia) ltac:(lia) ltac:(lia) Hpre).
    destruct (match_forward _ _ _ _ _ _) as [[b|]|]; [|done..].
    destruct IH as (? & ? & ? & ?). split_and!; [lia|done..]. }
  case_bool_decide as E1; [subst x|case_bool_decide as E2; [subst x|]].
  - rewrite delta_close in HS by done. rewrite i32_id by lia. case_bool_decide as E0.
    + split_and!; [lia|done|lia|done].
    + replace (1 + D p - D (S a) - 1)%Z with (1 + D (S p) - D (S a))%Z by lia. apply Hnext. lia.
  - rewrite delta_open in HS. rewrite i32_id by lia.
    replace (1 + D p - D (S a) + 1)%Z with (1 + D (S p) - D (S a))%Z by lia. apply Hnext. lia.
  - rewrite delta_other in HS by done.
    replace (1 + D p - D (S a))%Z with (1 + D (S p) - D (S a))%Z by lia. apply Hnext. lia.
Qed.

Lemma find_close_match fuel depth p :
  find_close fuel r o c depth p = match_forward fuel r c o depth p.
Proof.
  revert depth p. induction fuel as [|fuel IH]; intros depth p; [done|]. cbn [find_close match_forward].
  destruct (p <? len_chars r); [|done]. destruct (char_at r p) as [x|]; [|done].
  destruct (decide (x = o)) as [->|Ho].
  - by rewrite (bool_decide_eq_true_2 (o = o)), bool_decide_eq_false_2, IH by done.
  - rewrite !(bool_decide_eq_false_2 (x = o)) by done. case_bool_decide; [case_bool_decide|]; auto.
Qed.

(** The backward searches, from a position [b] before which the depth is the
    one to return to, at [p]. *)
Definition opener_found (b p : nat) (res : option (option nat)) : Prop :=
  match res with
  | Some (Some a) => a <= p /\ l !! a = Some o /\ D (S a) = D b /\
                     forall i, a < i -> i <= b -> (D b <= D i)%Z
  | Some None => forall i, i <= b -> (D b <= D i)%Z
  | None => False
  end.

Lemma opener_found_step b p res :
  opener_found b p res -> opener_found b (S p) res.
Proof. destruct res as [[a|]|]; simpl; [|done..]. intros (? & ? & ? & ?). split_and!; [lia|done..]. Qed.

Lemma opener_none b : (forall i, 0 < i -> i <= b -> (D b <= D i)%Z) -> (D b <= D 0)%Z ->
  opener_found b 0 (Some None).
Proof. intros Hi H0' [|i] Hle; [done|]. apply Hi; lia. Qed.

Lemma match_backward_spec b p :
  p < b -> b <= len_chars r -> (forall i, p < i -> i <= b -> (D b <= D i)%Z) ->
  opener_found b p (match_backward r o c (1 + D (S p) - D b) p).
Proof.
  induction p as [|p IH]; intros Hp Hb Hinv; cbn [match_backward];
    destruct (char_lt r _ (Nat.lt_le_trans _ _ _ Hp Hb)) as (x & -> & Hx);
    pose proof (depth_step o c l _ x Hx) as HS;
    pose proof (Hinv _ (Nat.lt_succ_diag_r _) Hp) as Hd;
    pose proof (depth_bound o c l _ b Hp) as Hbd.
  - on_char x o; [|on_char x c]; cbn [andb].
    + rewrite delta_open in HS. rewrite i32_id by lia. case_bool_decide as E0.
      * split_and!; [lia|done|lia|done].
      * apply opener_none; [done|lia].
    + rewrite delta_close in HS by done. apply opener_none; [done|lia].
    + rewrite delta_other in HS by done. apply opener_none; [done|lia].
  - assert (Hnext : (D b <= D (S p))%Z -> opener_found b (S p) (match_backward r o c (1 + D (S p) - D b) p)).
    { intros Hd'. apply opener_found_step, IH; [lia|done|]. intros i Hi1 Hi2.
      destruct (decide (i = S p)) as [->|]; [done|]. apply Hinv; lia. }
    on_char x o; [|on_char x c]; cbn [andb].
    + rewrite delta_open in HS. rewrite i32_id by lia. case_bool_decide as E0.
      * split_and!; [lia|done|lia|done].
      * replace (1 + D (S (S p)) - D b - 1)%Z with (1 + D (S p) - D b)%Z by lia. apply Hnext. lia.
    + rewrite delta_close in HS by done. rewrite i32_id by lia.
      replace (1 + D (S (S p)) - D b + 1)%Z with (1 + D (S p) - D b)%Z by lia. apply Hnext. lia.
    + rewrite delta_other in HS by done.
      replace (1 + D (S (S p)) - D b)%Z with (1 + D (S p) - D b)%Z by lia. apply Hnext. lia.
Qed.

Lemma find_open_spec b p :
  p < b -> b <= len_chars r -> (forall i, p < i -> i <= b -> (D b <= D i)%Z) ->
  opener_found b p (find_open r o c (D (S p) - D b) p).
Proof.
  induction p as [|p IH]; intros Hp Hb Hinv; cbn [find_open];
    destruct (char_lt r _ (Nat.lt_le_trans _ _ _ Hp Hb)) as (x & -> & Hx);
    pose proof (depth_step o c l _ x Hx) as HS;
    pose proof (Hinv _ (Nat.lt_succ_diag_r _) Hp) as Hd;
    pose proof (depth_bound o c l _ b Hp) as Hbd.
  - case_bool_decide as E1; [subst x|case_bool_decide as E2; [subst x|]].
    + rewrite delta_close in HS by done. apply opener_none; [done|lia].
    + rewrite delta_open in HS. case_bool_decide as E0.
      * split_and!; [lia|done|lia|done].
      * apply opener_none; [done|lia].
    + rewrite delta_other in HS by done. apply opener_none; [done|lia].
  - assert (Hnext : (D b <= D (S p))%Z -> opener_found b (S p) (find_open r o c (D (S p) - D b) p)).
    { intros Hd'. apply opener_found_step, IH; [lia|done|]. intros i Hi1 Hi2.
      destruct (decide (i = S p)) as [->|]; [done|]. apply Hinv; lia. }
    case_bool_decide as E1; [subst x|case_bool_decide as E2; [subst x|]].
    + rewrite delta_close in HS by done. rewrite i32_id by lia.
      replace (D (S (S p)) - D b + 1)%Z with (D (S p) - D b)%Z by lia. apply Hnext. lia.
    + rewrite delta_open in HS. case_bool_decide as E0.
      * split_and!; [lia|done|lia|done].
      * rewrite i32_id by lia.
        replace (D (S (S p)) - D b - 1)%Z with (D (S p) - D b)%Z by lia. apply Hnext. lia.
    + rewrite delta_other in HS by done.
      replace (D (S (S p)) - D b)%Z with (D (S p) - D b)%Z by lia. apply Hnext. lia.
Qed.

End Search.

(** ** From the searches to matched pairs *)

Section Pairs.
Context {R : Type} `{RopeLaws R, Unicode}.
Context (r : R) (o c : N) (Hoc : o <> c) (Hlen : (Z.of_nat (len_chars r) < 2147483648)%Z).
Notation l := (rope_chars r).
Notation D := (depth_at o c (rope_chars r)).

Lemma matched_below a b : matched o c l a b ->
  b < len_chars r /\ D (S a) = (D a + 1)%Z /\ D (S b) = (D (S a) - 1)%Z.
Proof.
  intros (Hab & Ha & Hb & Heq & _). split; [by eapply lookup_len|].
  rewrite (depth_step o c l _ _ Hb), delta_close by done.
  pose proof (depth_step o c l _ _ Ha) as Hs. rewrite delta_open in Hs. lia.
Qed.

Lemma forward_finds a b :
  l !! a = Some o -> match_forward (len_chars r) r c o 1 (S a) = Some (Some b) <-> matched o c l a b.
Proof.
  intros Ha. pose proof (lookup_len r a o Ha) as Hl.
  pose proof (match_forward_spec r o c Hoc Hlen (len_chars r) a (S a)) as Hs.
  replace (1 + D (S a) - D (S a))%Z with 1%Z in Hs by lia.
  specialize (Hs ltac:(lia) ltac:(lia) ltac:(lia)).
  assert (Hpre : forall i, a < i -> i <= S a -> (D (S a) <= D i)%Z).
  { intros i Hi1 Hi2. replace i with (S a) by lia. lia. }
  specialize (Hs Hpre). split.
  - intros E. rewrite E in Hs. destruct Hs as (Hp & Hb & Hd & Hi). split_and!; [lia|done|done|done|done].
  - intros Hm. destruct (matched_below a b Hm) as (Hbl & _ & HSb).
    destruct Hm as (Hab & _ & Hb & _ & Hmi).
    destruct (match_forward _ _ _ _ _ _) as [[b'|]|]; [| |done].
    + destruct Hs as (Hp & Hb' & Hd & Hi). pose proof (depth_step o c l _ _ Hb') as Hs'.
      rewrite delta_close in Hs' by done. destruct (decide (b' < b)) as [Hlt|].
      { specialize (Hmi (S b')). lia. }
      destruct (decide (b < b')) as [Hlt|]; [specialize (Hi (S b)); lia|]. do 2 f_equal. lia.
    + specialize (Hs (S b)). lia.
Qed.

Lemma backward_finds a b :
  l !! b = Some c -> 0 < b -> match_backward r o c 1 (b - 1) = Some (Some a) <-> matched o c l a b.
Proof.
  intros Hb H0b. pose proof (lookup_len r b c Hb) as Hl.
  pose proof (match_backward_spec r o c Hoc Hlen b (b - 1)) as Hs.
  replace (S (b - 1)) with b in Hs by lia. replace (1 + D b - D b)%Z with 1%Z in Hs by lia.
  specialize (Hs ltac:(lia) ltac:(lia)).
  assert (Hpre : forall i, b - 1 < i -> i <= b -> (D b <= D i)%Z).
  { intros i Hi1 Hi2. replace i with b by lia. lia. }
  specialize (Hs Hpre). split.
  - intros E. rewrite E in Hs. destruct Hs as (Hp & Ha & Hd & Hi).
    split_and!; [lia|done|done|done|]. by rewrite Hd.
  - intros Hm. destruct (matched_below a b Hm) as (Hbl & HSa & HSb).
    destruct Hm as (Hab & Ha & _ & Hd & Hmi).
    destruct (match_backward _ _ _ _ _) as [[a'|]|]; simpl in Hs; [| |done].
    + destruct Hs as (Hp & Ha' & Hd' & Hi). pose proof (depth_step o c l _ _ Ha') as Hs'.
      rewrite delta_open in Hs'. destruct (decide (a < a')) as [Hlt|].
      { specialize (Hmi a'). lia. }
      destruct (decide (a' < a)) as [Hlt|]; [specialize (Hi a); lia|]. do 2 f_equal. lia.
    + specialize (Hs a). lia.
Qed.

(** The delimiter object: the innermost pair around [pos], if there is one. *)
Lemma paired_delimiter_spec pos inner :
  pos < len_chars r ->
  match paired_delimiter_range r pos o c inner with
  | Some (Some range) => exists a b, matched o c l a b /\ a <= pos /\ pos <= b /\
      range = (if inner then (a + 1, b) else (a, b + 1)) /\
      forall a' b', matched o c l a' b' -> a' <= pos -> pos <= b' -> a' <= a /\ b <= b'
  | Some None => forall a' b', matched o c l a' b' -> a' <= pos -> pos <= b' -> False
  | None => False
  end.
Proof.
  intros Hpos. unfold paired_delimiter_range. destruct (char_lt r pos Hpos) as (x & -> & Hx).
  set (ss := if bool_decide (x = c) && (0 <? pos) then pos - 1 else pos).
  assert (Hss : ss <= pos /\ pos <= S ss /\ S ss <= len_chars r /\
    forall a' b', matched o c l a' b' -> a' <= pos -> pos <= b' -> a' < S ss /\ S ss <= b').
  { unfold ss. destruct (decide (x = c)) as [->|Hne].
    - rewrite (bool_decide_eq_true_2 (c = c)) by done. destruct (Nat.ltb_spec 0 pos) as [H0p|H0p]; simpl.
      + split_and!; [lia|lia|lia|]. intros a' b' (_ & Ha' & _) Hap Hbp.
        destruct (decide (a' = pos)) as [->|]; [congruence|lia].
      + split_and!; [lia|lia|lia|]. intros a' b' (_ & Ha' & _) Hap Hbp.
        replace a' with pos in Ha' by lia. congruence.
    - rewrite (bool_decide_eq_false_2 (x = c)) by done. simpl. split_and!; [lia|lia|lia|].
      intros a' b' (_ & _ & Hb' & _) Hap Hbp. destruct (decide (b' = pos)) as [->|]; [congruence|lia]. }
  destruct Hss as (Hss1 & Hss2 & Hss3 & Henc). clearbody ss.
  pose proof (find_open_spec r o c Hoc Hlen (S ss) ss ltac:(lia) Hss3) as Ho.
  rewrite Z.sub_diag in Ho.
  assert (Hpre : forall i, ss < i -> i <= S ss -> (D (S ss) <= D i)%Z).
  { intros i Hi1 Hi2. replace i with (S ss) by lia. lia. }
  specialize (Ho Hpre).
  assert (Hout : forall a' b', matched o c l a' b' -> a' <= pos -> pos <= b' ->
    a' < S ss /\ S ss <= b' /\ b' < len_chars r /\ (D a' < D (S ss))%Z /\ (D (S a') <= D (S ss))%Z /\
    (D (S b') < D (S ss))%Z).
  { intros a' b' Hm Hap Hbp. destruct (Henc a' b' Hm Hap Hbp), (matched_below a' b' Hm) as (? & ? & ?).
    destruct Hm as (? & _ & _ & _ & Hmi). specialize (Hmi (S ss)). lia. }
  clear Henc Hpre. destruct (find_open r o c 0 ss) as [[a|]|]; simpl in Ho; [| |done].
  2: { intros a' b' Hm Hap Hbp. destruct (Hout a' b' Hm Hap Hbp) as (? & ? & ? & ? & _).
       specialize (Ho a'). lia. }
  destruct Ho as (Ha1 & Ha2 & Ha3 & Ha4). rewrite Nat.add_1_r, find_close_match by done.
  pose proof (match_forward_spec r o c Hoc Hlen (len_chars r) a (S a) ltac:(lia) ltac:(lia) ltac:(lia)) as Hs.
  replace (1 + D (S a) - D (S a))%Z with 1%Z in Hs by lia.
  assert (Hpre : forall i, a < i -> i <= S a -> (D (S a) <= D i)%Z).
  { intros i Hi1 Hi2. replace i with (S a) by lia. lia. }
  specialize (Hs Hpre). destruct (match_forward _ _ _ _ _ _) as [[b|]|]; [| |done].
  - destruct Hs as (Hb1 & Hb2 & Hb3 & Hb4).
    assert (Hm : matched o c l a b) by (split_and!; [lia|done..]).
    destruct (matched_below a b Hm) as (_ & _ & HSb).
    assert (S ss <= b). { destruct (decide (S b <= S ss)); [|lia]. specialize (Ha4 (S b)). lia. }
    exists a, b. split_and!; [done|lia|lia|by destruct inner; rewrite ?Nat.add_1_r|].
    intros a' b' Hm' Hap Hbp. destruct (Hout a' b' Hm' Hap Hbp) as (? & ? & ? & ? & ? & ?).
    destruct (matched_below a' b' Hm') as (_ & ? & ?). split.
    + destruct (decide (a < a')); [|lia]. specialize (Ha4 a'). lia.
    + destruct (decide (b' < b)); [|lia]. specialize (Hb4 (S b')). lia.
  - intros a' b' Hm Hap Hbp. destruct (Hout a' b' Hm Hap Hbp) as (? & ? & ? & _ & _ & ?).
    specialize (Hs (S b')). lia.
Qed.

End Pairs.

Lemma bracket_target_spec ch t dir :
  bracket_target ch = Some (t, dir) ->
  ch <> t /\ bracket_target t = Some (ch, negb dir).
Proof. unfold bracket_target. intros E. repeat case_match; simplify_eq/=; by split. Qed.

(** ** Quotes *)

(** Character [i] of line [k] is the character [i] past the line's start. *)
Lemma line_lookup (ls : list (list N)) k ln i :
  ls !! k = Some ln -> i < length ln -> concat ls !! (length (concat (take k ls)) + i) = ln !! i.
Proof.
  intros Hk Hi. assert (concat ls = concat (take k ls) ++ ln ++ concat (drop (S k) ls)) as ->.
  { rewrite <- (take_drop_middle ls k ln Hk) at 1. by rewrite concat_app. }
  rewrite lookup_app_r, Nat.add_sub' by lia. by rewrite lookup_app_l.
Qed.

(** The quote columns: in range, on quotes, increasing, and none skipped. *)
Lemma quote_positions_spec q i n s :
  (forall x, x ∈ quote_positions q i n s -> i <= x /\ x < i + n /\ s !! (x - i) = Some q) /\
  (forall b, quote_positions q i n s !! 0 = Some b -> forall j, i <= j -> j < b -> s !! (j - i) <> Some q) /\
  (forall k a b, quote_positions q i n s !! k = Some a -> quote_positions q i n s !! S k = Some b ->
     a < b /\ forall j, a < j -> j < b -> s !! (j - i) <> Some q).
Proof.
  revert i s. induction n as [|n IH]; intros i s; cbn [quote_positions].
  { split_and!; [|done..]. intros x Hx. by apply not_elem_of_nil in Hx. }
  destruct s as [|x s]; [split_and!; [|done..]; intros y Hy; by apply not_elem_of_nil in Hy|].
  destruct (IH (S i) s) as (H1 & H2 & H3).
  assert (Hs : forall j, i < j -> (x :: s) !! (j - i) = s !! (j - S i)).
  { intros j Hj. by replace (j - i) with (S (j - S i)) by lia. }
  assert (Hin : forall y, y ∈ quote_positions q (S i) n s -> i <= y /\ y < i + S n /\ (x :: s) !! (y - i) = Some q).
  { intros y Hy. destruct (H1 y Hy) as (? & ? & ?). rewrite Hs by lia. split_and!; [lia|lia|done]. }
  case_bool_decide as E.
  - subst x. split_and!.
    + intros y [->|Hy]%elem_of_cons; [|by apply Hin]. rewrite Nat.sub_diag. split_and!; [lia|lia|done].
    + intros b [= <-] j ??. lia.
    + intros [|k] a b Ha Hb; simpl in Ha, Hb.
      * simplify_eq. pose proof (list_elem_of_lookup_2 _ _ _ Hb) as Hb'. destruct (H1 b Hb').
        split; [lia|]. intros j ??. rewrite Hs by lia. eapply H2; [done|lia|lia].
      * destruct (H3 k a b Ha Hb) as [? Hn]. split; [done|]. intros j ??.
        pose proof (H1 a (list_elem_of_lookup_2 _ _ _ Ha)). rewrite Hs by lia. apply Hn; lia.
  - split_and!; [done| |].
    + intros b Hb j ??. destruct (decide (j = i)) as [->|]; [rewrite Nat.sub_diag; simpl; congruence|].
      rewrite Hs by lia. eapply H2; [done|lia|lia].
    + intros k a b Ha Hb. destruct (H3 k a b Ha Hb) as [? Hn]. split; [done|]. intros j ??.
      pose proof (H1 a (list_elem_of_lookup_2 _ _ _ Ha)). rewrite Hs by lia. apply Hn; lia.
Qed.

Lemma quote_pair_spec col ls inner qs range :
  quote_pair col ls inner qs = Some range -> exists k a b,
    qs !! k = Some a /\ qs !! S k = Some b /\ a <= col /\ col <= b /\
    range = (if inner then (ls + a + 1, ls + b) else (ls + a, ls + b + 1)).
Proof.
  assert (Hall : forall n qs, length qs <= n -> quote_pair col ls inner qs = Some range -> exists k a b,
    qs !! k = Some a /\ qs !! S k = Some b /\ a <= col /\ col <= b /\
    range = (if inner then (ls + a + 1, ls + b) else (ls + a, ls + b + 1))); [|by apply (Hall (length qs))].
  induction n as [|n IH]; intros qs' Hn; destruct qs' as [|a [|b rest]]; simpl in *; try done; try lia.
  destruct ((a <=? col) && (col <=? b)) eqn:E.
  - apply andb_true_iff in E as [?%Nat.leb_le ?%Nat.leb_le]. intros [= <-].
    exists 0, a, b. by split_and!.
  - intros Hq. destruct (IH rest ltac:(lia) Hq) as (k & a' & b' & ?). by exists (S (S k)), a', b'.
Qed.

Section Properties.
Context {R : Type} `{RopeLaws R, Unicode}.
Implicit Type r : R.

(** ** Properties *)

(** [%] is an involution: the partner of a bracket's partner is the
    bracket itself, and the two enclose a balanced text. *)
Theorem matching_bracket_involutive r pos q :
  (Z.of_nat (len_chars r) < 2147483648)%Z ->
  matching_bracket r pos = Some (Some q) ->
  matching_bracket r q = Some (Some pos) /\
  exists o c, bracket_target o = Some (c, true) /\
    matched o c (rope_chars r) (Nat.min pos q) (Nat.max pos q).
Proof.
  intros Hlen Hm. unfold matching_bracket in *.
  destruct (Nat.leb_spec (len_chars r) pos) as [|Hp]; [done|].
  destruct (char_lt r pos Hp) as (x & Ex & Hx). rewrite Ex in Hm.
  destruct (bracket_target x) as [[t [|]]|] eqn:Et; [| |done].
  - destruct (bracket_target_spec _ _ _ Et) as [Hne Hback]. rewrite Nat.add_1_r in Hm.
    apply (forward_finds r x t Hne Hlen pos q Hx) in Hm as Hmt. pose proof Hmt as (Hlt & _ & Hq & _).
    rewrite (proj2 (Nat.leb_gt _ _) (lookup_len r q t Hq)), rope_char_at, Hq, Hback. cbn [negb].
    destruct q as [|q]; [lia|]. split.
    + apply (backward_finds r x t Hne Hlen pos (S q) Hq ltac:(lia)) in Hmt.
      by replace (S q - 1) with q in Hmt by lia.
    + exists x, t. by rewrite Nat.min_l, Nat.max_r by lia.
  - destruct (bracket_target_spec _ _ _ Et) as [Hne Hback]. destruct pos as [|p]; [done|].
    assert (Hmt : matched t x (rope_chars r) q (S p)).
    { apply (backward_finds r t x (not_eq_sym Hne) Hlen q (S p) Hx ltac:(lia)).
      by replace (S p - 1) with p by lia. }
    pose proof Hmt as (Hlt & Hq & _ & _).
    rewrite (proj2 (Nat.leb_gt _ _) (lookup_len r q t Hq)), rope_char_at, Hq, Hback. cbn [negb]. split.
    + rewrite Nat.add_1_r. by apply (forward_finds r t x (not_eq_sym Hne) Hlen q (S p) Hq).
    + exists t, x. by rewrite Nat.min_r, Nat.max_l by lia.
Qed.

(** A delimiter object never panics, is the innermost matched pair around
    the cursor, the cursor on a delimiter included, and is absent only when
    no pair encloses the cursor. *)
Theorem delimiter_object_is_innermost r pos o c obj inner :
  (o, c) ∈ [(40, 41); (91, 93); (123, 125); (60, 62)]%N -> obj ∈ [o; c] ->
  pos < len_chars r -> (Z.of_nat (len_chars r) < 2147483648)%Z ->
  match text_object_range r pos obj inner with
  | Some (Some range) => exists a b, matched o c (rope_chars r) a b /\ a <= pos /\ pos <= b /\
      range = (if inner then (a + 1, b) else (a, b + 1)) /\
      forall a' b', matched o c (rope_chars r) a' b' -> a' <= pos -> pos <= b' -> a' <= a /\ b <= b'
  | Some None => forall a' b', matched o c (rope_chars r) a' b' -> a' <= pos -> pos <= b' -> False
  | None => False
  end.
Proof.
  intros Hp Hobj Hpos Hlen. unfold text_object_range.
  rewrite bool_decide_eq_false_2, (proj2 (Nat.leb_gt _ _)) by lia. simpl.
  assert (Ht : match obj with
    | 40 | 41 => paired_delimiter_range r pos 40 41 inner
    | 91 | 93 => paired_delimiter_range r pos 91 93 inner
    | 123 | 125 => paired_delimiter_range r pos 123 125 inner
    | 60 | 62 => paired_delimiter_range r pos 60 62 inner
    | 34 | 39 | 96 => quote_range r pos obj inner
    | _ => Some None end%N = paired_delimiter_range r pos o c inner /\ o <> c).
  { repeat (apply elem_of_cons in Hp as [[= -> ->]|Hp]; [by each_elem Hobj|]). by apply not_elem_of_nil in Hp. }
  destruct Ht as [-> Hoc]. by apply paired_delimiter_spec.
Qed.

(** A quote object never panics and, when there is one, is delimited by
    two quotes with the cursor on or between them and no quote in between. *)
Theorem quote_object_encloses_cursor r pos q inner :
  q ∈ [34; 39; 96]%N -> pos < len_chars r ->
  match text_object_range r pos q inner with
  | Some (Some range) => exists a b, a < b /\ rope_chars r !! a = Some q /\ rope_chars r !! b = Some q /\
      a <= pos /\ pos <= b /\ (forall i, a < i -> i < b -> rope_chars r !! i <> Some q) /\
      range = (if inner then (a + 1, b) else (a, b + 1))
  | Some None => True
  | None => False
  end.
Proof.
  intros Hq Hpos. unfold text_object_range.
  rewrite bool_decide_eq_false_2, (proj2 (Nat.leb_gt _ _)) by lia. simpl.
  assert (Ht : match q with
    | 40 | 41 => paired_delimiter_range r pos 40 41 inner
    | 91 | 93 => paired_delimiter_range r pos 91 93 inner
    | 123 | 125 => paired_delimiter_range r pos 123 125 inner
    | 60 | 62 => paired_delimiter_range r pos 60 62 inner
    | 34 | 39 | 96 => quote_range r pos q inner
    | _ => Some None end%N = quote_range r pos q inner) by (by each_elem Hq).
  rewrite Ht. clear Ht Hq. unfold quote_range. rewrite rope_len_chars in Hpos.
  rewrite rope_char_to_line, (proj2 (Nat.leb_le _ _)) by lia. rewrite rope_line_to_char, rope_line.
  destruct (line_of_spec (split_lines (rope_chars r)) pos) as (Hk & Hst & _).
  { pose proof (split_lines_length (rope_chars r)). by destruct (split_lines (rope_chars r)); simpl in *; [lia|]. }
  set (k := line_of _ _ _) in *. clearbody k. rewrite (proj2 (Nat.leb_le _ _)) by lia.
  destruct (lookup_lt_is_Some_2 _ _ Hk) as [ln Hln]. rewrite Hln.
  rewrite (proj2 (Nat.ltb_ge _ _)) by lia.
  set (st := length (concat (take k (split_lines (rope_chars r))))) in *.
  assert (Hl : forall i, i < length ln -> rope_chars r !! (st + i) = ln !! i).
  { intros i Hi. rewrite <- (split_lines_concat (rope_chars r)) at 1. by apply line_lookup. }
  assert (Heff : exists n, (if 0 <? length ln then
      let? c := ln !! (length ln - 1) in
      Some (if bool_decide (c = 10%N) then length ln - 1 else length ln)
    else Some (length ln)) = Some n /\ n <= length ln).
  { destruct (Nat.ltb_spec 0 (length ln)); [|by eexists].
    destruct (lookup_lt_is_Some_2 ln (length ln - 1) ltac:(lia)) as [c ->].
    eexists. split; [done|]. case_match; lia. }
  destruct Heff as (n & -> & Hn). clearbody st.
  destruct (quote_pair _ _ _ _) as [range|] eqn:E; [|done].
  apply quote_pair_spec in E as (k' & a & b & Ha & Hb & Hac & Hcb & ->).
  destruct (quote_positions_spec q 0 n ln) as (H3 & _ & H5).
  pose proof (H3 a (list_elem_of_lookup_2 _ _ _ Ha)) as (_ & Ha1 & Ha2).
  pose proof (H3 b (list_elem_of_lookup_2 _ _ _ Hb)) as (_ & Hb1 & Hb2).
  destruct (H5 k' a b Ha Hb) as [Hab Hno]. rewrite Nat.sub_0_r in *.
  exists (st + a), (st + b). rewrite !Hl by lia. split_and!; [lia|done|done|lia|lia| |by destruct inner].
  intros i Hi1 Hi2. replace i with (st + (i - st)) by lia. rewrite Hl by lia.
  specialize (Hno (i - st)). rewrite Nat.sub_0_r in Hno. apply Hno; lia.
Qed.

End Properties.

(** ** Witnesses *)

Module BracketWitnesses.
#[local] Existing Instance ListRope.list_rope.
#[local] Existing Instance ListRope.list_rope_laws.
#[local] Existing Instance AsciiUnicode.ascii_unicode.

Definition sample : list N := ListRope.ascii_text "f(a[0], g(b)) + 'xy'".

Lemma matching_bracket_involutive_witness :
  matching_bracket sample 12 = Some (Some 1) /\
  exists o c, bracket_target o = Some (c, true) /\
    matched o c (rope_chars sample) (Nat.min 1 12) (Nat.max 1 12).
Proof. apply (matching_bracket_involutive sample 1 12); by vm_compute. Defined.

(** On the b inside g(b): the inner pair, not the outer one. *)
Lemma delimiter_object_is_innermost_witness :
  text_object_range sample 10 40 true = Some (Some (10, 11)) /\
  match text_object_range sample 10 40 true with
  | Some (Some range) => exists a b, matched 40 41 (rope_chars sample) a b /\ a <= 10 /\ 10 <= b /\
      range = (a + 1, b) /\
      forall a' b', matched 40 41 (rope_chars sample) a' b' -> a' <= 10 -> 10 <= b' -> a' <= a /\ b <= b'
  | Some None => forall a' b', matched 40 41 (rope_chars sample) a' b' -> a' <= 10 -> 10 <= b' -> False
  | None => False
  end.
Proof.
  split; [by vm_compute|]. apply (delimiter_object_is_innermost sample 10 40 41 40 true);
    [set_solver|set_solver|vm_compute; lia|by vm_compute].
Defined.

Lemma quote_object_encloses_cursor_witness :
  text_object_range sample 18 39 false = Some (Some (16, 20)) /\
  match text_object_range sample 18 39 false with
  | Some (Some range) => exists a b, a < b /\ rope_chars sample !! a = Some 39%N /\
      rope_chars sample !! b = Some 39%N /\
      a <= 18 /\ 18 <= b /\ (forall i, a < i -> i < b -> rope_chars sample !! i <> Some 39%N) /\
      range = (a, b + 1)
  | Some None => True
  | None => False
  end.
Proof.
  split; [by vm_compute|]. apply (quote_object_encloses_cursor sample 18 39 false);
    [set_solver|vm_compute; lia].
Defined.
End BracketWitnesses.
