(* ===== verification/Buffer.v ===== *)
(** * Buffer: the text buffer, its edit operations and its undo history

    Models the editing core of [crates/core/src/buffer.rs] and the cursor part
    of [crates/core/src/window.rs]. The rope is the interface [Rope]; the
    collaborative document ([mae_sync::text::TextSync]) is the interface
    [SyncDoc], which [CollabText] implements; the content hash is SHA-256
    of an external crate. An operation on [&mut self] and [&mut Window] takes
    and returns both; [None] is a panic. *)
From S2P Require Import Prelude Rope Grapheme.

(** [UndoResult] of the collaborative document. *)
Record UndoResult := mkUndoResult {
  success : bool;
  updates : list string;
  cursor_offset : option nat;
}.

(** [AppliedEdit]: where a remote update starts to differ, and by how much the
    text grew. *)
Record AppliedEdit := mkApplied { edit_start : nat; char_delta : Z }.

(** The operations of the collaborative document the buffer calls; encoded
    updates are byte strings. The boolean of an update is [Ok]. *)
Class SyncDoc (R Doc : Type) := {
  sync_rope : Doc -> R;
  sync_set_cursor_offset : Doc -> N -> Doc;
  sync_doc_insert : Doc -> N -> list N -> Doc * string;
  sync_doc_delete : Doc -> N -> N -> Doc * string;
  sync_reconcile_to : Doc -> list N -> Doc * string;
  sync_undo_mgr_active : Doc -> bool;
  sync_undo : Doc -> Doc * UndoResult;
  sync_redo : Doc -> Doc * UndoResult;
  sync_undo_reset : Doc -> Doc;
  sync_encode_state : Doc -> string;
  sync_apply_update : Doc -> string -> Doc * bool;
  sync_apply_update_with_edit : Doc -> string -> Doc * option (option AppliedEdit);
  sync_with_client_id : list N -> N -> Doc;
  sync_from_state : string -> N -> option Doc;
  sync_enable_undo : Doc -> Doc;
}.

(** What the document promises to the buffer. [sync_ok] is an invariant of its
    own; the text of the document is the text of its rope; offsets are exact as
    long as the text is short enough for the 32-bit offsets of the CRDT. *)
Definition fits_u32 (t : list N) : Prop := (N.of_nat (utf16_len t) < 4294967296)%N.
Definition sync_text {R Doc} `{Rope R, SyncDoc R Doc} (d : Doc) : list N := rope_chars (sync_rope d).
(** What an applied edit says about the texts before and after the update. *)
Definition edit_sound (old new : list N) (e : option AppliedEdit) : Prop :=
  match e with
  | None => new = old
  | Some e => edit_start e <= length old /\ take (edit_start e) new = take (edit_start e) old /\
              char_delta e = (Z.of_nat (length new) - Z.of_nat (length old))%Z
  end.

Class SyncLaws (R Doc : Type) `{Rope R, SyncDoc R Doc} := {
  sync_ok : Doc -> Prop;
  law_cursor d n : sync_ok d ->
    sync_ok (sync_set_cursor_offset d n) /\ sync_text (sync_set_cursor_offset d n) = sync_text d;
  law_insert d p s : sync_ok d -> fits_u32 (sync_text d) -> p <= length (sync_text d) ->
    let d' := (sync_doc_insert d (N.of_nat p) s).1 in
    sync_ok d' /\ sync_text d' = take p (sync_text d) ++ s ++ drop p (sync_text d);
  law_delete d p n : sync_ok d -> fits_u32 (sync_text d) -> p + n <= length (sync_text d) ->
    let d' := (sync_doc_delete d (N.of_nat p) (N.of_nat n)).1 in
    sync_ok d' /\ sync_text d' = take p (sync_text d) ++ drop (p + n) (sync_text d);
  law_reconcile d t : sync_ok d -> fits_u32 (sync_text d ++ t) ->
    let d' := (sync_reconcile_to d t).1 in sync_ok d' /\ sync_text d' = t;
  law_undo d : sync_ok d -> sync_ok (sync_undo d).1 /\
    (success (sync_undo d).2 = false -> sync_text (sync_undo d).1 = sync_text d);
  law_redo d : sync_ok d -> sync_ok (sync_redo d).1 /\
    (success (sync_redo d).2 = false -> sync_text (sync_redo d).1 = sync_text d);
  law_undo_reset d : sync_ok d ->
    sync_ok (sync_undo_reset d) /\ sync_text (sync_undo_reset d) = sync_text d;
  law_apply_update d u d' : sync_ok d -> sync_apply_update d u = (d', true) -> sync_ok d';
  law_apply_update_with_edit d u d' e : sync_ok d -> fits_u32 (sync_text d) ->
    sync_apply_update_with_edit d u = (d', Some e) ->
    sync_ok d' /\ edit_sound (sync_text d) (sync_text d') e;
  law_with_client_id t id : sync_ok (sync_with_client_id t id) /\ sync_text (sync_with_client_id t id) = t;
  law_from_state st id d : sync_from_state st id = Some d -> sync_ok d;
  law_enable_undo d : sync_ok d ->
    sync_ok (sync_enable_undo d) /\ sync_text (sync_enable_undo d) = sync_text d;
}.

(** [compute_content_hash]. *)
Class ContentHash := { compute_content_hash : list N -> string }.

Inductive EditAction :=
  | InsertChar (pos : nat) (ch : N)
  | DeleteChar (pos : nat) (ch : N)
  | InsertRange (pos : nat) (text : list N)
  | DeleteRange (pos : nat) (text : list N)
  | Group (actions : list EditAction).

(** The cursor of a window, and the primary cursor of its [cursor_set]. *)
Record Window := mkWin {
  cursor_row : nat;
  cursor_col : nat;
  primary : nat * nat;
}.

(** The buffer fields its editing operations read or write. *)
Record Buffer (R Doc : Type) := mkBuf {
  rope : R;
  modified : bool;
  read_only : bool;
  undo_stack : list EditAction;
  redo_stack : list EditAction;
  undo_group_acc : option (list EditAction);
  saved_undo_depth : option nat;
  saved_content_hash : option string;
  content_hash : option string;
  folded_ranges : list (nat * nat);
  generation : N;
  narrowed_range : option (nat * nat);
  changed_lines : gset nat;
  sync_doc : option Doc;
  pending_sync_updates : list string;
}.
Arguments mkBuf {R Doc}.
Arguments rope {R Doc}. Arguments modified {R Doc}. Arguments read_only {R Doc}.
Arguments undo_stack {R Doc}. Arguments redo_stack {R Doc}. Arguments undo_group_acc {R Doc}.
Arguments saved_undo_depth {R Doc}. Arguments saved_content_hash {R Doc}.
Arguments content_hash {R Doc}. Arguments folded_ranges {R Doc}. Arguments generation {R Doc}.
Arguments narrowed_range {R Doc}. Arguments changed_lines {R Doc}. Arguments sync_doc {R Doc}.
Arguments pending_sync_updates {R Doc}.

Section Ops.
Context {R Doc : Type} `{Rope R, SyncDoc R Doc, ContentHash, Segmentation}.
Implicit Types (b : Buffer R Doc).

(** *** Field assignments *)

Definition set_rope b (x : R) : Buffer R Doc :=
  mkBuf x (modified b) (read_only b) (undo_stack b) (redo_stack b) (undo_group_acc b)
    (saved_undo_depth b) (saved_content_hash b) (content_hash b) (folded_ranges b) (generation b)
    (narrowed_range b) (changed_lines b) (sync_doc b) (pending_sync_updates b).
Definition set_modified b (x : bool) : Buffer R Doc :=
  mkBuf (rope b) x (read_only b) (undo_stack b) (redo_stack b) (undo_group_acc b)
    (saved_undo_depth b) (saved_content_hash b) (content_hash b) (folded_ranges b) (generation b)
    (narrowed_range b) (changed_lines b) (sync_doc b) (pending_sync_updates b).
Definition set_stacks b (u r : list EditAction) (acc : option (list EditAction)) : Buffer R Doc :=
  mkBuf (rope b) (modified b) (read_only b) u r acc
    (saved_undo_depth b) (saved_content_hash b) (content_hash b) (folded_ranges b) (generation b)
    (narrowed_range b) (changed_lines b) (sync_doc b) (pending_sync_updates b).
Definition set_saved b (d : option nat) (sh ch : option string) : Buffer R Doc :=
  mkBuf (rope b) (modified b) (read_only b) (undo_stack b) (redo_stack b) (undo_group_acc b)
    d sh ch (folded_ranges b) (generation b)
    (narrowed_range b) (changed_lines b) (sync_doc b) (pending_sync_updates b).
Definition set_view b (folds : list (nat * nat)) (narrow : option (nat * nat)) : Buffer R Doc :=
  mkBuf (rope b) (modified b) (read_only b) (undo_stack b) (redo_stack b) (undo_group_acc b)
    (saved_undo_depth b) (saved_content_hash b) (content_hash b) folds (generation b)
    narrow (changed_lines b) (sync_doc b) (pending_sync_updates b).
Definition set_changed b (x : gset nat) : Buffer R Doc :=
  mkBuf (rope b) (modified b) (read_only b) (undo_stack b) (redo_stack b) (undo_group_acc b)
    (saved_undo_depth b) (saved_content_hash b) (content_hash b) (folded_ranges b) (generation b)
    (narrowed_range b) x (sync_doc b) (pending_sync_updates b).
Definition set_sync b (d : option Doc) (pending : list string) : Buffer R Doc :=
  mkBuf (rope b) (modified b) (read_only b) (undo_stack b) (redo_stack b) (undo_group_acc b)
    (saved_undo_depth b) (saved_content_hash b) (content_hash b) (folded_ranges b) (generation b)
    (narrowed_range b) (changed_lines b) d pending.

(** [self.generation.wrapping_add(1)] at 64 bits. *)
Definition bump_generation b : Buffer R Doc :=
  mkBuf (rope b) (modified b) (read_only b) (undo_stack b) (redo_stack b) (undo_group_acc b)
    (saved_undo_depth b) (saved_content_hash b) (content_hash b) (folded_ranges b)
    ((generation b + 1) mod 18446744073709551616)%N
    (narrowed_range b) (changed_lines b) (sync_doc b) (pending_sync_updates b).

Definition clear_redo b : Buffer R Doc := set_stacks b (undo_stack b) [] (undo_group_acc b).
Definition mark_changed b (row : nat) : Buffer R Doc := set_changed b ({[row]} ∪ changed_lines b).

(** [Buffer::new], with the text of the rope and the editing state it sets. *)
Definition new_buffer : Buffer R Doc :=
  mkBuf (from_str []) false false [] [] None None None None [] 0 None ∅ None [].

(** [Buffer::from_file], once the content has been read. *)
Definition from_content (content : list N) : Buffer R Doc :=
  set_saved (set_rope new_buffer (from_str content)) (Some 0) None (Some (compute_content_hash content)).

(** *** Lines, folds, narrowing *)

Definition line_count b : nat := len_lines (rope b).

Definition display_line_count b : option nat :=
  let n := len_lines (rope b) in
  if (1 <? n) && (0 <? len_chars (rope b)) then
    let? c := char_at (rope b) (len_chars (rope b) - 1) in
    Some (if bool_decide (c = 10%N) then n - 1 else n)
  else Some n.

Definition line_text b (ln : nat) : option (list N) :=
  if len_lines (rope b) <=? ln then Some [] else line (rope b) ln.

Definition text_range b (char_start char_end : nat) : option (list N) :=
  let start := Nat.min char_start (len_chars (rope b)) in
  let end_ := Nat.min char_end (len_chars (rope b)) in
  if end_ <=? start then Some [] else slice (rope b) start end_.

Definition has_undo b : bool := match undo_stack b with [] => false | _ => true end.
Definition has_redo b : bool := match redo_stack b with [] => false | _ => true end.

Definition line_byte_len b (ln : nat) : option nat :=
  if len_lines (rope b) <=? ln then Some 0
  else
    let? s := line (rope b) ln in
    match last s with
    | None => Some 0
    | Some c => Some (if bool_decide (c = 10%N) then byte_len s - 1 else byte_len s)
    end.

Definition line_char_len b (ln : nat) : option nat :=
  if len_lines (rope b) <=? ln then Some 0
  else
    let? s := line (rope b) ln in
    Some (if bool_decide (last s = Some 10%N) then length s - 1 else length s).

Definition line_text_no_newline b (ln : nat) : option (list N) :=
  if len_lines (rope b) <=? ln then Some []
  else let? s := line (rope b) ln in Some (trim_end 13 (trim_end 10 s)).

Definition next_visible_line b (ln : nat) : nat :=
  foldl (fun next '(start, end_) => if (start <? next) && (next <? end_) then end_ else next)
    (ln + 1) (folded_ranges b).

Definition prev_visible_line b (ln : nat) : nat :=
  match ln with
  | 0 => 0
  | S prev =>
      foldl (fun prev '(start, end_) => if (start <? prev) && (prev <? end_) then start else prev)
        prev (folded_ranges b)
  end.

Definition narrow_to b (start end_ : nat) : Buffer R Doc :=
  let clamped_end := Nat.min end_ (line_count b) in
  if start <? clamped_end then set_view b (folded_ranges b) (Some (start, clamped_end)) else b.
Definition widen b : Buffer R Doc := set_view b (folded_ranges b) None.

Definition is_line_visible b (ln : nat) : bool :=
  match narrowed_range b with
  | Some (start, end_) => (start <=? ln) && (ln <? end_)
  | None => true
  end.

Definition is_line_folded b (ln : nat) : bool :=
  existsb (fun '(start, end_) => (start <? ln) && (ln <? end_)) (folded_ranges b).

Definition fold_end_at b (ln : nat) : option nat :=
  snd <$> List.find (fun '(s, _) => s =? ln) (folded_ranges b).

(** [Vec::position] and [Vec::remove] on the start of a fold. *)
Fixpoint remove_fold (start : nat) (l : list (nat * nat)) : option (list (nat * nat)) :=
  match l with
  | [] => None
  | (s, e) :: l' => if s =? start then Some l'
                    else let? l'' := remove_fold start l' in Some ((s, e) :: l'')
  end.

(** The innermost foldable range containing the line; [end - start] of a range
    that is not ordered underflows, but such a range contains no line. *)
Definition innermost_range (ln : nat) (fold_ranges : list (nat * nat)) : option (nat * nat) :=
  foldl (fun best '(start, end_) =>
           if (start <=? ln) && (ln <=? end_)
              && match best with
                 | None => true
                 | Some (bs, be) => end_ - start <? be - bs
                 end
           then Some (start, end_) else best)
    None fold_ranges.

Definition toggle_fold_at b (ln : nat) (fold_ranges : list (nat * nat)) : Buffer R Doc :=
  match remove_fold ln (folded_ranges b) with
  | Some l => set_view b l (narrowed_range b)
  | None =>
      match innermost_range ln fold_ranges with
      | None => b
      | Some (start, end_) =>
          match remove_fold start (folded_ranges b) with
          | Some l => set_view b l (narrowed_range b)
          | None => set_view b (folded_ranges b ++ [(start, end_)]) (narrowed_range b)
          end
      end
  end.

Definition fold_all b (fold_ranges : list (nat * nat)) : Buffer R Doc :=
  set_view b fold_ranges (narrowed_range b).
Definition unfold_all b : Buffer R Doc := set_view b [] (narrowed_range b).

(** *** Offset conversions *)

Definition floor_rope_byte b (byte : nat) : option nat :=
  let? c := byte_to_char (rope b) (Nat.min byte (len_bytes (rope b))) in
  char_to_byte (rope b) c.

Definition byte_offset_at b (row byte_col : nat) : option nat :=
  if bool_decide (len_bytes (rope b) = 0) then Some 0
  else
    let row := Nat.min row (line_count b - 1) in
    let? line_start := line_to_byte (rope b) row in
    let? s := line (rope b) row in
    let line_end := line_start + byte_len s in
    Some (Nat.min (Nat.min (line_start + byte_col) line_end) (len_bytes (rope b))).

Definition char_offset_at b (row byte_col : nat) : option nat :=
  if bool_decide (len_chars (rope b) = 0) then Some 0
  else
    let? byte_off := byte_offset_at b row byte_col in
    let? f := floor_rope_byte b byte_off in
    byte_to_char (rope b) f.

Definition row_col_from_offset b (offset : nat) : option (nat * nat) :=
  let offset := Nat.min offset (len_chars (rope b) - 1) in
  let? row := char_to_line (rope b) offset in
  let? line_start_byte := line_to_byte (rope b) row in
  let? byte := char_to_byte (rope b) offset in
  Some (row, byte - line_start_byte).

Definition byte_col_of_char_offset b (row char_offset : nat) : option nat :=
  let? byte := char_to_byte (rope b) (Nat.min char_offset (len_chars (rope b))) in
  let? start := line_to_byte (rope b) (Nat.min row (len_lines (rope b) - 1)) in
  Some (byte - start).

Definition row_col_from_byte_offset b (byte_offset : nat) : option (nat * nat) :=
  let? byte_offset := floor_rope_byte b (Nat.min byte_offset (len_bytes (rope b))) in
  let? row := byte_to_line (rope b) byte_offset in
  let? line_start_byte := line_to_byte (rope b) row in
  Some (row, byte_offset - line_start_byte).

Definition next_grapheme_col b (row byte_col : nat) : option nat :=
  let? text := line_text_no_newline b row in
  Some (next_grapheme_boundary text (floor_char_boundary text byte_col)).

Definition prev_grapheme_col b (row byte_col : nat) : option nat :=
  let? text := line_text_no_newline b row in
  Some (prev_grapheme_boundary text (floor_char_boundary text (Nat.min byte_col (byte_len text)))).

Definition snap_col_to_grapheme b (row byte_col : nat) : option nat :=
  let? text := line_text_no_newline b row in
  Some (snap_to_grapheme_boundary text byte_col).

Definition char_col_to_byte_col b (row char_col : nat) : option nat :=
  let? text := line_text_no_newline b row in
  Some (char_idx_to_byte_idx text char_col).

Definition byte_col_to_char_col b (row byte_col : nat) : option nat :=
  let? text := line_text_no_newline b row in
  let? before := str_to text (floor_char_boundary text byte_col) in
  Some (length before).

Section Widths.
Context `{WidthTables}.

Definition byte_col_for_display_col (debug : bool) b (row display_col : nat) (policy : WidthPolicy)
    : option nat :=
  let? text := line_text_no_newline b row in
  byte_offset_for_max_width_with debug text display_col policy.

Definition display_col_for_byte_col b (row byte_col : nat) (policy : WidthPolicy) : option nat :=
  let? text := line_text_no_newline b row in
  let? before := str_to text (floor_char_boundary text byte_col) in
  Some (display_width_with before policy).
End Widths.

(** *** The window's cursor *)

Definition sync_primary w : Window :=
  mkWin (cursor_row w) (cursor_col w) (cursor_row w, cursor_col w).

(** The row [clamp_cursor] leaves the cursor on. *)
Definition clamped_row b (row : nat) : nat :=
  let row := match narrowed_range b with
             | Some (ns, ne) =>
                 let row := if row <? ns then ns else row in
                 let max_narrow := ne - 1 in
                 if max_narrow <? row then max_narrow else row
             | None => row
             end in
  let max_row := line_count b - 1 in
  if max_row <? row then max_row else row.

(** [Window::clamp_cursor]. *)
Definition clamp_cursor w b : option Window :=
  if bool_decide (line_count b = 0) then Some (sync_primary (mkWin 0 0 (primary w)))
  else
    let row := clamped_row b (cursor_row w) in
    let? line_len := line_byte_len b row in
    let? col := (if line_len <? cursor_col w then Some line_len
                 else if 0 <? cursor_col w then snap_col_to_grapheme b row (cursor_col w)
                 else Some (cursor_col w)) in
    Some (sync_primary (mkWin row col (primary w))).

(** *** The undo stack *)

Definition MAX_UNDO_ENTRIES : nat := 1000.

Definition push_undo b (a : EditAction) : Buffer R Doc :=
  match undo_group_acc b with
  | Some group => set_stacks b (undo_stack b) (redo_stack b) (Some (group ++ [a]))
  | None =>
      let s := undo_stack b ++ [a] in
      let s := if MAX_UNDO_ENTRIES <? length s then drop (length s - MAX_UNDO_ENTRIES) s else s in
      set_stacks b s (redo_stack b) None
  end.

Definition begin_undo_group b : Buffer R Doc :=
  set_stacks b (undo_stack b) (redo_stack b) (Some []).
Definition in_undo_group b : bool := bool_decide (is_Some (undo_group_acc b)).

Definition sync_undo_boundary b : Buffer R Doc :=
  match sync_doc b with
  | Some d => set_sync b (Some (sync_undo_reset d)) (pending_sync_updates b)
  | None => b
  end.

Definition end_undo_group b : Buffer R Doc :=
  let b := match undo_group_acc b with
           | Some actions =>
               let s := match actions with
                        | [a] => undo_stack b ++ [a]
                        | [] => undo_stack b
                        | _ => undo_stack b ++ [Group actions]
                        end in
               set_stacks b s [] None
           | None => b
           end in
  sync_undo_boundary b.

(** *** The collaborative document *)

(** [x as u32]. *)
Definition as_u32 (n : nat) : N := (N.of_nat n mod 4294967296)%N.

Definition sync_insert b (char_offset : nat) (text : list N) : Buffer R Doc :=
  match sync_doc b with
  | None => b
  | Some d =>
      let d := sync_set_cursor_offset d (as_u32 char_offset) in
      let '(d, update) := sync_doc_insert d (as_u32 char_offset) text in
      set_sync b (Some d) (pending_sync_updates b ++ [update])
  end.

Definition sync_delete b (char_offset len : nat) : Buffer R Doc :=
  match sync_doc b with
  | None => b
  | Some d =>
      let d := sync_set_cursor_offset d (as_u32 char_offset) in
      let '(d, update) := sync_doc_delete d (as_u32 char_offset) (as_u32 len) in
      set_sync b (Some d) (pending_sync_updates b ++ [update])
  end.

Definition sync_rebuild_from_rope b : Buffer R Doc :=
  match sync_doc b with
  | None => b
  | Some d =>
      let '(d, update) := sync_reconcile_to d (rope_chars (rope b)) in
      set_sync b (Some d)
        (if bool_decide (update = "") then pending_sync_updates b
         else pending_sync_updates b ++ [update])
  end.

Definition rebuild_rope_from_sync b : Buffer R Doc :=
  match sync_doc b with
  | None => b
  | Some d => bump_generation (set_rope b (sync_rope d))
  end.

Definition disable_sync b : Buffer R Doc * option string :=
  (set_sync b None (pending_sync_updates b), sync_encode_state <$> sync_doc b).

(** [apply_sync_update]: [Err] when sync is off or the document refuses the
    update, and then the rope is not touched. *)
Definition apply_sync_update b (update : string) : Buffer R Doc * bool :=
  match sync_doc b with
  | None => (b, false)
  | Some d =>
      let '(d, ok) := sync_apply_update d update in
      let b := set_sync b (Some d) (pending_sync_updates b) in
      if negb ok then (b, false) else (bump_generation (set_rope b (sync_rope d)), true)
  end.

(** Where a cursor goes after a remote edit, in a text of [new_len] chars. *)
Definition adjust_cursor (edit : option AppliedEdit) (new_len old_offset : nat) : nat :=
  match edit with
  | None => Nat.min old_offset new_len
  | Some e =>
      let shifted := if old_offset <=? edit_start e then old_offset
                     else Nat.max (Z.to_nat (Z.max (Z.of_nat old_offset + char_delta e) 0)) (edit_start e) in
      Nat.min shifted (new_len - 1)
  end.

Definition apply_sync_update_with_cursors b (update : string) (cursors : list nat)
    : Buffer R Doc * option (list nat) :=
  match sync_doc b with
  | None => (b, None)
  | Some d =>
      let '(d, res) := sync_apply_update_with_edit d update in
      let b := set_sync b (Some d) (pending_sync_updates b) in
      match res with
      | None => (b, None)
      | Some edit =>
          let b := bump_generation (set_rope b (sync_rope d)) in
          (b, Some (map (adjust_cursor edit (len_chars (rope b))) cursors))
      end
  end.

Definition enable_sync b (client_id : N) : Buffer R Doc :=
  let sync := sync_enable_undo (sync_with_client_id (rope_chars (rope b)) client_id) in
  let b := set_sync b (Some sync) (pending_sync_updates b) in
  set_saved b (saved_undo_depth b) None (content_hash b).

(** [load_sync_state]; [None] is the error, which leaves the buffer as it is. *)
Definition load_sync_state b (state_bytes : string) (client_id : N) : option (Buffer R Doc) :=
  let? sync := sync_from_state state_bytes client_id in
  let sync := sync_enable_undo sync in
  let b := set_sync (set_rope b (sync_rope sync)) (Some sync) [] in
  let b := set_modified (set_stacks b [] [] (undo_group_acc b)) false in
  Some (bump_generation (set_saved b (saved_undo_depth b) None (content_hash b))).

(** *** Edit operations *)

(** The end every edit shares: [redo_stack.clear()], [modified = true],
    [bump_generation()]; the assignments touch different fields. *)
Definition edited b : Buffer R Doc := bump_generation (set_modified (clear_redo b) true).

Definition insert_char b w (ch : N) : option (Buffer R Doc * Window) :=
  if read_only b then Some (b, w)
  else
    let? pos := char_offset_at b (cursor_row w) (cursor_col w) in
    let? r := insert (rope b) pos [ch] in
    let b := sync_insert (set_rope b r) pos [ch] in
    let b := push_undo b (InsertChar pos ch) in
    let b := mark_changed b (cursor_row w) in
    if bool_decide (ch = 10%N)
    then Some (edited (mark_changed b (S (cursor_row w))), mkWin (S (cursor_row w)) 0 (primary w))
    else Some (edited b, mkWin (cursor_row w) (cursor_col w + char_len ch) (primary w)).

(** [cursor_row - 1] on row 0 underflows: a panic. *)
Definition delete_char_backward b w : option (Buffer R Doc * Window) :=
  if read_only b then Some (b, w)
  else if bool_decide (cursor_col w = 0) && bool_decide (cursor_row w = 0) then Some (b, w)
  else
    let? pos := char_offset_at b (cursor_row w) (cursor_col w) in
    match pos with
    | 0 => Some (b, w)
    | S p =>
        let? ch := char_at (rope b) p in
        let? win :=
          (if bool_decide (ch = 10%N) then
             match cursor_row w with
             | 0 => None
             | S row => let? prev_line_len := line_byte_len b row in
                        Some (mkWin row prev_line_len (primary w))
             end
           else Some (mkWin (cursor_row w) (cursor_col w - char_len ch) (primary w))) in
        let? r := remove (rope b) p (S p) in
        let b := sync_delete (set_rope b r) p 1 in
        let b := push_undo b (DeleteChar p ch) in
        Some (edited (mark_changed b (cursor_row win)), win)
    end.

Definition delete_char_forward b w : option (Buffer R Doc * Window) :=
  if read_only b then Some (b, w)
  else
    let? pos := char_offset_at b (cursor_row w) (cursor_col w) in
    if len_chars (rope b) <=? pos then Some (b, w)
    else
      let? ch := char_at (rope b) pos in
      let? r := remove (rope b) pos (pos + 1) in
      let b := sync_delete (set_rope b r) pos 1 in
      let b := push_undo b (DeleteChar pos ch) in
      let b := edited (mark_changed b (cursor_row w)) in
      let? w := clamp_cursor w b in
      Some (b, w).

(** The deleted text is returned for the yank register. *)
Definition delete_line b w : option (Buffer R Doc * Window * list N) :=
  if read_only b then Some (b, w, [])
  else if bool_decide (line_count b = 0) || bool_decide (len_chars (rope b) = 0) then Some (b, w, [])
  else
    let? line_start := line_to_char (rope b) (cursor_row w) in
    let? ln := line (rope b) (cursor_row w) in
    if bool_decide (length ln = 0) then Some (b, w, [])
    else
      let? text := slice (rope b) line_start (line_start + length ln) in
      let? r := remove (rope b) line_start (line_start + length ln) in
      let b := sync_delete (set_rope b r) line_start (length ln) in
      let b := push_undo b (DeleteRange line_start text) in
      let b := edited (mark_changed b (cursor_row w)) in
      let? w := clamp_cursor w b in
      Some (b, w, text).

(** [while pos > line_start && f(rope.char(pos - 1)) { pos -= 1 }]. *)
Fixpoint back_to (f : N -> bool) (r : R) (line_start pos : nat) : option nat :=
  match pos with
  | 0 => Some 0
  | S p => if line_start <? pos then
             let? c := char_at r p in
             if f c then back_to f r line_start p else Some pos
           else Some pos
  end.

Definition delete_word_backward b w : option (Buffer R Doc * Window) :=
  if read_only b then Some (b, w)
  else
    let? cursor := char_offset_at b (cursor_row w) (cursor_col w) in
    let? line_start := line_to_char (rope b) (cursor_row w) in
    if cursor <=? line_start then Some (b, w)
    else
      let? pos := back_to is_whitespace (rope b) line_start cursor in
      let? pos := back_to (fun c => negb (is_whitespace c)) (rope b) line_start pos in
      if bool_decide (pos = cursor) then Some (b, w)
      else
        let? deleted := slice (rope b) pos cursor in
        let? r := remove (rope b) pos cursor in
        let b := sync_delete (set_rope b r) pos (cursor - pos) in
        let b := edited (push_undo b (DeleteRange pos deleted)) in
        let? col := byte_col_of_char_offset b (cursor_row w) pos in
        Some (b, mkWin (cursor_row w) col (primary w)).

Definition delete_to_line_start b w : option (Buffer R Doc * Window) :=
  if read_only b then Some (b, w)
  else
    let? cursor := char_offset_at b (cursor_row w) (cursor_col w) in
    let? line_start := line_to_char (rope b) (cursor_row w) in
    if cursor <=? line_start then Some (b, w)
    else
      let? deleted := slice (rope b) line_start cursor in
      let? r := remove (rope b) line_start cursor in
      let b := sync_delete (set_rope b r) line_start (cursor - line_start) in
      Some (edited (push_undo b (DeleteRange line_start deleted)), mkWin (cursor_row w) 0 (primary w)).

Definition delete_to_line_end b w : option (Buffer R Doc * Window) :=
  if read_only b then Some (b, w)
  else
    let? cursor := char_offset_at b (cursor_row w) (cursor_col w) in
    let? line_start := line_to_char (rope b) (cursor_row w) in
    let? ln := line (rope b) (cursor_row w) in
    let raw_end := line_start + length ln in
    let? line_end :=
      (if (line_start <? raw_end) && (raw_end <=? len_chars (rope b)) then
         let? c := char_at (rope b) (raw_end - 1) in
         Some (if bool_decide (c = 10%N)
               then if bool_decide (cursor = raw_end - 1) then raw_end else raw_end - 1
               else raw_end)
       else Some raw_end) in
    if line_end <=? cursor then Some (b, w)
    else
      let? deleted := slice (rope b) cursor line_end in
      let? r := remove (rope b) cursor line_end in
      let b := sync_delete (set_rope b r) cursor (line_end - cursor) in
      let b := edited (push_undo b (DeleteRange cursor deleted)) in
      let? w := clamp_cursor w b in
      Some (b, w).

Definition insert_text_at b (char_offset : nat) (text : list N) : option (Buffer R Doc) :=
  if read_only b then Some b
  else
    let offset := Nat.min char_offset (len_chars (rope b)) in
    let? start_line := char_to_line (rope b) offset in
    let? r := insert (rope b) offset text in
    let b := sync_insert (set_rope b r) offset text in
    let? end_line := char_to_line (rope b) (Nat.min (offset + length text) (len_chars (rope b))) in
    let b := set_changed b (changed_lines b ∪ list_to_set (seq start_line (S end_line - start_line))) in
    Some (edited (push_undo b (InsertRange offset text))).

Definition delete_range b (start end_ : nat) : option (Buffer R Doc) :=
  if read_only b then Some b
  else
    let start := Nat.min start (len_chars (rope b)) in
    let end_ := Nat.min end_ (len_chars (rope b)) in
    if end_ <=? start then Some b
    else
      let? del_line := char_to_line (rope b) start in
      let? text := slice (rope b) start end_ in
      let? r := remove (rope b) start end_ in
      let b := sync_delete (set_rope b r) start (end_ - start) in
      let b := mark_changed b del_line in
      Some (edited (push_undo b (DeleteRange start text))).

Definition open_line_below b w : option (Buffer R Doc * Window) :=
  if read_only b then Some (b, w)
  else
    let? line_start := line_to_char (rope b) (cursor_row w) in
    let? ln := line (rope b) (cursor_row w) in
    let insert_pos := line_start + length ln in
    let? r := insert (rope b) insert_pos [10%N] in
    let b := sync_insert (set_rope b r) insert_pos [10%N] in
    Some (edited (push_undo b (InsertChar insert_pos 10)), mkWin (S (cursor_row w)) 0 (primary w)).

Definition open_line_above b w : option (Buffer R Doc * Window) :=
  if read_only b then Some (b, w)
  else
    let? line_start := line_to_char (rope b) (cursor_row w) in
    let? r := insert (rope b) line_start [10%N] in
    let b := sync_insert (set_rope b r) line_start [10%N] in
    Some (edited (push_undo b (InsertChar line_start 10)), mkWin (cursor_row w) 0 (primary w)).

(** *** Undo and redo *)

Definition set_cursor_from_char_pos (r : R) w (pos : nat) : option Window :=
  let pos := Nat.min pos (len_chars r) in
  let? row := char_to_line r pos in
  let? line_start_byte := line_to_byte r row in
  let? byte := char_to_byte r pos in
  Some (mkWin row (byte - line_start_byte) (primary w)).

Fixpoint apply_undo_action (r : R) (w : Window) (a : EditAction) : option (R * Window) :=
  match a with
  | InsertChar pos _ =>
      let? r := remove r pos (pos + 1) in
      let? w := set_cursor_from_char_pos r w pos in Some (r, w)
  | DeleteChar pos ch =>
      let? r := insert r pos [ch] in
      let? w := set_cursor_from_char_pos r w (pos + 1) in Some (r, w)
  | InsertRange pos text =>
      let? r := remove r pos (pos + length text) in
      let? w := set_cursor_from_char_pos r w pos in Some (r, w)
  | DeleteRange pos text =>
      let? r := insert r pos text in
      let? w := set_cursor_from_char_pos r w pos in Some (r, w)
  | Group actions =>
      (fix rev (l : list EditAction) : option (R * Window) :=
         match l with
         | [] => Some (r, w)
         | a :: l' => let? (r, w) := rev l' in apply_undo_action r w a
         end) actions
  end.

Fixpoint apply_redo_action (r : R) (w : Window) (a : EditAction) : option (R * Window) :=
  match a with
  | InsertChar pos ch =>
      let? r := insert r pos [ch] in
      let? w := set_cursor_from_char_pos r w (pos + 1) in Some (r, w)
  | DeleteChar pos _ =>
      let? r := remove r pos (pos + 1) in
      let? w := set_cursor_from_char_pos r w pos in Some (r, w)
  | InsertRange pos text =>
      let? r := insert r pos text in
      let? w := set_cursor_from_char_pos r w (pos + length text) in Some (r, w)
  | DeleteRange pos text =>
      let? r := remove r pos (pos + length text) in
      let? w := set_cursor_from_char_pos r w pos in Some (r, w)
  | Group actions =>
      (fix fwd (l : list EditAction) (r : R) (w : Window) : option (R * Window) :=
         match l with
         | [] => Some (r, w)
         | a :: l' => let? (r, w) := apply_redo_action r w a in fwd l' r w
         end) actions r w
  end.

(** The tail of the CRDT branch of [undo] and [redo]. *)
Definition crdt_result b (w : Window) (d : Doc) (res : UndoResult) : option (Buffer R Doc * Window) :=
  let b := set_sync b (Some d) (pending_sync_updates b) in
  if negb (success res) then Some (b, w)
  else
    let b := set_rope b (sync_rope d) in
    let b := set_sync b (sync_doc b) (pending_sync_updates b ++ updates res) in
    let dirty := match saved_content_hash b with
                 | Some saved => negb (bool_decide (compute_content_hash (rope_chars (rope b)) = saved))
                 | None => true
                 end in
    let b := bump_generation (set_modified b dirty) in
    let? w := (match cursor_offset res with
               | Some offset => set_cursor_from_char_pos (rope b) w offset
               | None => Some w
               end) in
    let? w := clamp_cursor w b in
    Some (b, w).

(** Pop the last element of a [Vec]. *)
Definition pop {A} (s : list A) : option (list A * A) :=
  match last s with Some a => Some (removelast s, a) | None => None end.

(** [self.saved_undo_depth != Some(self.undo_stack.len())]. *)
Definition depth_dirty b : bool :=
  negb (bool_decide (saved_undo_depth b = Some (length (undo_stack b)))).

(** The branch of [undo] that replays the edit stack. *)
Definition undo_stack_step b w : option (Buffer R Doc * Window) :=
  match pop (undo_stack b) with
  | None => Some (b, w)
  | Some (rest, action) =>
      let? (r, w) := apply_undo_action (rope b) w action in
      let b := set_rope (set_stacks b rest (redo_stack b) (undo_group_acc b)) r in
      let b := sync_rebuild_from_rope b in
      let b := set_stacks b (undo_stack b) (redo_stack b ++ [action]) (undo_group_acc b) in
      let b := bump_generation (set_modified b (depth_dirty b)) in
      let? w := clamp_cursor w b in
      Some (b, w)
  end.

Definition undo b w : option (Buffer R Doc * Window) :=
  match sync_doc b with
  | Some d =>
      if sync_undo_mgr_active d
      then let '(d, res) := sync_undo d in crdt_result b w d res
      else undo_stack_step b w
  | None => undo_stack_step b w
  end.

Definition redo_stack_step b w : option (Buffer R Doc * Window) :=
  match pop (redo_stack b) with
  | None => Some (b, w)
  | Some (rest, action) =>
      let? (r, w) := apply_redo_action (rope b) w action in
      let b := set_rope (set_stacks b (undo_stack b) rest (undo_group_acc b)) r in
      let b := sync_rebuild_from_rope b in
      let b := push_undo b action in
      let b := bump_generation (set_modified b (depth_dirty b)) in
      let? w := clamp_cursor w b in
      Some (b, w)
  end.

Definition redo b w : option (Buffer R Doc * Window) :=
  match sync_doc b with
  | Some d =>
      if sync_undo_mgr_active d
      then let '(d, res) := sync_redo d in crdt_result b w d res
      else redo_stack_step b w
  | None => redo_stack_step b w
  end.

(** *** Replacing the text *)

(** [generation += 1] of [replace_rope] wraps in a release build. *)
Definition replace_rope b (r : R) : Buffer R Doc :=
  let b := bump_generation (sync_rebuild_from_rope (set_rope b r)) in
  set_stacks b [] [] (undo_group_acc b).

Definition replace_contents b (text : list N) : Buffer R Doc :=
  let b := bump_generation (sync_rebuild_from_rope (set_rope b (from_str text))) in
  set_stacks b [] [] (undo_group_acc b).

(** [reload_from_disk], once the content has been read. *)
Definition reload b (content : list N) : Buffer R Doc :=
  let b := set_saved b (saved_undo_depth b) (saved_content_hash b) (Some (compute_content_hash content)) in
  let b := bump_generation (sync_rebuild_from_rope (set_rope b (from_str content))) in
  let b := set_changed (set_modified b false) ∅ in
  let b := set_stacks b [] [] (undo_group_acc b) in
  set_saved b (Some 0) (saved_content_hash b) (content_hash b).

(** The part of [save] after the file has been written and renamed. *)
Definition saved b : Buffer R Doc :=
  let b := set_modified b false in
  let h := Some (compute_content_hash (rope_chars (rope b))) in
  set_saved b (Some (length (undo_stack b)))
    (match sync_doc b with Some _ => h | None => saved_content_hash b end) h.

End Ops.
