(* ===== verification/BufferHistory.v ===== *)
(** * BufferHistory: undo and redo invert the edits

    What an [EditAction] does to the text, the invariant that ties the two
    stacks of a buffer to its text, and the theorems on undo and redo for a
    buffer without a collaborative document. *)
From S2P Require Import Prelude Rope Grapheme Buffer.

(** ** The meaning of an action *)

(** [t'] is [t] with [s] inserted at [p]. *)
Definition splice (p : nat) (s t t' : list N) : Prop :=
  p <= length t /\ t' = take p t ++ s ++ drop p t.

(** Action [a] takes text [t] to [t']. *)
Fixpoint edits (a : EditAction) (t t' : list N) : Prop :=
  match a with
  | InsertChar p c => splice p [c] t t'
  | DeleteChar p c => splice p [c] t' t
  | InsertRange p s => splice p s t t'
  | DeleteRange p s => splice p s t' t
  | Group l =>
      (fix chain (l : list EditAction) (t : list N) : Prop :=
         match l with
         | [] => t = t'
         | a :: l' => exists u, edits a t u /\ chain l' u
         end) l t
  end.

(** The actions of [l], oldest first, take [t] to [t']. *)
Fixpoint chain (l : list EditAction) (t t' : list N) : Prop :=
  match l with
  | [] => t = t'
  | a :: l' => exists u, edits a t u /\ chain l' u t'
  end.

Lemma edits_group l t t' : edits (Group l) t t' <-> chain l t t'.
Proof.
  simpl. revert t. induction l as [|a l IH]; intros t; simpl; [done|].
  split; intros (u & Hu & Hc); exists u; split; try done; by apply IH.
Qed.

Lemma chain_snoc l a t t' : chain (l ++ [a]) t t' <-> exists u, chain l t u /\ edits a u t'.
Proof.
  revert t. induction l as [|x l IH]; intros t; simpl.
  - split; [intros (u & Hu & ->); by exists t|intros (u & -> & Hu); by exists t'].
  - split.
    + intros (u & Hu & (v & Hv & Ha)%IH). exists v. eauto.
    + intros (v & (u & Hu & Hv) & Ha). exists u. split; [done|]. apply IH. eauto.
Qed.

(** Induction over actions, with the hypothesis for the members of a group. *)
Lemma EditAction_nested_ind (P : EditAction -> Prop) :
  (forall p c, P (InsertChar p c)) -> (forall p c, P (DeleteChar p c)) ->
  (forall p s, P (InsertRange p s)) -> (forall p s, P (DeleteRange p s)) ->
  (forall l, Forall P l -> P (Group l)) -> forall a, P a.
Proof.
  intros H1 H2 H3 H4 H5. fix IH 1. intros [p c|p c|p s|p s|l]; [apply H1|apply H2|apply H3|apply H4|].
  apply H5. induction l as [|a l IHl]; constructor; auto.
Qed.

Section Replay.
Context {R Doc : Type} `{RopeLaws R, SyncDoc R Doc, ContentHash, SegmentationLaws}.
Implicit Types (r : R) (b : Buffer R Doc).

(** [rope.insert] succeeds exactly inside the text, and splices. *)
Lemma insert_total r p s :
  p <= length (rope_chars r) -> exists r', insert r p s = Some r' /\ splice p s (rope_chars r) (rope_chars r').
Proof.
  intros Hp. pose proof (rope_insert r p s) as Hi. rewrite (proj2 (Nat.leb_le _ _) Hp) in Hi.
  destruct (insert r p s) as [r'|]; [|done]. exists r'. simpl in Hi. by simplify_eq.
Qed.

Lemma insert_inv r p s r' : insert r p s = Some r' -> splice p s (rope_chars r) (rope_chars r').
Proof.
  intros E. pose proof (rope_insert r p s) as Hi. rewrite E in Hi. simpl in Hi.
  destruct (Nat.leb_spec p (length (rope_chars r))); [|done]. by simplify_eq.
Qed.

(** Removing what a splice put in gives the text back. *)
Lemma splice_undone p s t t' :
  splice p s t t' -> p + length s <= length t' /\ take p t' ++ drop (p + length s) t' = t.
Proof.
  intros [Hp ->]. rewrite !length_app, length_take, length_drop. split; [lia|].
  rewrite take_app_le by (rewrite length_take; lia). rewrite take_take, Nat.min_id.
  rewrite app_assoc, drop_app_ge by (rewrite length_app, length_take; lia).
  replace (p + length s - length (take p t ++ s)) with 0 by (rewrite length_app, length_take; lia).
  by rewrite drop_0, take_drop.
Qed.

Lemma remove_total r p s t :
  splice p s t (rope_chars r) -> exists r', remove r p (p + length s) = Some r' /\ rope_chars r' = t.
Proof.
  intros Hs. destruct (splice_undone _ _ _ _ Hs) as [Hle Ht].
  pose proof (rope_remove r p (p + length s)) as Hr.
  rewrite (proj2 (Nat.leb_le p _)), (proj2 (Nat.leb_le _ _) Hle) in Hr by lia. simpl in Hr.
  destruct (remove r p (p + length s)) as [r'|]; [|done]. exists r'. simpl in Hr. split; congruence.
Qed.

(** What was removed, spliced back, gives the text back. *)
Lemma remove_inv r p e s r' :
  slice r p e = Some s -> remove r p e = Some r' -> splice p s (rope_chars r') (rope_chars r).
Proof.
  rewrite rope_slice. intros Hs E. pose proof (rope_remove r p e) as Hr. rewrite E in Hr. simpl in Hr.
  destruct ((p <=? e) && (e <=? length (rope_chars r))) eqn:Hb; [|done].
  apply andb_true_iff in Hb as [Hpe%Nat.leb_le He%Nat.leb_le]. simplify_eq. rewrite Hr.
  assert (Hl : length (take p (rope_chars r)) = p) by (rewrite length_take; lia).
  split; [rewrite length_app; lia|]. rewrite take_app_le, take_take, Nat.min_id by lia.
  rewrite drop_app_ge, Hl, Nat.sub_diag, drop_0 by lia.
  rewrite app_assoc, <- (take_drop p (rope_chars r)) at 1. rewrite <- app_assoc. f_equal.
  rewrite <- (take_drop (e - p) (drop p (rope_chars r))) at 1. rewrite drop_drop. do 2 f_equal. lia.
Qed.

Lemma slice_char r p c : char_at r p = Some c -> slice r p (S p) = Some [c].
Proof.
  rewrite rope_char_at, rope_slice. intros Hc. pose proof (lookup_lt_Some _ _ _ Hc).
  rewrite !(proj2 (Nat.leb_le _ _)) by lia. cbn [andb]. f_equal.
  rewrite (drop_S _ c p Hc). by replace (S p - p) with 1 by lia.
Qed.

Lemma set_cursor_total r w p : is_Some (set_cursor_from_char_pos r w p).
Proof.
  unfold set_cursor_from_char_pos. rewrite rope_len_chars.
  set (q := Nat.min p (length (rope_chars r))).
  rewrite rope_char_to_line, rope_char_to_byte, (proj2 (Nat.leb_le _ _)) by lia.
  rewrite rope_line_to_byte.
  destruct (line_of_spec (split_lines (rope_chars r)) q) as (Hk & _ & _).
  { pose proof (split_lines_length (rope_chars r)). by destruct (split_lines (rope_chars r)); simpl in *; [lia|]. }
  rewrite (proj2 (Nat.leb_le _ _)) by lia. by eexists.
Qed.

(** *** Replaying an action on a rope *)

Definition replays (step : R -> Window -> EditAction -> option (R * Window))
    (rel : EditAction -> list N -> list N -> Prop) (a : EditAction) : Prop :=
  forall r w t, rel a (rope_chars r) t ->
    exists r' w', step r w a = Some (r', w') /\ rope_chars r' = t.

Lemma cursor_after r w p : exists w', (let? w := set_cursor_from_char_pos r w p in Some (r, w)) = Some (r, w').
Proof. destruct (set_cursor_total r w p) as [w' ->]. by exists w'. Qed.

Lemma redo_replays a : replays apply_redo_action edits a.
Proof.
  induction a as [p c|p c|p s|p s|l IH] using EditAction_nested_ind; intros r w t Hr; cbn [apply_redo_action].
  - destruct (insert_total r p [c] (proj1 Hr)) as (r' & -> & Hs).
    destruct (cursor_after r' w (p + 1)) as [w' ->]. exists r', w'. split; [done|].
    destruct Hr as [_ ->], Hs as [_ ->]. done.
  - destruct (remove_total r p [c] t Hr) as (r' & E & Hs). simpl in E. rewrite E.
    destruct (cursor_after r' w p) as [w' ->]. by exists r', w'.
  - destruct (insert_total r p s (proj1 Hr)) as (r' & -> & Hs).
    destruct (cursor_after r' w (p + length s)) as [w' ->]. exists r', w'. split; [done|].
    destruct Hr as [_ ->], Hs as [_ ->]. done.
  - destruct (remove_total r p s t Hr) as (r' & -> & Hs).
    destruct (cursor_after r' w p) as [w' ->]. by exists r', w'.
  - apply edits_group in Hr. revert r w Hr. induction l as [|a l IHl]; intros r w Hr; simpl in Hr.
    + by exists r, w.
    + apply Forall_cons in IH as [IHa IH]. destruct Hr as (u & Hu & Hc).
      destruct (IHa r w u Hu) as (r1 & w1 & -> & <-). by apply IHl.
Qed.

Lemma undo_replays a : replays apply_undo_action (fun a t t' => edits a t' t) a.
Proof.
  induction a as [p c|p c|p s|p s|l IH] using EditAction_nested_ind; intros r w t Hr; cbn [apply_undo_action].
  - destruct (remove_total r p [c] t Hr) as (r' & E & Hs). simpl in E. rewrite E.
    destruct (cursor_after r' w p) as [w' ->]. by exists r', w'.
  - destruct (insert_total r p [c] (proj1 Hr)) as (r' & -> & Hs).
    destruct (cursor_after r' w (p + 1)) as [w' ->]. exists r', w'. split; [done|].
    destruct Hr as [_ ->], Hs as [_ ->]. done.
  - destruct (remove_total r p s t Hr) as (r' & -> & Hs).
    destruct (cursor_after r' w p) as [w' ->]. by exists r', w'.
  - destruct (insert_total r p s (proj1 Hr)) as (r' & -> & Hs).
    destruct (cursor_after r' w p) as [w' ->]. exists r', w'. split; [done|].
    destruct Hr as [_ ->], Hs as [_ ->]. done.
  - apply edits_group in Hr. revert t Hr. induction l as [|a l IHl]; intros t Hr; simpl in Hr.
    + exists r, w. by subst.
    + apply Forall_cons in IH as [IHa IH]. destruct Hr as (u & Hu & Hc).
      destruct (IHl IH u Hc) as (r1 & w1 & -> & <-). by apply IHa.
Qed.

(** ** The history of a buffer *)

Definition text b : list N := rope_chars (rope b).

(** The actions since the oldest one remembered: the stack, then the group
    that is being accumulated. *)
Definition full_history b : list EditAction := undo_stack b ++ default [] (undo_group_acc b).

(** The actions [us], newest first, lead to [t]. *)
Fixpoint undo_path (us : list EditAction) (t : list N) : Prop :=
  match us with [] => True | a :: us' => exists t0, edits a t0 t /\ undo_path us' t0 end.

(** The actions [rs], next first, can be redone from [t]. *)
Fixpoint redo_path (rs : list EditAction) (t : list N) : Prop :=
  match rs with [] => True | a :: rs' => exists t1, edits a t t1 /\ redo_path rs' t1 end.

(** The invariant: both stacks are paths of the current text. *)
Record history_ok b : Prop := {
  ho_sync : sync_doc b = None;
  ho_undo : undo_path (reverse (full_history b)) (text b);
  ho_redo : redo_path (reverse (redo_stack b)) (text b);
}.

(** [b'] is [b] after one recorded edit [a]. *)
Record records b (a : EditAction) b' : Prop := {
  rec_edits : edits a (text b) (text b');
  rec_undo : undo_stack b' = undo_stack (push_undo b a);
  rec_acc : undo_group_acc b' = undo_group_acc (push_undo b a);
  rec_redo : redo_stack b' = [];
  rec_sync : sync_doc b' = sync_doc b;
  rec_modified : modified b' = true;
  rec_saved : saved_undo_depth b' = saved_undo_depth b;
}.

Lemma sync_insert_none b p s : sync_doc b = None -> sync_insert b p s = b.
Proof. unfold sync_insert. by intros ->. Qed.
Lemma sync_delete_none b p n : sync_doc b = None -> sync_delete b p n = b.
Proof. unfold sync_delete. by intros ->. Qed.
Lemma sync_rebuild_none b : sync_doc b = None -> sync_rebuild_from_rope b = b.
Proof. unfold sync_rebuild_from_rope. by intros ->. Qed.

(** The shape every recorded edit has, whatever lines it marks. *)
Lemma records_intro b r a x :
  edits a (text b) (rope_chars r) -> sync_doc b = None ->
  records b a (edited (set_changed (push_undo (set_rope b r) a) x)).
Proof. intros Ha Hs. unfold push_undo, text. by split; unfold push_undo; simpl; destruct (undo_group_acc b). Qed.

Lemma records_insert b p s r x a :
  sync_doc b = None -> insert (rope b) p s = Some r ->
  (forall t t', splice p s t t' -> edits a t t') ->
  records b a (edited (set_changed (push_undo (sync_insert (set_rope b r) p s) a) x)).
Proof. intros Hs Hi Ha. rewrite sync_insert_none by done. apply records_intro; [|done]. by apply Ha, insert_inv. Qed.

Lemma records_delete b p e s r x n a :
  sync_doc b = None -> slice (rope b) p e = Some s -> remove (rope b) p e = Some r ->
  (forall t t', splice p s t t' -> edits a t' t) ->
  records b a (edited (set_changed (push_undo (sync_delete (set_rope b r) p n) a) x)).
Proof.
  intros Hs Hsl Hr Ha. rewrite sync_delete_none by done. apply records_intro; [|done].
  apply Ha. by eapply remove_inv.
Qed.

Lemma set_changed_id b : set_changed b (changed_lines b) = b.
Proof. by destruct b. Qed.

(** Every editing operation of the buffer, as a relation. *)
Inductive edit_op b w : Buffer R Doc -> Prop :=
  | op_insert_char ch b' w' : insert_char b w ch = Some (b', w') -> edit_op b w b'
  | op_delete_char_backward b' w' : delete_char_backward b w = Some (b', w') -> edit_op b w b'
  | op_delete_char_forward b' w' : delete_char_forward b w = Some (b', w') -> edit_op b w b'
  | op_delete_line b' w' s : delete_line b w = Some (b', w', s) -> edit_op b w b'
  | op_delete_word_backward b' w' : delete_word_backward b w = Some (b', w') -> edit_op b w b'
  | op_delete_to_line_start b' w' : delete_to_line_start b w = Some (b', w') -> edit_op b w b'
  | op_delete_to_line_end b' w' : delete_to_line_end b w = Some (b', w') -> edit_op b w b'
  | op_insert_text_at p s b' : insert_text_at b p s = Some b' -> edit_op b w b'
  | op_delete_range p e b' : delete_range b p e = Some b' -> edit_op b w b'
  | op_open_line_below b' w' : open_line_below b w = Some (b', w') -> edit_op b w b'
  | op_open_line_above b' w' : open_line_above b w = Some (b', w') -> edit_op b w b'.

Ltac with_changed :=
  match goal with |- records _ _ (edited (push_undo ?x ?a)) =>
    rewrite <- (set_changed_id (push_undo x a)) end.

Lemma insert_char_records b w ch b' w' :
  sync_doc b = None -> insert_char b w ch = Some (b', w') -> b' = b \/ exists a, records b a b'.
Proof.
  intros Hs He. unfold insert_char in He. op_cases He; [by left|right..].
  all: eexists; by eapply (records_insert b _ [_]).
Qed.

Lemma delete_char_records b p ch r x :
  sync_doc b = None -> char_at (rope b) p = Some ch -> remove (rope b) p (S p) = Some r ->
  records b (DeleteChar p ch)
    (edited (set_changed (push_undo (sync_delete (set_rope b r) p 1) (DeleteChar p ch)) x)).
Proof. intros Hs Hc Hr. eapply records_delete; [done|by apply slice_char|done|done]. Qed.

Lemma delete_char_backward_records b w b' w' :
  sync_doc b = None -> delete_char_backward b w = Some (b', w') -> b' = b \/ exists a, records b a b'.
Proof.
  intros Hs He. unfold delete_char_backward in He. op_cases He; try (by left).
  all: right; eexists; by eapply delete_char_records.
Qed.

Lemma delete_char_forward_records b w b' w' :
  sync_doc b = None -> delete_char_forward b w = Some (b', w') -> b' = b \/ exists a, records b a b'.
Proof.
  intros Hs He. unfold delete_char_forward in He. op_cases He; try (by left).
  all: right; eexists; rewrite Nat.add_1_r in *; by eapply delete_char_records.
Qed.

(** The remaining operations delete a slice or insert a string. *)
Ltac range_op H :=
  op_cases H; try (by left); right; eexists; try with_changed;
  first [by eapply records_delete | by eapply records_insert].

Lemma delete_line_records b w b' w' s :
  sync_doc b = None -> delete_line b w = Some (b', w', s) -> b' = b \/ exists a, records b a b'.
Proof. intros Hs He. unfold delete_line in He. range_op He. Qed.

Lemma delete_word_backward_records b w b' w' :
  sync_doc b = None -> delete_word_backward b w = Some (b', w') -> b' = b \/ exists a, records b a b'.
Proof. intros Hs He. unfold delete_word_backward in He. range_op He. Qed.

Lemma delete_to_line_start_records b w b' w' :
  sync_doc b = None -> delete_to_line_start b w = Some (b', w') -> b' = b \/ exists a, records b a b'.
Proof. intros Hs He. unfold delete_to_line_start in He. range_op He. Qed.

Lemma delete_to_line_end_records b w b' w' :
  sync_doc b = None -> delete_to_line_end b w = Some (b', w') -> b' = b \/ exists a, records b a b'.
Proof. intros Hs He. unfold delete_to_line_end in He. range_op He. Qed.

Lemma delete_range_records b p e b' :
  sync_doc b = None -> delete_range b p e = Some b' -> b' = b \/ exists a, records b a b'.
Proof.
  intros Hs He. unfold delete_range in He. op_cases He; try (by left). right. eexists.
  unfold mark_changed. rewrite sync_delete_none by done.
  match goal with |- records _ ?a (edited (push_undo (set_changed ?x ?c) ?a')) =>
    replace (push_undo (set_changed x c) a') with (set_changed (push_undo x a') c)
      by (unfold push_undo; simpl; by destruct (undo_group_acc b)) end.
  apply records_intro; [|done]. simpl. by eapply remove_inv.
Qed.

Lemma insert_text_at_records b p s b' :
  sync_doc b = None -> insert_text_at b p s = Some b' -> b' = b \/ exists a, records b a b'.
Proof.
  intros Hs He. unfold insert_text_at in He. destruct (read_only b); [left; by simplify_eq|].
  destruct (char_to_line _ _); [|done]. destruct (insert (rope b) _ s) as [r|] eqn:Ei; [|done].
  rewrite sync_insert_none in He by done. destruct (char_to_line _ _); [|done]. simplify_eq. right. eexists.
  match goal with |- records _ ?a (edited (push_undo (set_changed ?x ?c) ?a')) =>
    replace (push_undo (set_changed x c) a') with (set_changed (push_undo x a') c)
      by (unfold push_undo; simpl; by destruct (undo_group_acc b)) end.
  apply records_intro; [|done]. simpl. by apply insert_inv.
Qed.

Lemma open_line_below_records b w b' w' :
  sync_doc b = None -> open_line_below b w = Some (b', w') -> b' = b \/ exists a, records b a b'.
Proof. intros Hs He. unfold open_line_below in He. range_op He. Qed.

Lemma open_line_above_records b w b' w' :
  sync_doc b = None -> open_line_above b w = Some (b', w') -> b' = b \/ exists a, records b a b'.
Proof. intros Hs He. unfold open_line_above in He. range_op He. Qed.

(** Every operation changes nothing or records exactly what it did. *)
Lemma edit_op_records b w b' :
  sync_doc b = None -> edit_op b w b' -> b' = b \/ exists a, records b a b'.
Proof.
  intros Hs. destruct 1.
  - by eapply insert_char_records.
  - by eapply delete_char_backward_records.
  - by eapply delete_char_forward_records.
  - by eapply delete_line_records.
  - by eapply delete_word_backward_records.
  - by eapply delete_to_line_start_records.
  - by eapply delete_to_line_end_records.
  - by eapply insert_text_at_records.
  - by eapply delete_range_records.
  - by eapply open_line_below_records.
  - by eapply open_line_above_records.
Qed.

(** *** The invariant is preserved *)

Lemma undo_path_prefix us1 us2 t : undo_path (us1 ++ us2) t -> undo_path us1 t.
Proof. revert t. induction us1 as [|a us IH]; intros t; simpl; [done|]. intros (t0 & ? & ?). eauto. Qed.

Lemma undo_path_drop n s t : undo_path (reverse s) t -> undo_path (reverse (drop n s)) t.
Proof. rewrite <- (take_drop n s) at 1. rewrite reverse_app. apply undo_path_prefix. Qed.

(** A group on top of the stack is the accumulated actions on top of it. *)
Lemma undo_path_group acc us t :
  undo_path (reverse acc ++ us) t <-> exists t0, chain acc t0 t /\ undo_path us t0.
Proof.
  revert t. induction acc as [|a acc IH] using rev_ind; intros t.
  - simpl. split; [intros; by exists t|by intros (t0 & -> & ?)].
  - rewrite reverse_snoc. simpl. setoid_rewrite chain_snoc. split.
    + intros (u & Hu & (t0 & Hc & Hp)%IH). exists t0. split; [by exists u|done].
    + intros (t0 & (u & Hc & Hu) & Hp). exists u. split; [done|]. apply IH. by exists t0.
Qed.

Lemma push_undo_path b a t :
  undo_path (reverse (full_history b)) (text b) -> edits a (text b) t ->
  undo_path (reverse (full_history (push_undo b a))) t.
Proof.
  intros Hp Ha. unfold push_undo, full_history in *. destruct (undo_group_acc b) as [g|]; simpl in *.
  - rewrite app_assoc, reverse_snoc. simpl. by exists (text b).
  - rewrite app_nil_r in *.
    assert (Hs : undo_path (reverse (undo_stack b ++ [a])) t) by (rewrite reverse_snoc; simpl; by exists (text b)).
    destruct (_ <? _); [by apply undo_path_drop|done].
Qed.

Lemma records_history b a b' : history_ok b -> records b a b' -> history_ok b'.
Proof.
  intros [Hs Hu Hr] [He Eu Ea Er Es _ _]. split; [by rewrite Es| |by rewrite Er].
  pose proof (push_undo_path b a (text b') Hu He) as Hp. unfold full_history in *. by rewrite Eu, Ea.
Qed.

Lemma begin_undo_group_history b :
  undo_group_acc b = None -> history_ok b -> history_ok (begin_undo_group b).
Proof.
  intros Ha [Hs Hu Hr]. split; [done| |done]. unfold full_history in *. simpl. by rewrite Ha in Hu.
Qed.

Lemma end_undo_group_history b : history_ok b -> history_ok (end_undo_group b).
Proof.
  intros [Hs Hu Hr]. unfold end_undo_group, sync_undo_boundary.
  destruct (undo_group_acc b) as [acc|] eqn:Ea; [|rewrite Hs; by split].
  simpl. rewrite Hs. split; [done| |done]. unfold full_history in *. rewrite Ea in Hu. simpl in *.
  rewrite app_nil_r. destruct acc as [|a1 [|a2 acc]]; [by rewrite app_nil_r in Hu|done|].
  rewrite reverse_app, undo_path_group in Hu. destruct Hu as (t0 & Hc & Hp).
  rewrite reverse_snoc. cbn [undo_path]. exists t0. by rewrite edits_group.
Qed.

Lemma last_snoc_pop {A} (s : list A) a : pop (s ++ [a]) = Some (s, a).
Proof. unfold pop. by rewrite last_snoc, removelast_last. Qed.

Lemma line_count_pos b : 1 <= line_count b.
Proof. unfold line_count. rewrite rope_len_lines. apply split_lines_length. Qed.

Lemma clamped_row_lt b row : clamped_row b row < line_count b.
Proof.
  pose proof (line_count_pos b). unfold clamped_row. cbn zeta.
  match goal with |- context [_ <? ?x] => destruct (Nat.ltb_spec (line_count b - 1) x) end; lia.
Qed.

(** A line exists for every row below the line count. *)
Lemma line_lt b row : row < line_count b -> exists s, line (rope b) row = Some s.
Proof. unfold line_count. rewrite rope_len_lines, rope_line. apply lookup_lt_is_Some_2. Qed.

(** [clamp_cursor] never panics; where it puts the cursor. *)
Lemma clamp_cursor_alt w b : exists len txt,
  line_byte_len b (clamped_row b (cursor_row w)) = Some len /\
  line_text_no_newline b (clamped_row b (cursor_row w)) = Some txt /\
  clamp_cursor w b = Some (sync_primary (mkWin (clamped_row b (cursor_row w))
    (if len <? cursor_col w then len
     else if 0 <? cursor_col w then snap_to_grapheme_boundary txt (cursor_col w) else cursor_col w)
    (primary w))).
Proof.
  pose proof (clamped_row_lt b (cursor_row w)) as Hlt. destruct (line_lt b _ Hlt) as [s Hs].
  unfold clamp_cursor, line_byte_len, snap_col_to_grapheme, line_text_no_newline.
  change (len_lines (rope b)) with (line_count b).
  rewrite bool_decide_eq_false_2 by (pose proof (line_count_pos b); lia). cbn zeta.
  rewrite (proj2 (Nat.leb_gt _ _) Hlt), Hs.
  destruct (last s); eexists _, _; (split_and!; [done|done|]); by repeat case_match; simplify_eq.
Qed.

Lemma clamp_cursor_total w b : is_Some (clamp_cursor w b).
Proof. destruct (clamp_cursor_alt w b) as (? & ? & _ & _ & ->). by eexists. Qed.

(** One undo: the stack top is undone and moved to the redo stack. *)
Lemma undo_step b w s a t0 :
  history_ok b -> undo_stack b = s ++ [a] -> edits a t0 (text b) ->
  exists b' w', undo b w = Some (b', w') /\ text b' = t0 /\ undo_stack b' = s /\
    redo_stack b' = redo_stack b ++ [a] /\ undo_group_acc b' = undo_group_acc b /\
    sync_doc b' = None /\ saved_undo_depth b' = saved_undo_depth b /\
    modified b' = negb (bool_decide (saved_undo_depth b = Some (length s))).
Proof.
  intros [Hs _ _] Hu Ha. unfold undo, undo_stack_step. rewrite Hs, Hu, last_snoc_pop.
  destruct (undo_replays a (rope b) w t0 Ha) as (r & w1 & -> & Hr).
  rewrite sync_rebuild_none by done. simpl.
  match goal with |- context [clamp_cursor w1 ?x] => destruct (clamp_cursor_total w1 x) as [w' ->] end.
  eexists _, w'. by split_and!.
Qed.

(** One redo: the next action is redone and recorded again. *)
Lemma redo_step b w s a t1 :
  history_ok b -> undo_group_acc b = None -> redo_stack b = s ++ [a] -> edits a (text b) t1 ->
  exists b' w', redo b w = Some (b', w') /\ text b' = t1 /\ redo_stack b' = s /\
    undo_stack b' = undo_stack (push_undo b a) /\ undo_group_acc b' = None /\ sync_doc b' = None /\
    modified b' = negb (bool_decide (saved_undo_depth b = Some (length (undo_stack b')))).
Proof.
  intros [Hs _ _] Hg Hu Ha. unfold redo, redo_stack_step. rewrite Hs, Hu, last_snoc_pop.
  destruct (redo_replays a (rope b) w t1 Ha) as (r & w1 & -> & Hr).
  rewrite sync_rebuild_none by done. unfold push_undo. simpl. rewrite Hg. simpl.
  match goal with |- context [clamp_cursor w1 ?x] => destruct (clamp_cursor_total w1 x) as [w' ->] end.
  eexists _, w'. by split_and!.
Qed.

(** *** The buffer as a transition system *)

(** Everything that changes a buffer without a collaborative document. Undo,
    redo and replacing the text happen outside an undo group, and groups do
    not nest, as in the editor's commands. *)
Inductive step b : Buffer R Doc -> Prop :=
  | step_edit w b' : edit_op b w b' -> step b b'
  | step_undo w b' w' : undo_group_acc b = None -> undo b w = Some (b', w') -> step b b'
  | step_redo w b' w' : undo_group_acc b = None -> redo b w = Some (b', w') -> step b b'
  | step_begin : undo_group_acc b = None -> step b (begin_undo_group b)
  | step_end : step b (end_undo_group b)
  | step_saved : step b (saved b)
  | step_reload content : undo_group_acc b = None -> step b (reload b content)
  | step_replace_rope r : undo_group_acc b = None -> step b (replace_rope b r)
  | step_replace_contents s : undo_group_acc b = None -> step b (replace_contents b s)
  | step_toggle_fold ln ranges : step b (toggle_fold_at b ln ranges)
  | step_fold_all ranges : step b (fold_all b ranges)
  | step_unfold_all : step b (unfold_all b)
  | step_narrow start end_ : step b (narrow_to b start end_)
  | step_widen : step b (widen b).

Lemma history_same b b' :
  history_ok b -> rope b' = rope b -> undo_stack b' = undo_stack b -> redo_stack b' = redo_stack b ->
  undo_group_acc b' = undo_group_acc b -> sync_doc b' = sync_doc b -> history_ok b'.
Proof.
  intros [Hs Hu Hr] Er Eu Ed Ea Es. split; unfold full_history, text in *.
  - by rewrite Es.
  - by rewrite Eu, Ea, Er.
  - by rewrite Ed, Er.
Qed.

(** An emptied history is trivially one of the current text. *)
Lemma history_cleared b :
  sync_doc b = None -> undo_stack b = [] -> redo_stack b = [] -> undo_group_acc b = None -> history_ok b.
Proof. intros Hs Hu Hr Ha. split; [done| |by rewrite Hr]. unfold full_history. by rewrite Hu, Ha. Qed.

Lemma undo_history b w b' w' :
  undo_group_acc b = None -> undo b w = Some (b', w') -> history_ok b -> history_ok b'.
Proof.
  intros Ha He Hok. destruct (undo_stack b) as [|a s _] eqn:Es using rev_ind.
  { destruct Hok as [Hs Hu Hr]. unfold undo, undo_stack_step in He. rewrite Hs, Es in He. simpl in He. simplify_eq. by split. }
  pose proof (ho_undo b Hok) as Hu. unfold full_history in Hu. rewrite Ha, Es, app_nil_r, reverse_snoc in Hu.
  destruct Hu as (t0 & Ht0 & Hp).
  destruct (undo_step b w s a t0 Hok Es Ht0) as (b2 & w2 & E & Et & Eu & Er & Eg & Esy & _).
  rewrite He in E. injection E as <- <-.
  split; [done| |].
  - unfold full_history. by rewrite Eu, Eg, Ha, Et, app_nil_r.
  - rewrite Er, reverse_snoc. cbn [redo_path]. exists (text b). rewrite Et. split; [done|apply Hok].
Qed.

Lemma redo_history b w b' w' :
  undo_group_acc b = None -> redo b w = Some (b', w') -> history_ok b -> history_ok b'.
Proof.
  intros Ha He Hok. destruct (redo_stack b) as [|a s _] eqn:Es using rev_ind.
  { destruct Hok as [Hs Hu Hr]. unfold redo, redo_stack_step in He. rewrite Hs, Es in He. simpl in He. simplify_eq. by split. }
  pose proof (ho_redo b Hok) as Hr. rewrite Es, reverse_snoc in Hr. destruct Hr as (t1 & Ht1 & Hp).
  destruct (redo_step b w s a t1 Hok Ha Es Ht1) as (b2 & w2 & E & Et & Er & Eu & Eg & Esy & _).
  rewrite He in E. injection E as <- <-.
  split; [done| |by rewrite Er, Et].
  rewrite <- Et in Ht1. pose proof (push_undo_path b a (text b') (ho_undo b Hok) Ht1) as Hpp.
  unfold full_history in *. rewrite Eu, Eg. unfold push_undo in *. by rewrite Ha in *.
Qed.

Lemma step_history b b' : step b b' -> history_ok b -> history_ok b'.
Proof.
  destruct 1; intros Hok.
  - match goal with He : edit_op _ _ _ |- _ =>
      destruct (edit_op_records _ _ _ (ho_sync b Hok) He) as [->|[a Ha]] end;
      [done|by eapply records_history].
  - by eapply undo_history.
  - by eapply redo_history.
  - by apply begin_undo_group_history.
  - by apply end_undo_group_history.
  - by apply (history_same b).
  - apply history_cleared; unfold reload; simpl; by rewrite ?sync_rebuild_none by apply Hok; simpl; try apply Hok.
  - apply history_cleared; unfold replace_rope; simpl; by rewrite ?sync_rebuild_none by apply Hok; simpl; try apply Hok.
  - apply history_cleared; unfold replace_contents; simpl; by rewrite ?sync_rebuild_none by apply Hok; simpl; try apply Hok.
  - unfold toggle_fold_at. repeat case_match; by apply (history_same b).
  - by apply (history_same b).
  - by apply (history_same b).
  - unfold narrow_to. case_match; by apply (history_same b).
  - by apply (history_same b).
Qed.

(** The edits between [begin_undo_group] and [end_undo_group]. *)
Definition edit b b' : Prop := exists w, edit_op b w b'.

Lemma group_accumulates b b' acc :
  sync_doc b = None -> undo_group_acc b = Some acc -> rtc edit b b' -> exists more,
    undo_group_acc b' = Some (acc ++ more) /\ chain more (text b) (text b') /\
    undo_stack b' = undo_stack b /\ sync_doc b' = None.
Proof.
  intros Hs Ha Hr. revert acc Hs Ha. induction Hr as [b|b b1 b' [w He] Hr IH]; intros acc Hs Ha.
  { exists []. by rewrite app_nil_r. }
  destruct (edit_op_records b w b1 Hs He) as [->|[a [Hed Eu Ea _ Es _ _]]]; [by apply IH|].
  unfold push_undo in Eu, Ea. rewrite Ha in Eu, Ea. simpl in Eu, Ea.
  destruct (IH (acc ++ [a])) as (more & Em & Hc & Eu' & Es'); [by rewrite Es|done|].
  exists (a :: more). rewrite Em, <- app_assoc. split_and!; [done| |by rewrite Eu'|done].
  simpl. by exists (text b1).
Qed.

Lemma push_undo_snoc b a : undo_group_acc b = None -> exists s, undo_stack (push_undo b a) = s ++ [a].
Proof.
  intros Ha. unfold push_undo. rewrite Ha. simpl. case_match; [|by eexists].
  rewrite length_app, drop_app_le by (unfold MAX_UNDO_ENTRIES; simpl length; lia). by eexists.
Qed.

(** ** Properties *)



(** An undo group is atomic: however many edits happen between
    [begin_undo_group] and [end_undo_group], one undo afterwards returns and
    restores the text from before the group. *)
Theorem undo_group_is_atomic b b1 w :
  history_ok b -> undo_group_acc b = None -> rtc edit (begin_undo_group b) b1 ->
  text b1 <> text b ->
  exists b2 w2, undo (end_undo_group b1) w = Some (b2, w2) /\ text b2 = text b.
Proof.
  intros Hok Ha Hr Hne.
  destruct (group_accumulates (begin_undo_group b) b1 [] (ho_sync b Hok) eq_refl Hr)
    as (more & Em & Hc & Eu & Es). simpl in Em, Eu. change (text (begin_undo_group b)) with (text b) in Hc.
  set (a := match more with [x] => x | _ => Group more end).
  assert (Hend : history_ok (end_undo_group b1) /\ undo_stack (end_undo_group b1) = undo_stack b ++ [a] /\
    text (end_undo_group b1) = text b1 /\ edits a (text b) (text b1)).
  { unfold end_undo_group, sync_undo_boundary. rewrite Em. simpl. rewrite Es, Eu.
    split_and!; [|by destruct more as [|? [|? ?]]; simpl in *; [congruence|..]|done|].
    - split; [done| |done]. unfold full_history. simpl. rewrite app_nil_r.
      pose proof (ho_undo b Hok) as Hu. unfold full_history in Hu. rewrite Ha, app_nil_r in Hu.
      destruct more as [|x [|y more]]; [by simpl in Hc; congruence| |].
      + destruct Hc as (u & Hx & Hu'). simpl in Hu'. subst u. rewrite reverse_snoc. cbn [undo_path].
        by exists (text b).
      + rewrite reverse_snoc. cbn [undo_path]. exists (text b). by rewrite edits_group.
    - unfold a. destruct more as [|x [|y more]]; [by simpl in Hc; congruence| |by rewrite edits_group].
      destruct Hc as (u & Hx & Hu'). simpl in Hu'. by subst u. }
  destruct Hend as (Hok' & Eu' & Et' & Hed).
  destruct (undo_step (end_undo_group b1) w (undo_stack b) a (text b) Hok' Eu') as (b2 & w2 & E2 & Et2 & _);
    [by rewrite Et'|]. by exists b2, w2.
Qed.

End Replay.

(** ** Witnesses and counterexamples *)

(** Plain buffers: lists as ropes, no collaborative document. *)
Module PlainBuffer.
#[export] Existing Instance ListRope.list_rope.
#[export] Existing Instance ListRope.list_rope_laws.
#[export] Existing Instance ToySegmentation.toy_segmentation.
#[export] Existing Instance ToySegmentation.toy_segmentation_laws.
#[export] Instance no_sync : SyncDoc (list N) unit := {|
  sync_rope _ := [];
  sync_set_cursor_offset d _ := d;
  sync_doc_insert d _ _ := (d, "");
  sync_doc_delete d _ _ := (d, "");
  sync_reconcile_to d _ := (d, "");
  sync_undo_mgr_active _ := false;
  sync_undo d := (d, mkUndoResult false [] None);
  sync_redo d := (d, mkUndoResult false [] None);
  sync_undo_reset d := d;
  sync_encode_state _ := "";
  sync_apply_update d _ := (d, false);
  sync_apply_update_with_edit d _ := (d, None);
  sync_with_client_id _ _ := ();
  sync_from_state _ _ := None;
  sync_enable_undo d := d;
|}.
#[export] Instance no_hash : ContentHash := {| compute_content_hash _ := "" |}.

Definition buffer := Buffer (list N) unit.
Definition home : Window := mkWin 0 0 (0, 0).
Definition file (s : string) : buffer := from_content (ListRope.ascii_text s).

(** A sequence of commands on a buffer and its window. *)
Definition command := buffer -> Window -> option (buffer * Window).
Fixpoint run_commands (cs : list command) (b : buffer) (w : Window) : option (buffer * Window) :=
  match cs with
  | [] => Some (b, w)
  | c :: cs' => let? (b, w) := c b w in run_commands cs' b w
  end.
Definition type_char (c : N) : command := fun b w => insert_char b w c.
Definition plain (f : buffer -> buffer) : command := fun b w => Some (f b, w).
End PlainBuffer.

Module HistoryWitnesses.
Import PlainBuffer.



Lemma undo_group_is_atomic_witness :
  exists b1 : buffer, rtc edit (begin_undo_group (file "ab")) b1 /\ text b1 = ListRope.ascii_text "xyab" /\
    exists b2 w2, undo (end_undo_group b1) home = Some (b2, w2) /\ text b2 = text (file "ab").
Proof.
  destruct (insert_char (begin_undo_group (file "ab")) home 120) as [[b1 w1]|] eqn:E1; [|by vm_compute in E1].
  destruct (insert_char b1 w1 121) as [[b2 w2]|] eqn:E2.
  2: { vm_compute in E1. injection E1 as <- <-. by vm_compute in E2. }
  assert (Ht : text b2 = ListRope.ascii_text "xyab").
  { vm_compute in E1. injection E1 as <- <-. vm_compute in E2. by injection E2 as <- <-. }
  assert (Hr : rtc edit (begin_undo_group (file "ab")) b2).
  { eapply rtc_l; [eexists; by eapply op_insert_char|]. apply rtc_once. eexists. by eapply op_insert_char. }
  exists b2. split_and!; [done|done|].
  apply undo_group_is_atomic; [by apply history_cleared|done|done|by rewrite Ht].
Defined.
End HistoryWitnesses.

Module HistoryCounterexamples.
Import PlainBuffer.

(** The saved depth does not identify the saved text: after undoing below
    the save point and typing something else, an undo that brings the stack
    back to the saved depth marks a buffer that differs from the file as
    unmodified. *)
Theorem undo_marks_diverged_buffer_clean :
  exists b w, run_commands [type_char 120; plain saved; undo; type_char 121; type_char 122; undo]
      (file "ab") home = Some (b, w) /\
    modified b = false /\ text b = ListRope.ascii_text "yab" /\
    (exists bs ws, run_commands [type_char 120; plain saved] (file "ab") home = Some (bs, ws) /\
       text bs = ListRope.ascii_text "xab").
Proof. vm_compute. by repeat esplit. Qed.

(** Recovering a file's text from the swap file leaves the saved depth in
    place: one edit and its undo then mark the recovered, unsaved text as
    unmodified. *)
Theorem recovered_buffer_becomes_clean :
  exists b w, run_commands [plain (fun b => replace_rope b (ListRope.ascii_text "recovered"));
      type_char 120; undo] (file "ab") home = Some (b, w) /\
    modified b = false /\ text b = ListRope.ascii_text "recovered".
Proof. vm_compute. by repeat esplit. Qed.

(** Undo groups do not nest: a second [begin_undo_group] forgets the edits
    accumulated so far, and a later undo of an older entry then removes the
    wrong text. *)
Theorem nested_group_loses_edits :
  exists b w, run_commands [type_char 120; plain begin_undo_group; fun b _ => insert_char b home 121;
      plain begin_undo_group; plain end_undo_group; undo] (file "") home = Some (b, w) /\
    text b = ListRope.ascii_text "x".
Proof. vm_compute. by repeat esplit. Qed.
End HistoryCounterexamples.
