(* ===== verification/BufferCursor.v ===== *)
(** * BufferCursor: cursor columns, offsets and clamping

    The conversions between character offsets and (row, byte column) pairs are
    inverse, and [clamp_cursor] leaves the cursor on an existing line, inside
    the narrowed range and on a grapheme-cluster boundary. *)
From S2P Require Import Prelude Rope Grapheme Buffer BufferHistory.

(** ** Lines and prefixes of a text *)

Lemma concat_take_prefix (s : list N) k :
  concat (take k (split_lines s)) = take (length (concat (take k (split_lines s)))) s.
Proof.
  rewrite <- (split_lines_concat s) at 3. rewrite <- (take_drop k (split_lines s)) at 3.
  by rewrite concat_app, take_app_length.
Qed.

Lemma concat_take_S (ls : list (list N)) k ln :
  ls !! k = Some ln -> concat (take (S k) ls) = concat (take k ls) ++ ln.
Proof. intros Hk. rewrite (take_S_r _ _ _ Hk), concat_app. simpl. by rewrite app_nil_r. Qed.

(** Position [i] of line [k], in bytes: between the line's start and its end. *)
Lemma line_bytes (s : list N) i ln :
  i <= length s -> let k := line_of (split_lines s) length i in
  split_lines s !! k = Some ln ->
  byte_len (concat (take k (split_lines s))) <= byte_len (take i s) /\
  byte_len (take i s) <= byte_len (concat (take k (split_lines s))) + byte_len ln.
Proof.
  intros Hi k Hk. destruct (line_of_spec (split_lines s) i) as (Hlt & Hst & Hend).
  { destruct (split_lines_cons s) as (? & ? & ->). done. }
  fold k in Hlt, Hst, Hend. rewrite <- byte_len_app, <- (concat_take_S _ _ _ Hk).
  rewrite (concat_take_prefix s k), (concat_take_prefix s (S k)). split; [by apply byte_len_take_mono|].
  destruct (decide (S k < length (split_lines s))) as [Hd|Hd]; [apply byte_len_take_mono; specialize (Hend Hd); lia|].
  rewrite (take_ge (split_lines s) (S k)), split_lines_concat, (take_ge s (length s)) by lia.
  apply byte_len_take_le.
Qed.

Section Cursor.
Context {R Doc : Type} `{RopeLaws R, SyncDoc R Doc, ContentHash, SegmentationLaws}.
Implicit Types (b : Buffer R Doc).

Lemma clamped_row_narrowed b row ns ne :
  narrowed_range b = Some (ns, ne) -> ns < ne -> ne <= line_count b ->
  ns <= clamped_row b row /\ clamped_row b row < ne.
Proof.
  intros Hn H1' H2'. unfold clamped_row. rewrite Hn. cbn zeta.
  repeat ltb_case; lia.
Qed.

Lemma clamped_row_id b row : clamped_row b (clamped_row b row) = clamped_row b row.
Proof.
  unfold clamped_row. cbn zeta. destruct (narrowed_range b) as [[ns ne]|];
    repeat ltb_case; lia.
Qed.

(** ** Properties *)

(** An offset survives the trip to (row, byte column) and back: for every
    position of the text, [char_offset_at] inverts [row_col_from_offset]. *)
Theorem row_col_round_trip b offset :
  offset < len_chars (rope b) -> exists row col,
    row_col_from_offset b offset = Some (row, col) /\ char_offset_at b row col = Some offset.
Proof.
  rewrite rope_len_chars. intros Hoff. set (l := rope_chars (rope b)) in *.
  set (k := line_of (split_lines l) length offset).
  destruct (line_of_spec (split_lines l) offset) as (Hk & _ & _).
  { destruct (split_lines_cons l) as (? & ? & ->). done. }
  fold k in Hk. destruct (lookup_lt_is_Some_2 _ _ Hk) as [ln Hln].
  destruct (line_bytes l offset ln ltac:(lia) Hln) as [Hb1 Hb2]. fold k in Hb1, Hb2.
  pose proof (byte_len_take_le l offset) as Hb3.
  set (sb := byte_len (concat (take k (split_lines l)))) in *.
  exists k, (byte_len (take offset l) - sb). split.
  - unfold row_col_from_offset. rewrite rope_len_chars. fold l. rewrite Nat.min_l by lia.
    rewrite rope_char_to_line, rope_char_to_byte. fold l. rewrite (proj2 (Nat.leb_le _ _)) by lia. fold k.
    rewrite rope_line_to_byte. fold l. by rewrite (proj2 (Nat.leb_le _ _)) by lia.
  - assert (Hne : byte_len l <> 0).
    { destruct l as [|c l']; simpl in *; [lia|]. pose proof (char_len_pos c). lia. }
    unfold char_offset_at, byte_offset_at, floor_rope_byte, line_count.
    rewrite rope_len_chars, rope_len_bytes, rope_len_lines. fold l.
    rewrite !bool_decide_eq_false_2 by lia. rewrite (Nat.min_l k) by lia.
    rewrite rope_line_to_byte, rope_line. fold l. rewrite (proj2 (Nat.leb_le _ _)), Hln by lia. fold sb.
    replace (Nat.min (Nat.min (sb + (byte_len (take offset l) - sb)) (sb + byte_len ln)) (byte_len l))
      with (byte_len (take offset l)) by lia.
    rewrite Nat.min_l by lia. rewrite rope_byte_to_char. fold l.
    rewrite (proj2 (Nat.leb_le _ _)), chars_before_boundary by lia.
    rewrite rope_char_to_byte. fold l. rewrite (proj2 (Nat.leb_le _ _)) by lia.
    rewrite rope_byte_to_char. fold l. by rewrite (proj2 (Nat.leb_le _ _)), chars_before_boundary by lia.
Qed.

(** [clamp_cursor] never panics and leaves the cursor on an existing line,
    inside the narrowed range, with its column at most the line's length and,
    when the line does not end in a carriage return, on a cluster boundary of
    the line's text; clamping again then changes nothing. *)
Theorem clamp_cursor_establishes_bounds w b :
  exists w', clamp_cursor w b = Some w' /\ cursor_row w' < line_count b /\
    primary w' = (cursor_row w', cursor_col w') /\
    (forall ns ne, narrowed_range b = Some (ns, ne) -> ns < ne -> ne <= line_count b ->
       ns <= cursor_row w' /\ cursor_row w' < ne) /\
    exists len txt, line_byte_len b (cursor_row w') = Some len /\
      line_text_no_newline b (cursor_row w') = Some txt /\ cursor_col w' <= len /\
      (len = byte_len txt -> boundary txt (cursor_col w') /\ clamp_cursor w' b = Some w').
Proof.
  destruct (clamp_cursor_alt w b) as (len & txt & Hlen & Htxt & ->). eexists. split; [done|].
  cbn [sync_primary cursor_row cursor_col primary]. set (row := clamped_row b (cursor_row w)) in *.
  set (col := if len <? cursor_col w then len else _).
  assert (Hcol : col <= len).
  { unfold col. destruct (Nat.ltb_spec len (cursor_col w)), (Nat.ltb_spec 0 (cursor_col w)); try lia.
    destruct (snap_spec txt (cursor_col w)) as (_ & ? & _). lia. }
  split_and!; [apply clamped_row_lt|done|by apply clamped_row_narrowed|].
  exists len, txt. split_and!; [done|done|done|]. intros Heq.
  assert (Hb : boundary txt col).
  { unfold col. subst len. destruct (_ <? _); [apply boundary_end|]. destruct (Nat.ltb_spec 0 (cursor_col w)) as [|Hz].
    - apply snap_spec.
    - replace (cursor_col w) with 0 by lia. apply boundary_0. }
  split; [done|].
  destruct (clamp_cursor_alt (sync_primary (mkWin row col (primary w))) b) as (len' & txt' & Hlen' & Htxt' & ->).
  cbn [sync_primary cursor_row cursor_col primary] in *. unfold row in *. rewrite clamped_row_id in *.
  rewrite Hlen in Hlen'. injection Hlen' as <-. rewrite Htxt in Htxt'. injection Htxt' as <-.
  assert (Hfix : (if len <? col then len else if 0 <? col then snap_to_grapheme_boundary txt col else col) = col).
  { rewrite (proj2 (Nat.ltb_ge _ _)) by lia. destruct (Nat.ltb_spec 0 col); [|done].
    destruct (snap_spec txt col) as (_ & Hs1 & Hs2). specialize (Hs2 col Hb ltac:(lia)). lia. }
  by rewrite Hfix.
Qed.

End Cursor.

(** ** Witnesses and counterexamples *)

Module CursorWitnesses.
Import PlainBuffer.

(** Line two of a text with a two-byte character. *)
Lemma row_col_round_trip_witness :
  row_col_from_offset (from_content [97; 10; 233; 98]%N : buffer) 3 = Some (1, 2) /\
  exists row col, row_col_from_offset (from_content [97; 10; 233; 98]%N : buffer) 3 = Some (row, col) /\
    char_offset_at (from_content [97; 10; 233; 98]%N : buffer) row col = Some 3.
Proof. split; [by vm_compute|]. apply row_col_round_trip. vm_compute. lia. Defined.

(** A cursor far outside the text, clamped to the end of its last line. *)
Lemma clamp_cursor_establishes_bounds_witness :
  let b : buffer := from_content [97; 10; 233; 98]%N in
  clamp_cursor (mkWin 7 9 (0, 0)) b = Some (mkWin 1 3 (1, 3)) /\
  exists w', clamp_cursor (mkWin 7 9 (0, 0)) b = Some w' /\ cursor_row w' < line_count b.
Proof.
  intros b. split; [by vm_compute|].
  destruct (clamp_cursor_establishes_bounds (mkWin 7 9 (0, 0)) b) as (w' & H1 & H2 & _).
  exists w'. by split.
Defined.

(** On a line that ends in a carriage return and a line feed the clamp is
    not idempotent: the bound counts the carriage return, the snap does not,
    so the first clamp leaves the column past the end of the line's text. *)
Theorem crlf_clamp_is_not_idempotent :
  let b : buffer := from_content [97; 13; 10]%N in
  exists w1 w2, clamp_cursor (mkWin 0 9 (0, 0)) b = Some w1 /\ clamp_cursor w1 b = Some w2 /\
    cursor_col w1 = 2 /\ cursor_col w2 = 1 /\ line_text_no_newline b 0 = Some [97%N] /\
    str_to [97%N] (cursor_col w1) = None.
Proof.
  intros b. exists (mkWin 0 2 (0, 2)), (mkWin 0 1 (0, 1)). split_and!; vm_compute; reflexivity.
Qed.
End CursorWitnesses.
