(* ===== verification/CollabText.v ===== *)
(** * CollabText: the collaborative text document

    Models [shared/sync/src/text.rs]: a CRDT document of the external crate
    [yrs] with a rope that mirrors its text. The CRDT, its transactions and its
    undo manager are the interface [Yrs]; the word diff of the crate [similar]
    is the interface [WordDiff]. The observers that [TextSync] installs are
    modelled by what they receive: a commit hands over the updates it emitted
    and stores the current cursor offset on a new undo item, a pop of an undo
    item returns the stored offset. [None] is a panic. *)
From S2P Require Import Prelude Rope Grapheme Buffer.

(** ** The CRDT *)

(** [yrs::types::Delta], lengths in UTF-16 code units. *)
Inductive Delta := Retain (len : N) | Inserted (s : list N) | Deleted (len : N).

(** [transact_mut origin d] opens a transaction; [commit cursor t] closes it and
    returns the document and the updates the update observer received. A
    document owns its undo manager once [expand_scope] was called. *)
Class Yrs := {
  YDoc : Type;
  YTxn : Type;
  YUpdate : Type;
  doc_with_id : N -> YDoc;
  client_id : YDoc -> N;
  get_string : YDoc -> list N;
  transact_mut : option N -> YDoc -> YTxn;
  text_insert : YTxn -> N -> list N -> option YTxn;
  remove_range : YTxn -> N -> N -> option YTxn;
  txn_apply_update : YTxn -> YUpdate -> YTxn * bool;
  txn_text : YTxn -> list N;
  txn_base : YTxn -> list N;
  txn_delta : YTxn -> list Delta;
  encode_update_v1 : YTxn -> string;
  commit : N -> YTxn -> YDoc * list string;
  decode_v1 : string -> option YUpdate;
  doc_state_vector : YDoc -> string;
  decode_state_vector : string -> option string;
  empty_state_vector : string;
  encode_state_as_update : YDoc -> string -> string;
  undo_manager : YDoc -> YDoc;
  undo_blocking : YDoc -> YDoc * bool * list string * option N;
  redo_blocking : YDoc -> YDoc * bool * list string * option N;
  mgr_can_undo : YDoc -> bool;
  mgr_can_redo : YDoc -> bool;
  mgr_reset : YDoc -> YDoc;
  mgr_clear_all : YDoc -> YDoc;
}.

(** What a delta does to a text. *)
Fixpoint apply_delta (ds : list Delta) (s : list N) : list N :=
  match ds with
  | [] => s
  | Retain n :: ds' => let k := chars_before_u16 s (N.to_nat n) in take k s ++ apply_delta ds' (drop k s)
  | Inserted x :: ds' => x ++ apply_delta ds' s
  | Deleted n :: ds' => apply_delta ds' (drop (chars_before_u16 s (N.to_nat n)) s)
  end.

(** Retained and deleted stretches are whole characters of the text. *)
Fixpoint delta_ok (ds : list Delta) (s : list N) : Prop :=
  match ds with
  | [] => True
  | Retain n :: ds' | Deleted n :: ds' =>
      exists k, k <= length s /\ n = N.of_nat (utf16_len (take k s)) /\ delta_ok ds' (drop k s)
  | Inserted _ :: ds' => delta_ok ds' s
  end.

(** The documented behaviour the code relies on: edits at code-unit offsets of
    characters splice the text, the delta of a transaction leads from the text
    before it to the text after it, and the undo manager changes the text only
    when it reports success. *)
Class YrsLaws `{Yrs} : Prop := {
  y_new id : get_string (doc_with_id id) = [];
  y_open o d : txn_text (transact_mut o d) = get_string d;
  y_base o d : txn_base (transact_mut o d) = get_string d;
  y_commit c t : get_string (commit c t).1 = txn_text t;
  y_insert t k s : k <= length (txn_text t) -> exists t',
    text_insert t (N.of_nat (utf16_len (take k (txn_text t)))) s = Some t' /\
    txn_text t' = take k (txn_text t) ++ s ++ drop k (txn_text t);
  y_remove t k n : k + n <= length (txn_text t) -> exists t',
    remove_range t (N.of_nat (utf16_len (take k (txn_text t))))
      (N.of_nat (utf16_len (take n (drop k (txn_text t))))) = Some t' /\
    txn_text t' = take k (txn_text t) ++ drop (k + n) (txn_text t);
  y_apply_base t u : txn_base (txn_apply_update t u).1 = txn_base t;
  y_delta t : delta_ok (txn_delta t) (txn_base t) /\ apply_delta (txn_delta t) (txn_base t) = txn_text t;
  y_undo_manager d : get_string (undo_manager d) = get_string d;
  y_undo d d' ups c : undo_blocking d = (d', false, ups, c) -> get_string d' = get_string d;
  y_redo d d' ups c : redo_blocking d = (d', false, ups, c) -> get_string d' = get_string d;
  y_reset d : get_string (mgr_reset d) = get_string d;
  y_clear d : get_string (mgr_clear_all d) = get_string d;
}.

(** ** The word diff *)

Inductive ChangeTag := Equal | Delete | Insert.
#[export] Instance ChangeTag_eq_dec : EqDecision ChangeTag.
Proof. solve_decision. Defined.

(** [TextDiff::from_words(..).iter_all_changes()]. *)
Class WordDiff := { from_words : list N -> list N -> list (ChangeTag * list N) }.

(** The texts of the changes with a tag other than [skip], in order. *)
Definition side (skip : ChangeTag) (l : list (ChangeTag * list N)) : list N :=
  concat (map (fun '(tag, s) => if bool_decide (tag = skip) then [] else s) l).
Class WordDiffLaws `{WordDiff} : Prop := {
  diff_old a b : side Insert (from_words a b) = a;
  diff_new a b : side Delete (from_words a b) = b;
}.

(** ** 32-bit offsets and client ids *)

Definition u32 (n : N) : N := (n mod 4294967296)%N.

(** [clamp_client_id_to_yrs], at 64 bits. *)
Definition clamp_client_id_to_yrs (raw : N) : N := N.land raw (N.shiftl 1 53 - 1).
Definition fold_hash_to_yrs_client_id (h : N) : N :=
  let folded := N.land (N.lxor h (N.shiftr h 53)) (N.shiftl 1 53 - 1) in
  if (folded =? 0)%N || (folded =? 1)%N then 2%N else folded.

(** ** Reconciling a text with a target *)

(** The changes with consecutive ones of the same tag merged: the inner
    [while it.peek()..] loop. *)
Fixpoint coalesce (l : list (ChangeTag * list N)) : list (ChangeTag * list N) :=
  match l with
  | [] => []
  | (tag, s) :: l' =>
      match coalesce l' with
      | (tag', s') :: rest => if bool_decide (tag' = tag) then (tag, s ++ s') :: rest
                              else (tag, s) :: (tag', s') :: rest
      | [] => [(tag, s)]
      end
  end.

Section Doc.
Context {R : Type} `{Rope R, RopeUtf16 R, Yrs, WordDiff}.

(** The body of the outer loop over [(txn, utf16_offset, changed)]; the 32-bit
    sum wraps in a release build. *)
Definition reconcile_step (st : option (YTxn * N * bool)) (change : ChangeTag * list N)
    : option (YTxn * N * bool) :=
  let? (txn, utf16_offset, changed) := st in
  let '(tag, run) := change in
  let len := u32 (N.of_nat (utf16_len run)) in
  match tag with
  | Equal => Some (txn, u32 (utf16_offset + len), changed)
  | Delete => let? txn := remove_range txn utf16_offset len in Some (txn, utf16_offset, true)
  | Insert => let? txn := text_insert txn utf16_offset run in
              Some (txn, u32 (utf16_offset + len), true)
  end.

Definition reconcile_text_ref (txn : YTxn) (current target : list N) : option (YTxn * bool) :=
  if bool_decide (current = target) then Some (txn, false)
  else let? (txn, _, changed) :=
         foldl reconcile_step (Some (txn, 0%N, false)) (coalesce (from_words current target)) in
       Some (txn, changed).

(** ** The document *)

Definition DEFAULT_UNDO_LIMIT : nat := 1000.

(** [undo_mgr] is the [is_some()] of the manager, which lives in [doc]. *)
Record TextSync := mkText {
  doc : YDoc;
  ts_rope : R;
  undo_mgr : bool;
  captured_updates : list string;
  ts_cursor : N;
  restored_cursor : option N;
  undo_limit : nat;
}.

Definition fresh_text (d : YDoc) (r : R) : TextSync := mkText d r false [] 0 None DEFAULT_UNDO_LIMIT.

(** Close a transaction: the update observer is installed with the manager. *)
Definition commit_txn (s : TextSync) (t : YTxn) : TextSync :=
  let '(d, ups) := commit (ts_cursor s) t in
  mkText d (ts_rope s) (undo_mgr s) (if undo_mgr s then captured_updates s ++ ups else captured_updates s)
    (ts_cursor s) (restored_cursor s) (undo_limit s).
Definition set_doc (s : TextSync) (d : YDoc) : TextSync :=
  mkText d (ts_rope s) (undo_mgr s) (captured_updates s) (ts_cursor s) (restored_cursor s) (undo_limit s).

Definition content (s : TextSync) : list N := get_string (doc s).

Definition rebuild_rope (s : TextSync) : TextSync :=
  mkText (doc s) (from_str (get_string (doc s))) (undo_mgr s) (captured_updates s) (ts_cursor s)
    (restored_cursor s) (undo_limit s).

(** The constructors; [id] is the client id of the new document, drawn at
    random where the source does not pass one. *)
Definition with_doc (d : YDoc) (text : list N) : option TextSync :=
  let? t := text_insert (transact_mut None d) 0 text in
  Some (fresh_text (commit 0 t).1 (from_str text)).
Definition new_text (id : N) (text : list N) : option TextSync := with_doc (doc_with_id id) text.
Definition with_client_id (text : list N) (id : N) : option TextSync :=
  with_doc (doc_with_id (clamp_client_id_to_yrs id)) text.
Definition empty_relay (id : N) : TextSync := fresh_text (doc_with_id id) (from_str []).
Definition from_doc (d : YDoc) : TextSync := fresh_text d (from_str (get_string d)).

(** [from_state] and [from_state_with_client_id]; the outer [None] is [Err]. *)
Definition from_state_doc (d : YDoc) (state : string) : option TextSync :=
  let? update := decode_v1 state in
  let '(t, ok) := txn_apply_update (transact_mut None d) update in
  if negb ok then None
  else let d := (commit 0 t).1 in Some (fresh_text d (from_str (get_string d))).
Definition from_state (id : N) (state : string) : option TextSync := from_state_doc (doc_with_id id) state.
Definition from_state_with_client_id (state : string) (id : N) : option TextSync :=
  from_state_doc (doc_with_id (clamp_client_id_to_yrs id)) state.

Definition char_to_utf16_offset (s : TextSync) (char_offset : N) : option N :=
  let clamped := Nat.min (N.to_nat char_offset) (len_chars (ts_rope s)) in
  let? u := char_to_utf16_cu (ts_rope s) clamped in Some (u32 (N.of_nat u)).
Definition char_len_to_utf16_len (s : TextSync) (char_offset char_len : N) : option N :=
  let start := Nat.min (N.to_nat char_offset) (len_chars (ts_rope s)) in
  let end_ := Nat.min (start + N.to_nat char_len) (len_chars (ts_rope s)) in
  let? utf16_start := char_to_utf16_cu (ts_rope s) start in
  let? utf16_end := char_to_utf16_cu (ts_rope s) end_ in
  Some (u32 (N.of_nat (utf16_end - utf16_start))).

(** The transaction of a local edit, tagged with the client when undo is on. *)
Definition local_txn (s : TextSync) : YTxn :=
  transact_mut (if undo_mgr s then Some (client_id (doc s)) else None) (doc s).

Definition ts_insert (s : TextSync) (offset : N) (text : list N) : option (TextSync * string) :=
  let? utf16_offset := char_to_utf16_offset s offset in
  let? t := text_insert (local_txn s) utf16_offset text in
  Some (rebuild_rope (commit_txn s t), encode_update_v1 t).

Definition ts_delete (s : TextSync) (offset len : N) : option (TextSync * string) :=
  let? utf16_offset := char_to_utf16_offset s offset in
  let? utf16_len := char_len_to_utf16_len s offset len in
  let? t := remove_range (local_txn s) utf16_offset utf16_len in
  Some (rebuild_rope (commit_txn s t), encode_update_v1 t).

(** [apply_update]; the boolean is [Ok]. An update that does not decode leaves
    the document alone; one that fails while it is applied does not rebuild the
    rope. *)
Definition apply_update (s : TextSync) (update : string) : TextSync * bool :=
  match decode_v1 update with
  | None => (s, false)
  | Some u =>
      let '(t, ok) := txn_apply_update (transact_mut None (doc s)) u in
      let s := commit_txn s t in
      if ok then (rebuild_rope s, true) else (s, false)
  end.

(** The observer of [apply_update_with_edit]: the code units retained before
    the first insertion or deletion. *)
Fixpoint first_edit (pos : N) (ds : list Delta) : option N :=
  match ds with
  | [] => None
  | Retain len :: ds' => first_edit (u32 (pos + len)) ds'
  | Inserted _ :: _ | Deleted _ :: _ => Some pos
  end.

(** The inner result is [Err] or the edit; an update without an edit is the
    no-op [Ok(None)]. *)
Definition apply_update_with_edit (s : TextSync) (update : string)
    : option (TextSync * option (option AppliedEdit)) :=
  match decode_v1 update with
  | None => Some (s, None)
  | Some u =>
      let old_rope := ts_rope s in
      let '(t, ok) := txn_apply_update (transact_mut None (doc s)) u in
      let s := commit_txn s t in
      if negb ok then Some (s, None)
      else
        let s := rebuild_rope s in
        match first_edit 0 (txn_delta t) with
        | None => Some (s, Some None)
        | Some start_utf16 =>
            let? start := utf16_cu_to_char old_rope
                            (Nat.min (N.to_nat start_utf16) (len_utf16_cu old_rope)) in
            let delta := (Z.of_nat (len_chars (ts_rope s)) - Z.of_nat (len_chars old_rope))%Z in
            Some (s, Some (Some (mkApplied start delta)))
        end
  end.

Definition state_vector (s : TextSync) : string := doc_state_vector (doc s).
Definition encode_state (s : TextSync) : string := encode_state_as_update (doc s) empty_state_vector.
Definition encode_diff (s : TextSync) (remote_sv : string) : string :=
  encode_state_as_update (doc s) (default empty_state_vector (decode_state_vector remote_sv)).

Definition reconcile_to (s : TextSync) (target : list N) : option (TextSync * string) :=
  let current := content s in
  if bool_decide (current = target) then Some (s, "")
  else
    let? (t, _) := reconcile_text_ref (transact_mut None (doc s)) current target in
    Some (rebuild_rope (commit_txn s t), encode_update_v1 t).

(** ** Undo *)

Definition set_cursor_offset (s : TextSync) (offset : N) : TextSync :=
  mkText (doc s) (ts_rope s) (undo_mgr s) (captured_updates s) offset (restored_cursor s) (undo_limit s).

Definition enable_undo (s : TextSync) : TextSync :=
  mkText (undo_manager (doc s)) (ts_rope s) true (captured_updates s) (ts_cursor s)
    (restored_cursor s) (undo_limit s).
Definition undo_mgr_active (s : TextSync) : bool := undo_mgr s.
Definition can_undo (s : TextSync) : bool := undo_mgr s && mgr_can_undo (doc s).
Definition can_redo (s : TextSync) : bool := undo_mgr s && mgr_can_redo (doc s).

(** [undo] and [redo] run the manager with empty capture buffers and drain
    them; the popped item's offset is the cursor to restore. *)
Definition run_manager (run : YDoc -> YDoc * bool * list string * option N) (s : TextSync)
    : TextSync * UndoResult :=
  if negb (undo_mgr s) then (s, mkUndoResult false [] None)
  else
    let '(d, ok, ups, popped) := run (doc s) in
    let s := mkText d (ts_rope s) true [] (ts_cursor s) popped (undo_limit s) in
    (rebuild_rope s, mkUndoResult ok ups (N.to_nat <$> popped)).
Definition ts_undo : TextSync -> TextSync * UndoResult := run_manager undo_blocking.
Definition ts_redo : TextSync -> TextSync * UndoResult := run_manager redo_blocking.

Definition undo_reset (s : TextSync) : TextSync := if undo_mgr s then set_doc s (mgr_reset (doc s)) else s.
Definition clear_undo (s : TextSync) : TextSync := if undo_mgr s then set_doc s (mgr_clear_all (doc s)) else s.
Definition set_undo_limit (s : TextSync) (limit : nat) : TextSync :=
  mkText (doc s) (ts_rope s) (undo_mgr s) (captured_updates s) (ts_cursor s) (restored_cursor s) limit.

End Doc.
Arguments TextSync R {_}.

(** ** The document the buffer sees

    A thread that panicked inside the document has no document: [None]. The
    laws below show that this does not happen. *)
Section Interface.
Context {R : Type} `{Rope R, RopeUtf16 R, Yrs, WordDiff}.

Definition run_or_panic {A} (d : option (TextSync R)) (panicked : A)
    (f : TextSync R -> option (TextSync R * A)) : option (TextSync R) * A :=
  match (let? s := d in f s) with Some (s, a) => (Some s, a) | None => (None, panicked) end.

#[export] Instance collab_doc : SyncDoc R (option (TextSync R)) := {|
  sync_rope d := match d with Some s => ts_rope s | None => from_str [] end;
  sync_set_cursor_offset d n := (fun s => set_cursor_offset s n) <$> d;
  sync_doc_insert d off x := run_or_panic d "" (fun s => ts_insert s off x);
  sync_doc_delete d off len := run_or_panic d "" (fun s => ts_delete s off len);
  sync_reconcile_to d target := run_or_panic d "" (fun s => reconcile_to s target);
  sync_undo_mgr_active d := match d with Some s => undo_mgr_active s | None => false end;
  sync_undo d := run_or_panic d (mkUndoResult false [] None) (fun s => Some (ts_undo s));
  sync_redo d := run_or_panic d (mkUndoResult false [] None) (fun s => Some (ts_redo s));
  sync_undo_reset d := undo_reset <$> d;
  sync_encode_state d := match d with Some s => encode_state s | None => "" end;
  sync_apply_update d u := run_or_panic d false (fun s => Some (apply_update s u));
  sync_apply_update_with_edit d u := run_or_panic d None (fun s => apply_update_with_edit s u);
  sync_with_client_id text id := with_client_id text id;
  sync_from_state st id := Some <$> from_state_with_client_id st id;
  sync_enable_undo d := enable_undo <$> d;
|}.
End Interface.

(** ** Lemmas *)

Section Laws.
Context {R : Type} `{RopeLaws R, !RopeUtf16 R, !RopeUtf16Laws R, YrsLaws, WordDiffLaws}.
Implicit Types (s : TextSync R).

(** The rope shows the text of the document. *)
Definition mirrors s : Prop := rope_chars (ts_rope s) = content s.

Lemma u32_small n : (n < 4294967296)%N -> u32 n = n.
Proof. apply N.mod_small. Qed.

Lemma mirrors_rebuild s : mirrors (rebuild_rope s).
Proof. unfold mirrors, content. simpl. apply rope_from_str. Qed.

Lemma commit_content s t : content (commit_txn s t) = txn_text t.
Proof.
  unfold content, commit_txn. pose proof (y_commit (ts_cursor s) t) as Hc.
  by destruct (commit (ts_cursor s) t).
Qed.

Lemma rebuilt s t :
  mirrors (rebuild_rope (commit_txn s t)) /\ content (rebuild_rope (commit_txn s t)) = txn_text t.
Proof. split; [apply mirrors_rebuild|]. apply commit_content. Qed.

(** Offsets are converted exactly, and clamped to the text. *)
Lemma char_to_utf16_offset_eq s off :
  mirrors s -> fits_u32 (content s) ->
  char_to_utf16_offset s off =
    Some (N.of_nat (utf16_len (take (Nat.min (N.to_nat off) (length (content s))) (content s)))).
Proof.
  intros Hm Hf. unfold char_to_utf16_offset. rewrite rope_len_chars, rope_char_to_utf16, Hm.
  rewrite (proj2 (Nat.leb_le _ _)) by lia. f_equal. apply u32_small.
  unfold fits_u32 in Hf. pose proof (utf16_len_take_le (content s) (Nat.min (N.to_nat off) (length (content s)))). lia.
Qed.

Lemma char_len_to_utf16_len_eq s off len :
  mirrors s -> fits_u32 (content s) ->
  let start := Nat.min (N.to_nat off) (length (content s)) in
  let n := Nat.min (start + N.to_nat len) (length (content s)) - start in
  char_len_to_utf16_len s off len =
    Some (N.of_nat (utf16_len (take n (drop start (content s))))).
Proof.
  intros Hm Hf start n. unfold char_len_to_utf16_len. rewrite rope_len_chars, !rope_char_to_utf16, Hm.
  fold start. rewrite !(proj2 (Nat.leb_le _ _)) by lia.
  set (e := Nat.min (start + N.to_nat len) (length (content s))) in *.
  assert (Hs : take e (content s) = take start (content s) ++ take n (drop start (content s))).
  { rewrite <- (take_drop start (take e (content s))), take_take, skipn_firstn_comm. f_equal; f_equal; lia. }
  rewrite Hs, utf16_len_app, Nat.add_comm, Nat.add_sub. f_equal. apply u32_small.
  unfold fits_u32 in Hf. pose proof (utf16_len_take_le (content s) e). rewrite Hs, utf16_len_app in *. lia.
Qed.

Lemma insert_ok s off x :
  mirrors s -> fits_u32 (content s) -> exists s' u, ts_insert s off x = Some (s', u) /\ mirrors s' /\
    let k := Nat.min (N.to_nat off) (length (content s)) in
    content s' = take k (content s) ++ x ++ drop k (content s).
Proof.
  intros Hm Hf. unfold ts_insert. rewrite char_to_utf16_offset_eq by done.
  set (k := Nat.min (N.to_nat off) (length (content s))).
  assert (Ho : txn_text (local_txn s) = content s) by apply y_open.
  destruct (y_insert (local_txn s) k x) as (t & Et & Ht); rewrite Ho in *; [lia|].
  rewrite Et. eexists _, _. split; [done|]. destruct (rebuilt s t) as [Hr Hc]. split; [done|]. by rewrite Hc.
Qed.

Lemma delete_ok s off len :
  mirrors s -> fits_u32 (content s) -> exists s' u, ts_delete s off len = Some (s', u) /\ mirrors s' /\
    let k := Nat.min (N.to_nat off) (length (content s)) in
    content s' = take k (content s) ++ drop (k + N.to_nat len) (content s).
Proof.
  intros Hm Hf. unfold ts_delete. rewrite char_to_utf16_offset_eq, char_len_to_utf16_len_eq by done.
  set (k := Nat.min (N.to_nat off) (length (content s))).
  set (n := Nat.min (k + N.to_nat len) (length (content s)) - k).
  assert (Ho : txn_text (local_txn s) = content s) by apply y_open.
  destruct (y_remove (local_txn s) k n) as (t & Et & Ht); rewrite Ho in *; [lia|].
  rewrite Et. eexists _, _. split; [done|]. destruct (rebuilt s t) as [Hr Hc]. split; [done|].
  cbn zeta. rewrite Hc, Ht. f_equal. destruct (decide (k + N.to_nat len <= length (content s))).
  - f_equal. lia.
  - rewrite !drop_ge by lia. done.
Qed.

(** *** Reconciling *)

Lemma side_cons skip tag x l : side skip ((tag, x) :: l) = (if bool_decide (tag = skip) then [] else x) ++ side skip l.
Proof. done. Qed.

Lemma side_coalesce skip l : side skip (coalesce l) = side skip l.
Proof.
  induction l as [|[tag x] l IH]; [done|]. cbn [coalesce]. rewrite side_cons, <- IH.
  destruct (coalesce l) as [|[tag' x'] rest]; [by rewrite side_cons|].
  destruct (decide (tag' = tag)) as [->|Hne].
  - rewrite bool_decide_eq_true_2 by done. rewrite !side_cons. case_bool_decide; [done|by rewrite app_assoc].
  - rewrite bool_decide_eq_false_2 by done. by rewrite side_cons.
Qed.

Definition is_change (c : ChangeTag * list N) : bool := negb (bool_decide (c.1 = Equal)).

Lemma change_coalesce l : existsb is_change (coalesce l) = existsb is_change l.
Proof.
  induction l as [|[tag x] l IH]; [done|]. cbn [coalesce existsb]. rewrite <- IH.
  destruct (coalesce l) as [|[tag' x'] rest]; [done|]. case_bool_decide; [|done].
  subst. cbn [existsb]. unfold is_change. simpl. by destruct (negb _).
Qed.

Lemma no_change_same l : existsb is_change l = false -> side Insert l = side Delete l.
Proof.
  induction l as [|[tag x] l IH]; [done|]. cbn [existsb]. intros [Hc Hl]%orb_false_iff.
  rewrite !side_cons, IH by done. unfold is_change in Hc. simpl in Hc. by destruct tag.
Qed.

Lemma app_splice (P x Q : list N) :
  take (length P) (P ++ Q) ++ x ++ drop (length P) (P ++ Q) = (P ++ x) ++ Q.
Proof. by rewrite take_app_length, drop_app_length, app_assoc. Qed.

(** The loop has turned the part of the old text it has passed into the part of
    the target it has passed, and its offset is the length of the latter. *)
Lemma reconcile_loop l : forall t P ch,
  txn_text t = P ++ side Insert l ->
  (N.of_nat (utf16_len (P ++ side Delete l)) < 4294967296)%N ->
  (N.of_nat (utf16_len (side Insert l)) < 4294967296)%N ->
  exists t' off, foldl reconcile_step (Some (t, N.of_nat (utf16_len P), ch)) l =
      Some (t', off, ch || existsb is_change l) /\ txn_text t' = P ++ side Delete l.
Proof.
  induction l as [|[tag x] l IH]; intros t P ch Ht Hd Hi.
  { simpl. rewrite orb_false_r. eauto. }
  rewrite side_cons in Ht, Hd, Hi. rewrite !utf16_len_app in Hd. rewrite utf16_len_app in Hi.
  cbn [foldl reconcile_step]. destruct tag; simpl in Ht, Hd, Hi; rewrite (u32_small (N.of_nat (utf16_len x))) by lia.
  - rewrite u32_small by lia. replace (N.of_nat (utf16_len P) + N.of_nat (utf16_len x))%N
      with (N.of_nat (utf16_len (P ++ x))) by (rewrite utf16_len_app; lia).
    destruct (IH t (P ++ x) ch) as (t' & off & E & Et); [by rewrite Ht, app_assoc|rewrite !utf16_len_app; lia|lia|].
    exists t', off. split; [done|]. by rewrite Et, <- app_assoc.
  - destruct (y_remove t (length P) (length x)) as (t1 & E1 & Ht1).
    { rewrite Ht, !length_app. lia. }
    rewrite Ht, take_app_length, drop_app_length, take_app_length in E1. rewrite E1.
    destruct (IH t1 P true) as (t' & off & E & Et); [|rewrite utf16_len_app; lia|lia|].
    { rewrite Ht1, Ht, take_app_length, app_assoc, <- length_app. by rewrite drop_app_length. }
    exists t', off. split; [|done]. rewrite E. simpl. by rewrite orb_true_r.
  - destruct (y_insert t (length P) x) as (t1 & E1 & Ht1).
    { rewrite Ht, length_app. lia. }
    rewrite Ht, take_app_length in E1. rewrite E1, u32_small by lia.
    replace (N.of_nat (utf16_len P) + N.of_nat (utf16_len x))%N
      with (N.of_nat (utf16_len (P ++ x))) by (rewrite utf16_len_app; lia).
    destruct (IH t1 (P ++ x) true) as (t' & off & E & Et);
      [by rewrite Ht1, Ht, app_splice|rewrite !utf16_len_app; lia|lia|].
    exists t', off. split; [rewrite E; simpl; by rewrite orb_true_r|]. by rewrite Et, <- app_assoc.
Qed.

Lemma reconcile_text_ref_ok t target :
  fits_u32 (txn_text t) -> fits_u32 target -> exists t',
    reconcile_text_ref t (txn_text t) target = Some (t', negb (bool_decide (txn_text t = target))) /\
    txn_text t' = target.
Proof.
  intros Hc Ht. unfold reconcile_text_ref. case_bool_decide as Heq; [by exists t|].
  set (l := from_words (txn_text t) target).
  assert (Ho : side Insert l = txn_text t) by apply diff_old.
  assert (Hn : side Delete l = target) by apply diff_new.
  destruct (reconcile_loop (coalesce l) t [] false) as (t' & off & E & Et).
  - by rewrite side_coalesce, Ho.
  - by rewrite side_coalesce, Hn.
  - by rewrite side_coalesce, Ho.
  - change (N.of_nat (utf16_len [])) with 0%N in E. rewrite E. exists t'.
    rewrite side_coalesce, Hn in Et. split; [|done]. rewrite change_coalesce. simpl.
    destruct (existsb is_change l) eqn:Ex; [done|]. apply no_change_same in Ex. congruence.
Qed.

Lemma reconcile_ok s target :
  mirrors s -> fits_u32 (content s) -> fits_u32 target -> exists s' u,
    reconcile_to s target = Some (s', u) /\ mirrors s' /\ content s' = target.
Proof.
  intros Hm Hc Ht. unfold reconcile_to. case_bool_decide as Heq; [by exists s, ""|].
  assert (Ho : txn_text (transact_mut None (doc s)) = content s) by apply y_open.
  destruct (reconcile_text_ref_ok (transact_mut None (doc s)) target) as (t & E & Et); rewrite ?Ho in *; [done|done|].
  rewrite E. eexists _, _. split; [done|]. destruct (rebuilt s t) as [? Hr]. split; [done|]. by rewrite Hr.
Qed.

(** *** Remote updates *)

(** The first edit of a delta starts where the two texts may differ first. *)
Lemma first_edit_sound ds : forall (s : list N) pos,
  delta_ok ds s -> (pos + N.of_nat (utf16_len s) < 4294967296)%N ->
  match first_edit pos ds with
  | None => apply_delta ds s = s
  | Some p => exists k, k <= length s /\ p = (pos + N.of_nat (utf16_len (take k s)))%N /\
                take k (apply_delta ds s) = take k s
  end.
Proof.
  induction ds as [|d ds IH]; intros s pos Hok Hb; [done|]. destruct d as [n|x|n]; cbn [first_edit].
  2,3: exists 0; simpl; split_and!; [lia|lia|done].
  destruct Hok as (k & Hk & -> & Hok).
  assert (Hsplit : utf16_len s = utf16_len (take k s) + utf16_len (drop k s))
    by (rewrite <- utf16_len_app, take_drop; done).
  rewrite u32_small by lia. cbn [apply_delta]. rewrite Nat2N.id, chars_before_u16_boundary by done.
  specialize (IH (drop k s) (pos + N.of_nat (utf16_len (take k s)))%N Hok ltac:(lia)).
  destruct (first_edit _ ds) as [p|]; [|by rewrite IH, take_drop].
  destruct IH as (j & Hj & -> & Et). rewrite length_drop in Hj. exists (k + j). split_and!; [lia| |].
  - assert (Hu : utf16_len (take (k + j) s) = utf16_len (take k s) + utf16_len (take j (drop k s))).
    { rewrite <- utf16_len_app. f_equal. rewrite <- (take_drop k (take (k + j) s)) at 1.
      rewrite take_take, skipn_firstn_comm. f_equal; f_equal; lia. }
    lia.
  - rewrite take_app_ge by (rewrite length_take; lia). rewrite length_take, Nat.min_l by lia.
    replace (k + j - k) with j by lia. rewrite Et.
    rewrite <- (take_drop k (take (k + j) s)) at 1.
    rewrite take_take, skipn_firstn_comm. f_equal; f_equal; lia.
Qed.

Lemma apply_update_ok s u s' : apply_update s u = (s', true) -> mirrors s'.
Proof.
  unfold apply_update. destruct (decode_v1 u); [|done].
  destruct (txn_apply_update _ _) as [t ok]. destruct ok; [|done]. intros [= <-]. apply rebuilt.
Qed.

Lemma apply_update_with_edit_ok s u :
  mirrors s -> fits_u32 (content s) -> exists s' res, apply_update_with_edit s u = Some (s', res) /\
    match res with
    | Some e => mirrors s' /\ edit_sound (content s) (content s') e
    | None => True
    end.
Proof.
  intros Hm Hf. unfold apply_update_with_edit. destruct (decode_v1 u) as [up|]; [|by eexists _, None].
  pose proof (y_apply_base (transact_mut None (doc s)) up) as Hb. rewrite y_base in Hb.
  destruct (txn_apply_update _ up) as [t ok] eqn:Et. simpl in Hb.
  destruct ok; [|by eexists _, None]. cbn [negb].
  destruct (rebuilt s t) as [Hr Hc]. destruct (y_delta t) as [Hok Hd]. rewrite Hb in Hok, Hd.
  pose proof (first_edit_sound (txn_delta t) (content s) 0 Hok Hf) as Hs.
  change (get_string (doc s)) with (content s) in Hd. destruct (first_edit 0 (txn_delta t)) as [p|].
  - destruct Hs as (k & Hk & -> & Hs). rewrite N.add_0_l, Nat2N.id.
    rewrite rope_len_utf16, rope_utf16_to_char, Hm. pose proof (utf16_len_take_le (content s) k).
    rewrite Nat.min_l, (proj2 (Nat.leb_le _ _)), chars_before_u16_boundary by lia.
    eexists _, _. split; [done|]. split; [done|]. rewrite Hc, !rope_len_chars. simpl.
    split_and!; [done| |].
    + by rewrite Hd in Hs.
    + unfold mirrors in Hr, Hm. simpl in Hr. by rewrite Hr, Hm, Hc.
  - eexists _, _. split; [done|]. split; [done|]. rewrite Hc. simpl. by rewrite <- Hd.
Qed.

(** *** Undo *)

Lemma run_manager_ok run s :
  (forall d d' ups c, run d = (d', false, ups, c) -> get_string d' = get_string d) ->
  mirrors s -> mirrors (run_manager run s).1 /\
    (success (run_manager run s).2 = false -> content (run_manager run s).1 = content s).
Proof.
  intros Hrun Hm. unfold run_manager. destruct (undo_mgr s); [|done]. cbn [negb].
  destruct (run (doc s)) as [[[d ok] ups] c] eqn:E. split; [apply mirrors_rebuild|].
  cbn [fst snd success]. intros ->. by apply Hrun in E.
Qed.

(** *** The interface is implemented *)

Lemma with_client_id_ok text id :
  exists s, with_client_id text id = Some s /\ mirrors s /\ content s = text.
Proof.
  unfold with_client_id, with_doc. set (d := doc_with_id _).
  assert (Ho : txn_text (transact_mut None d) = []) by (rewrite y_open; apply y_new).
  destruct (y_insert (transact_mut None d) 0 text) as (t & Et & Ht); [lia|].
  change (N.of_nat _) with 0%N in Et. simpl in Ht. rewrite Et. eexists. split; [done|].
  unfold mirrors, content. simpl. rewrite rope_from_str, y_commit, Ht, Ho. by rewrite app_nil_r.
Qed.

Definition doc_ok (d : option (TextSync R)) : Prop :=
  match d with Some s => mirrors s | None => False end.
#[export] Program Instance collab_laws : SyncLaws R (option (TextSync R)) := {| sync_ok := doc_ok |}.
Next Obligation. by intros [s|] n Hs. Qed.
Next Obligation.
  intros [s|] p x Hs Hf Hp; [|done]. unfold sync_text in *. simpl in *. rewrite Hs in Hf, Hp.
  destruct (insert_ok s (N.of_nat p) x Hs Hf) as (s' & u & E & Hm & Hc). unfold run_or_panic. rewrite E. simpl.
  split; [done|]. rewrite Hm, Hc, Hs, Nat2N.id. by rewrite Nat.min_l by done.
Qed.
Next Obligation.
  intros [s|] p n Hs Hf Hp; [|done]. unfold sync_text in *. simpl in *. rewrite Hs in Hf, Hp.
  destruct (delete_ok s (N.of_nat p) (N.of_nat n) Hs Hf) as (s' & u & E & Hm & Hc). unfold run_or_panic.
  rewrite E. simpl. split; [done|]. rewrite Hm, Hc, Hs, !Nat2N.id. by rewrite Nat.min_l by lia.
Qed.
Next Obligation.
  intros [s|] t Hs Hf; [|done]. unfold sync_text, fits_u32 in *. simpl in *. rewrite Hs, utf16_len_app in Hf.
  destruct (reconcile_ok s t Hs) as (s' & u & E & Hm & Hc); [unfold fits_u32; lia..|].
  unfold run_or_panic. rewrite E. simpl. split; [done|]. by rewrite Hm, Hc.
Qed.
Next Obligation.
  intros [s|] Hs; [|done]. unfold sync_text. simpl. unfold run_or_panic, ts_undo, ts_redo.
  destruct (run_manager_ok undo_blocking s y_undo Hs) as [Hm Hc].
  destruct (run_manager undo_blocking s) as [s' r]. simpl in *. split; [done|].
  intros Hf. by rewrite Hm, Hs, Hc.
Qed.
Next Obligation.
  intros [s|] Hs; [|done]. unfold sync_text. simpl. unfold run_or_panic, ts_undo, ts_redo.
  destruct (run_manager_ok redo_blocking s y_redo Hs) as [Hm Hc].
  destruct (run_manager redo_blocking s) as [s' r]. simpl in *. split; [done|].
  intros Hf. by rewrite Hm, Hs, Hc.
Qed.
Next Obligation.
  intros [s|] Hs; [|done]. unfold sync_text. simpl. unfold undo_reset. destruct (undo_mgr s); [|done].
  split; [|done]. unfold mirrors, content in *. simpl. by rewrite y_reset.
Qed.
Next Obligation.
  intros [s|] u d' Hs; [|done]. simpl. unfold run_or_panic. destruct (apply_update s u) as [s' ok] eqn:E.
  intros [= <- ->]. by apply apply_update_ok in E.
Qed.
Next Obligation.
  intros [s|] u d' e Hs Hf; [|done]. unfold sync_text in *. simpl in *. rewrite Hs in Hf.
  destruct (apply_update_with_edit_ok s u Hs Hf) as (s' & res & E & Hres). unfold run_or_panic. rewrite E.
  intros [= <- ->]. destruct Hres as [Hm He]. simpl. split; [done|]. by rewrite Hs, Hm.
Qed.
Next Obligation.
  intros text id. unfold sync_text. simpl. destruct (with_client_id_ok text id) as (s & -> & Hm & Hc).
  split; [done|]. by rewrite Hm, Hc.
Qed.
Next Obligation.
  intros st id d. simpl. unfold from_state_with_client_id, from_state_doc.
  destruct (decode_v1 st); [|done]. destruct (txn_apply_update _ _) as [t []]; [|done].
  intros [= <-]. unfold mirrors, content. simpl. apply rope_from_str.
Qed.
Next Obligation.
  intros [s|] Hs; [|done]. unfold sync_text. simpl. split; [|done]. unfold mirrors, content in *. simpl.
  by rewrite y_undo_manager.
Qed.

(** ** Properties *)

(** Local edits are exact in characters. On a document whose rope shows its
    text, inserting and deleting never panic; the character offset is clamped
    to the text, converted to UTF-16 code units, and the CRDT text becomes the
    text spliced at that character, whatever surrogate pairs precede it; the
    rope shows the new text. *)
Theorem local_edits_are_char_exact s off len x :
  mirrors s -> fits_u32 (content s) ->
  let k := Nat.min (N.to_nat off) (length (content s)) in
  (exists s' u, ts_insert s off x = Some (s', u) /\ mirrors s' /\
     content s' = take k (content s) ++ x ++ drop k (content s)) /\
  (exists s' u, ts_delete s off len = Some (s', u) /\ mirrors s' /\
     content s' = take k (content s) ++ drop (k + N.to_nat len) (content s)).
Proof. intros Hm Hf k. split; [by apply insert_ok|by apply delete_ok]. Qed.

(** Reconciling reaches its target: whatever word diff the library computes,
    applying its coalesced runs at 32-bit UTF-16 offsets never panics and turns
    the text of the document into exactly the target; a document that already
    has the text is left alone and broadcasts nothing. *)
Theorem reconcile_reaches_target s target :
  mirrors s -> fits_u32 (content s) -> fits_u32 target ->
  exists s' u, reconcile_to s target = Some (s', u) /\ mirrors s' /\ content s' = target /\
    (content s = target -> s' = s /\ u = "").
Proof.
  intros Hm Hc Ht. destruct (reconcile_ok s target Hm Hc Ht) as (s' & u & E & Hm' & Hc').
  exists s', u. split_and!; try done. intros Heq. unfold reconcile_to in E.
  rewrite bool_decide_eq_true_2 in E by done. by simplify_eq.
Qed.

(** The reported position of a remote edit is sound: the call never panics;
    [Ok(None)] means that the text did not change; otherwise the texts before
    and after the update agree up to [edit_start], and [char_delta] is the
    change of length. *)
Theorem remote_edit_position_is_sound s u :
  mirrors s -> fits_u32 (content s) -> exists s' res, apply_update_with_edit s u = Some (s', res) /\
    match res with
    | Some e => mirrors s' /\ edit_sound (content s) (content s') e
    | None => True
    end.
Proof. apply apply_update_with_edit_ok. Qed.

End Laws.

(** ** Client ids *)

Lemma low53 n : N.land n (N.shiftl 1 53 - 1) = (n mod 2 ^ 53)%N.
Proof. exact (N.land_ones n 53). Qed.

(** Client ids fit the 53 bits the CRDT keeps: a clamped id is below 2^53 and
    unchanged by clamping again; a folded hash is such an id and never one of
    the sentinels 0 and 1, and a hash that already is such an id is kept. *)
Theorem client_ids_fit_yrs raw h :
  (clamp_client_id_to_yrs raw < 2 ^ 53)%N /\
  clamp_client_id_to_yrs (clamp_client_id_to_yrs raw) = clamp_client_id_to_yrs raw /\
  (2 <= fold_hash_to_yrs_client_id h < 2 ^ 53)%N /\
  clamp_client_id_to_yrs (fold_hash_to_yrs_client_id h) = fold_hash_to_yrs_client_id h /\
  ((2 <=? h)%N && (h <? 2 ^ 53)%N = true -> fold_hash_to_yrs_client_id h = h).
Proof.
  assert (Hlt : forall n, (n mod 2 ^ 53 < 2 ^ 53)%N) by (intros; by apply N.mod_lt).
  assert (Hf : forall m, (m < 2 ^ 53)%N -> (2 <= if (m =? 0)%N || (m =? 1)%N then 2 else m)%N /\
                          ((if (m =? 0)%N || (m =? 1)%N then 2 else m) < 2 ^ 53)%N).
  { intros m Hm. destruct (N.eqb_spec m 0), (N.eqb_spec m 1); cbn [orb]; lia. }
  unfold clamp_client_id_to_yrs, fold_hash_to_yrs_client_id. cbn zeta. rewrite !low53. split_and!.
  - apply Hlt.
  - by rewrite N.Div0.mod_mod.
  - apply Hf, Hlt.
  - apply Hf, Hlt.
  - apply N.mod_small, Hf, Hlt.
  - intros [H1%N.leb_le H2%N.ltb_lt]%andb_true_iff.
    rewrite N.shiftr_div_pow2, (N.div_small h) by done. rewrite N.lxor_0_r, N.mod_small by done.
    destruct (N.eqb_spec h 0), (N.eqb_spec h 1); cbn [orb]; lia.
Qed.

(** ** Witnesses *)

(** A document without concurrency: a text, updates that put text at the front
    (those that start with a less-than sign) or at the end, deltas and diffs
    that replace what follows the common prefix. *)
Module ToyCrdt.

Fixpoint common (a b : list N) : nat :=
  match a, b with
  | x :: a', y :: b' => if (x =? y)%N then S (common a' b') else 0
  | _, _ => 0
  end.

Lemma common_take a b : take (common a b) a = take (common a b) b.
Proof.
  revert b. induction a as [|x a IH]; intros [|y b]; simpl; try done.
  destruct (N.eqb_spec x y) as [->|]; [|done]. simpl. by rewrite IH.
Qed.
Lemma common_le a b : common a b <= length a.
Proof. revert b. induction a as [|x a IH]; intros [|y b]; simpl; try lia. case_match; [|lia]. specialize (IH b). lia. Qed.
Lemma common_split a b : take (common a b) a ++ drop (common a b) b = b.
Proof. by rewrite common_take, take_drop. Qed.

(** A splice at a code-unit offset; [None] inside a character. *)
Definition at_unit (s : list N) (u : N) : option nat :=
  let k := chars_before_u16 s (N.to_nat u) in
  if utf16_len (take k s) =? N.to_nat u then Some k else None.

Lemma at_unit_boundary s k : k <= length s -> at_unit s (N.of_nat (utf16_len (take k s))) = Some k.
Proof. intros Hk. unfold at_unit. by rewrite Nat2N.id, chars_before_u16_boundary, Nat.eqb_refl by done. Qed.

Record toy_txn := mkToyTxn { toy_id : N; toy_base : list N; toy_now : list N }.

#[export] Instance toy_yrs : Yrs := {|
  YDoc := N * list N;
  YTxn := toy_txn;
  YUpdate := bool * list N;
  doc_with_id id := (id, []);
  client_id d := d.1;
  get_string d := d.2;
  transact_mut _ d := mkToyTxn d.1 d.2 d.2;
  text_insert t u s :=
    let? k := at_unit (toy_now t) u in
    Some (mkToyTxn (toy_id t) (toy_base t) (take k (toy_now t) ++ s ++ drop k (toy_now t)));
  remove_range t u n :=
    let? k := at_unit (toy_now t) u in
    let? m := at_unit (drop k (toy_now t)) n in
    Some (mkToyTxn (toy_id t) (toy_base t) (take k (toy_now t) ++ drop (k + m) (toy_now t)));
  txn_apply_update t up :=
    (mkToyTxn (toy_id t) (toy_base t) (if up.1 then up.2 ++ toy_now t else toy_now t ++ up.2), true);
  txn_text := toy_now;
  txn_base := toy_base;
  txn_delta t :=
    if bool_decide (toy_base t = toy_now t) then []
    else let k := common (toy_base t) (toy_now t) in
         [Retain (N.of_nat (utf16_len (take k (toy_base t))));
          Deleted (N.of_nat (utf16_len (drop k (toy_base t))));
          Inserted (drop k (toy_now t))];
  encode_update_v1 _ := "u";
  commit _ t := ((toy_id t, toy_now t), ["u"]);
  decode_v1 s := match s with
                 | EmptyString => None
                 | String "<" r => Some (true, ListRope.ascii_text r)
                 | _ => Some (false, ListRope.ascii_text s)
                 end;
  doc_state_vector _ := "";
  decode_state_vector _ := None;
  empty_state_vector := "";
  encode_state_as_update _ _ := "";
  undo_manager d := d;
  undo_blocking d := (d, false, [], None);
  redo_blocking d := (d, false, [], None);
  mgr_can_undo _ := false;
  mgr_can_redo _ := false;
  mgr_reset d := d;
  mgr_clear_all d := d;
|}.

Lemma toy_delta_law (base now : list N) :
  let k := common base now in
  let ds := [Retain (N.of_nat (utf16_len (take k base))); Deleted (N.of_nat (utf16_len (drop k base)));
             Inserted (drop k now)] in
  delta_ok ds base /\ apply_delta ds base = now.
Proof.
  intros k ds. pose proof (common_le base now) as Hk. fold k in Hk.
  assert (Hall : chars_before_u16 (drop k base) (utf16_len (drop k base)) = length (drop k base)).
  { rewrite <- (firstn_all (drop k base)) at 2. by rewrite chars_before_u16_boundary. }
  split.
  - exists k. split_and!; [done|done|]. exists (length (drop k base)). by rewrite firstn_all.
  - cbn [ds apply_delta]. rewrite !Nat2N.id, chars_before_u16_boundary, Hall, drop_all, app_nil_r by done.
    apply common_split.
Qed.

#[export] Instance toy_yrs_laws : YrsLaws.
Proof.
  split; simpl; try (by intros; simplify_eq/=).
  - intros t k s Hk. rewrite at_unit_boundary by done. eauto.
  - intros t k n Hk. rewrite at_unit_boundary by lia.
    rewrite at_unit_boundary by (rewrite length_drop; lia). eauto.
  - intros t. case_bool_decide as E; [by rewrite E|]. apply toy_delta_law.
Qed.

#[export] Instance toy_diff : WordDiff := {|
  from_words a b := let k := common a b in [(Equal, take k a); (Delete, drop k a); (Insert, drop k b)];
|}.
#[export] Instance toy_diff_laws : WordDiffLaws.
Proof.
  split; intros a b; unfold side; simpl; rewrite ?app_nil_r; [apply take_drop|apply common_split].
Qed.

End ToyCrdt.

Module CollabWitnesses.
Import ListRope ListRopeUtf16 ToyCrdt.

(** A document with a grinning face (two code units) in front of the text. *)
Definition face : list N := [128512; 97; 98]%N.
Definition sample : TextSync (list N) := from_doc (7%N, face).

(** Character offset 1 is code unit 2. *)
Lemma local_edits_are_char_exact_witness :
  char_to_utf16_offset sample 1 = Some 2%N /\
  (exists s' u, ts_insert sample 1 [120%N] = Some (s', u) /\ mirrors s' /\
     content s' = take 1 face ++ [120%N] ++ drop 1 face) /\
  (exists s' u, ts_delete sample 1 1 = Some (s', u) /\ mirrors s' /\
     content s' = take 1 face ++ drop (1 + 1) face).
Proof.
  split; [by vm_compute|]. exact (local_edits_are_char_exact sample 1 1 [120%N] eq_refl eq_refl).
Defined.

Lemma reconcile_reaches_target_witness :
  exists s' u, reconcile_to sample (ascii_text "ab") = Some (s', u) /\ mirrors s' /\
    content s' = ascii_text "ab" /\ (content sample = ascii_text "ab" -> s' = sample /\ u = "").
Proof. exact (reconcile_reaches_target sample (ascii_text "ab") eq_refl eq_refl eq_refl). Defined.

(** A peer appends to the text: the edit starts at its end. *)
Lemma remote_edit_position_is_sound_witness :
  snd <$> apply_update_with_edit sample "yz" = Some (Some (Some (mkApplied 3 2))) /\
  exists s' res, apply_update_with_edit sample "yz" = Some (s', res) /\
    match res with
    | Some e => mirrors s' /\ edit_sound (content sample) (content s') e
    | None => True
    end.
Proof.
  split; [vm_compute; reflexivity|]. exact (remote_edit_position_is_sound sample "yz" eq_refl eq_refl).
Defined.

End CollabWitnesses.
