(* ===== verification/BufferSync.v ===== *)
(** * BufferSync: a shared buffer shows its document

    A buffer that is shared edits two things: its rope and its collaborative
    document. The theorems here are proved against the interface [SyncDoc] and
    its laws, and hold for the document of [CollabText], which implements it:
    the two texts stay equal under local edits, undo, reloads, sharing and
    remote updates; and they say what a remote update does to cursors. *)
From S2P Require Import Prelude Rope Grapheme Buffer BufferHistory CollabText.

Section Shared.
Context {R Doc : Type} `{RopeLaws R, !SyncDoc R Doc, !SyncLaws R Doc, ContentHash, SegmentationLaws}.
Implicit Types (b : Buffer R Doc) (d : Doc).

(** ** What an edit does to the rope and to the document *)

Lemma rope_push_undo b a : rope (push_undo b a) = rope b.
Proof. unfold push_undo. by destruct (undo_group_acc b). Qed.
Lemma sync_push_undo b a : sync_doc (push_undo b a) = sync_doc b.
Proof. unfold push_undo. by destruct (undo_group_acc b). Qed.
Lemma rope_sync_insert b p s : rope (sync_insert b p s) = rope b.
Proof. unfold sync_insert. destruct (sync_doc b) as [d|]; [|done]. by destruct (sync_doc_insert _ _ _). Qed.
Lemma rope_sync_delete b p n : rope (sync_delete b p n) = rope b.
Proof. unfold sync_delete. destruct (sync_doc b) as [d|]; [|done]. by destruct (sync_doc_delete _ _ _). Qed.
Lemma rope_sync_rebuild b : rope (sync_rebuild_from_rope b) = rope b.
Proof. unfold sync_rebuild_from_rope. destruct (sync_doc b) as [d|]; [|done]. by destruct (sync_reconcile_to _ _). Qed.
(** [b'] is [b] with a string spliced in, in both places. *)
Definition inserted b p s b' : Prop :=
  insert (rope b) p s = Some (rope b') /\
  exists b1, rope b1 = rope b' /\ sync_doc b1 = sync_doc b /\ sync_doc b' = sync_doc (sync_insert b1 p s).
Definition deleted b p e b' : Prop :=
  remove (rope b) p e = Some (rope b') /\
  exists b1, rope b1 = rope b' /\ sync_doc b1 = sync_doc b /\ sync_doc b' = sync_doc (sync_delete b1 p (e - p)).

(** Read a field through the assignments of an operation. *)
Ltac fields :=
  repeat (cbn [rope sync_doc bump_generation set_modified set_stacks set_saved set_changed set_rope edited
               clear_redo mark_changed];
          rewrite ?rope_push_undo, ?sync_push_undo, ?rope_sync_insert, ?rope_sync_delete, ?rope_sync_rebuild).

Lemma inserted_intro b b' p s r :
  insert (rope b) p s = Some r -> rope b' = r -> sync_doc b' = sync_doc (sync_insert (set_rope b r) p s) ->
  inserted b p s b'.
Proof. intros Hi <- Es. split; [done|]. by exists (set_rope b (rope b')). Qed.
Lemma deleted_intro b b' p e r n :
  remove (rope b) p e = Some r -> rope b' = r -> n = e - p ->
  sync_doc b' = sync_doc (sync_delete (set_rope b r) p n) -> deleted b p e b'.
Proof. intros Hi <- -> Es. split; [done|]. by exists (set_rope b (rope b')). Qed.

Ltac shape := fields; first [done | lia].

Ltac both_insert H :=
  op_cases H; try (by left); right; left; eexists _, _; eapply inserted_intro; [eassumption|shape..].
Ltac both_delete H :=
  op_cases H; try (by left); right; right; eexists _, _; eapply deleted_intro;
    [eassumption|shape| |shape]; lia.

Lemma edit_op_both b w b' : edit_op b w b' ->
  b' = b \/ (exists p s, inserted b p s b') \/ (exists p e, deleted b p e b').
Proof.
  destruct 1 as [ch b' w' He|b' w' He|b' w' He|b' w' s He|b' w' He|b' w' He|b' w' He|p s b' He|p e b' He|b' w' He|b' w' He].
  - unfold insert_char in He. both_insert He.
  - unfold delete_char_backward in He. both_delete He.
  - unfold delete_char_forward in He. both_delete He.
  - unfold delete_line in He. both_delete He.
  - unfold delete_word_backward in He. both_delete He.
  - unfold delete_to_line_start in He. both_delete He.
  - unfold delete_to_line_end in He. both_delete He.
  - unfold insert_text_at in He. both_insert He.
  - unfold delete_range in He. both_delete He.
  - unfold open_line_below in He. both_insert He.
  - unfold open_line_above in He. both_insert He.
Qed.

(** ** The mirror invariant *)

(** The document is in order and has the text the buffer shows. *)
Definition synced b : Prop :=
  match sync_doc b with Some d => sync_ok d /\ sync_text d = text b | None => True end.

(** Texts of less than 2 GiB of UTF-16: offsets of the CRDT are 32-bit. *)
Definition small (t : list N) : Prop := (N.of_nat (utf16_len t) < 2147483648)%N.

Lemma small_fits t : small t -> fits_u32 t.
Proof. unfold small, fits_u32. lia. Qed.
Lemma small_app t u : small t -> small u -> fits_u32 (t ++ u).
Proof. unfold small, fits_u32. rewrite utf16_len_app. lia. Qed.
Lemma as_u32_id n t : small t -> n <= length t -> as_u32 n = N.of_nat n.
Proof.
  unfold small, as_u32. intros Hs Hn. apply N.mod_small. pose proof (length_utf16_len t). lia.
Qed.

Lemma synced_inserted b p s b' : small (text b) -> inserted b p s b' -> synced b -> synced b'.
Proof.
  intros Hsm [Hi (b1 & Er & Es & Ed)] Hs. unfold synced in *. rewrite Ed. unfold sync_insert. rewrite Es.
  destruct (sync_doc b) as [d|]; [|by rewrite Es].
  destruct Hs as [Hok Ht]. apply insert_inv in Hi as [Hp Htext].
  destruct (law_cursor d (as_u32 p) Hok) as [Hok1 Ht1].
  destruct (law_insert (sync_set_cursor_offset d (as_u32 p)) p s Hok1) as [Hok2 Ht2];
    [rewrite Ht1, Ht; by apply small_fits|by rewrite Ht1, Ht|].
  rewrite (as_u32_id p (text b)) in * by done.
  destruct (sync_doc_insert _ _ _) as [d' u]. simpl in *. split; [done|].
  rewrite Ht2, Ht1, Ht. unfold text in *. by rewrite Htext.
Qed.

Lemma synced_deleted b p e b' : small (text b) -> deleted b p e b' -> synced b -> synced b'.
Proof.
  intros Hsm [Hi (b1 & Er & Es & Ed)] Hs. unfold synced in *. rewrite Ed. unfold sync_delete. rewrite Es.
  destruct (sync_doc b) as [d|]; [|by rewrite Es].
  destruct Hs as [Hok Ht]. pose proof (rope_remove (rope b) p e) as Hr. rewrite Hi in Hr. simpl in Hr.
  destruct ((p <=? e) && (e <=? length (rope_chars (rope b)))) eqn:Hb; [|done].
  apply andb_true_iff in Hb as [Hpe%Nat.leb_le He%Nat.leb_le]. injection Hr as Hr.
  destruct (law_cursor d (as_u32 p) Hok) as [Hok1 Ht1].
  destruct (law_delete (sync_set_cursor_offset d (as_u32 p)) p (e - p) Hok1) as [Hok2 Ht2];
    [rewrite Ht1, Ht; by apply small_fits|rewrite Ht1, Ht; unfold text; lia|].
  rewrite (as_u32_id p (text b)), (as_u32_id (e - p) (text b)) in * by (try done; unfold text; lia).
  destruct (sync_doc_delete _ _ _) as [d' u]. simpl in *. split; [done|].
  rewrite Ht2, Ht1, Ht. unfold text in *. rewrite Hr. do 2 f_equal. lia.
Qed.

Lemma synced_rebuild b t :
  small t -> small (text b) -> match sync_doc b with Some d => sync_ok d /\ sync_text d = t | None => True end ->
  synced (sync_rebuild_from_rope b).
Proof.
  intros Hsm Hsm' Hs. unfold synced, sync_rebuild_from_rope. destruct (sync_doc b) as [d|] eqn:Ed; [|by rewrite Ed].
  destruct Hs as [Hok Ht]. destruct (law_reconcile d (text b) Hok) as [Hok' Ht'].
  { rewrite Ht. by apply small_app. }
  fold (text b). destruct (sync_reconcile_to d (text b)) as [d' u]. by split.
Qed.

Lemma synced_same b b' : rope b' = rope b -> sync_doc b' = sync_doc b -> synced b -> synced b'.
Proof. intros Er Es. unfold synced, text. by rewrite Er, Es. Qed.

(** *** Undo, redo and the other operations *)

Lemma synced_crdt b w d res b' w' :
  sync_ok d -> (success res = false -> sync_text d = text b) ->
  crdt_result b w d res = Some (b', w') -> synced b'.
Proof.
  intros Hok Hf He. unfold crdt_result in He. destruct (success res); simpl in He.
  - op_cases He; by split.
  - simplify_eq. split; [done|]. by apply Hf.
Qed.

(** Replacing the rope and reconciling the document with it. *)
Lemma synced_replayed b b1 b' :
  small (text b) -> small (text b') -> sync_doc b1 = sync_doc b ->
  rope b' = rope b1 -> sync_doc b' = sync_doc (sync_rebuild_from_rope b1) ->
  synced b -> synced b'.
Proof.
  intros H1' H2' Es Er Ed Hs. apply (synced_same (sync_rebuild_from_rope b1)); [by rewrite rope_sync_rebuild|done|].
  apply (synced_rebuild b1 (text b)); [done|unfold text in *; by rewrite <- Er|]. by rewrite Es.
Qed.

Ltac replaced b :=
  eapply (synced_replayed b); [eassumption|eassumption| | | |eassumption];
  [| |fields; reflexivity]; fields; done.

Lemma synced_undo b w b' w' :
  small (text b) -> small (text b') -> undo b w = Some (b', w') -> synced b -> synced b'.
Proof.
  intros H1' H2' He Hs. assert (Hstack : undo_stack_step b w = Some (b', w') -> synced b').
  { intros E. unfold undo_stack_step in E. op_cases E; [|done]. replaced b. }
  unfold undo in He. destruct (sync_doc b) as [d|] eqn:Ed; [|by apply Hstack].
  destruct (sync_undo_mgr_active d); [|by apply Hstack].
  unfold synced in Hs. rewrite Ed in Hs. destruct Hs as [Hok Ht]. destruct (law_undo d Hok) as [Hok' Hf].
  destruct (sync_undo d) as [d' res]. eapply synced_crdt; [exact Hok'| |exact He]. simpl in Hf. by rewrite <- Ht.
Qed.

Lemma synced_redo b w b' w' :
  small (text b) -> small (text b') -> redo b w = Some (b', w') -> synced b -> synced b'.
Proof.
  intros H1' H2' He Hs. assert (Hstack : redo_stack_step b w = Some (b', w') -> synced b').
  { intros E. unfold redo_stack_step in E. op_cases E; [|done]. replaced b. }
  unfold redo in He. destruct (sync_doc b) as [d|] eqn:Ed; [|by apply Hstack].
  destruct (sync_undo_mgr_active d); [|by apply Hstack].
  unfold synced in Hs. rewrite Ed in Hs. destruct Hs as [Hok Ht]. destruct (law_redo d Hok) as [Hok' Hf].
  destruct (sync_redo d) as [d' res]. eapply synced_crdt; [exact Hok'| |exact He]. simpl in Hf. by rewrite <- Ht.
Qed.

Lemma synced_end_undo_group b : synced b -> synced (end_undo_group b).
Proof.
  intros Hs. unfold end_undo_group, sync_undo_boundary.
  set (b1 := match undo_group_acc b with Some actions => _ | None => b end).
  assert (Hs1 : synced b1) by (unfold b1; destruct (undo_group_acc b); by apply (synced_same b)).
  clearbody b1. destruct (sync_doc b1) as [d|] eqn:Ed; [|done].
  unfold synced in *. rewrite Ed in Hs1. destruct Hs1 as [Hok Ht]. simpl.
  destruct (law_undo_reset d Hok) as [? Hr]. split; [done|]. by rewrite Hr.
Qed.

Lemma synced_enable b id : synced (enable_sync b id).
Proof.
  unfold enable_sync, synced. simpl. destruct (law_with_client_id (rope_chars (rope b)) id) as [Hok Ht].
  destruct (law_enable_undo _ Hok) as [Hok' Ht']. split; [done|]. by rewrite Ht', Ht.
Qed.

Lemma synced_load b st id b' : load_sync_state b st id = Some b' -> synced b'.
Proof.
  unfold load_sync_state. destruct (sync_from_state st id) as [d|] eqn:E; [|done]. intros [= <-].
  apply law_from_state in E. destruct (law_enable_undo d E) as [Hok Ht]. by split.
Qed.

Lemma synced_update b u b' : apply_sync_update b u = (b', true) -> synced b -> synced b'.
Proof.
  unfold apply_sync_update, synced. destruct (sync_doc b) as [d|] eqn:Ed; [|done].
  destruct (sync_apply_update d u) as [d' []] eqn:E; simpl; [|done]. intros [= <-] [Hok _].
  by apply law_apply_update in E.
Qed.

(** A remote update with cursors: the invariant, and where the edit was. *)
Lemma update_with_cursors b u cs b' cs' :
  small (text b) -> synced b -> apply_sync_update_with_cursors b u cs = (b', Some cs') ->
  synced b' /\ exists e, edit_sound (text b) (text b') e /\
    cs' = map (adjust_cursor e (length (text b'))) cs.
Proof.
  unfold apply_sync_update_with_cursors, synced. intros Hsm. destruct (sync_doc b) as [d|] eqn:Ed; [|done].
  intros [Hok Ht]. destruct (sync_apply_update_with_edit d u) as [d' [e|]] eqn:E; [|done].
  apply law_apply_update_with_edit in E as [Hok' He]; [|done|rewrite Ht; by apply small_fits].
  intros [= <- <-]. simpl. rewrite rope_len_chars. split; [done|]. exists e. rewrite <- Ht. by split.
Qed.

(** ** The shared buffer as a transition system *)

Inductive shared_step b : Buffer R Doc -> Prop :=
  | sh_edit w b' : edit_op b w b' -> shared_step b b'
  | sh_undo w b' w' : undo b w = Some (b', w') -> shared_step b b'
  | sh_redo w b' w' : redo b w = Some (b', w') -> shared_step b b'
  | sh_begin : shared_step b (begin_undo_group b)
  | sh_end : shared_step b (end_undo_group b)
  | sh_saved : shared_step b (saved b)
  | sh_reload content : shared_step b (reload b content)
  | sh_replace_rope r : shared_step b (replace_rope b r)
  | sh_replace_contents s : shared_step b (replace_contents b s)
  | sh_enable id : shared_step b (enable_sync b id)
  | sh_load st id b' : load_sync_state b st id = Some b' -> shared_step b b'
  | sh_disable : shared_step b (disable_sync b).1
  | sh_update u b' : apply_sync_update b u = (b', true) -> shared_step b b'
  | sh_update_cursors u cs b' cs' :
      apply_sync_update_with_cursors b u cs = (b', Some cs') -> shared_step b b'
  | sh_rebuild : shared_step b (rebuild_rope_from_sync b)
  | sh_toggle_fold ln ranges : shared_step b (toggle_fold_at b ln ranges)
  | sh_fold_all ranges : shared_step b (fold_all b ranges)
  | sh_unfold_all : shared_step b (unfold_all b)
  | sh_narrow start end_ : shared_step b (narrow_to b start end_)
  | sh_widen : shared_step b (widen b).

Definition small_step b b' : Prop := shared_step b b' /\ small (text b) /\ small (text b').

Lemma synced_step b b' : small_step b b' -> synced b -> synced b'.
Proof.
  intros (Hst & H1' & H2') Hs. destruct Hst.
  - match goal with He : edit_op _ _ _ |- _ => destruct (edit_op_both _ _ _ He) as [->|[(?&?&?)|(?&?&?)]] end;
      [done|by eapply (synced_inserted b)|by eapply (synced_deleted b)].
  - by eapply (synced_undo b).
  - by eapply (synced_redo b).
  - by apply (synced_same b).
  - by apply synced_end_undo_group.
  - by apply (synced_same b).
  - unfold reload in *. replaced b.
  - unfold replace_rope in *. replaced b.
  - unfold replace_contents in *. replaced b.
  - apply synced_enable.
  - by eapply synced_load.
  - done.
  - by eapply (synced_update b).
  - by eapply (update_with_cursors b).
  - unfold rebuild_rope_from_sync, synced in *. destruct (sync_doc b) as [d|] eqn:Ed; [|by rewrite Ed].
    simpl. rewrite Ed. split; [apply Hs|done].
  - unfold toggle_fold_at. repeat case_match; by apply (synced_same b).
  - by apply (synced_same b).
  - by apply (synced_same b).
  - unfold narrow_to. case_match; by apply (synced_same b).
  - by apply (synced_same b).
Qed.

(** ** Cursors *)

(** What [adjust_cursor] guarantees of a cursor [c] that became [c'], when [e]
    describes the change from [old] to [new]: it stays in the text; it does not
    move when the text did not change or changed behind it; and behind a single
    replaced stretch it stays on its character. *)
Definition cursor_kept (old new : list N) (e : option AppliedEdit) (c c' : nat) : Prop :=
  c' <= length new /\
  match e with
  | None => c <= length old -> c' = c
  | Some e =>
      let k := edit_start e in
      (c <= k -> c < length new -> c' = c) /\
      (forall x m, new = take k old ++ x ++ drop (k + m) old ->
         k < c -> k + m <= c -> c < length old -> new !! c' = old !! c)
  end.

Lemma adjust_cursor_kept old new e c :
  edit_sound old new e -> cursor_kept old new e c (adjust_cursor e (length new) c).
Proof.
  unfold edit_sound, cursor_kept, adjust_cursor. destruct e as [[k delta]|]; cbn [edit_start char_delta].
  2: { intros ->. lia. }
  intros (Hk & Htake & Hdelta). split; [lia|]. split.
  { intros Hc Hlt. rewrite (proj2 (Nat.leb_le _ _)) by done. lia. }
  intros x m Hnew Hkc Hmc Hold. rewrite (proj2 (Nat.leb_gt _ _)) by done.
  assert (Hlen : length new = k + length x + (length old - (k + m))).
  { rewrite Hnew, !length_app, length_take, length_drop. lia. }
  set (c' := Nat.min _ _). assert (Hc' : c' = k + length x + (c - (k + m))) by (unfold c'; lia).
  rewrite Hc', Hnew. rewrite lookup_app_r by (rewrite length_take; lia).
  rewrite lookup_app_r by (rewrite length_take; lia). rewrite lookup_drop, length_take. f_equal. lia.
Qed.

(** ** Properties *)

(** A remote update keeps the cursors: when it is applied to a buffer that
    shows its document, every adjusted cursor stays inside the new text; it
    does not move when nothing changed or when the first change is at or after
    it; and a cursor behind a single replaced stretch of the old text stays on
    the character it was on. *)
Theorem remote_update_keeps_cursors b u cs b' cs' :
  small (text b) -> synced b -> apply_sync_update_with_cursors b u cs = (b', Some cs') ->
  exists e, edit_sound (text b) (text b') e /\ Forall2 (cursor_kept (text b) (text b') e) cs cs'.
Proof.
  intros Hsm Hs E. destruct (update_with_cursors b u cs b' cs' Hsm Hs E) as (_ & e & He & ->).
  exists e. split; [done|]. apply Forall2_fmap_r, Forall_Forall2_diag, Forall_forall.
  intros c _. by apply adjust_cursor_kept.
Qed.

End Shared.

Section Collab.
Context {R : Type} `{RopeLaws R, !RopeUtf16 R, !RopeUtf16Laws R, YrsLaws, WordDiffLaws,
  ContentHash, SegmentationLaws}.

(** C38. A shared buffer shows its document. From a buffer that is not shared, by
    any sequence of edits, undos, redos, saves, reloads, replacements, of
    starting and stopping to share, of joining a shared text, and of remote
    updates, the text the buffer shows is the text of its CRDT document; in
    particular no operation of the document has panicked. *)
Theorem shared_buffer_shows_document (b0 b : Buffer R (option (TextSync R))) :
  sync_doc b0 = None -> rtc small_step b0 b ->
  match sync_doc b with
  | None => True
  | Some d => exists s, d = Some s /\ content s = text b /\ mirrors s
  end.
Proof.
  intros H0b Hr. assert (Hs : synced b).
  { assert (Hs0 : synced b0) by (unfold synced; by rewrite H0b). clear H0b.
    induction Hr as [|b0 b1 b Hst _ IH]; [done|]. by apply IH, (synced_step b0). }
  unfold synced in Hs. destruct (sync_doc b) as [[s|]|]; [|by destruct Hs|done].
  destruct Hs as [Hm Ht]. exists s. split_and!; [done| |done].
  unfold sync_text in Ht. simpl in Ht, Hm. by rewrite <- Ht, Hm.
Qed.

End Collab.

(** ** Witnesses and a counterexample *)

Module SyncWitnesses.
Import ListRope ListRopeUtf16 ToyCrdt.
#[local] Existing Instance ToySegmentation.toy_segmentation.
#[local] Existing Instance ToySegmentation.toy_segmentation_laws.
#[local] Instance no_hash : ContentHash := {| compute_content_hash _ := "" |}.

Definition shared : Type := Buffer (list N) (option (TextSync (list N))).
Definition plain (s : string) : shared := from_content (ascii_text s).

(** Share a text, then a peer appends to it. *)
Lemma shared_buffer_shows_document_witness :
  exists b : shared, rtc small_step (plain "ab") b /\ text b = ascii_text "abyz" /\
    match sync_doc b with
    | None => True
    | Some d => exists s, d = Some s /\ content s = text b /\ mirrors s
    end.
Proof.
  set (b1 := enable_sync (plain "ab") 7). set (b2 := (apply_sync_update b1 "yz").1).
  assert (Hr : rtc small_step (plain "ab") b2).
  { eapply rtc_l; [split; [apply (sh_enable _ 7)|by split]|]. apply rtc_once. split; [|by split].
    by apply (sh_update _ "yz"). }
  exists b2. split_and!; [done|done|].
  exact (shared_buffer_shows_document (plain "ab") b2 eq_refl Hr).
Defined.

(** A peer puts x in front: the cursor on b follows it. *)
Lemma remote_update_keeps_cursors_witness :
  let b1 := enable_sync (plain "ab") 7 in
  exists (b' : shared) cs', apply_sync_update_with_cursors b1 "<x" [1] = (b', Some cs') /\ cs' = [2] /\
    exists e, edit_sound (text b1) (text b') e /\ Forall2 (cursor_kept (text b1) (text b') e) [1] cs'.
Proof.
  intros b1. destruct (apply_sync_update_with_cursors b1 "<x" [1]) as [b' [cs'|]] eqn:E.
  2: { apply (f_equal snd) in E. vm_compute in E. discriminate E. }
  exists b', cs'. split_and!; [done| |].
  - apply (f_equal snd) in E. vm_compute in E. by simplify_eq.
  - exact (remote_update_keeps_cursors b1 "<x" [1] b' cs' eq_refl (synced_enable _ _) E).
Defined.

(** A cursor at the end of the text is pulled back: when a peer inserts in
    front of it, the cursor of an appending user lands before the last
    character of the text instead of behind it. *)
Theorem remote_update_pulls_end_cursor :
  let b1 := enable_sync (plain "ab") 7 in
  len_chars (rope b1) = 2 /\
  snd (apply_sync_update_with_cursors b1 "<x" [2]) = Some [2] /\
  text (fst (apply_sync_update_with_cursors b1 "<x" [2])) = ascii_text "xab".
Proof. by vm_compute. Qed.

End SyncWitnesses.
