(* ===== verification/Keymap.v ===== *)
(** * Keymap: key sequences, keymaps and the macro text format

    Models [crates/core/src/keymap.rs]. Text is a list of characters. Lowercasing
    is a table lookup of the standard library (class [Lowercase]); the command
    registry that labels the which-key popup and the debug text it sorts by are
    arguments of [which_key_entries]. A [HashMap] is a [gmap]; where the code
    iterates over one, the iteration order is an argument. *)
From S2P Require Import Prelude Rope.

Inductive Key :=
  | Char (ch : N) | Escape | Enter | Backspace | Tab | BackTab | Up | Down | Left | Right
  | Home | End_ | PageUp | PageDown | Delete | F (n : N).
#[export] Instance Key_eq_dec : EqDecision Key.
Proof. solve_decision. Defined.

(** [named] keys by position, for the encoding into positives. *)
Definition plain_keys : list Key :=
  [Escape; Enter; Backspace; Tab; BackTab; Up; Down; Left; Right; Home; End_; PageUp; PageDown; Delete].
Definition key_code (k : Key) : N + (N + nat) :=
  match k with
  | Char c => inl c
  | F n => inr (inl n)
  | Escape => inr (inr 0) | Enter => inr (inr 1) | Backspace => inr (inr 2) | Tab => inr (inr 3)
  | BackTab => inr (inr 4) | Up => inr (inr 5) | Down => inr (inr 6) | Left => inr (inr 7)
  | Right => inr (inr 8) | Home => inr (inr 9) | End_ => inr (inr 10) | PageUp => inr (inr 11)
  | PageDown => inr (inr 12) | Delete => inr (inr 13)
  end.
Definition key_decode (c : N + (N + nat)) : Key :=
  match c with
  | inl c => Char c
  | inr (inl n) => F n
  | inr (inr i) => default Escape (plain_keys !! i)
  end.
#[export] Instance Key_countable : Countable Key.
Proof. apply (inj_countable' key_code key_decode). by intros []. Defined.

Record KeyPress := mkKey { key : Key; ctrl : bool; alt : bool; shift : bool }.
#[export] Instance KeyPress_eq_dec : EqDecision KeyPress.
Proof. solve_decision. Defined.
#[export] Instance KeyPress_countable : Countable KeyPress.
Proof.
  apply (inj_countable' (fun k => (key k, ctrl k, alt k, shift k))
    (fun '(k, c, a, s) => mkKey k c a s)). by intros [].
Defined.

Definition char_key (ch : N) : KeyPress := mkKey (Char ch) false false false.
Definition ctrl_key (ch : N) : KeyPress := mkKey (Char ch) true false false.
Definition special (k : Key) : KeyPress := mkKey k false false false.

(** ** Keymaps *)

Inductive LookupResult := Exact (cmd : string) | Prefix | NoMatch.

Record Keymap := mkKeymap {
  name : string;
  parent : option string;
  bindings : gmap (list KeyPress) string;
  prefixes : gset (list KeyPress);
  group_names : gmap (list KeyPress) string;
}.

Definition new_keymap (nm : string) : Keymap := mkKeymap nm None ∅ ∅ ∅.
Definition with_parent (nm par : string) : Keymap := mkKeymap nm (Some par) ∅ ∅ ∅.

(** [for i in 1..seq.len() { prefixes.insert(seq[..i]) }]. *)
Definition proper_prefixes (seq : list KeyPress) : list (list KeyPress) :=
  map (fun i => take i seq) (List.seq 1 (length seq - 1)).

Definition bind (km : Keymap) (sq : list KeyPress) (command : string) : Keymap * option string :=
  (mkKeymap (name km) (parent km) (<[sq := command]> (bindings km))
     (prefixes km ∪ list_to_set (proper_prefixes sq)) (group_names km),
   bindings km !! sq).

Definition lookup_key (km : Keymap) (sq : list KeyPress) : LookupResult :=
  if bool_decide (sq ∈ prefixes km) then Prefix
  else match bindings km !! sq with Some cmd => Exact cmd | None => NoMatch end.

Definition exact_match (km : Keymap) (sq : list KeyPress) : option string := bindings km !! sq.

Definition unbind (km : Keymap) (sq : list KeyPress) : Keymap :=
  mkKeymap (name km) (parent km) (delete sq (bindings km)) (prefixes km) (group_names km).

Definition set_group_name (km : Keymap) (prefix : list KeyPress) (label : string) : Keymap :=
  mkKeymap (name km) (parent km) (bindings km) (prefixes km) (<[prefix := label]> (group_names km)).

Record WhichKeyEntry := mkEntry { e_key : KeyPress; label : string; is_group : bool; doc : option string }.

(** One iteration of the loop of [which_key_entries] over the bindings;
    [command name] is the label and the doc string of a registered command. *)
Definition which_key_step (km : Keymap) (prefix : list KeyPress)
    (command : string -> option (string * string)) (debug : KeyPress -> string)
    (seen : gmap string WhichKeyEntry) (binding : list KeyPress * string) : gmap string WhichKeyEntry :=
  let '(sq, cmd_name) := binding in
  let next_idx := length prefix in
  if length sq <=? next_idx then seen
  else if negb (bool_decide (take next_idx sq = prefix)) then seen
  else match sq !! next_idx with
       | None => seen
       | Some next_key =>
           let sort_key := debug next_key in
           if bool_decide (is_Some (seen !! sort_key)) then seen
           else if length sq =? next_idx + 1 then
             let lbl := match command cmd_name with Some (l, _) => l | None => cmd_name end in
             <[sort_key := mkEntry next_key lbl false (snd <$> command cmd_name)]> seen
           else
             let lbl := default "+..." (group_names km !! (prefix ++ [next_key])) in
             <[sort_key := mkEntry next_key lbl true None]> seen
       end.

(** The entries by sort key; [order] is the order in which the hash map
    yields its bindings. *)
Definition which_key_entries (km : Keymap) (prefix : list KeyPress)
    (command : string -> option (string * string)) (debug : KeyPress -> string)
    (order : list (list KeyPress * string)) : gmap string WhichKeyEntry :=
  foldl (which_key_step km prefix command debug) ∅ order.

(** [snapshot_all_keymaps]. *)
Definition snapshot_all_keymaps (keymaps : gmap string Keymap)
    : gmap (string * list KeyPress) string :=
  foldl (fun snap '(nm, km) =>
           foldl (fun snap '(sq, cmd) => <[(nm, sq) := cmd]> snap) snap (map_to_list (bindings km)))
    ∅ (map_to_list keymaps).

(** ** Text *)

Definition txt := ListRope.ascii_text.

(** [s.strip_prefix(p)], [s.starts_with(p)]. *)
Fixpoint strip (p s : list N) : option (list N) :=
  match p, s with
  | [], _ => Some s
  | a :: p', b :: s' => if bool_decide (a = b) then strip p' s' else None
  | _ :: _, [] => None
  end.

Definition is_ascii_alphabetic (c : N) : bool :=
  ((65 <=? c) && (c <=? 90) || (97 <=? c) && (c <=? 122))%N.
Definition is_ascii_digit (c : N) : bool := ((48 <=? c) && (c <=? 57))%N.

(** The digit loop of [parse::<u8>]. *)
Fixpoint u8_digits (acc : N) (s : list N) : option N :=
  match s with
  | [] => Some acc
  | c :: s' => if is_ascii_digit c && (10 * acc + (c - 48) <=? 255)%N
               then u8_digits (10 * acc + (c - 48))%N s' else None
  end.

(** [s.parse::<u8>().ok()]: an optional plus sign, then at least one digit. *)
Definition parse_u8 (s : list N) : option N :=
  let body := match s with c :: s' => if bool_decide (c = 43%N) then s' else s | [] => [] end in
  match body with [] => None | _ => u8_digits 0 body end.

(** The longest prefix of digits, and the rest. *)
Fixpoint span (f : N -> bool) (s : list N) : list N * list N :=
  match s with
  | [] => ([], [])
  | c :: s' => if f c then let '(a, b) := span f s' in (c :: a, b) else ([], s)
  end.

Class Lowercase := { to_lowercase : list N -> list N }.

(** On ASCII text lowercasing maps the letters A to Z. *)
Definition ascii_lower (c : N) : N := if ((65 <=? c) && (c <=? 90))%N then (c + 32)%N else c.
Class LowercaseLaws `{Lowercase} : Prop := {
  lowercase_ascii : forall s, Forall (fun c => c < 128)%N s -> to_lowercase s = map ascii_lower s;
}.

Definition named_keys : list (list N * Key) :=
  [(txt "escape", Escape); (txt "enter", Enter); (txt "backspace", Backspace); (txt "tab", Tab);
   (txt "backtab", BackTab); (txt "up", Up); (txt "down", Down); (txt "left", Left);
   (txt "right", Right); (txt "home", Home); (txt "end", End_); (txt "pageup", PageUp);
   (txt "pagedown", PageDown); (txt "delete", Delete)].

(** The name at the start of [s], as a whole word. *)
Definition name_at (s nm : list N) : bool :=
  match strip nm s with
  | Some [] => true
  | Some (c :: _) => negb (is_ascii_alphabetic c)
  | None => false
  end.

(** The returned length counts bytes of ASCII text, that is characters. *)
Definition match_named_key (s : list N) : option (Key * nat) :=
  if name_at s (txt "spc") then Some (Char 32, 3)
  else match List.find (fun '(nm, _) => name_at s nm) named_keys with
       | Some (nm, k) => Some (k, length nm)
       | None =>
           let? rest := strip (txt "f") s in
           let '(digits, tail) := span is_ascii_digit rest in
           let? n := parse_u8 digits in
           Some (F n, match tail with [] => byte_len s | _ => 1 + length digits end)
       end.

(** The alternatives of the final [match lower.as_str()]. *)
Definition token_names : list (list N * KeyPress) :=
  [(txt "esc", special Escape); (txt "escape", special Escape); (txt "cr", special Enter);
   (txt "enter", special Enter); (txt "return", special Enter); (txt "bs", special Backspace);
   (txt "backspace", special Backspace); (txt "tab", special Tab); (txt "s-tab", special BackTab);
   (txt "backtab", special BackTab); (txt "up", special Up); (txt "down", special Down);
   (txt "left", special Left); (txt "right", special Right); (txt "home", special Home);
   (txt "end", special End_); (txt "pageup", special PageUp); (txt "pagedown", special PageDown);
   (txt "del", special Delete); (txt "delete", special Delete); (txt "space", char_key 32);
   (txt "lt", char_key 60)].

(** [parse_macro_token] on the lowercased token. *)
Definition parse_lower_token (lower : list N) : option KeyPress :=
  match (match strip (txt "c-m-") lower with
         | Some rest => Some rest
         | None => strip (txt "m-c-") lower
         end) with
  | Some rest => let? ch := head rest in Some (mkKey (Char ch) true true false)
  | None =>
      match strip (txt "c-") lower with
      | Some rest => let? ch := head rest in Some (mkKey (Char ch) true false false)
      | None =>
          match strip (txt "m-") lower with
          | Some rest =>
              match match_named_key rest with
              | Some (k, _) => Some (mkKey k false true false)
              | None => let? ch := head rest in Some (mkKey (Char ch) false true false)
              end
          | None =>
              match List.find (fun '(nm, _) => bool_decide (nm = lower)) token_names with
              | Some (_, kp) => Some kp
              | None => let? n_str := strip (txt "f") lower in
                        let? n := parse_u8 n_str in Some (special (F n))
              end
          end
      end
  end.

Section Tokens.
Context `{Lowercase}.

Definition parse_macro_token (token : list N) : option KeyPress :=
  parse_lower_token (to_lowercase token).

(** [rest[1..].find('>')], a byte position. *)
Fixpoint find_close_angle (b : nat) (s : list N) : option nat :=
  match s with
  | [] => None
  | c :: s' => if bool_decide (c = 62%N) then Some b else find_close_angle (b + char_len c) s'
  end.

(** One round of the loop of [parse_key_seq] on a non-empty rest: the key it
    pushes, if any, and the characters it leaves. The token is the text up to
    the byte [close_pos]; then [close_pos + 2] characters are consumed. *)
Definition parse_round (s : list N) : option KeyPress * list N :=
  match s with
  | [] => (None, [])
  | c :: tail =>
      if bool_decide (c = 60%N) then
        match find_close_angle 0 tail with
        | Some close_pos =>
            let token := take (chars_before tail close_pos) tail in
            match parse_macro_token token with
            | Some kp => (Some kp, drop (close_pos + 2) s)
            | None => (Some (char_key 60), tail)
            end
        | None => (Some (char_key 60), tail)
        end
      else if bool_decide (take 2 s = txt "C-") then
        match drop 2 s with
        | ch :: s' => (Some (ctrl_key ch), s')
        | [] => (None, [])
        end
      else if bool_decide (take 2 s = txt "M-") then
        match drop 2 s with
        | ch :: s' => (Some (mkKey (Char ch) false true false), s')
        | [] => (None, [])
        end
      else match match_named_key (to_lowercase s) with
           | Some (k, len) => (Some (special k), drop len s)
           | None => (Some (char_key c), tail)
           end
  end.

(** Every round consumes at least one character, so [length s] rounds are
    enough ([parse_round_shrinks]). *)
Fixpoint parse_rounds (fuel : nat) (s : list N) : list KeyPress :=
  match fuel, s with
  | 0, _ | _, [] => []
  | S fuel', _ =>
      let '(kp, s') := parse_round s in
      match kp with Some k => k :: parse_rounds fuel' s' | None => parse_rounds fuel' s' end
  end.
Definition parse_key_seq (s : list N) : list KeyPress := parse_rounds (length s) s.

(** [s.split_whitespace()]: the maximal runs of non-blank characters. *)
Fixpoint words (cur : list N) (s : list N) : list (list N) :=
  match s with
  | [] => match cur with [] => [] | _ => [reverse cur] end
  | c :: s' => if is_whitespace c
               then match cur with [] => words [] s' | _ => reverse cur :: words [] s' end
               else words (c :: cur) s'
  end.
Definition parse_key_seq_spaced (s : list N) : list KeyPress := concat (map parse_key_seq (words [] s)).

(** *** Macros *)

(** [n.to_string()] of a [u8]. *)
Definition u8_text (n : N) : list N :=
  if (n <? 10)%N then [48 + n]%N
  else if (n <? 100)%N then [48 + n / 10; 48 + n mod 10]%N
  else [48 + n / 100; 48 + (n / 10) mod 10; 48 + n mod 10]%N.

Definition serialize_keypress (kp : KeyPress) : list N :=
  match key kp, ctrl kp, alt kp with
  | Char ch, false, false =>
      if bool_decide (ch = 32%N) then txt "<Space>"
      else if bool_decide (ch = 60%N) then txt "<lt>"
      else [ch]
  | Char ch, true, false => txt "<C-" ++ [ch] ++ txt ">"
  | Char ch, false, true => txt "<M-" ++ [ch] ++ txt ">"
  | Char ch, true, true => txt "<C-M-" ++ [ch] ++ txt ">"
  | Escape, false, false => txt "<Esc>"
  | Enter, false, false => txt "<CR>"
  | Backspace, false, false => txt "<BS>"
  | Tab, false, false => txt "<Tab>"
  | BackTab, false, false => txt "<S-Tab>"
  | Up, false, false => txt "<Up>"
  | Down, false, false => txt "<Down>"
  | Left, false, false => txt "<Left>"
  | Right, false, false => txt "<Right>"
  | Home, false, false => txt "<Home>"
  | End_, false, false => txt "<End>"
  | PageUp, false, false => txt "<PageUp>"
  | PageDown, false, false => txt "<PageDown>"
  | Delete, false, false => txt "<Del>"
  | F n, false, false => txt "<F" ++ u8_text n ++ txt ">"
  | Left, false, true => txt "<M-Left>"
  | Right, false, true => txt "<M-Right>"
  | Up, false, true => txt "<M-Up>"
  | Down, false, true => txt "<M-Down>"
  | Escape, true, _ => txt "<C-Esc>"
  | _, _, _ => []
  end.

Definition serialize_macro (keys : list KeyPress) : list N := concat (map serialize_keypress keys).

(** The text of one key in [format_key_seq]; [s[1..s.len()-1]] cuts off ASCII
    angle brackets. *)
Definition format_key (kp : KeyPress) : list N :=
  let s := serialize_keypress kp in
  if bool_decide (s = txt "<Space>") then txt "SPC"
  else if bool_decide (head s = Some 60%N) && bool_decide (last s = Some 62%N)
       then take (length s - 2) (drop 1 s)
  else s.
Fixpoint join_spaces (l : list (list N)) : list N :=
  match l with [] => [] | [s] => s | s :: l' => s ++ [32%N] ++ join_spaces l' end.
Definition format_key_seq (keys : list KeyPress) : list N := join_spaces (map format_key keys).

(** [take_while(|c| c != '>')], which also consumes the bracket it stops at. *)
Fixpoint take_token (s : list N) : list N * list N :=
  match s with
  | [] => ([], [])
  | c :: s' => if bool_decide (c = 62%N) then ([], s')
               else let '(t, rest) := take_token s' in (c :: t, rest)
  end.

Fixpoint deserialize_rounds (fuel : nat) (s : list N) : list KeyPress :=
  match fuel, s with
  | 0, _ | _, [] => []
  | S fuel', c :: s' =>
      if bool_decide (c = 60%N) then
        let '(token, rest) := take_token s' in
        match parse_macro_token token with
        | Some kp => kp :: deserialize_rounds fuel' rest
        | None => deserialize_rounds fuel' rest
        end
      else char_key c :: deserialize_rounds fuel' s'
  end.
Definition deserialize_macro (s : list N) : list KeyPress := deserialize_rounds (length s) s.

End Tokens.

(** ** Lemmas on the macro format *)

Lemma take_token_length s : length (take_token s).2 <= length s.
Proof. induction s as [|c s IH]; simpl; [lia|]. case_bool_decide; [simpl; lia|]. destruct (take_token s). simpl in *. lia. Qed.

Lemma take_token_app tok s : 62%N ∉ tok -> take_token (tok ++ 62%N :: s) = (tok, s).
Proof.
  induction tok as [|c tok IH]; simpl; intros Hn; [done|].
  rewrite bool_decide_eq_false_2 by set_solver. rewrite IH by set_solver. done.
Qed.

Lemma name_at_short s nm : length s < length nm -> name_at s nm = false.
Proof.
  unfold name_at. revert s. induction nm as [|a nm IH]; intros s Hl; simpl in *; [lia|].
  destruct s as [|b s]; [done|]. case_bool_decide; [|done]. apply IH. simpl in Hl. lia.
Qed.

(** No named key is a single character. *)
Lemma match_named_key_single ch : match_named_key [ch] = None.
Proof.
  unfold match_named_key. rewrite name_at_short by (vm_compute; lia).
  replace (List.find _ named_keys) with (None : option (list N * Key)).
  2: { symmetry. unfold named_keys. cbn [List.find]. by rewrite !name_at_short by (vm_compute; lia). }
  simpl. by case_bool_decide.
Qed.

Section Macros.
Context `{LowercaseLaws}.

Lemma deserialize_fuel n s : length s <= n -> deserialize_rounds n s = deserialize_macro s.
Proof.
  unfold deserialize_macro. revert s. induction n as [n IH] using lt_wf_ind. intros s Hn.
  destruct s as [|c s]; [by destruct n|]. destruct n as [|n]; simpl in Hn; [lia|]. cbn [deserialize_rounds length].
  pose proof (take_token_length s). destruct (take_token s) as [tok rest]. simpl in *.
  rewrite (IH n ltac:(lia) rest), (IH n ltac:(lia) s) by lia.
  by rewrite (IH (length s) ltac:(lia) rest) by lia.
Qed.

Lemma deserialize_char c s : c <> 60%N -> deserialize_macro (c :: s) = char_key c :: deserialize_macro s.
Proof. intros Hc. unfold deserialize_macro. cbn [deserialize_rounds length]. by rewrite bool_decide_eq_false_2. Qed.

Lemma deserialize_token tok s kp :
  62%N ∉ tok -> parse_macro_token tok = Some kp ->
  deserialize_macro (60%N :: tok ++ 62%N :: s) = kp :: deserialize_macro s.
Proof.
  intros Hn Hp. unfold deserialize_macro at 1. cbn [deserialize_rounds length].
  rewrite bool_decide_eq_true_2, take_token_app, Hp by done. f_equal. apply deserialize_fuel.
  rewrite length_app. simpl. lia.
Qed.

(** A named key consumes at least one character. *)
Lemma match_named_key_pos s k n : match_named_key s = Some (k, n) -> 1 <= n.
Proof.
  unfold match_named_key. destruct (name_at s (txt "spc")); [intros; simplify_eq; lia|].
  destruct (List.find _ named_keys) as [[nm k']|] eqn:E.
  - intros [= <- <-]. apply List.find_some in E as [Hin _]. apply list_elem_of_In in Hin.
    assert (Hall : Forall (fun p : list N * Key => 1 <= length p.1) named_keys)
      by (repeat constructor; simpl; lia).
    by apply (proj1 (Forall_forall _ _) Hall _ Hin).
  - destruct (strip (txt "f") s) as [rest|] eqn:Es; [|done]. destruct (span _ rest) as [ds tl].
    destruct (parse_u8 ds); [|done]. intros [= <- <-]. destruct tl; [|lia].
    destruct s as [|c s]; [done|]. simpl. pose proof (char_len_pos c). lia.
Qed.

(** Every round of [parse_key_seq] consumes a character, so its fuel is
    enough: more of it changes nothing. *)
Lemma parse_round_shrinks s : s <> [] -> length (parse_round s).2 < length s.
Proof.
  intros Hs. unfold parse_round. destruct s as [|c tail]; [done|].
  repeat case_match; subst; cbn [snd]; rewrite ?length_drop; simpl length; try lia.
  all: match goal with
       | E : drop _ _ = _ |- _ => apply (f_equal length) in E; rewrite length_drop in E; simpl in *; lia
       | E : match_named_key _ = _ |- _ => apply match_named_key_pos in E; lia
       end.
Qed.

Lemma parse_rounds_fuel n s : length s <= n -> parse_rounds n s = parse_key_seq s.
Proof.
  unfold parse_key_seq. revert s. induction n as [n IH] using lt_wf_ind. intros s Hn.
  destruct s as [|c s]; [by destruct n|]. destruct n as [|n]; simpl in Hn; [lia|]. cbn [parse_rounds length].
  pose proof (parse_round_shrinks (c :: s) ltac:(done)). destruct (parse_round (c :: s)) as [kp rest]. simpl in *.
  rewrite (IH n ltac:(lia) rest) by lia. by rewrite (IH (length s) ltac:(lia) rest) by lia.
Qed.

(** The keys whose text form is unambiguous: a character with a modifier is
    ASCII, not upper case and not the closing bracket. *)
Definition plain_ascii (ch : N) : bool :=
  (ch <? 128)%N && bool_decide (ascii_lower ch = ch) && negb (bool_decide (ch = 62%N)).
Definition serializable (kp : KeyPress) : bool :=
  negb (shift kp) &&
  match key kp, ctrl kp, alt kp with
  | Char _, false, false => true
  | Char ch, _, _ => plain_ascii ch
  | F n, false, false => (n <=? 255)%N
  | (Left | Right | Up | Down), false, _ => true
  | _, false, false => true
  | _, _, _ => false
  end.

(** Every serializable key is one plain character, or one bracketed token
    that parses back. *)
Lemma plain_ascii_token ch pre :
  plain_ascii ch = true -> Forall (fun c => c < 128)%N pre -> 62%N ∉ pre ->
  62%N ∉ pre ++ [ch] /\ to_lowercase (pre ++ [ch]) = map ascii_lower pre ++ [ch].
Proof.
  unfold plain_ascii. intros Hc Hpre Hn. apply andb_true_iff in Hc as [Hc Hne].
  apply andb_true_iff in Hc as [Hlt%N.ltb_lt Hl]. bool_prop.
  split; [set_solver|]. rewrite lowercase_ascii by (apply Forall_app; split; [done|by repeat constructor]).
  rewrite map_app. simpl. by rewrite Hl.
Qed.

Lemma f_keys_parse n : (n <= 255)%N ->
  62%N ∉ 70%N :: u8_text n /\ parse_macro_token (70%N :: u8_text n) = Some (special (F n)).
Proof.
  intros Hn.
  assert (Hall : forallb (fun i => let n := N.of_nat i in
    bool_decide (62%N ∉ 70%N :: u8_text n) && forallb (fun c => c <? 128)%N (70%N :: u8_text n) &&
    bool_decide (parse_lower_token (map ascii_lower (70%N :: u8_text n)) = Some (special (F n))))
    (seq 0 256) = true) by (by vm_compute).
  rewrite forallb_forall in Hall. specialize (Hall (N.to_nat n)). rewrite N2Nat.id in Hall. cbn zeta in Hall.
  assert (Hin : In (N.to_nat n) (seq 0 256)) by (apply in_seq; lia).
  specialize (Hall Hin). apply andb_true_iff in Hall as [Hall Hp]. apply andb_true_iff in Hall as [Ha Hf].
  bool_prop. split; [done|]. unfold parse_macro_token. rewrite lowercase_ascii; [done|].
  apply Forall_forall. intros c Hc. rewrite forallb_forall in Hf. apply N.ltb_lt, Hf. by apply list_elem_of_In.
Qed.

Lemma serialized_form kp :
  serializable kp = true ->
  (exists c, c <> 60%N /\ serialize_keypress kp = [c] /\ kp = char_key c) \/
  (exists tok, 62%N ∉ tok /\ serialize_keypress kp = 60%N :: tok ++ [62%N] /\ parse_macro_token tok = Some kp).
Proof.
  assert (Hconst : forall kp tok, forallb (fun c => (c <? 128)%N && negb (c =? 62)%N) (txt tok) = true ->
    parse_lower_token (map ascii_lower (txt tok)) = Some kp ->
    serialize_keypress kp = 60%N :: txt tok ++ [62%N] ->
    exists tok, 62%N ∉ tok /\ serialize_keypress kp = 60%N :: tok ++ [62%N] /\ parse_macro_token tok = Some kp).
  { intros kp' tok Ha Hp Hs. exists (txt tok). rewrite forallb_forall in Ha. split_and!; [|done|].
    - intros Hin%list_elem_of_In. specialize (Ha _ Hin). apply andb_true_iff in Ha as [_ Ha]. done.
    - unfold parse_macro_token. rewrite lowercase_ascii; [done|]. apply Forall_forall.
      intros c Hc%list_elem_of_In. specialize (Ha _ Hc). apply andb_true_iff in Ha as [Ha _]. by apply N.ltb_lt. }
  destruct kp as [k c a [|]]; [done|]. unfold serializable. cbn [shift key ctrl alt negb andb].
  destruct k as [ch| | | | | | | | | | | | | | |n].
  1: {
    destruct c, a; intros Hs.
    - right. destruct (plain_ascii_token ch (txt "C-M-") Hs) as [Hn Hl]; [by repeat constructor|set_solver|].
      exists (txt "C-M-" ++ [ch]). split_and!; [done|by rewrite <- app_assoc|].
      unfold parse_macro_token. by rewrite Hl.
    - right. destruct (plain_ascii_token ch (txt "C-") Hs) as [Hn Hl]; [by repeat constructor|set_solver|].
      exists (txt "C-" ++ [ch]). split_and!; [done|by rewrite <- app_assoc|].
      unfold parse_macro_token. rewrite Hl. unfold parse_lower_token. simpl. by case_bool_decide.
    - right. destruct (plain_ascii_token ch (txt "M-") Hs) as [Hn Hl]; [by repeat constructor|set_solver|].
      exists (txt "M-" ++ [ch]). split_and!; [done|by rewrite <- app_assoc|].
      unfold parse_macro_token. rewrite Hl. unfold parse_lower_token. simpl.
      rewrite match_named_key_single. by case_bool_decide.
    - destruct (decide (ch = 32%N)) as [->|H32]; [right; by apply (Hconst _ "Space")|].
      destruct (decide (ch = 60%N)) as [->|H60]; [right; by apply (Hconst _ "lt")|].
      left. exists ch. split_and!; [done| |done]. unfold serialize_keypress. simpl.
      by rewrite !bool_decide_eq_false_2. }
  all: destruct c, a; try done; intros Hs; right.
  - by apply (Hconst _ "Esc").
  - by apply (Hconst _ "CR").
  - by apply (Hconst _ "BS").
  - by apply (Hconst _ "Tab").
  - by apply (Hconst _ "S-Tab").
  - by apply (Hconst _ "M-Up").
  - by apply (Hconst _ "Up").
  - by apply (Hconst _ "M-Down").
  - by apply (Hconst _ "Down").
  - by apply (Hconst _ "M-Left").
  - by apply (Hconst _ "Left").
  - by apply (Hconst _ "M-Right").
  - by apply (Hconst _ "Right").
  - by apply (Hconst _ "Home").
  - by apply (Hconst _ "End").
  - by apply (Hconst _ "PageUp").
  - by apply (Hconst _ "PageDown").
  - by apply (Hconst _ "Del").
  - apply N.leb_le in Hs. destruct (f_keys_parse n Hs). exists (70%N :: u8_text n). by split_and!.
Qed.

(** ** Properties *)

(** Recorded macros replay as recorded: for every sequence of serializable
    keys, reading the text form back gives the sequence. *)
Theorem macro_round_trip keys :
  forallb serializable keys = true -> deserialize_macro (serialize_macro keys) = keys.
Proof.
  induction keys as [|kp keys IH]; simpl; [done|]. intros [Hk Hks]%andb_true_iff.
  unfold serialize_macro. simpl. fold (serialize_macro keys).
  destruct (serialized_form kp Hk) as [(c & Hc & -> & ->)|(tok & Hn & -> & Hp)].
  - simpl. by rewrite deserialize_char, IH.
  - simpl. rewrite <- app_assoc. simpl. by rewrite (deserialize_token tok _ kp), IH.
Qed.
End Macros.

(** ** Lookup *)

Lemma elem_of_proper_prefixes p sq :
  p ∈ proper_prefixes sq <-> exists i, 1 <= i /\ i < length sq /\ p = take i sq.
Proof.
  unfold proper_prefixes. rewrite list_elem_of_In, in_map_iff. setoid_rewrite in_seq. split.
  - intros (i & <- & Hi). exists i. split_and!; [lia|lia|done].
  - intros (i & H1 & H2 & ->). exists i. split; [done|lia].
Qed.

(** What the program does to a keymap after creating it. *)
Inductive keymap_step (km : Keymap) : Keymap -> Prop :=
  | ks_bind sq cmd : keymap_step km (bind km sq cmd).1
  | ks_unbind sq : keymap_step km (unbind km sq)
  | ks_group p l : keymap_step km (set_group_name km p l).

(** The same, without [unbind]. *)
Inductive keymap_grow (km : Keymap) : Keymap -> Prop :=
  | kg_bind sq cmd : keymap_grow km (bind km sq cmd).1
  | kg_group p l : keymap_grow km (set_group_name km p l).

Definition fresh (km : Keymap) : Prop := bindings km = ∅ /\ prefixes km = ∅.

(** Every proper prefix of a bound sequence is registered. *)
Definition prefixes_complete (km : Keymap) : Prop :=
  forall sq cmd p, bindings km !! sq = Some cmd -> p ∈ proper_prefixes sq -> p ∈ prefixes km.
(** Every registered prefix is one of a bound sequence. *)
Definition prefixes_sound (km : Keymap) : Prop :=
  forall p, p ∈ prefixes km -> exists sq cmd, bindings km !! sq = Some cmd /\ p ∈ proper_prefixes sq.

Lemma step_complete km km' : keymap_step km km' -> prefixes_complete km -> prefixes_complete km'.
Proof.
  destruct 1 as [sq cmd|sq|p l]; intros Hc s c q; simpl; [|intros [_ Hs]%lookup_delete_Some; by eapply Hc|by apply Hc].
  intros [[-> _]|[_ Hs]]%lookup_insert_Some Hq; [set_solver|].
  apply elem_of_union_l. by eapply Hc.
Qed.

Lemma grow_sound km km' : keymap_grow km km' -> prefixes_sound km -> prefixes_sound km'.
Proof.
  destruct 1 as [sq cmd|p l]; intros Hs q; simpl; [|by apply Hs].
  intros [Hq|Hq]%elem_of_union.
  - destruct (Hs q Hq) as (s & c & Hb & Hp). destruct (decide (s = sq)) as [->|Hne].
    + exists sq, cmd. by rewrite lookup_insert_eq.
    + exists s, c. by rewrite lookup_insert_ne.
  - exists sq, cmd. rewrite lookup_insert_eq. split; [done|set_solver].
Qed.

Lemma grow_step km km' : keymap_grow km km' -> keymap_step km km'.
Proof. destruct 1; [apply ks_bind|apply ks_group]. Qed.

Lemma reachable_complete km0 km : fresh km0 -> rtc keymap_step km0 km -> prefixes_complete km.
Proof.
  intros [Hb _] Hr. assert (Hc : prefixes_complete km0) by (intros s c q; by rewrite Hb, lookup_empty).
  clear Hb. induction Hr as [|x y z Hs _ IH]; [done|]. by apply IH, (step_complete x).
Qed.

Lemma grown_sound km0 km : fresh km0 -> rtc keymap_grow km0 km -> prefixes_sound km.
Proof.
  intros [_ Hp] Hr. assert (Hc : prefixes_sound km0) by (intros q Hq; rewrite Hp in Hq; set_solver).
  clear Hp. induction Hr as [|x y z Hs _ IH]; [done|]. by apply IH, (grow_sound x).
Qed.

(** Every binding can be typed: after any sequence of binds, unbinds and
    group names, each proper prefix of a bound sequence makes the lookup wait
    for more keys, and the whole sequence is not a miss. *)
Theorem bound_sequences_are_typable km0 km sq cmd :
  fresh km0 -> rtc keymap_step km0 km -> bindings km !! sq = Some cmd ->
  (forall i, 1 <= i -> i < length sq -> lookup_key km (take i sq) = Prefix) /\
  (lookup_key km sq = Exact cmd \/ lookup_key km sq = Prefix) /\ exact_match km sq = Some cmd.
Proof.
  intros Hf Hr Hb. pose proof (reachable_complete km0 km Hf Hr) as Hc. unfold lookup_key. split_and!.
  - intros i H1 H2. rewrite bool_decide_eq_true_2; [done|]. eapply Hc; [done|].
    apply elem_of_proper_prefixes. by exists i.
  - rewrite Hb. case_bool_decide; auto.
  - done.
Qed.

(** In a keymap that was only ever extended, the lookup is exact: it waits
    precisely on the non-empty proper prefixes of bound sequences, answers a
    binding that is no such prefix, and misses everything else. *)
Theorem lookup_is_exact_without_unbind km0 km sq :
  fresh km0 -> rtc keymap_grow km0 km ->
  match lookup_key km sq with
  | Prefix => exists sq' cmd, bindings km !! sq' = Some cmd /\ sq ∈ proper_prefixes sq'
  | Exact cmd => bindings km !! sq = Some cmd /\
      forall sq' cmd', bindings km !! sq' = Some cmd' -> sq ∉ proper_prefixes sq'
  | NoMatch => bindings km !! sq = None /\
      forall sq' cmd', bindings km !! sq' = Some cmd' -> sq ∉ proper_prefixes sq'
  end.
Proof.
  intros Hf Hr. pose proof (grown_sound km0 km Hf Hr) as Hs.
  assert (Hc : prefixes_complete km).
  { apply (reachable_complete km0); [done|]. eapply rtc_subrel; [|exact Hr]. apply grow_step. }
  unfold lookup_key. case_bool_decide as Hp; [by apply Hs|].
  destruct (bindings km !! sq); (split; [done|]); intros sq' cmd' Hb Hin; apply Hp; by eapply Hc.
Qed.

(** ** Witnesses and counterexamples *)

Module KeymapWitnesses.
#[local] Instance ascii_lowercase : Lowercase := { to_lowercase := map ascii_lower }.
#[local] Instance ascii_lowercase_laws : LowercaseLaws.
Proof. by split. Qed.

(** d d, control-r, alt-left and F12. *)
Lemma macro_round_trip_witness :
  let keys := [char_key 100; char_key 60; ctrl_key 114; mkKey Left false true false; special (F 12)] in
  deserialize_macro (serialize_macro keys) = keys /\
  serialize_macro keys = txt "d<lt><C-r><M-Left><F12>".
Proof. intros keys. split; [|by vm_compute]. apply macro_round_trip. by vm_compute. Defined.

Definition dd : list KeyPress := [char_key 100; char_key 100].
Definition sample : Keymap := (bind (new_keymap "normal") dd "delete-line").1.

Lemma bound_sequences_are_typable_witness :
  (forall i, 1 <= i -> i < length dd -> lookup_key sample (take i dd) = Prefix) /\
  (lookup_key sample dd = Exact "delete-line" \/ lookup_key sample dd = Prefix) /\
  exact_match sample dd = Some "delete-line".
Proof.
  apply (bound_sequences_are_typable (new_keymap "normal")); [by split|apply rtc_once, ks_bind|by vm_compute].
Defined.

Lemma lookup_is_exact_without_unbind_witness :
  lookup_key sample dd = Exact "delete-line" /\
  match lookup_key sample dd with
  | Prefix => exists sq' cmd, bindings sample !! sq' = Some cmd /\ dd ∈ proper_prefixes sq'
  | Exact cmd => bindings sample !! dd = Some cmd /\
      forall sq' cmd', bindings sample !! sq' = Some cmd' -> dd ∉ proper_prefixes sq'
  | NoMatch => bindings sample !! dd = None /\
      forall sq' cmd', bindings sample !! sq' = Some cmd' -> dd ∉ proper_prefixes sq'
  end.
Proof.
  split; [by vm_compute|].
  apply (lookup_is_exact_without_unbind (new_keymap "normal")); [by split|apply rtc_once, kg_bind].
Defined.

(** A stale prefix is not harmless: after unbinding dd, a new binding of d
    alone is never answered, since the lookup still waits for a second key. *)
Theorem stale_prefix_hides_binding :
  let km := (bind (unbind sample dd) [char_key 100] "delete-char").1 in
  bindings km !! [char_key 100] = Some "delete-char" /\ lookup_key km [char_key 100] = Prefix.
Proof. by vm_compute. Qed.

(** [parse_key_seq] finds the closing bracket at a byte position and then
    consumes as many characters: after a bracketed token with a two-byte
    character it swallows the key that follows. *)
Theorem parse_key_seq_swallows_key :
  parse_key_seq (txt "<C-e>j") = [ctrl_key 101; char_key 106] /\
  parse_key_seq (txt "<C-" ++ [233%N] ++ txt ">j") = [ctrl_key 233].
Proof. by vm_compute. Qed.

(** The modified escape key is not read back as it was written: its text
    form parses as control-e. *)
Theorem ctrl_escape_reads_back_as_ctrl_e :
  deserialize_macro (serialize_macro [mkKey Escape true false false]) = [ctrl_key 101].
Proof. by vm_compute. Qed.

(** The which-key popup depends on the iteration order of the hash map
    when a key is bound and also starts a longer binding. *)
Theorem which_key_depends_on_hash_order :
  let km := (bind sample [char_key 100] "delete").1 in
  let b1 := (dd, "delete-line") in let b2 := ([char_key 100], "delete") in
  let entry l := which_key_entries km [] (fun _ => None) (fun _ => "d") l !! "d" in
  (is_group <$> entry [b1; b2]) = Some true /\ (is_group <$> entry [b2; b1]) = Some false.
Proof. by vm_compute. Qed.
End KeymapWitnesses.
