(* ===== verification/DocAddress.v ===== *)
(** * DocAddress: document names, save policies, state-vector comparison

    Models the addressing half of [shared/sync/src/lib.rs]: the typed document
    address with its string form, the test for knowledge-base ids that may be
    part of an address, the save policy of an address, the comparison of two
    state vectors, and the FNV-1a hash used for project identities and storage
    shards. The state vector of the CRDT crate is its finite map from client
    ids to clocks. *)
From S2P Require Import Prelude.

(** ** Addresses *)

Inductive DocAddress :=
  | File (project_hash rel_path : string)
  | KbNode (kb_id node_id : string)
  | KbCollection (kb_id : string)
  | Shared (name : string).
#[export] Instance DocAddress_eq_dec : EqDecision DocAddress.
Proof. solve_decision. Defined.

Definition to_doc_name (a : DocAddress) : string :=
  match a with
  | File project_hash rel_path => "file:" +:+ project_hash +:+ "/" +:+ rel_path
  | KbNode kb_id node_id => "kbn:" +:+ kb_id +:+ ":" +:+ node_id
  | KbCollection kb_id => "kbc:" +:+ kb_id
  | Shared name => "shared:" +:+ name
  end.

(** [s.split_once(c)] for an ASCII [c]. *)
Fixpoint split_once (c : Ascii.ascii) (s : string) : option (string * string) :=
  match s with
  | EmptyString => None
  | String b rest =>
      if bool_decide (b = c) then Some ("", rest)
      else let? (before, after) := split_once c rest in Some (String b before, after)
  end.
Definition is_empty (s : string) : bool := bool_decide (s = "").

(** [DocAddress::parse], in the order of its branches. *)
Definition parse (s : string) : option DocAddress :=
  match strip_prefix "file:" s with
  | Some rest =>
      let? (project_hash, rel_path) := split_once "/" rest in
      if is_empty project_hash || is_empty rel_path then None else Some (File project_hash rel_path)
  | None =>
      match strip_prefix "kbc:" s with
      | Some rest => if is_empty rest then None else Some (KbCollection rest)
      | None =>
          match strip_prefix "kbn:" s with
          | Some rest =>
              let? (kb_id, node_id) := split_once ":" rest in
              if is_empty kb_id || is_empty node_id then None else Some (KbNode kb_id node_id)
          | None =>
              match strip_prefix "shared:" s with
              | Some rest => if is_empty rest then None else Some (Shared rest)
              | None => None
              end
          end
      end
  end.

Definition kb_node_doc_name (kb_id node_id : string) : string := to_doc_name (KbNode kb_id node_id).

(** [s.contains(c)]. *)
Fixpoint contains (c : Ascii.ascii) (s : string) : bool :=
  match s with
  | EmptyString => false
  | String b rest => bool_decide (b = c) || contains c rest
  end.
Definition kb_id_is_addressable (kb_id : string) : bool := negb (is_empty kb_id) && negb (contains ":" kb_id).

Inductive SavePolicy := LocalFirst | ServerAuthoritative | Ephemeral.
#[export] Instance SavePolicy_eq_dec : EqDecision SavePolicy.
Proof. solve_decision. Defined.

Definition save_policy (a : DocAddress) : SavePolicy :=
  match a with
  | File _ _ => LocalFirst
  | KbNode _ _ | KbCollection _ => ServerAuthoritative
  | Shared _ => Ephemeral
  end.

(** ** State vectors *)

Inductive ClockStatus := Aligned | Ahead (n : N) | Behind (n : N) | LocalOnly | RemoteOnly.
Inductive SyncOverallStatus := AllAligned | Diverged.
Record SyncDiagnosis := mkDiagnosis { clocks : list (N * ClockStatus); status : SyncOverallStatus }.

(** A decoded state vector: client id to clock. *)
Notation StateVector := (gmap N N).

(** One iteration of the loop over all client ids. [None] stands for the
    [unreachable!()] arm. *)
Definition compare_clock (local remote : StateVector) (cid : N) : option ClockStatus :=
  match local !! cid, remote !! cid with
  | Some lv, Some rv =>
      Some (if (lv =? rv)%N then Aligned else if (rv <? lv)%N then Ahead (lv - rv) else Behind (rv - lv))
  | Some _, None => Some LocalOnly
  | None, Some _ => Some RemoteOnly
  | None, None => None
  end.
Definition clock_aligned (s : ClockStatus) : bool := match s with Aligned => true | _ => false end.

(** The [BTreeSet] of client ids of both sides and its ascending iteration. *)
Definition id_set (local remote : StateVector) : gset N := dom local ∪ dom remote.
Definition all_ids (local remote : StateVector) : list N := merge_sort N.le (elements (id_set local remote)).
Definition compare_ids (local remote : StateVector) (ids : list N) : option (list (N * ClockStatus)) :=
  mapM (fun cid => s ← compare_clock local remote cid; Some (cid, s)) ids.

(** [compare_state_vectors] with the decoder of the CRDT crate as [decode]; the
    left error says which argument did not decode. *)
Section Compare.
Context (decode : string -> option StateVector).
Definition compare_state_vectors (local_sv remote_sv : string) : string + option SyncDiagnosis :=
  match decode local_sv, decode remote_sv with
  | None, _ => inl "local sv decode"
  | _, None => inl "remote sv decode"
  | Some local, Some remote =>
      inr (let? cs := compare_ids local remote (all_ids local remote) in
           Some (mkDiagnosis cs (if forallb (fun c => clock_aligned c.2) cs then AllAligned else Diverged)))
  end.
End Compare.

(** ** FNV-1a *)

Definition fnv_offset : N := 14695981039346656037.
Definition fnv_prime : N := 1099511628211.
(** [h ^= b; h = h.wrapping_mul(prime)] over the bytes. *)
Fixpoint fnv1a (h : N) (s : string) : N :=
  match s with
  | EmptyString => h
  | String c r => fnv1a ((N.lxor h (Ascii.N_of_ascii c) * fnv_prime) mod 2 ^ 64)%N r
  end.

(** [SqlitePool::shard_for]: the index of a document's connection. *)
Definition shard_for (shards : nat) (doc_name : string) : nat :=
  N.to_nat (fnv1a fnv_offset doc_name mod N.of_nat shards)%N.

(** ** Theorems *)

(** The addresses whose name parses back. *)
Definition addressable (a : DocAddress) : bool :=
  match a with
  | File h p => negb (is_empty h) && negb (contains "/" h) && negb (is_empty p)
  | KbNode k n => kb_id_is_addressable k && negb (is_empty n)
  | KbCollection k => negb (is_empty k)
  | Shared n => negb (is_empty n)
  end.

Lemma split_once_app c a b : contains c a = false -> split_once c (a +:+ String c b) = Some (a, b).
Proof.
  induction a as [|x a IH]; intros Ha; [simpl; by rewrite bool_decide_eq_true_2|].
  simpl in *. apply orb_false_iff in Ha as [-> Ha]. change (a +:+ String c b) with (String.append a (String c b)) in IH.
  by rewrite (IH Ha).
Qed.
Lemma split_once_inv c s a b : split_once c s = Some (a, b) ->
  s = a +:+ String c b /\ contains c a = false.
Proof.
  revert a b. induction s as [|x s IH]; intros a b H; simplify_eq/=.
  case_bool_decide as E; simplify_eq/=; [done|].
  destruct (split_once c s) as [[a' b']|] eqn:Es; simplify_eq/=.
  destruct (IH a' b eq_refl) as [-> Hc]. by rewrite bool_decide_eq_false_2.
Qed.

Lemma not_empty s : negb (is_empty s) = true <-> is_empty s = false.
Proof. by rewrite negb_true_iff. Qed.

Lemma parse_to_doc_name a : addressable a = true -> parse (to_doc_name a) = Some a.
Proof.
  intros Ha. destruct a as [h p|k n|k|n]; simpl in Ha; bool_prop.
  - unfold parse. cbn [to_doc_name]. rewrite strip_prefix_app.
    change (h +:+ "/" +:+ p) with (h +:+ String "/" p). rewrite split_once_app by done.
    by rewrite H0, H.
  - unfold kb_id_is_addressable in H. bool_prop. unfold parse. cbn [to_doc_name].
    change (strip_prefix "file:" ("kbn:" +:+ _)) with (@None string).
    change (strip_prefix "kbc:" ("kbn:" +:+ _)) with (@None string). rewrite strip_prefix_app.
    change (k +:+ ":" +:+ n) with (k +:+ String ":" n). rewrite split_once_app by done.
    by rewrite H, H0.
  - unfold parse. cbn [to_doc_name]. change (strip_prefix "file:" ("kbc:" +:+ _)) with (@None string).
    by rewrite strip_prefix_app, Ha.
  - unfold parse. cbn [to_doc_name]. change (strip_prefix "file:" ("shared:" +:+ _)) with (@None string).
    change (strip_prefix "kbc:" ("shared:" +:+ _)) with (@None string).
    change (strip_prefix "kbn:" ("shared:" +:+ _)) with (@None string).
    by rewrite strip_prefix_app, Ha.
Qed.

Lemma parse_inv s a : parse s = Some a -> s = to_doc_name a /\ addressable a = true.
Proof.
  unfold parse. intros H.
  destruct (strip_prefix "file:" s) as [r|] eqn:E1.
  { apply strip_prefix_inv in E1 as ->. op_cases H.
    apply split_once_inv in Heqo as [-> Hc]. cbn [to_doc_name addressable]. split; [done|].
    apply orb_false_iff in Heqb as [-> ->]. by rewrite Hc. }
  destruct (strip_prefix "kbc:" s) as [r|] eqn:E2.
  { apply strip_prefix_inv in E2 as ->. op_cases H. cbn [to_doc_name addressable]. by rewrite Heqb. }
  destruct (strip_prefix "kbn:" s) as [r|] eqn:E3.
  { apply strip_prefix_inv in E3 as ->. op_cases H.
    apply split_once_inv in Heqo as [-> Hc]. cbn [to_doc_name addressable]. split; [done|].
    apply orb_false_iff in Heqb as [H1 ->]. unfold kb_id_is_addressable. by rewrite H1, Hc. }
  destruct (strip_prefix "shared:" s) as [r|] eqn:E4; [|done].
  apply strip_prefix_inv in E4 as ->. op_cases H. cbn [to_doc_name addressable]. by rewrite Heqb.
Qed.

(** Document names and addresses correspond one to one: [parse] accepts
    exactly the names of the addressable addresses and returns the address each
    was made from. In particular two nodes of knowledge bases with addressable
    ids share a document only when they are the same node of the same base. *)
Theorem doc_names_are_unambiguous s a :
  (parse s = Some a <-> s = to_doc_name a /\ addressable a = true) /\
  (forall k n k' n', kb_id_is_addressable k = true -> kb_id_is_addressable k' = true ->
     kb_node_doc_name k n = kb_node_doc_name k' n' -> k = k' /\ n = n').
Proof.
  split; [split; [apply parse_inv|intros [-> Ha]; by apply parse_to_doc_name]|].
  intros k n k' n' Hk Hk' E. unfold kb_node_doc_name, kb_id_is_addressable in *. bool_prop.
  cbn [to_doc_name] in E. apply (f_equal (strip_prefix "kbn:")) in E. rewrite !strip_prefix_app in E.
  injection E as E. change (k +:+ ":" +:+ n) with (k +:+ String ":" n) in E.
  change (k' +:+ ":" +:+ n') with (k' +:+ String ":" n') in E.
  apply (f_equal (split_once ":")) in E. rewrite !split_once_app in E by done. by simplify_eq.
Qed.

Lemma compare_clock_total local remote cid :
  cid ∈ id_set local remote -> exists st, compare_clock local remote cid = Some st /\
    (clock_aligned st = true <-> local !! cid = remote !! cid).
Proof.
  unfold id_set. rewrite elem_of_union, !elem_of_dom. unfold compare_clock. intros Hd.
  destruct (local !! cid) as [lv|], (remote !! cid) as [rv|]; try (eexists; split; [done|naive_solver]).
  - eexists; split; [done|]. destruct (N.eqb_spec lv rv) as [->|Hne]; [done|].
    destruct (N.ltb_spec rv lv); simpl; split; intros; try done; congruence.
  - destruct Hd as [[? ?]|[? ?]]; done.
Qed.

Lemma compare_ids_total local remote ids :
  (forall cid, cid ∈ ids -> cid ∈ id_set local remote) ->
  exists cs, compare_ids local remote ids = Some cs /\ map fst cs = ids /\
    (forallb (fun c => clock_aligned c.2) cs = true <-> forall cid, cid ∈ ids -> local !! cid = remote !! cid).
Proof.
  unfold compare_ids. induction ids as [|c ids IH]; intros Hin.
  { exists []. split_and!; [done..|]. split; [|done]. by intros _ cid ?%not_elem_of_nil. }
  destruct IH as (cs & E & Hm & Ha); [set_solver|].
  destruct (compare_clock_total local remote c) as (st & Es & Hs); [set_solver|].
  exists ((c, st) :: cs). simpl. rewrite Es. simpl. rewrite E. simpl. split_and!; [done|by rewrite Hm|].
  rewrite andb_true_iff, Ha, Hs. split.
  - intros [Hc Hr] cid [->|Hi]%elem_of_cons; auto.
  - intros Hr. split; [apply Hr|intros; apply Hr]; set_solver.
Qed.

(** Comparing two state vectors that decode never reaches the unreachable
    arm, reports every client of either side once, and the overall verdict is
    [Aligned] exactly when the two vectors are equal. *)
Theorem comparison_decides_alignment decode l r local remote :
  decode l = Some local -> decode r = Some remote ->
  exists d, compare_state_vectors decode l r = inr (Some d) /\
    map fst (clocks d) ≡ₚ elements (id_set local remote) /\
    (status d = AllAligned <-> local = remote).
Proof.
  intros El Er. unfold compare_state_vectors. rewrite El, Er.
  assert (Hp : all_ids local remote ≡ₚ elements (id_set local remote)) by apply merge_sort_Permutation.
  destruct (compare_ids_total local remote (all_ids local remote)) as (cs & E & Hm & Ha).
  { intros cid. rewrite Hp. by rewrite elem_of_elements. }
  rewrite E. eexists; split; [done|]. cbn [clocks status]. split; [by rewrite Hm|].
  assert (He : (forall cid, cid ∈ all_ids local remote -> local !! cid = remote !! cid) <-> local = remote).
  { split; [|by intros ->]. intros Hall. apply map_eq. intros i.
    destruct (decide (i ∈ id_set local remote)) as [Hi|Hi].
    - apply Hall. by rewrite Hp, elem_of_elements.
    - unfold id_set in Hi. rewrite not_elem_of_union, !not_elem_of_dom in Hi. destruct Hi as [-> ->]. done. }
  rewrite <- He, <- Ha. by destruct (forallb _ cs).
Qed.

(** A document's storage shard exists. *)
Lemma shard_for_bound shards doc_name : 0 < shards -> shard_for shards doc_name < shards.
Proof.
  intros Hs. unfold shard_for. pose proof (N.mod_lt (fnv1a fnv_offset doc_name) (N.of_nat shards) ltac:(lia)). lia.
Qed.

Module AddressWitnesses.

Lemma comparison_decides_alignment_witness :
  let decode s := if bool_decide (s = "a") then Some {[1%N := 3%N]} else Some {[1%N := 5%N; 2%N := 1%N]} in
  exists d, compare_state_vectors decode "a" "b" = inr (Some d) /\
    map fst (clocks d) ≡ₚ elements (id_set {[1%N := 3%N]} {[1%N := 5%N; 2%N := 1%N]}) /\
    (status d = AllAligned <-> ({[1%N := 3%N]} : StateVector) = {[1%N := 5%N; 2%N := 1%N]}).
Proof. intros decode. apply (comparison_decides_alignment decode "a" "b"); reflexivity. Defined.

(** A base id with a colon makes two nodes of different bases one document;
    [kb_id_is_addressable] refuses such ids. *)
Lemma colon_in_kb_id_aliases : kb_node_doc_name "a" "b:c" = kb_node_doc_name "a:b" "c".
Proof. reflexivity. Qed.

End AddressWitnesses.
