(* ===== verification/Storage.v ===== *)
(** * Storage: the daemon's write-ahead log and snapshots

    Models [daemon/src/storage.rs]: the tables of the SQLite backend and the
    statements that read and write them. A statement either runs or fails; a
    failure is chosen by the caller of the model (argument [ok]) and leaves the
    tables as they were, because every write is one statement or one
    transaction. Row ids are the engine's AUTOINCREMENT ids: strictly
    increasing, never reused. The connection pool only decides which connection
    runs a statement. *)
From S2P Require Import Prelude Membership.

(** [StorageError]; the text of the engine's message is irrelevant. *)
Inductive StorageError := Sqlite (msg : string) | IoError (msg : string) | DurableDocMissing (doc : string).
#[export] Instance StorageError_eq_dec : EqDecision StorageError.
Proof. solve_decision. Defined.

(** ** Tables *)

Record WalEntry := mkWal { w_id : N; w_doc : string; w_update : string; w_client : option N }.
Record Snapshot := mkSnap { sn_state : string; sn_wal_id : N; sn_hash : string }.
Record Tables := mkTables {
  wal : list WalEntry;
  snapshots : gmap string Snapshot;
  next_id : N;
  kb_blocklist : gset (string * string);
}.
Definition fresh_tables : Tables := mkTables [] ∅ 1 ∅.

(** [DocumentState]: the snapshot of the last compaction and the rows after it. *)
Record DocumentState := mkState { ds_snapshot : option string; wal_tail : list WalEntry }.

Section Backend.
Context `{Crypto}.
Implicit Types t : Tables.

Definition of_doc (doc_name : string) (w : WalEntry) : bool := bool_decide (w_doc w = doc_name).

(** [INSERT INTO wal], then [last_insert_rowid()]. *)
Definition wal_append t (doc_name update : string) (client : option N) : Tables * N :=
  (mkTables (wal t ++ [mkWal (next_id t) doc_name update client]) (snapshots t) (next_id t + 1) (kb_blocklist t),
   next_id t).

(** [SELECT .. WHERE doc_name = ?1 AND id > ?2 ORDER BY id]; rows are kept in
    the order of their ids. *)
Definition wal_entries_since t (doc_name : string) (since_seq : N) : list WalEntry :=
  List.filter (fun w => of_doc doc_name w && (since_seq <? w_id w)%N) (wal t).

(** The integrity test of a stored snapshot: an empty hash is a snapshot of an
    older version and is not checked. *)
Definition snapshot_intact (s : Snapshot) : bool :=
  bool_decide (sn_hash s = "") || bool_decide (hex_encode (sha256 (sn_state s)) = sn_hash s).

(** [load_document]: a corrupt snapshot is discarded and the rows are read from
    the beginning. *)
Definition load_document t (doc_name : string) : option DocumentState :=
  let '(snapshot, cutoff) :=
    match snapshots t !! doc_name with
    | Some s => if snapshot_intact s then (Some (sn_state s), sn_wal_id s) else (None, 0%N)
    | None => (None, 0%N)
    end in
  let entries := wal_entries_since t doc_name cutoff in
  match snapshot, entries with
  | None, [] => None
  | _, _ => Some (mkState snapshot entries)
  end.

(** [compact]: one transaction that replaces the snapshot and deletes the rows
    up to [up_to]. *)
Definition compact t (doc_name state : string) (up_to : N) : Tables :=
  mkTables (List.filter (fun w => negb (of_doc doc_name w && (w_id w <=? up_to)%N)) (wal t))
    (<[doc_name := mkSnap state up_to (hex_encode (sha256 state))]> (snapshots t))
    (next_id t) (kb_blocklist t).

Definition delete_document t (doc_name : string) : Tables :=
  mkTables (List.filter (fun w => negb (of_doc doc_name w)) (wal t)) (delete doc_name (snapshots t))
    (next_id t) (kb_blocklist t).

(** [SELECT DISTINCT doc_name] of both tables. *)
Definition list_documents t : gset string :=
  list_to_set (map w_doc (wal t)) ∪ dom (snapshots t).
Definition doc_exists t (doc_name : string) : bool :=
  bool_decide (is_Some (snapshots t !! doc_name)) || existsb (of_doc doc_name) (wal t).

Definition load_blocklist t : list (string * string) := elements (kb_blocklist t).
Definition add_block t (kb_id principal : string) : Tables :=
  mkTables (wal t) (snapshots t) (next_id t) ({[(kb_id, principal)]} ∪ kb_blocklist t).
Definition remove_block t (kb_id principal : string) : Tables :=
  mkTables (wal t) (snapshots t) (next_id t) (kb_blocklist t ∖ {[(kb_id, principal)]}).

(** ** Lemmas *)

(** The rows of one document. *)
Definition rows t (doc_name : string) : list WalEntry := List.filter (of_doc doc_name) (wal t).

Lemma since_rows t d n : wal_entries_since t d n = List.filter (fun w => (n <? w_id w)%N) (rows t d).
Proof.
  unfold wal_entries_since, rows. induction (wal t) as [|w l IH]; [done|]. simpl.
  destruct (of_doc d w); simpl; [|done]. by destruct (_ <? _)%N; simpl; rewrite IH.
Qed.

Lemma rows_append t d u c d' :
  rows (wal_append t d u c).1 d' = rows t d' ++ (if bool_decide (d = d') then [mkWal (next_id t) d u c] else []).
Proof. unfold rows, wal_append. cbn [fst wal]. rewrite List.filter_app. f_equal. Qed.

Lemma filter_twice {A} (f g : A -> bool) l :
  List.filter f (List.filter g l) = List.filter (fun x => g x && f x) l.
Proof.
  induction l as [|x l IH]; [done|]. simpl. destruct (g x); simpl; [|done].
  by destruct (f x); rewrite IH.
Qed.

Lemma rows_compact t d s n d' :
  rows (compact t d s n) d' =
  List.filter (fun w => negb (bool_decide (d = d') && (w_id w <=? n)%N)) (rows t d').
Proof.
  unfold rows, compact. cbn [wal]. rewrite !filter_twice. apply List_filter_ext. intros w _.
  unfold of_doc. by destruct (w_id w <=? n)%N; repeat case_bool_decide; simplify_eq/=.
Qed.

Lemma rows_delete t d d' :
  rows (delete_document t d) d' = if bool_decide (d = d') then [] else rows t d'.
Proof.
  unfold rows, delete_document. cbn [wal]. rewrite filter_twice. case_bool_decide as E.
  - subst d'. rewrite (List_filter_ext _ (fun _ => false)).
    + induction (wal t); done.
    + intros w _. by destruct (of_doc d w).
  - apply List_filter_ext. intros w _. unfold of_doc. by repeat case_bool_decide; simplify_eq/=.
Qed.

(** Both existence tests agree. *)
Lemma doc_exists_listed t d : doc_exists t d = true <-> d ∈ list_documents t.
Proof.
  unfold doc_exists, list_documents. rewrite orb_true_iff, bool_decide_eq_true, existsb_exists, elem_of_union,
    elem_of_dom, elem_of_list_to_set, list_elem_of_fmap. unfold of_doc.
  setoid_rewrite bool_decide_eq_true. setoid_rewrite <- list_elem_of_In. naive_solver.
Qed.

(** A document loads exactly when it exists, provided its snapshot is intact. *)
Lemma load_iff_exists t d :
  (forall s, snapshots t !! d = Some s -> snapshot_intact s = true) ->
  (forall w, w ∈ rows t d -> (0 < w_id w)%N) ->
  is_Some (load_document t d) <-> doc_exists t d = true.
Proof.
  intros Hi Hpos. unfold load_document, doc_exists. rewrite orb_true_iff, bool_decide_eq_true.
  destruct (snapshots t !! d) as [s|] eqn:Es.
  - rewrite (Hi s) by done. by split; eauto.
  - rewrite since_rows. assert (Hr : List.filter (fun w => (0 <? w_id w)%N) (rows t d) = rows t d).
    { rewrite (List_filter_ext _ (fun _ => true)); [clear; induction (rows t d); simpl; congruence|].
      intros w Hw. apply N.ltb_lt. by apply Hpos. }
    rewrite Hr. unfold rows. rewrite existsb_exists.
    destruct (List.filter (of_doc d) (wal t)) as [|w l] eqn:El.
    + split; [by intros [??]|]. intros [[? ?]|(w & Hw & Hd)]; [done|].
      assert (Hin : w ∈ List.filter (of_doc d) (wal t)) by (by apply elem_of_List_filter; rewrite list_elem_of_In).
      rewrite El in Hin. by apply not_elem_of_nil in Hin.
    + split; [|eauto]. intros _. right. exists w. rewrite <- list_elem_of_In, <- elem_of_List_filter, El.
      by left.
Qed.

End Backend.
