(* ===== verification/DocStore.v ===== *)
(** * DocStore: the daemon's documents in memory and on disk

    Models the document half of [daemon/src/doc_store.rs]: loading a document
    from its snapshot and the rows of the write-ahead log after it, the
    write-ahead update path, sharing, compaction, idle and least-recently-used
    eviction, save intents and the bookkeeping of clients and sharers. Each
    operation is the composition of the phases between its await points, so
    that the interleavings of two callers are sequences of the same phases.

    Time ([Instant::now]) and the random client id of a freshly built document
    are arguments; [io op doc] says whether a storage statement succeeds. *)
From S2P Require Import Prelude Rope Buffer Membership CollabText DocAddress Storage.

(** ** State *)

(** Storage statements that can fail. *)
Inductive IoOp := IoAppend | IoLoad | IoCompact | IoDelete.
Definition Io : Type := IoOp -> string -> bool.

(** [DurableCreation]. *)
Inductive DurableCreation := Allowed | Refused.
#[export] Instance DurableCreation_eq_dec : EqDecision DurableCreation.
Proof. solve_decision. Defined.

Definition is_durable_doc (name : string) : bool :=
  match parse name with
  | Some (KbNode _ _) | Some (KbCollection _) => true
  | _ => false
  end.

Inductive SaveIntentResult := IntentOk (server_hash : string) (epoch : N) | Conflict (server_hash : string).
Record ApplyResult := mkApplyResult { ar_update : string; ar_wal_seq : N }.

Section Store.
Context {R : Type} `{Rope R, Yrs, Crypto}.

Record DocEntry := mkEntry {
  sync : TextSync R;
  wal_seq : N;
  update_count : N;
  last_activity : N;
  connected_clients : N;
  save_epoch : N;
  last_saved_by : option string;
  sharer_session_id : option N;
}.

(** [changes] is what was sent to the projector's change feed, when one is
    wired. *)
Record DocStore := mkStore {
  docs : gmap string DocEntry;
  storage : Tables;
  compact_threshold : N;
  max_documents : nat;
  max_wal_entries : N;
  changes : option (list string);
}.
Implicit Types (s : DocStore) (e : DocEntry) (io : Io).

Definition set_docs s (d : gmap string DocEntry) : DocStore :=
  mkStore d (storage s) (compact_threshold s) (max_documents s) (max_wal_entries s) (changes s).
Definition set_storage s (t : Tables) : DocStore :=
  mkStore (docs s) t (compact_threshold s) (max_documents s) (max_wal_entries s) (changes s).
Definition put s (name : string) e : DocStore := set_docs s (<[name := e]> (docs s)).

(** An operation on the store that can fail; its effects persist on failure. *)
Definition M (A : Type) : Type := DocStore -> DocStore * (StorageError + A).
Definition ret {A} (x : A) : M A := fun s => (s, inr x).
Definition fail {A} (err : StorageError) : M A := fun s => (s, inl err).
Definition sbind {A B} (m : M A) (k : A -> M B) : M B :=
  fun s => match m s with
           | (s', inr x) => k x s'
           | (s', inl err) => (s', inl err)
           end.
Notation "'let!' x ':=' m 'in' k" := (sbind m (fun x => k)) (at level 10, x pattern, m at level 150, k at level 200).
Definition get : M DocStore := fun s => (s, inr s).
Definition modify (f : DocStore -> DocStore) : M unit := fun s => (f s, inr tt).
Definition run_io (io : Io) (op : IoOp) (doc : string) : M unit :=
  if io op doc then ret tt else fail (Sqlite "statement failed").

Definition emit_change (doc_name : string) : M unit :=
  modify (fun s => if is_durable_doc doc_name
    then mkStore (docs s) (storage s) (compact_threshold s) (max_documents s) (max_wal_entries s)
           ((fun l => l ++ [doc_name]) <$> changes s)
    else s).

(** ** Loading *)

(** [pick_lru_evictable]: the entry with the oldest activity among the idle ones
    that are not [busy], the first one met winning ties. *)
Definition lru_step (busy : gset string) (victim : option (string * N)) (kv : string * DocEntry) : option (string * N) :=
  let '(name, e) := kv in
  if bool_decide (name ∈ busy) || negb (connected_clients e =? 0)%N then victim
  else match victim with
       | Some (_, t) => if (last_activity e <? t)%N then Some (name, last_activity e) else victim
       | None => Some (name, last_activity e)
       end.
Definition pick_lru_evictable (busy : gset string) (d : gmap string DocEntry) : option string :=
  fst <$> foldl (lru_step busy) None (map_to_list d).

(** Replay the rows over a document; [None] is a row that does not apply. *)
Fixpoint replay (sync : TextSync R) (last_id : N) (tail : list WalEntry) : option (TextSync R * N) :=
  match tail with
  | [] => Some (sync, last_id)
  | w :: tail' =>
      let '(sync, ok) := apply_update sync (w_update w) in
      if ok then replay sync (w_id w) tail' else None
  end.

(** The document rebuilt from its stored state. *)
Definition rebuild (client : N) (state : DocumentState) : option (TextSync R * N) :=
  let? sync := match ds_snapshot state with
               | Some snapshot => from_state client snapshot
               | None => Some (empty_relay client)
               end in
  replay sync 0 (wal_tail state).

Definition fresh_entry (sync : TextSync R) (seq now : N) : DocEntry := mkEntry sync seq 0 now 0 0 None None.

(** The eviction that makes room when the working set is full. *)
Definition make_room (busy : gset string) : M unit :=
  modify (fun s => if (0 <? max_documents s) && (max_documents s <=? size (docs s))
    then match pick_lru_evictable busy (docs s) with
         | Some victim => set_docs s (delete victim (docs s))
         | None => s
         end
    else s).

Context (client : N) (busy : gset string).

Definition get_or_create_with (io : Io) (now : N) (doc_name : string) (creation : DurableCreation) : M DocEntry :=
  let! s := get in
  match docs s !! doc_name with
  | Some e => ret e
  | None =>
      let! _ := make_room busy in
      let! _ := run_io io IoLoad doc_name in
      let! s := get in
      let! sw := match load_document (storage s) doc_name with
                 | Some state =>
                     match rebuild client state with
                     | Some sw => ret sw
                     | None => fail (Sqlite "bad snapshot or WAL replay")
                     end
                 | None =>
                     if bool_decide (creation = Refused) && is_durable_doc doc_name
                     then fail (DurableDocMissing doc_name)
                     else ret (empty_relay client, 0%N)
                 end in
      let e := fresh_entry sw.1 sw.2 now in
      let! _ := modify (fun s => put s doc_name e) in
      ret e
  end.
Definition get_or_create io now doc_name : M DocEntry := get_or_create_with io now doc_name Refused.
Definition get_or_create_allowing_durable io now doc_name : M DocEntry := get_or_create_with io now doc_name Allowed.

(** [entry.lock()] and a change of the entry's fields; the handle is shared with
    the map. *)
Definition update_entry (doc_name : string) (f : DocEntry -> DocEntry) : M unit :=
  modify (fun s => set_docs s (alter f doc_name (docs s))).

(** ** Compaction *)

(** The two phases of [compact_doc]: capture the state under the entry's lock,
    then write it. *)
Definition capture io now (doc_name : string) : M (string * N) :=
  let! e := get_or_create io now doc_name in
  let! _ := update_entry doc_name (fun e => mkEntry (sync e) (wal_seq e) 0 (last_activity e) (connected_clients e)
                                    (save_epoch e) (last_saved_by e) (sharer_session_id e)) in
  ret (encode_state (sync e), wal_seq e).
Definition write_snapshot io (doc_name : string) (snap : string * N) : M unit :=
  let! _ := run_io io IoCompact doc_name in
  modify (fun s => set_storage s (compact (storage s) doc_name snap.1 snap.2)).
Definition compact_doc io now (doc_name : string) : M unit :=
  let! snap := capture io now doc_name in write_snapshot io doc_name snap.

(** Run an operation whose failure is only logged. *)
Definition attempt {A} (m : M A) : M unit := fun s => ((m s).1, inr tt).
Fixpoint each {A} (f : A -> M unit) (l : list A) : M unit :=
  match l with
  | [] => ret tt
  | x :: l' => let! _ := f x in each f l'
  end.
Definition compact_all io now : M unit :=
  let! s := get in each (fun name => attempt (compact_doc io now name)) (map_to_list (docs s)).*1.

(** ** Updates *)

Definition validate_update (update : string) : M unit :=
  match decode_v1 update with
  | Some _ => ret tt
  | None => fail (Sqlite "invalid update")
  end.

(** The row of the log. *)
Definition append_row io (doc_name update : string) (client_id : option N) : M N :=
  let! _ := run_io io IoAppend doc_name in
  fun s => let '(t, id) := wal_append (storage s) doc_name update client_id in (set_storage s t, inr id).

(** First phase of [apply_update]. *)
Definition append_phase io (doc_name update : string) (client_id : option N) : M N :=
  let! _ := validate_update update in append_row io doc_name update client_id.

(** Second phase: apply in memory; the result says whether to compact. *)
Definition apply_phase io now (doc_name update : string) (wal_id : N) : M bool :=
  let! e := get_or_create_allowing_durable io now doc_name in
  let '(sync', ok) := apply_update (sync e) update in
  if negb ok
  then let! _ := update_entry doc_name (fun e => mkEntry sync' (wal_seq e) (update_count e) (last_activity e)
                   (connected_clients e) (save_epoch e) (last_saved_by e) (sharer_session_id e)) in
       fail (Sqlite "apply failed")
  else
    let count := (update_count e + 1)%N in
    let! _ := update_entry doc_name (fun e => mkEntry sync' wal_id count now (connected_clients e) (save_epoch e)
                                      (last_saved_by e) (sharer_session_id e)) in
    let! s := get in
    ret ((0 <? max_wal_entries s)%N && (max_wal_entries s <=? count)%N || (compact_threshold s <=? count)%N).

Definition store_update io now (doc_name update : string) (client_id : option N) : M ApplyResult :=
  let! wal_id := append_phase io doc_name update client_id in
  let! should_compact := apply_phase io now doc_name update wal_id in
  let! _ := if should_compact then compact_doc io now doc_name else ret tt in
  let! _ := emit_change doc_name in
  ret (mkApplyResult update wal_id).

Definition delete_stored io (doc_name : string) : M unit :=
  let! _ := run_io io IoDelete doc_name in
  modify (fun s => set_storage s (delete_document (storage s) doc_name)).

(** [share_doc]: a failing deletion is logged and ignored. *)
Definition share_doc io now (doc_name update : string) : M ApplyResult :=
  let! _ := validate_update update in
  let! _ := attempt (delete_stored io doc_name) in
  let! _ := modify (fun s => set_docs s (delete doc_name (docs s))) in
  let! wal_id := append_row io doc_name update None in
  let! e := get_or_create_allowing_durable io now doc_name in
  let '(sync', ok) := apply_update (sync e) update in
  let! _ := update_entry doc_name (fun e => if ok
              then mkEntry sync' wal_id 1 now 1 (save_epoch e) (last_saved_by e) (sharer_session_id e)
              else mkEntry sync' (wal_seq e) (update_count e) (last_activity e) (connected_clients e)
                     (save_epoch e) (last_saved_by e) (sharer_session_id e)) in
  if negb ok then fail (Sqlite "apply failed")
  else let! _ := emit_change doc_name in ret (mkApplyResult update wal_id).

Definition delete_doc io (doc_name : string) : M unit :=
  let! _ := modify (fun s => set_docs s (delete doc_name (docs s))) in
  delete_stored io doc_name.

(** ** Eviction *)

Definition idle (now max_idle : N) e : bool := (connected_clients e =? 0)%N && (max_idle <=? now - last_activity e)%N.
Definition idle_names s (now max_idle : N) : list string :=
  (List.filter (fun kv : string * DocEntry => idle now max_idle kv.2) (map_to_list (docs s))).*1.

(** The removal pass of [evict_idle], re-checking each candidate. *)
Fixpoint remove_idle (now max_idle : N) (names : list string) (d : gmap string DocEntry)
    : gmap string DocEntry * list string :=
  match names with
  | [] => (d, [])
  | name :: names' =>
      match d !! name with
      | Some e => if idle now max_idle e
                  then let '(d', ev) := remove_idle now max_idle names' (delete name d) in (d', name :: ev)
                  else remove_idle now max_idle names' d
      | None => remove_idle now max_idle names' d
      end
  end.

(** An evicted ephemeral document is also deleted from storage. *)
Definition purge io (name : string) : M unit :=
  if is_durable_doc name then ret tt else attempt (delete_stored io name).

Definition evict_idle io now (max_idle : N) : M (list string) :=
  let! s := get in
  let to_evict := idle_names s now max_idle in
  match to_evict with
  | [] => ret []
  | _ =>
      let! _ := each (fun name => attempt (compact_doc io now name)) to_evict in
      let! s := get in
      let '(d, evicted) := remove_idle now max_idle to_evict (docs s) in
      let! _ := modify (fun s => set_docs s d) in
      let! _ := each (purge io) evicted in
      ret evicted
  end.

(** ** Readers and bookkeeping *)

Definition read_doc {A} io now (doc_name : string) (f : TextSync R -> A) : M A :=
  let! e := get_or_create io now doc_name in ret (f (sync e)).
Definition store_state_vector io now doc_name : M string := read_doc io now doc_name state_vector.
Definition store_encode_state io now doc_name : M string := read_doc io now doc_name encode_state.
Definition store_content io now doc_name : M (list N) := read_doc io now doc_name content.
Definition encode_state_and_sv io now doc_name : M (string * string) :=
  read_doc io now doc_name (fun sy => (encode_state sy, state_vector sy)).
Definition encode_state_and_sv_authorized io now doc_name : M (string * string) :=
  let! e := get_or_create_allowing_durable io now doc_name in ret (encode_state (sync e), state_vector (sync e)).

(** [encoding::encode_diff]: unlike [TextSync::encode_diff], a state vector that
    does not decode is an error. *)
Definition doc_diff (sy : TextSync R) (remote_sv : string) : StorageError + string :=
  match decode_state_vector remote_sv with
  | Some sv => inr (encode_state_as_update (doc sy) sv)
  | None => inl (Sqlite "diff encoding")
  end.
Definition store_encode_diff io now doc_name (remote_sv : string) : M string :=
  let! e := get_or_create io now doc_name in fun s => (s, doc_diff (sync e) remote_sv).
Definition encode_diff_and_sv io now doc_name (remote_sv : string) : M (string * string) :=
  let! e := get_or_create io now doc_name in
  match doc_diff (sync e) remote_sv with
  | inr diff => ret (diff, state_vector (sync e))
  | inl err => fail err
  end.

Definition document_names s : list string := (map_to_list (docs s)).*1.
Definition document_count s : nat := size (docs s).

(** The ids of the hosted collections, in memory or stored; a failing listing
    contributes nothing. *)
Definition collection_id (name : string) : option string :=
  match parse name with Some (KbCollection kb_id) => Some kb_id | _ => None end.
Definition list_collection_ids io s : list string :=
  let stored := if io IoLoad "" then elements (list_documents (storage s)) else [] in
  let ids : gset string := list_to_set (omap collection_id (document_names s ++ stored)) in
  merge_sort String.le (elements ids).

(** [k.ends_with(suffix)]. *)
Definition ends_with (k suffix : string) : bool :=
  bool_decide (is_Some (strip_prefix (String.rev suffix) (String.rev k))).
Definition find_doc_by_suffix s (suffix : string) : option string :=
  if bool_decide (is_Some (docs s !! suffix)) then Some suffix
  else match List.filter (fun k => ends_with k ("/" +:+ suffix) || ends_with k (":" +:+ suffix)) (document_names s) with
       | [k] => Some k
       | _ => None
       end.

Definition has_doc s (name : string) : bool := bool_decide (is_Some (docs s !! name)).
Definition has_durable_doc io s (name : string) : bool :=
  has_doc s name || (if io IoLoad name then doc_exists (storage s) name else false).

Definition content_hash (text_bytes : list N -> string) (sy : TextSync R) : string :=
  hex_encode (sha256 (text_bytes (content sy))).
Definition check_save_intent (text_bytes : list N -> string) io now (doc_name expected_hash : string)
    : M SaveIntentResult :=
  let! e := get_or_create io now doc_name in
  let server_hash := content_hash text_bytes (sync e) in
  if bool_decide (server_hash = expected_hash)
  then let! _ := update_entry doc_name (fun e => mkEntry (sync e) (wal_seq e) (update_count e) (last_activity e)
                   (connected_clients e) (save_epoch e + 1) (last_saved_by e) (sharer_session_id e)) in
       ret (IntentOk server_hash (save_epoch e + 1))
  else ret (Conflict server_hash).
Definition record_save io now (doc_name saved_by : string) : M unit :=
  let! _ := get_or_create io now doc_name in
  update_entry doc_name (fun e => mkEntry (sync e) (wal_seq e) (update_count e) now (connected_clients e)
    (save_epoch e) (Some saved_by) (sharer_session_id e)).
Definition track_client_connect io now (doc_name : string) : M unit :=
  let! _ := get_or_create io now doc_name in
  update_entry doc_name (fun e => mkEntry (sync e) (wal_seq e) (update_count e) now (u32 (connected_clients e + 1))
    (save_epoch e) (last_saved_by e) (sharer_session_id e)).
Definition track_client_disconnect io now (doc_name : string) : M unit :=
  let! _ := get_or_create io now doc_name in
  update_entry doc_name (fun e => mkEntry (sync e) (wal_seq e) (update_count e) (last_activity e)
    (connected_clients e - 1) (save_epoch e) (last_saved_by e) (sharer_session_id e)).
Definition set_sharer (doc_name : string) (session : option N) : M unit :=
  update_entry doc_name (fun e => mkEntry (sync e) (wal_seq e) (update_count e) (last_activity e)
    (connected_clients e) (save_epoch e) (last_saved_by e) session).
Definition set_sharer_session doc_name (session_id : N) : M unit := set_sharer doc_name (Some session_id).
Definition clear_sharer doc_name : M unit := set_sharer doc_name None.
Definition is_sharer s (doc_name : string) (session_id : N) : bool :=
  match docs s !! doc_name with
  | Some e => bool_decide (sharer_session_id e = Some session_id)
  | None => false
  end.

(** The process stops and a new one opens the same database. *)
Definition restart s : DocStore := set_docs s ∅.

End Store.

(** ** Properties an operation keeps *)

Section Keeps.
Context {R : Type} `{Yrs}.

Definition keeps {A} (P : @DocStore R _ -> Prop) (f : M A) : Prop := forall s, P s -> P (f s).1.
Lemma keeps_bind {A B} P (f : M A) (k : A -> M B) : keeps P f -> (forall a, keeps P (k a)) -> keeps P (sbind f k).
Proof. intros Hf Hk s Hs. unfold sbind. specialize (Hf s Hs). destruct (f s) as [s1 [err|a]]; [done|]. by apply Hk. Qed.
Lemma keeps_modify P f : (forall s, P s -> P (f s)) -> keeps P (modify f).
Proof. intros Hf s. apply Hf. Qed.
End Keeps.

(** Goes through an operation step by step, with the facts of the base. *)
Ltac keep :=
  repeat first
    [ lazymatch goal with |- keeps _ (sbind _ _) => apply keeps_bind; [|intros ?] end
    | by intros ? ?
    | lazymatch goal with
      | |- keeps _ (match ?x with _ => _ end) => destruct x
      | |- keeps _ (let '(_, _) := ?x in _) => destruct x
      end
    | by eauto with mae ].
