(* ===== verification/DocStoreSpec.v ===== *)
(** * DocStoreSpec: what the document store promises

    The abstract store is a map from document names to CRDT states, in which
    an update is a join and nothing else ever changes a state but sharing,
    deleting, and the eviction of ephemeral documents. The detailed store of
    [DocStore] implements it: memory, snapshots and log always agree on it,
    through loads, compactions, evictions, failing statements and restarts. *)
From S2P Require Import Prelude Rope Buffer Membership CollabText DocAddress Storage DocStore.

(** ** The CRDT as a join semilattice

    [doc_state] is everything a document has integrated or keeps pending,
    [up_state] what an update carries. *)
Class YrsMerge `{Yrs} := {
  YState : Type;
  y_join : YState -> YState -> YState;
  y_bot : YState;
  doc_state : YDoc -> YState;
  up_state : YUpdate -> YState;
}.
(** Documented behaviour: merging is commutative, associative and idempotent, a
    new document is empty, applying an update merges it, and the full state of
    a document is an update that carries exactly that state and that every
    document accepts. *)
Class YrsMergeLaws `{YrsMerge} : Prop := {
  join_comm x y : y_join x y = y_join y x;
  join_assoc x y z : y_join x (y_join y z) = y_join (y_join x y) z;
  join_idem x : y_join x x = x;
  join_bot x : y_join y_bot x = x;
  st_new id : doc_state (doc_with_id id) = y_bot;
  st_apply c o d u t : txn_apply_update (transact_mut o d) u = (t, true) ->
    doc_state (commit c t).1 = y_join (doc_state d) (up_state u);
  st_encode d : exists u, decode_v1 (encode_state_as_update d empty_state_vector) = Some u /\
    up_state u = doc_state d /\ forall o d', (txn_apply_update (transact_mut o d') u).2 = true;
}.

Section Spec.
Context {R : Type} `{Rope R, Yrs, Crypto, !YrsMerge, !YrsMergeLaws}.
Implicit Types (s : @DocStore R _) (e : @DocEntry R _) (io : Io) (t : Tables).
Implicit Types (x : YState) (d : string).

(** What an encoded update carries, and that every document accepts it. *)
Definition carried (up : string) : YState := from_option up_state y_bot (decode_v1 up).
Definition accepted (up : string) : Prop :=
  exists u, decode_v1 up = Some u /\ forall o (y : YDoc), (txn_apply_update (transact_mut o y) u).2 = true.
Definition entry_state e : YState := doc_state (doc (sync e)).

(** The state stored for a document: its snapshot joined with the later rows. *)
Definition rows_state (l : list WalEntry) (x : YState) : YState :=
  foldl (fun x w => y_join x (carried (w_update w))) x l.
Definition disk t d : YState :=
  match load_document t d with
  | None => y_bot
  | Some st => rows_state (wal_tail st) (from_option carried y_bot (ds_snapshot st))
  end.

(** Everything stored can be read back, and the log holds only rows after the
    snapshot. *)
Definition snap_ok t d (sn : Snapshot) : Prop :=
  snapshot_intact sn = true /\ accepted (sn_state sn) /\ (sn_wal_id sn < next_id t)%N /\
  forall w, w ∈ rows t d -> (sn_wal_id sn < w_id w)%N.
Definition row_ok t (w : WalEntry) : Prop := (0 < w_id w < next_id t)%N /\ accepted (w_update w).
Definition tables_ok t : Prop :=
  (forall d sn, snapshots t !! d = Some sn -> snap_ok t d sn) /\ (forall d w, w ∈ rows t d -> row_ok t w).

(** Disk holds [dk] and each document in memory satisfies [mm]. *)
Definition holds (dk : string -> YState) (mm : string -> YState -> Prop) s : Prop :=
  tables_ok (storage s) /\ (0 < next_id (storage s))%N /\ (forall d, disk (storage s) d = dk d) /\
  (forall d e, docs s !! d = Some e -> mm d (entry_state e) /\ (wal_seq e < next_id (storage s))%N).
Definition implements (m : string -> YState) s : Prop := holds m (fun d x => x = m d) s.

(** ** Reading back what is stored *)

Lemma encode_ok (sy : TextSync R) : carried (encode_state sy) = doc_state (doc sy) /\ accepted (encode_state sy).
Proof.
  unfold encode_state, carried, accepted. destruct (st_encode (doc sy)) as (u & -> & Hs & Ha).
  split; [done|]. eauto.
Qed.

Lemma apply_accepted (sy : TextSync R) up : accepted up ->
  exists sy', apply_update sy up = (sy', true) /\ doc_state (doc sy') = y_join (doc_state (doc sy)) (carried up).
Proof.
  intros (u & Eu & Ha). unfold apply_update, carried. rewrite Eu. specialize (Ha None (doc sy)).
  destruct (txn_apply_update _ u) as [t ok] eqn:Et. simpl in Ha. subst ok.
  eexists; split; [done|]. unfold rebuild_rope, commit_txn. destruct (commit _ t) as [d ups] eqn:Ec. simpl.
  rewrite <- (st_apply (ts_cursor sy) None (doc sy) u t Et). by rewrite Ec.
Qed.

Lemma from_state_accepted id state : accepted state ->
  exists sy : TextSync R, from_state id state = Some sy /\ doc_state (doc sy) = carried state.
Proof.
  intros (u & Eu & Ha). unfold from_state, from_state_doc, carried. rewrite Eu.
  specialize (Ha None (doc_with_id id)). destruct (txn_apply_update _ u) as [t ok] eqn:Et. simpl in Ha. subst ok.
  simpl. eexists; split; [done|]. simpl. rewrite (st_apply 0 None _ u t Et), st_new. apply join_bot.
Qed.

Lemma replay_accepted l : forall (sy : TextSync R) n, (forall w, w ∈ l -> accepted (w_update w)) ->
  exists sy' n', replay sy n l = Some (sy', n') /\ doc_state (doc sy') = rows_state l (doc_state (doc sy)).
Proof.
  induction l as [|w l IH]; intros sy n Hl; [by exists sy, n|]. simpl.
  destruct (apply_accepted sy (w_update w)) as (sy' & -> & Es); [apply Hl; by left|].
  destruct (IH sy' (w_id w)) as (sy'' & n'' & E & Hs); [intros; apply Hl; by right|].
  exists sy'', n''. split; [done|]. by rewrite Hs, Es.
Qed.

Lemma rows_of t d w : w ∈ rows t d -> w_doc w = d.
Proof. unfold rows, of_doc. intros [_ Hd]%elem_of_List_filter. by bool_prop. Qed.

Lemma since_all t d n : (forall w, w ∈ rows t d -> (n < w_id w)%N) -> wal_entries_since t d n = rows t d.
Proof.
  intros Hn. rewrite since_rows, (List_filter_ext _ (fun _ => true)); [clear; induction (rows t d); simpl; congruence|].
  intros w Hw. apply N.ltb_lt. by apply Hn.
Qed.

(** The stored state, with the tables in order. *)
Lemma disk_eq t d : tables_ok t ->
  disk t d = rows_state (rows t d) (from_option (fun sn => carried (sn_state sn)) y_bot (snapshots t !! d)).
Proof.
  intros [Hsn Hw]. unfold disk, load_document. destruct (snapshots t !! d) as [sn|] eqn:Es.
  - destruct (Hsn d sn Es) as (Hi & _ & _ & Hrows). by rewrite Hi, since_all.
  - rewrite since_all by (intros w ?; by apply (Hw d w)). simpl. by destruct (rows t d) as [|w l].
Qed.

Lemma replay_seq l : forall (sy sy' : TextSync R) n n' k, replay sy n l = Some (sy', n') ->
  (n < k)%N -> (forall w, w ∈ l -> (w_id w < k)%N) -> (n' < k)%N.
Proof.
  induction l as [|w l IH]; intros sy sy' n n' k E Hn Hl; simpl in E; [by simplify_eq|].
  destruct (apply_update sy (w_update w)) as [sy1 [|]]; [|done].
  eapply IH; [exact E|apply Hl; by left|intros; apply Hl; by right].
Qed.

Lemma rebuild_ok t d st id : tables_ok t -> load_document t d = Some st ->
  exists (sy : TextSync R) n, rebuild id st = Some (sy, n) /\ doc_state (doc sy) = disk t d /\ (n < next_id t)%N.
Proof.
  intros Hok Hl. pose proof Hok as [Hsn Hw]. rewrite disk_eq by done. unfold rebuild.
  assert (Hst : ds_snapshot st = sn_state <$> snapshots t !! d /\ wal_tail st = rows t d /\ (0 < next_id t)%N).
  { unfold load_document in Hl. destruct (snapshots t !! d) as [sn|] eqn:Es.
    - destruct (Hsn d sn Es) as (Hi & _ & Hn & Hr). rewrite Hi, since_all in Hl by done. simplify_eq/=. split_and!; [done..|lia].
    - rewrite since_all in Hl by (intros w ?; by apply (Hw d w)).
      destruct (rows t d) as [|w l] eqn:Er; simplify_eq/=. destruct (Hw d w) as [? _]; [rewrite Er; by left|].
      split_and!; [done..|lia]. }
  destruct Hst as (Es & Et & Hpos). rewrite Et.
  assert (Hrows : forall w, w ∈ rows t d -> accepted (w_update w)) by (intros w ?; by apply (Hw d w)).
  assert (Hseq : forall w, w ∈ rows t d -> (w_id w < next_id t)%N) by (intros w Hin; destruct (Hw d w Hin); lia).
  destruct (snapshots t !! d) as [sn|] eqn:Esn; rewrite Es; cbn [fmap option_fmap option_map from_option].
  - destruct (from_state_accepted id (sn_state sn)) as (sy & -> & E); [by apply (Hsn d)|].
    destruct (replay_accepted (rows t d) sy 0 Hrows) as (sy' & n & Er & Hd). exists sy', n.
    rewrite Hd, E. split_and!; [done..|]. by eapply replay_seq.
  - destruct (replay_accepted (rows t d) (empty_relay id) 0 Hrows) as (sy & n & E & Hd).
    exists sy, n. rewrite Hd. simpl. rewrite st_new. split_and!; [done..|]. by eapply replay_seq.
Qed.

(** ** What the statements do to the stored states *)

Lemma rows_state_app l k x : rows_state (l ++ k) x = rows_state k (rows_state l x).
Proof. apply foldl_app. Qed.

Lemma row_absorbed l w x : w ∈ l -> y_join (rows_state l x) (carried (w_update w)) = rows_state l x.
Proof.
  intros Hin. apply list_elem_of_split in Hin as (l1 & l2 & ->). rewrite rows_state_app. simpl.
  set (c := carried (w_update w)). assert (Hkeep : forall k y, y_join y c = y -> y_join (rows_state k y) c = rows_state k y).
  { induction k as [|v k IH]; intros y Hy; [done|]. simpl. apply IH.
    by rewrite <- join_assoc, (join_comm _ c), join_assoc, Hy. }
  apply Hkeep. by rewrite <- join_assoc, join_idem.
Qed.

Lemma rows_state_absorbed l x :
  (forall w, w ∈ l -> y_join x (carried (w_update w)) = x) -> rows_state l x = x.
Proof.
  intros Hl. unfold rows_state. induction l as [|w l IH]; [done|]. simpl.
  rewrite Hl by (by left). apply IH. intros; apply Hl; by right.
Qed.

Lemma append_ok t d u c : tables_ok t -> accepted u -> (0 < next_id t)%N ->
  tables_ok (wal_append t d u c).1 /\
  forall d', disk (wal_append t d u c).1 d' = if bool_decide (d = d') then y_join (disk t d) (carried u) else disk t d'.
Proof.
  intros Hok Hu Hpos. pose proof Hok as [Hsn Hw].
  assert (Hok' : tables_ok (wal_append t d u c).1).
  { split.
    - intros d' sn Es. destruct (Hsn d' sn Es) as (Hi & Ha & Hn & Hr). split_and!; [done..|cbn [wal_append next_id fst]; lia|].
      intros w. rewrite rows_append, elem_of_app. intros [Hin|Hin]; [by apply Hr|].
      case_bool_decide; [|by apply not_elem_of_nil in Hin]. by apply list_elem_of_singleton in Hin as ->.
    - intros d' w. rewrite rows_append, elem_of_app. unfold row_ok. cbn [wal_append next_id fst]. intros [Hin|Hin].
      + destruct (Hw d' w Hin). split; [lia|done].
      + case_bool_decide; [|by apply not_elem_of_nil in Hin]. apply list_elem_of_singleton in Hin as ->. simpl. split; [lia|done]. }
  split; [done|]. intros d'. rewrite !disk_eq by done. rewrite rows_append, rows_state_app. cbn [wal_append snapshots fst].
  by case_bool_decide; subst.
Qed.

Lemma compact_ok t d st n : tables_ok t -> accepted st -> (n < next_id t)%N -> carried st = disk t d ->
  tables_ok (compact t d st n) /\ forall d', disk (compact t d st n) d' = disk t d'.
Proof.
  intros Hok Ha Hn Hc. pose proof Hok as [Hsn Hw].
  assert (Hsub : forall d' w, w ∈ rows (compact t d st n) d' -> w ∈ rows t d' /\ (d = d' -> (n < w_id w)%N)).
  { intros d' w. rewrite rows_compact, elem_of_List_filter. intros [Hin Hf]. split; [done|]. intros ->.
    rewrite bool_decide_eq_true_2 in Hf by done. simpl in Hf. apply negb_true_iff, N.leb_gt in Hf. lia. }
  assert (Hok' : tables_ok (compact t d st n)).
  { split.
    - intros d' sn. cbn [compact snapshots]. rewrite lookup_insert_Some. intros [[<- <-]|[Hne Es]].
      + unfold snap_ok, snapshot_intact. cbn [sn_hash sn_state sn_wal_id compact next_id].
        split_and!; [apply orb_true_intro; right; by apply bool_decide_eq_true_2|done..|]. intros w Hin. by apply (Hsub d w Hin).
      + destruct (Hsn d' sn Es) as (Hi & Hacc & Hnn & Hr). split_and!; [done..|]. intros w Hin. apply Hr. by apply (Hsub d' w).
    - intros d' w Hin. by apply (Hw d' w), Hsub. }
  split; [done|]. intros d'. rewrite (disk_eq (compact _ _ _ _)) by done. cbn [compact snapshots].
  destruct (decide (d = d')) as [<-|Hne].
  - rewrite lookup_insert_eq. cbn. rewrite Hc. apply rows_state_absorbed. intros w Hin.
    rewrite disk_eq by done. apply row_absorbed. by apply (Hsub d w).
  - rewrite lookup_insert_ne by done. rewrite disk_eq, rows_compact by done. f_equal.
    rewrite (List_filter_ext _ (fun _ => true)); [clear; induction (rows t d'); simpl; congruence|].
    intros w _. by rewrite bool_decide_eq_false_2.
Qed.

Lemma table_delete_ok t d : tables_ok t ->
  tables_ok (delete_document t d) /\
  forall d', disk (delete_document t d) d' = if bool_decide (d = d') then y_bot else disk t d'.
Proof.
  intros Hok. pose proof Hok as [Hsn Hw].
  assert (Hok' : tables_ok (delete_document t d)).
  { split.
    - intros d' sn. cbn [delete_document snapshots]. rewrite lookup_delete_Some. intros [Hne Es].
      destruct (Hsn d' sn Es) as (Hi & Ha & Hn & Hr). split_and!; [done..|]. intros w. rewrite rows_delete, bool_decide_eq_false_2 by done. apply Hr.
    - intros d' w. rewrite rows_delete. case_bool_decide; [by intros ?%not_elem_of_nil|]. apply Hw. }
  split; [done|]. intros d'. rewrite !disk_eq by done. rewrite rows_delete. cbn [delete_document snapshots].
  case_bool_decide as E; [subst; by rewrite lookup_delete_eq|by rewrite lookup_delete_ne].
Qed.

(** ** The abstract store *)

Inductive event := EMerge (doc up : string) | EClear (doc : string).
Definition upd (m : string -> YState) d x : string -> YState := fun d' => if bool_decide (d = d') then x else m d'.
Definition spec_next (m : string -> YState) (ev : event) : string -> YState :=
  match ev with
  | EMerge d up => upd m d (y_join (m d) (carried up))
  | EClear d => upd m d y_bot
  end.

Lemma upd_eq m d x : upd m d x d = x.
Proof. unfold upd. by rewrite bool_decide_eq_true_2. Qed.
Lemma upd_ne m d d' x : d <> d' -> upd m d x d' = m d'.
Proof. intros. unfold upd. by rewrite bool_decide_eq_false_2. Qed.

(** ** The phases of the operations *)

Section Phases.
Context (client : N) (busy : gset string).

Lemma holds_docs dk mm s (dd : gmap string (@DocEntry R _)) :
  holds dk mm s -> (forall d e, dd !! d = Some e -> docs s !! d = Some e) -> holds dk mm (set_docs s dd).
Proof. intros (Ht & Hp & Hd & Hm) Hsub. split_and!; [done..|]. intros d e He. by apply Hm, Hsub. Qed.

(** An entry replaced by one that satisfies [mm] too. *)
Lemma holds_alter dk mm s d f :
  holds dk mm s ->
  (forall e, docs s !! d = Some e -> mm d (entry_state e) -> (wal_seq e < next_id (storage s))%N ->
     mm d (entry_state (f e)) /\ (wal_seq (f e) < next_id (storage s))%N) ->
  holds dk mm (set_docs s (alter f d (docs s))).
Proof.
  intros (Ht & Hp & Hd & Hm) Hf. split_and!; [done..|]. intros d' e. cbn [set_docs docs storage].
  rewrite lookup_alter_Some. intros [(<- & e0 & E0 & ->)|[_ He]]; [|by apply Hm].
  destruct (Hm d e0 E0). by apply Hf.
Qed.

Lemma make_room_ok dk mm s d : holds dk mm s -> docs s !! d = None ->
  exists s', make_room busy s = (s', inr tt) /\ holds dk mm s' /\ storage s' = storage s /\ docs s' !! d = None.
Proof.
  intros Hs Hd. unfold make_room, modify. eexists; split; [done|]. case_match; [|done].
  destruct (pick_lru_evictable _ _) as [v|]; [|done].
  split_and!; [|done|]; cbn [set_docs docs]; rewrite ?lookup_delete_None; [|by right].
  apply holds_docs; [done|]. intros d' e. by rewrite lookup_delete_Some; intros [_ ?].
Qed.

(** The document a load produces. *)
Definition loaded (cr : DurableCreation) d : M (TextSync R * N) := fun s =>
  match load_document (storage s) d with
  | Some state => match rebuild client state with
                  | Some sw => ret sw
                  | None => fail (Sqlite "bad snapshot or WAL replay")
                  end
  | None => if bool_decide (cr = Refused) && is_durable_doc d then fail (DurableDocMissing d)
            else ret (empty_relay client, 0%N)
  end s.
Lemma loaded_ok cr d dk mm s : holds dk mm s ->
  (exists sy n, loaded cr d s = (s, inr (sy, n)) /\ doc_state (doc sy) = dk d /\ (n < next_id (storage s))%N) \/
  exists err, loaded cr d s = (s, inl err).
Proof.
  intros (Ht & Hp & Hd & _). unfold loaded. destruct (load_document (storage s) d) as [st|] eqn:El.
  - destruct (rebuild_ok (storage s) d st client Ht El) as (sy & n & -> & Es & Hn).
    left. exists sy, n. by rewrite Es, Hd.
  - case_match; [right; by eexists|]. left. exists (empty_relay client), 0%N. split_and!; [done| |done].
    simpl. rewrite st_new, <- Hd. unfold disk. by rewrite El.
Qed.

(** Loading a document makes no difference to what is stored, and the entry it
    returns is the one in memory; it fails only for a document that is not in
    memory. *)
Lemma get_or_create_ok io now d cr dk mm s :
  (forall d, mm d (dk d)) -> holds dk mm s ->
  exists s' r, get_or_create_with client busy io now d cr s = (s', r) /\
  holds dk mm s' /\ storage s' = storage s /\
  match r with
  | inr e => docs s' !! d = Some e /\ mm d (entry_state e)
  | inl _ => docs s' !! d = None
  end.
Proof.
  intros Hmm Hs. unfold get_or_create_with, sbind, get. destruct (docs s !! d) as [e|] eqn:Ed.
  { eexists _, _. split; [done|]. split_and!; [done..|]. by apply (proj2 (proj2 (proj2 Hs))). }
  destruct (make_room_ok dk mm s d Hs Ed) as (s1 & -> & Hs1 & Est & Ed1).
  unfold run_io. destruct (io IoLoad d); cbn [ret fail]; [|by eexists _, _].
  destruct (loaded_ok cr d dk mm s1 Hs1) as [(sy & n & E & Es & Hn)|[err E]];
    unfold loaded in E; rewrite E; [|by eexists _, _].
  eexists _, _. cbn [modify ret]. split; [done|]. split_and!; [|done|..].
  - destruct Hs1 as (Ht & Hp & Hd & Hm). split_and!; [done..|]. intros d' e. cbn [put set_docs docs storage].
    rewrite lookup_insert_Some. intros [[<- <-]|[_ He]]; [|by apply Hm].
    split; [|done]. unfold entry_state. simpl. by rewrite Es.
  - apply lookup_insert_eq.
  - unfold entry_state. simpl. by rewrite Es.
Qed.

Lemma implements_refl (m : string -> YState) : forall d, (fun d x => x = m d) d (m d).
Proof. done. Qed.

(** ** Compaction keeps every state *)

Lemma compact_doc_ok io now d m s : implements m s -> implements m (compact_doc client busy io now d s).1.
Proof.
  intros Hs. unfold compact_doc, capture, get_or_create, sbind.
  destruct (get_or_create_ok io now d Refused m _ s (implements_refl m) Hs) as (s1 & r & -> & Hs1 & Est & Hr).
  destruct r as [err|e]; [done|]. destruct Hr as [Ee Hee]. cbn [update_entry modify ret].
  set (s2 := set_docs s1 _). assert (Hs2 : implements m s2).
  { apply holds_alter; [done|]. intros e' _ Hm Hq. done. }
  unfold write_snapshot, sbind, run_io. destruct (io IoCompact d); [|done]. cbn [ret modify fst].
  destruct Hs2 as (Ht & Hp & Hd & Hm). destruct (encode_ok (sync e)) as [Hc Ha].
  destruct (compact_ok (storage s2) d (encode_state (sync e)) (wal_seq e)) as [Ht' Hd']; try done.
  - by apply (proj2 (proj2 (proj2 Hs1)) d e).
  - rewrite Hc, Hd. exact Hee.
  - split_and!; [done..| |done]. intros d'. cbn [set_storage storage]. by rewrite Hd'.
Qed.

Lemma each_keeps {A} (P : @DocStore R _ -> Prop) (f : A -> M unit) l :
  (forall a s, P s -> P (f a s).1) -> forall s, P s -> P (each f l s).1.
Proof.
  intros Hf. induction l as [|a l IH]; intros s Hs; [done|]. cbn [each]. unfold sbind.
  pose proof (Hf a s Hs) as Ha. destruct (f a s) as [s' [err|[]]]; [done|]. by apply IH.
Qed.

Lemma attempt_keeps {A} (P : @DocStore R _ -> Prop) (f : M A) s : P (f s).1 -> P (attempt f s).1.
Proof. done. Qed.

(** ** Updates *)

(** Memory lags behind the disk on one document. *)
Definition lags (m : string -> YState) d x (d' : string) (z : YState) : Prop := z = m d' \/ (d' = d /\ z = x).

Lemma append_holds m s d up c : implements m s -> accepted up ->
  exists s' , (fun s => let '(t, id) := wal_append (storage s) d up c in (set_storage s t, @inr StorageError _ id)) s
      = (s', inr (next_id (storage s))) /\ docs s' = docs s /\ (next_id (storage s) < next_id (storage s'))%N /\
    holds (spec_next m (EMerge d up)) (lags (spec_next m (EMerge d up)) d (m d)) s'.
Proof.
  intros (Ht & Hp & Hd & Hm) Hup. eexists; split; [done|]. split; [done|]. cbn [set_storage storage wal_append next_id fst].
  split; [lia|]. destruct (append_ok (storage s) d up c Ht Hup Hp) as [Ht' Hd'].
  split_and!; [done|cbn; lia| |].
  - intros d'. cbn [set_storage storage]. specialize (Hd' d'). cbn [wal_append fst] in Hd'. rewrite Hd', !Hd. done.
  - intros d' e He. destruct (Hm d' e He) as [Hx Hq]. split; [|cbn; lia]. destruct (decide (d' = d)) as [->|Hne].
    + by right.
    + left. cbn. rewrite upd_ne by done. exact Hx.
Qed.

Lemma lags_absent m s d x : holds m (lags m d x) s -> docs s !! d = None -> implements m s.
Proof.
  intros (Ht & Hp & Hd & Hm) Hn. split_and!; [done..|]. intros d' e He. destruct (Hm d' e He) as [[Hx|[-> _]] Hq]; [done|].
  congruence.
Qed.

(** Applying the row in memory ends the lag. *)
Lemma catch_up m m' s d e x up sy (f : @DocEntry R _ -> @DocEntry R _) :
  holds m' (lags m' d x) s -> docs s !! d = Some e -> lags m' d x d (entry_state e) ->
  m' d = y_join x (carried up) -> doc_state (doc sy) = y_join (entry_state e) (carried up) ->
  sync (f e) = sy -> (wal_seq (f e) < next_id (storage s))%N -> m = m' ->
  implements m (set_docs s (alter f d (docs s))).
Proof.
  intros (Ht & Hp & Hd & Hm) He Hl Hx Hsy Hf Hq ->. split_and!; [done..|]. intros d' e'. cbn [set_docs docs storage].
  rewrite lookup_alter_Some. intros [(<- & e0 & E0 & ->)|[Hne He']].
  - simplify_eq. split; [|done]. unfold entry_state. rewrite Hsy.
    destruct Hl as [->|[_ ->]]; [|done]. by rewrite Hx, <- join_assoc, join_idem.
  - destruct (Hm d' e' He') as [[?|[-> _]] ?]; done.
Qed.

Lemma store_update_ok io now d up c m s :
  implements m s -> (is_Some (decode_v1 up) -> accepted up) ->
  exists s' r, store_update client busy io now d up c s = (s', r) /\
    (implements (spec_next m (EMerge d up)) s' \/ (implements m s' /\ exists err, r = inl err)).
Proof.
  intros Hs Hacc. unfold store_update, append_phase, validate_update, sbind.
  destruct (decode_v1 up) as [u|] eqn:Eu; cbn [ret fail]; [|eauto 10]. specialize (Hacc ltac:(eauto)).
  unfold append_row, sbind, run_io. destruct (io IoAppend d); cbn [ret fail]; [|eauto 10].
  destruct (append_holds m s d up c Hs Hacc) as (s1 & E1 & Edocs & Hlt & Hs1). rewrite E1. clear E1.
  set (m' := spec_next m (EMerge d up)) in *. unfold apply_phase, sbind, get_or_create_allowing_durable.
  destruct (get_or_create_ok io now d Allowed m' _ s1 (fun d => or_introl eq_refl) Hs1) as (s2 & r & -> & Hs2 & Est & Hr).
  destruct r as [err|e]; [eexists _, _; split; [done|]; left; by eapply lags_absent|].
  destruct Hr as [Ee Hl]. destruct (apply_accepted (sync e) up Hacc) as (sy & -> & Hsy). cbn [negb].
  cbn [update_entry modify get ret].
  match goal with |- context [set_docs s2 (alter ?f d _)] => set (s3 := set_docs s2 (alter f d (docs s2))) end.
  assert (Hs3 : implements m' s3).
  { eapply (catch_up m' m' s2 d e (m d) up sy); try done; [unfold m'; cbn; by rewrite upd_eq|cbn; by rewrite Est]. }
  clearbody s3. match goal with |- context [if ?b then compact_doc _ _ _ _ _ else _] => destruct b end.
  - unfold compact_doc at 1. pose proof (compact_doc_ok io now d m' s3 Hs3) as Hc. unfold compact_doc in Hc.
    unfold sbind in *. destruct (capture client busy io now d s3) as [s4 [err|snap]]; [eauto 10|].
    destruct (write_snapshot io d snap s4) as [s5 [err|[]]]; [eauto 10|]. eexists _, _; split; [done|]. left.
    unfold emit_change, modify. cbn [fst]. by case_match.
  - eexists _, _; split; [done|]. left. unfold emit_change, modify. cbn [fst]. by case_match.
Qed.

Lemma holds_ext dk dk' mm mm' s : (forall d, dk d = dk' d) -> (forall d x, mm d x -> mm' d x) ->
  holds dk mm s -> holds dk' mm' s.
Proof.
  intros Hd Hm (Ht & Hp & Hdk & Hmm). split_and!; [done..| |].
  - intros d. by rewrite Hdk.
  - intros d e He. destruct (Hmm d e He). auto.
Qed.

Lemma clear_ok m s d : implements m s -> docs s !! d = None ->
  implements (spec_next m (EClear d)) (set_storage s (delete_document (storage s) d)).
Proof.
  intros (Ht & Hp & Hd & Hm) Hn. destruct (table_delete_ok (storage s) d Ht) as [Ht' Hd'].
  split_and!; [done..| |].
  - intros d'. cbn [set_storage storage spec_next]. rewrite Hd', Hd. done.
  - intros d' e He. cbn [spec_next]. rewrite upd_ne by (intros ->; cbn in He; congruence). by apply Hm.
Qed.

Lemma forget_ok m s d : implements m s ->
  implements m (set_docs s (delete d (docs s))) /\ docs (set_docs s (delete d (docs s))) !! d = None.
Proof.
  intros Hs. split; [|apply lookup_delete_eq]. apply holds_docs; [done|]. intros d' e. by rewrite lookup_delete_Some; intros [_ ?].
Qed.

(** The deletion of [share_doc], which may fail. *)
Definition cleared io d : list event := if io IoDelete d then [EClear d] else [].
Lemma share_clear_ok io d m s : implements m s ->
  exists s', sbind (attempt (delete_stored io d))
             (fun _ => modify (fun s => set_docs s (delete d (docs s)))) s = (s', inr tt) /\
    implements (foldl spec_next m (cleared io d)) s' /\ docs s' !! d = None.
Proof.
  intros Hs. destruct (forget_ok m s d Hs) as [H4 H5]. unfold delete_stored, sbind, attempt, run_io, cleared.
  destruct (io IoDelete d); cbn [fst snd ret fail modify]; eexists; (split; [done|]); [|by split].
  split; [|apply lookup_delete_eq]. by apply (clear_ok m _ d H4 H5).
Qed.

Lemma share_doc_ok io now d up m s :
  implements m s -> (is_Some (decode_v1 up) -> accepted up) ->
  exists s' r, share_doc client busy io now d up s = (s', r) /\ exists evs, implements (foldl spec_next m evs) s' /\
    (evs = cleared io d ++ [EMerge d up] \/ ((exists err, r = inl err) /\ (evs = [] \/ evs = cleared io d))).
Proof.
  intros Hs Hacc. unfold share_doc, validate_update. unfold sbind at 1.
  destruct (decode_v1 up) as [u|] eqn:Eu; cbn [ret fail].
  2: { eexists _, _; split; [done|]. exists []. eauto 10. }
  specialize (Hacc ltac:(eauto)). destruct (share_clear_ok io d m s Hs) as (s1 & E1 & Hs1 & Hn).
  unfold sbind at 1. unfold sbind at 1 in E1. destruct (attempt _ s) as [s0 [err|[]]]; [done|].
  unfold sbind at 1. rewrite E1. clear E1. unfold append_row. unfold sbind at 1. unfold sbind at 1. unfold run_io.
  destruct (io IoAppend d); cbn [ret fail].
  2: { eexists _, _; split; [done|]. eexists. split; [exact Hs1|]. eauto. }
  set (m1 := foldl spec_next m (cleared io d)) in *.
  destruct (append_holds m1 s1 d up None Hs1 Hacc) as (s2 & E2 & Edocs & Hlt & Hs2). rewrite E2. clear E2.
  set (m2 := spec_next m1 (EMerge d up)) in *.
  assert (Hfold : foldl spec_next m (cleared io d ++ [EMerge d up]) = m2) by by rewrite foldl_app.
  unfold sbind at 1. unfold get_or_create_allowing_durable.
  destruct (get_or_create_ok io now d Allowed m2 _ s2 (fun d => or_introl eq_refl) Hs2) as (s3 & r & -> & Hs3 & Est & Hr).
  destruct r as [err|e].
  { eexists _, _; split; [done|]. eexists. split; [|by left]. rewrite Hfold. by eapply lags_absent. }
  destruct Hr as [Ee Hl]. destruct (apply_accepted (sync e) up Hacc) as (sy & -> & Hsy).
  unfold sbind, update_entry, modify, emit_change, ret. cbn [negb fst].
  eexists _, _; split; [done|]. eexists. split; [|by left]. rewrite Hfold.
  match goal with |- context [alter ?f d (docs s3)] => assert (Hs4 : implements m2 (set_docs s3 (alter f d (docs s3)))) end.
  { eapply (catch_up m2 m2 s3 d e (m1 d) up sy); try done; [unfold m2; cbn; by rewrite upd_eq|cbn; by rewrite Est]. }
  case_match; exact Hs4.
Qed.

Lemma delete_doc_ok io d m s : implements m s ->
  exists s' r, delete_doc io d s = (s', r) /\
    ((r = inr tt /\ implements (spec_next m (EClear d)) s') \/ ((exists err, r = inl err) /\ implements m s')).
Proof.
  intros Hs. destruct (forget_ok m s d Hs) as [H4 H5]. unfold delete_doc, delete_stored, sbind, run_io, modify.
  destruct (io IoDelete d); cbn [ret fail]; eexists _, _; (split; [done|]); [|eauto].
  left. split; [done|]. by apply clear_ok.
Qed.

(** ** Eviction *)

Lemma remove_idle_sub now k names : forall dd d (e : @DocEntry R _),
  (remove_idle now k names dd).1 !! d = Some e -> dd !! d = Some e /\ d ∉ (remove_idle now k names dd).2.
Proof.
  induction names as [|n names IH]; intros dd d e; cbn [remove_idle]; [by intros ?; split; [|apply not_elem_of_nil]|].
  destruct (dd !! n) as [e0|] eqn:En; [|apply IH]. destruct (idle now k e0); [|apply IH].
  specialize (IH (delete n dd) d e). destruct (remove_idle now k names (delete n dd)) as [d' ev]. cbn [fst snd] in *.
  intros Hd. destruct (IH Hd) as [Hl Hn]. apply lookup_delete_Some in Hl as [Hne Hl]. split; [done|].
  apply not_elem_of_cons. split; [done|]. done.
Qed.

(** Deleting ephemeral documents that are not in memory. *)
Lemma purge_ok io l : forall m s, implements m s -> (forall d, d ∈ l -> docs s !! d = None) ->
  exists s' evs, each (purge io) l s = (s', inr tt) /\
    implements (foldl spec_next m evs) s' /\ Forall (fun ev => exists d, ev = EClear d /\ is_durable_doc d = false) evs.
Proof.
  induction l as [|d l IH]; intros m s Hs Hl; [exists s, []; by split_and!|].
  cbn [each]. unfold sbind, purge at 1. destruct (is_durable_doc d) eqn:Ed.
  { cbn [ret]. apply IH; [done|]. intros; apply Hl; by right. }
  unfold attempt, delete_stored, sbind, run_io. destruct (io IoDelete d); cbn [ret fail fst modify].
  - destruct (IH (spec_next m (EClear d)) (set_storage s (delete_document (storage s) d))) as (s' & evs & E & Hi & Hf).
    + apply clear_ok; [done|]. apply Hl. by left.
    + intros; apply Hl; by right.
    + exists s', (EClear d :: evs). split; [exact E|]. split; [exact Hi|]. constructor; eauto.
  - apply IH; [done|]. intros; apply Hl; by right.
Qed.

Lemma evict_idle_ok io now k m s : implements m s ->
  exists s' r evs, evict_idle client busy io now k s = (s', inr r) /\ implements (foldl spec_next m evs) s' /\
    Forall (fun ev => exists d, ev = EClear d /\ is_durable_doc d = false) evs.
Proof.
  intros Hs. unfold evict_idle. unfold sbind at 1, get at 1. destruct (idle_names s now k) as [|n names] eqn:En.
  { exists s, [], []. by split_and!. }
  rewrite <- En. unfold sbind at 1.
  assert (Hc : implements m (each (fun name => attempt (compact_doc client busy io now name)) (idle_names s now k) s).1).
  { apply each_keeps; [|done]. intros d s0 Hs0. by apply compact_doc_ok. }
  assert (Hr : forall l s0, (each (fun name => attempt (compact_doc client busy io now name)) l s0).2 = inr tt).
  { induction l as [|d l IH]; intros s0; [done|]. cbn [each]. unfold sbind, attempt. apply IH. }
  specialize (Hr (idle_names s now k) s). destruct (each _ _ s) as [s1 r1]. cbn [fst snd] in *. subst r1.
  unfold sbind at 1, get at 1. pose proof (remove_idle_sub now k (idle_names s now k) (docs s1)) as Hsub.
  destruct (remove_idle _ _ _ (docs s1)) as [dd ev]. cbn [fst snd] in Hsub. unfold sbind at 1, modify at 1.
  destruct (purge_ok io ev m (set_docs s1 dd)) as (s2 & evs & E & Hi & Hf).
  - apply holds_docs; [done|]. intros d e He. by apply Hsub.
  - intros d Hd. destruct (docs (set_docs s1 dd) !! d) as [e|] eqn:He; [|done]. by destruct (Hsub d e He).
  - unfold sbind at 1. rewrite E. by exists s2, ev, evs.
Qed.

(** ** The other operations change no state *)

Lemma touch_ok io now d cr m s (f : @DocEntry R _ -> @DocEntry R _) :
  (forall e, sync (f e) = sync e /\ wal_seq (f e) = wal_seq e) -> implements m s ->
  implements m (sbind (get_or_create_with client busy io now d cr) (fun _ => update_entry d f) s).1.
Proof.
  intros Hf Hs. unfold sbind.
  destruct (get_or_create_ok io now d cr m _ s (implements_refl m) Hs) as (s1 & r & -> & Hs1 & _ & _).
  destruct r as [err|e]; [done|]. cbn [update_entry modify fst]. apply holds_alter; [done|].
  intros e' _ Hm Hq. unfold entry_state in *. destruct (Hf e') as [-> ->]. done.
Qed.
Lemma update_entry_ok d m s (f : @DocEntry R _ -> @DocEntry R _) :
  (forall e, sync (f e) = sync e /\ wal_seq (f e) = wal_seq e) -> implements m s ->
  implements m (update_entry d f s).1.
Proof.
  intros Hf Hs. cbn [update_entry modify fst]. apply holds_alter; [done|].
  intros e' _ Hm Hq. unfold entry_state in *. destruct (Hf e') as [-> ->]. done.
Qed.
Lemma read_ok {A} io now d cr m s (k : @DocEntry R _ -> M A) :
  (forall e s0, implements m s0 -> implements m (k e s0).1) -> implements m s ->
  implements m (sbind (get_or_create_with client busy io now d cr) k s).1.
Proof.
  intros Hk Hs. unfold sbind.
  destruct (get_or_create_ok io now d cr m _ s (implements_refl m) Hs) as (s1 & r & -> & Hs1 & _ & _).
  destruct r as [err|e]; [done|]. by apply Hk.
Qed.
Lemma restart_ok m s : implements m s -> implements m (restart s).
Proof. intros Hs. apply holds_docs; [done|]. intros d e. by rewrite lookup_empty. Qed.
Lemma compact_all_ok io now m s : implements m s -> implements m (compact_all client busy io now s).1.
Proof.
  intros Hs. unfold compact_all, sbind, get. apply each_keeps; [|done]. intros d s0 Hs0. by apply compact_doc_ok.
Qed.

End Phases.

(** ** The simulation *)

(** The requests of the daemon, one after the other. *)
Inductive op :=
  | OUpdate (d up : string) (c : option N)
  | OShare (d up : string)
  | ODelete (d : string)
  | OEvict (max_idle : N)
  | OCompact (d : string)
  | OCompactAll
  | ORead (d : string)
  | OFetch (d : string)
  | OIntent (text_bytes : list N -> string) (d hash : string)
  | OSaved (d who : string)
  | OConnect (d : string)
  | ODisconnect (d : string)
  | OSharer (d : string) (session : option N)
  | ORestart.
(** The circumstances of a request: the client id drawn for a document it
    loads, the documents another task holds, the statements that fail, the
    clock. *)
Record env := mkEnv { env_client : N; env_busy : gset string; env_io : Io; env_now : N }.

(** The state after a request and whether it was acknowledged. *)
Definition acked {A} (r : @DocStore R _ * (StorageError + A)) : @DocStore R _ * bool :=
  (r.1, match r.2 with inl _ => false | inr _ => true end).
Definition exec (v : env) (o : op) s : @DocStore R _ * bool :=
  let '(mkEnv c b io now) := v in
  match o with
  | OUpdate d up k => acked (store_update c b io now d up k s)
  | OShare d up => acked (share_doc c b io now d up s)
  | ODelete d => acked (delete_doc io d s)
  | OEvict k => acked (evict_idle c b io now k s)
  | OCompact d => acked (compact_doc c b io now d s)
  | OCompactAll => acked (compact_all c b io now s)
  | ORead d => acked (encode_state_and_sv c b io now d s)
  | OFetch d => acked (encode_state_and_sv_authorized c b io now d s)
  | OIntent tb d h => acked (check_save_intent c b tb io now d h s)
  | OSaved d who => acked (record_save c b io now d who s)
  | OConnect d => acked (track_client_connect c b io now d s)
  | ODisconnect d => acked (track_client_disconnect c b io now d s)
  | OSharer d session => acked (set_sharer d session s)
  | ORestart => (restart s, true)
  end.

(** An update that decodes is accepted by every document. *)
Definition op_ok (o : op) : Prop :=
  match o with
  | OUpdate _ up _ | OShare _ up => is_Some (decode_v1 up) -> accepted up
  | _ => True
  end.

(** What a request may do to the abstract store: an acknowledged update merges,
    an acknowledged share replaces, a failed one may have got part of the way,
    and eviction clears ephemeral documents only. *)
Definition effect (v : env) (o : op) (ok : bool) (evs : list event) : Prop :=
  match o with
  | OUpdate d up _ => evs = [EMerge d up] \/ (ok = false /\ evs = [])
  | OShare d up => evs = cleared (env_io v) d ++ [EMerge d up] \/ (ok = false /\ (evs = [] \/ evs = cleared (env_io v) d))
  | ODelete d => evs = if ok then [EClear d] else []
  | OEvict _ => Forall (fun ev => exists d, ev = EClear d /\ is_durable_doc d = false) evs
  | _ => evs = []
  end.

Ltac no_effect := exists []; split; [done|]; cbn [foldl].
Lemma exec_simulates v o m s s' ok :
  implements m s -> op_ok o -> exec v o s = (s', ok) ->
  exists evs, effect v o ok evs /\ implements (foldl spec_next m evs) s'.
Proof.
  intros Hs Ho E. destruct v as [c b io now]. unfold exec, acked in E.
  destruct o; simplify_eq/=.
  - destruct (store_update_ok c b io now d up c0 m s Hs Ho) as (s1 & r & -> & [Hm|[Hm [err ->]]]); cbn [fst snd].
    + exists [EMerge d up]. split; [by left|done].
    + exists []. split; [by right|done].
  - destruct (share_doc_ok c b io now d up m s Hs Ho) as (s1 & r & -> & evs & Hm & He); cbn [fst snd].
    exists evs. split; [|done]. destruct He as [->|[[err ->] He]]; [by left|by right].
  - destruct (delete_doc_ok io d m s Hs) as (s1 & r & -> & [[-> Hm]|[[err ->] Hm]]); cbn [fst snd];
      eexists; (split; [done|]); done.
  - destruct (evict_idle_ok c b io now max_idle m s Hs) as (s1 & r & evs & -> & Hm & Hf). cbn [fst snd]. by exists evs.
  - no_effect. by apply compact_doc_ok.
  - no_effect. by apply compact_all_ok.
  - no_effect. apply read_ok; [|done]. done.
  - no_effect. apply read_ok; [|done]. done.
  - no_effect. apply read_ok; [|done]. intros e s0 Hs0. cbv beta zeta. case_match; [|done]. unfold sbind. cbn [update_entry modify ret fst].
    by eapply (update_entry_ok d m s0).
  - no_effect. by apply touch_ok.
  - no_effect. by apply touch_ok.
  - no_effect. by apply touch_ok.
  - no_effect. by apply update_entry_ok.
  - no_effect. by apply restart_ok.
Qed.

(** A sequence of requests, with the acknowledgements given. *)
Fixpoint run_ops (h : list (env * op)) s : list bool * @DocStore R _ :=
  match h with
  | [] => ([], s)
  | (v, o) :: h' => let '(s1, ok) := exec v o s in let '(oks, s2) := run_ops h' s1 in (ok :: oks, s2)
  end.
Inductive effects : list (env * op) -> list bool -> list event -> Prop :=
  | effects_nil : effects [] [] []
  | effects_cons v o h ok oks evs evs' :
      effect v o ok evs -> effects h oks evs' -> effects ((v, o) :: h) (ok :: oks) (evs ++ evs').

Lemma run_simulates h : forall m s oks s', implements m s -> Forall (fun vo => op_ok vo.2) h ->
  run_ops h s = (oks, s') -> exists evs, effects h oks evs /\ implements (foldl spec_next m evs) s'.
Proof.
  induction h as [|[v o] h IH]; intros m s oks s' Hs Hok E; cbn [run_ops] in E.
  { simplify_eq. exists []. by split; [constructor|]. }
  apply Forall_cons in Hok as [Ho Hok]. destruct (exec v o s) as [s1 ok] eqn:Ee.
  destruct (run_ops h s1) as [oks1 s2] eqn:Er. simplify_eq.
  destruct (exec_simulates v o m s s1 ok Hs Ho Ee) as (evs & He & Hm).
  destruct (IH _ s1 oks1 s' Hm Hok Er) as (evs' & He' & Hm').
  exists (evs ++ evs'). split; [by constructor|]. by rewrite foldl_app.
Qed.

Lemma fresh_implements th md mw ch : implements (fun _ => y_bot) (mkStore ∅ fresh_tables th md mw ch).
Proof.
  split_and!; [|done|..].
  - split; [intros d sn|intros d w]; cbn; [by rewrite lookup_empty|by intros ?%not_elem_of_nil].
  - done.
  - intros d e He. exfalso. revert He. cbn [docs]. by rewrite lookup_empty.
Qed.

(** A request that leaves what document [d] has in it. *)
Definition spares d (o : op) : bool :=
  match o with
  | OShare d' _ | ODelete d' => negb (bool_decide (d' = d))
  | OEvict _ => is_durable_doc d
  | _ => true
  end.

Lemma spared_events v o ok evs d x m : effect v o ok evs -> spares d o = true ->
  y_join (m d) x = m d -> y_join (foldl spec_next m evs d) x = foldl spec_next m evs d.
Proof.
  intros He Hsp. assert (Hev : Forall (fun ev => match ev with EMerge _ _ => True | EClear d' => d' <> d end) evs).
  { unfold effect, cleared in He. destruct o; simplify_eq/=; bool_prop;
      repeat match goal with He : _ \/ _ |- _ => destruct He | He : _ /\ _ |- _ => destruct He end;
      subst; try (repeat case_match; subst; repeat constructor; congruence).
    eapply Forall_impl; [exact He|]. intros ev (d' & -> & Hd) ->. congruence. }
  clear He. revert m. induction Hev as [|ev evs Hd _ IH]; intros m Hx; [done|]. cbn [foldl]. apply IH.
  destruct ev as [d' up|d']; cbn [spec_next].
  - unfold upd. case_bool_decide; [subst d'|done]. by rewrite <- join_assoc, (join_comm (carried up)), join_assoc, Hx.
  - by rewrite upd_ne.
Qed.

Lemma spared_run h oks evs d x m : effects h oks evs -> Forall (fun vo => spares d vo.2 = true) h ->
  y_join (m d) x = m d -> y_join (foldl spec_next m evs d) x = foldl spec_next m evs d.
Proof.
  intros He. revert m. induction He as [|v o h ok oks evs evs' He _ IH]; intros m Hsp Hx; [done|].
  apply Forall_cons in Hsp as [Ho Hsp]. rewrite foldl_app. apply IH; [done|]. by eapply spared_events.
Qed.

(** Opening a document after a restart finds its abstract state. *)
Lemma reopen_ok m s c b io now d : implements m s -> io IoLoad d = true ->
  (is_durable_doc d = false \/ doc_exists (storage s) d = true) ->
  exists s' e, get_or_create_with c b io now d Refused (restart s) = (s', inr e) /\ entry_state e = m d.
Proof.
  intros Hs Hio Hex. pose proof (restart_ok m s Hs) as Hr.
  unfold get_or_create_with, sbind, get. cbn [restart set_docs docs]. rewrite lookup_empty.
  destruct (make_room_ok b m _ (restart s) d Hr) as (s1 & -> & Hs1 & Est & Ed1); [apply lookup_empty|].
  unfold run_io. rewrite Hio. cbn [ret].
  destruct (loaded_ok c Refused d m _ s1 Hs1) as [(sy & n & E & Es & Hn)|[err E]].
  - unfold loaded in E. rewrite E. eexists _, _. split; [done|]. unfold entry_state. simpl. by rewrite Es.
  - exfalso. unfold loaded in E. rewrite Est in E. cbn [restart set_docs storage] in E.
    destruct Hs as ((Hsn & Hw) & Hp & Hd & _).
    destruct (load_document (storage s) d) as [st|] eqn:El.
    + destruct (rebuild_ok (storage s) d st c) as (sy & n & Er & _); [by split|done|]. by rewrite Er in E.
    + destruct Hex as [Hex|Hex]; [by rewrite Hex, andb_false_r in E|].
      apply load_iff_exists in Hex as [st ?]; [congruence|..].
      * intros sn ?. by apply (Hsn d).
      * intros w ?. by apply (Hw d w).
Qed.

(** ** A stored document stays stored *)

Definition stored d s : Prop := doc_exists (storage s) d = true.
Lemma stored_append d s d' up k : stored d s -> stored d (set_storage s (wal_append (storage s) d' up k).1).
Proof.
  unfold stored. rewrite !doc_exists_listed. unfold list_documents. cbn [set_storage storage wal_append wal snapshots fst].
  rewrite map_app, list_to_set_app_L. set_solver.
Qed.
Lemma stored_compact d s d' st n : stored d s -> stored d (set_storage s (compact (storage s) d' st n)).
Proof.
  unfold stored. rewrite !doc_exists_listed. unfold list_documents. cbn [set_storage storage compact wal snapshots].
  rewrite !elem_of_union, !elem_of_list_to_set, !list_elem_of_fmap, dom_insert, elem_of_union, elem_of_singleton.
  destruct (decide (d = d')); [by right; left|]. intros [(w & -> & Hw)|?]; [|by right; right]. left. exists w. split; [done|].
  apply elem_of_List_filter. split; [done|]. unfold of_doc. by rewrite bool_decide_eq_false_2.
Qed.
Lemma stored_delete d s d' : d' <> d -> stored d s -> stored d (set_storage s (delete_document (storage s) d')).
Proof.
  unfold stored. rewrite !doc_exists_listed. unfold list_documents. cbn [set_storage storage delete_document wal snapshots].
  rewrite !elem_of_union, !elem_of_list_to_set, !list_elem_of_fmap, dom_delete, elem_of_difference, elem_of_singleton.
  intros Hne [(w & -> & Hw)|?]; [|right; by split; auto]. left. exists w. split; [done|].
  apply elem_of_List_filter. split; [done|]. unfold of_doc. by rewrite bool_decide_eq_false_2.
Qed.

Lemma stored_get c b io now d d' cr : keeps (stored d) (get_or_create_with c b io now d' cr).
Proof.
  unfold get_or_create_with, make_room, run_io. keep. apply keeps_modify. intros s Hs. by repeat case_match.
Qed.
#[local] Hint Resolve stored_get : mae.
Lemma stored_compact_doc c b io now d d' : keeps (stored d) (compact_doc c b io now d').
Proof.
  unfold compact_doc, capture, write_snapshot, run_io, get_or_create. keep.
  apply keeps_modify. intros s. apply stored_compact.
Qed.
#[local] Hint Resolve stored_compact_doc : mae.
Lemma stored_each {A} d (f : A -> M unit) l : (forall a, keeps (stored d) (f a)) -> keeps (stored d) (each f l).
Proof. intros Hf s. apply each_keeps. intros a s0. apply Hf. Qed.
Lemma stored_attempt {A} d (f : M A) : keeps (stored d) f -> keeps (stored d) (attempt f).
Proof. done. Qed.
#[local] Hint Resolve stored_each stored_attempt : mae.
Lemma stored_delete_stored io d d' : d' <> d -> keeps (stored d) (delete_stored io d').
Proof. intros Hne. unfold delete_stored, run_io. keep. apply keeps_modify. intros s. by apply stored_delete. Qed.
Lemma stored_row io d d' up k : keeps (stored d) (append_row io d' up k).
Proof. unfold append_row, run_io. keep. intros s. apply stored_append. Qed.

Lemma stored_emit d d' : keeps (stored d) (emit_change d').
Proof. apply keeps_modify. intros s Hs. by case_match. Qed.
#[local] Hint Resolve stored_delete_stored stored_row stored_emit : mae.

Lemma exec_stored v o d s : spares d o = true -> stored d s -> stored d (exec v o s).1.
Proof.
  intros Hsp Hs. destruct v as [c b io now], o; cbn [exec acked fst spares] in *; bool_prop; revert s Hs.
  - change (keeps (stored d) (store_update c b io now d0 up c0)).
    unfold store_update, append_phase, validate_update, apply_phase, get_or_create_allowing_durable. keep.
  - change (keeps (stored d) (share_doc c b io now d0 up)).
    unfold share_doc, validate_update, get_or_create_allowing_durable. keep.
  - change (keeps (stored d) (delete_doc io d0)). unfold delete_doc. keep.
  - change (keeps (stored d) (evict_idle c b io now max_idle)). unfold evict_idle. keep.
    apply stored_each. intros n. unfold purge. destruct (is_durable_doc n) eqn:En; [by intros ? ?|].
    apply stored_attempt, stored_delete_stored. intros ->. congruence.
  - apply stored_compact_doc.
  - change (keeps (stored d) (compact_all c b io now)). unfold compact_all. keep.
  - change (keeps (stored d) (encode_state_and_sv c b io now d0)). unfold encode_state_and_sv, read_doc, get_or_create. keep.
  - change (keeps (stored d) (encode_state_and_sv_authorized c b io now d0)).
    unfold encode_state_and_sv_authorized, get_or_create_allowing_durable. keep.
  - change (keeps (stored d) (check_save_intent c b text_bytes io now d0 hash)). unfold check_save_intent, get_or_create. keep.
  - change (keeps (stored d) (record_save c b io now d0 who)). unfold record_save, get_or_create. keep.
  - change (keeps (stored d) (track_client_connect c b io now d0)). unfold track_client_connect, get_or_create. keep.
  - change (keeps (stored d) (track_client_disconnect c b io now d0)). unfold track_client_disconnect, get_or_create. keep.
  - by intros s Hs.
  - by intros s Hs.
Qed.

Lemma run_stored h d : forall s oks s', Forall (fun vo => spares d vo.2 = true) h -> run_ops h s = (oks, s') ->
  stored d s -> stored d s'.
Proof.
  induction h as [|[v o] h IH]; intros s oks s' Hsp E Hs; cbn [run_ops] in E; [by simplify_eq|].
  apply Forall_cons in Hsp as [Ho Hsp]. pose proof (exec_stored v o d s Ho Hs) as Hs1.
  destruct (exec v o s) as [s1 ok]. destruct (run_ops h s1) as [oks1 s2] eqn:Er. simplify_eq. by eapply IH.
Qed.

(** An acknowledged update is in the log. *)
Lemma update_stored v d up k s s' : exec v (OUpdate d up k) s = (s', true) -> stored d s'.
Proof.
  destruct v as [c b io now]. cbn [exec acked]. unfold store_update, append_phase, sbind.
  destruct (validate_update up s) as [s0 [err|[]]]; [by intros [=]|]. unfold append_row, sbind, run_io.
  destruct (io IoAppend d); cbn [ret fail fst snd]; [|by intros [=]].
  destruct (wal_append (storage s0) d up k) as [t id] eqn:Ew. set (s1 := set_storage s0 t).
  assert (Hs1 : stored d s1).
  { unfold stored, s1. rewrite doc_exists_listed. unfold list_documents. cbn [set_storage storage]. injection Ew as <- <-.
    cbn [wal]. rewrite map_app, list_to_set_app_L. set_solver. }
  clearbody s1. intros E. apply (f_equal fst) in E. cbn [fst] in E. rewrite <- E.
  assert (Hk : keeps (stored d) (sbind (apply_phase c b io now d up id) (fun should_compact =>
    sbind (if should_compact then compact_doc c b io now d else ret tt) (fun _ =>
    sbind (emit_change d) (fun _ => ret (mkApplyResult up id)))))).
  { unfold apply_phase, get_or_create_allowing_durable. keep. }
  by apply (Hk s1).
Qed.



End Spec.

(** ** A concrete CRDT: the grow-only set of bytes *)

Module SetCrdt.

(** An update is [=] and the bytes it adds; one that starts with [#] decodes but
    no document accepts it. *)
Definition bytes (s : string) : gset N := list_to_set (map Ascii.N_of_ascii (String.list_ascii_of_string s)).
Definition print (x : gset N) : string :=
  String "=" (String.string_of_list_ascii (map Ascii.ascii_of_N (elements x))).

(** Documents hold bytes only. *)
Definition low (x : gset N) : gset N := filter (fun n => n < 256)%N x.

#[export] Instance set_yrs : Yrs := {|
  YDoc := gset N;
  YTxn := gset N;
  YUpdate := bool * gset N;
  doc_with_id _ := ∅;
  client_id _ := 0%N;
  get_string d := elements (low d);
  transact_mut _ d := d;
  text_insert t _ _ := Some t;
  remove_range t _ _ := Some t;
  txn_apply_update t u := if u.1 then (t ∪ u.2, true) else (t, false);
  txn_text t := elements (low t);
  txn_base t := elements (low t);
  txn_delta _ := [];
  encode_update_v1 := print;
  commit _ t := (t, []);
  decode_v1 s := match s with
                 | String "=" r => Some (true, bytes r)
                 | String "#" r => Some (false, bytes r)
                 | _ => None
                 end;
  doc_state_vector _ := "";
  decode_state_vector _ := None;
  empty_state_vector := "";
  encode_state_as_update d _ := print (low d);
  undo_manager d := d;
  undo_blocking d := (d, false, [], None);
  redo_blocking d := (d, false, [], None);
  mgr_can_undo _ := false;
  mgr_can_redo _ := false;
  mgr_reset d := d;
  mgr_clear_all d := d;
|}.
#[export] Instance set_merge : YrsMerge := {|
  YState := gset N;
  y_join := union;
  y_bot := ∅;
  doc_state := low;
  up_state u := low u.2;
|}.

Lemma bytes_print x : bytes (String.string_of_list_ascii (map Ascii.ascii_of_N (elements (low x)))) = low x.
Proof.
  unfold bytes. rewrite String.list_ascii_of_string_of_list_ascii, map_map. apply set_eq. intros n.
  rewrite elem_of_list_to_set, list_elem_of_fmap. setoid_rewrite elem_of_elements. unfold low.
  setoid_rewrite elem_of_filter. split.
  - intros (m & -> & Hm & Hx). by rewrite Ascii.N_ascii_embedding.
  - intros [Hn Hx]. exists n. by rewrite Ascii.N_ascii_embedding.
Qed.

#[export] Instance set_merge_laws : YrsMergeLaws.
Proof.
  split; cbn.
  - intros x y. by rewrite union_comm_L.
  - intros x y z. by rewrite union_assoc_L.
  - intros x. by rewrite union_idemp_L.
  - intros x. by rewrite union_empty_l_L.
  - done.
  - intros _ _ d [[|] u] t E; simplify_eq/=. unfold low. apply set_eq. intros n. set_solver.
  - intros d. exists (true, low d). rewrite bytes_print. split_and!; [done| |done].
    unfold low. apply set_eq. intros n. set_solver.
Qed.

End SetCrdt.

Module StoreWitnesses.
Import SetCrdt.
#[local] Existing Instance Toy.toy.
#[local] Existing Instance ListRope.list_rope.

Definition all_ok : Io := fun _ _ => true.
Definition node : string := "kbn:team:n1".
Definition store : Type := @DocStore (list N) set_yrs.
Definition empty_store (threshold : N) : store := mkStore ∅ fresh_tables threshold 0 0 None.
Definition quiet : env := mkEnv 1 ∅ all_ok 10.

(** An update, an eviction, a compaction, a second document, a restart. *)
Definition history : list (env * op) :=
  [(quiet, OUpdate node "=x" None); (quiet, OUpdate "shared:notes" "=s" (Some 4%N));
   (mkEnv 2 ∅ all_ok 500, OEvict 100)].
Definition later : list (env * op) :=
  [(quiet, OCompact node); (mkEnv 3 ∅ (fun o _ => match o with IoCompact => false | _ => true end) 20, OUpdate node "=b" None);
   (quiet, ORestart); (mkEnv 5 ∅ all_ok 900, OEvict 100)].

Lemma toy_accepts up : is_Some (decode_v1 (Yrs := set_yrs) (String "=" up)) -> accepted (String "=" up).
Proof. intros _. by eexists. Qed.



(** The bytes a restarted daemon reads for a document, or that it cannot. *)
Definition reread (s : store) : option (list N) :=
  match get_or_create_with 9 ∅ all_ok 0 node Refused (restart s) with
  | (_, inr e) => Some (elements (doc (sync e)))
  | (_, inl _) => None
  end.

Definition in_memory (s : store) : option (list N) := (fun e => elements (doc (sync e))) <$> docs s !! node.

(** Two tasks that update one document can lose an acknowledged update: task
    A appends its row, task B appends a later row, applies it and compacts; the
    compaction trims the log up to B's row although the snapshot does not
    contain A's update yet. A then applies its update in memory and is
    acknowledged, but after a crash the update is gone. *)
Theorem racing_updates_lose_acknowledged_edit :
  let s0 := (exec quiet (OUpdate node "=x" None) (empty_store 2)).1 in
  let '(s1, ra) := append_phase all_ok node "=a" None s0 in
  let '(s2, rb) := append_phase all_ok node "=b" None s1 in
  ra = inr 2%N /\ rb = inr 3%N /\
  let '(s3, compact_b) := apply_phase 1 ∅ all_ok 10 node "=b" 3 s2 in
  compact_b = inr true /\
  let '(s4, _) := compact_doc 1 ∅ all_ok 10 node s3 in
  let '(s5, done_a) := apply_phase 1 ∅ all_ok 10 node "=a" 2 s4 in
  done_a = inr false /\
  in_memory s5 = Some (elements (bytes "abx")) /\
  reread s5 = Some (elements (bytes "bx")).
Proof. vm_compute. by split_and!. Qed.

(** Two overlapping compactions: the older snapshot written last covers rows
    the newer one has already trimmed. *)
Lemma racing_compactions_lose_edit :
  let s0 := (exec quiet (OUpdate node "=x" None) (empty_store 9)).1 in
  match capture 1 ∅ all_ok 10 node s0 with
  | (s1, inr old) =>
      let s2 := (exec quiet (OUpdate node "=a" None) s1).1 in
      let s3 := (compact_doc 1 ∅ all_ok 10 node s2).1 in
      let s4 := (write_snapshot all_ok node old s3).1 in
      reread s3 = Some (elements (bytes "ax")) /\ reread s4 = Some (elements (bytes "x"))
  | _ => False
  end.
Proof. vm_compute. by split. Qed.

(** An update that decodes but does not apply is refused to its sender, yet its
    row stays in the log and the document cannot be opened any more. *)
Lemma rejected_update_blocks_document :
  let s0 := (exec quiet (OUpdate node "=x" None) (empty_store 9)).1 in
  let '(s1, ok) := exec quiet (OUpdate node "#a" None) s0 in
  ok = false /\ reread s0 = Some (elements (bytes "x")) /\ reread s1 = None.
Proof. vm_compute. by split_and!. Qed.

(** A share whose log append fails has already erased the document. *)
Lemma failed_share_erases_document :
  let s0 := (exec quiet (OUpdate node "=x" None) (empty_store 9)).1 in
  let v := mkEnv 1 ∅ (fun o _ => match o with IoAppend => false | _ => true end) 10 in
  let '(s1, ok) := exec v (OShare node "=a") s0 in
  ok = false /\ reread s0 = Some (elements (bytes "x")) /\ doc_exists (storage s1) node = false.
Proof. vm_compute. by split_and!. Qed.

End StoreWitnesses.
