(* ===== verification/DeriveCache.v ===== *)
(** * DeriveCache: memoized membership and the local blocklist

    Models the membership half of [daemon/src/doc_store.rs]: the memoized
    derivation of a knowledge base's members ([derived_membership]), the trust
    anchors, and the per-peer blocklist with its durable copy. A collection is
    presented by the state vector of its CRDT document and its op-log. *)
From S2P Require Import Prelude Membership Convergence OpLog Storage.

(** ** State *)

Record DerivedMembership := mkDerived { dm_governance : Governance; members : gmap string ValidMember }.
Record CachedDerive := mkCached { c_sv : string; c_anchor : string; valid_until : N; result : DerivedMembership }.

(** The fields of [DocStore] this half uses; [tables] is its storage. *)
Record KbState := mkKb {
  kb_anchors : gmap string string;
  kb_blocklists : gmap string (gset string);
  derive_cache : gmap string CachedDerive;
  tables : Tables;
}.

Section Cache.
Context `{Crypto}.
Implicit Types s : KbState.

Definition kb_anchor s (kb_id : string) : option string := kb_anchors s !! kb_id.
Definition set_kb_anchor s (kb_id owner_pubkey : string) : KbState :=
  mkKb (<[kb_id := owner_pubkey]> (kb_anchors s)) (kb_blocklists s) (derive_cache s) (tables s).

Definition blocked s (kb_id : string) : gset string := default ∅ (kb_blocklists s !! kb_id).
Definition membership_view_for s (kb_id : string) : MembershipView := mkView PendingOnly (blocked s kb_id).
(** Sorted principals per knowledge base, empty sets left out. *)
Definition all_kb_blocklists s : gmap string (list string) :=
  (fun set => merge_sort String.le (elements set)) <$> filter (fun '(_, set) => set <> ∅) (kb_blocklists s).

Definition invalidate_derive_cache s (kb_id : string) : KbState :=
  mkKb (kb_anchors s) (kb_blocklists s) (delete kb_id (derive_cache s)) (tables s).

(** [cache.entry(kb).or_default().insert(p)]. *)
Definition insert_block (m : gmap string (gset string)) (kp : string * string) : gmap string (gset string) :=
  <[kp.1 := {[kp.2]} ∪ default ∅ (m !! kp.1)]> m.

(** [ok] says whether the storage statement succeeds; the boolean result is
    [Ok]. *)
Definition add_kb_block (ok : bool) s (kb_id principal : string) : KbState * bool :=
  if negb ok then (s, false)
  else (invalidate_derive_cache
          (mkKb (kb_anchors s) (insert_block (kb_blocklists s) (kb_id, principal)) (derive_cache s)
             (add_block (tables s) kb_id principal)) kb_id, true).
Definition remove_kb_block (ok : bool) s (kb_id principal : string) : KbState * bool :=
  if negb ok then (s, false)
  else (invalidate_derive_cache
          (mkKb (kb_anchors s) (alter (fun set => set ∖ {[principal]}) kb_id (kb_blocklists s)) (derive_cache s)
             (remove_block (tables s) kb_id principal)) kb_id, true).
(** [load_blocklists], which starts empty when the statement fails. *)
Definition load_blocklists (ok : bool) s : KbState :=
  if ok then mkKb (kb_anchors s) (foldl insert_block (kb_blocklists s) (load_blocklist (tables s))) (derive_cache s) (tables s)
  else s.

(** The earliest expiry after [now], or [u64::MAX]. *)
Definition horizon (ops : list SignedMembershipOp) (now : N) : N :=
  let future := List.filter (fun e => now <? e)%N (omap (fun o => expires_at (op o)) ops) in
  match future with
  | [] => u64_max
  | e :: es => foldl N.min e es
  end.

(** What a derivation without the cache returns. *)
Definition derive_fresh (ops : list SignedMembershipOp) (anchor : string) (now : N) (view : MembershipView)
    : DerivedMembership :=
  let governance := derive_governance ops anchor in
  mkDerived governance (derive_valid_members_governed ops anchor now governance view).

(** [derived_membership] for a collection with state vector [sv] and log [log]. *)
Definition derived_membership s (kb_id sv : string) (log : gmap string (gmap string string)) (anchor : string) (now : N)
    : KbState * DerivedMembership :=
  let miss :=
    let ops := oplog_ops log in
    let r := derive_fresh ops anchor now (membership_view_for s kb_id) in
    (mkKb (kb_anchors s) (kb_blocklists s)
       (<[kb_id := mkCached sv anchor (horizon ops now) r]> (derive_cache s)) (tables s), r) in
  match derive_cache s !! kb_id with
  | Some e => if bool_decide (c_sv e = sv) && bool_decide (c_anchor e = anchor) && (now <? valid_until e)%N
              then (s, result e) else miss
  | None => miss
  end.

(** ** The derivation sees the clock only through expiry *)

Definition same_expiry (ops : list SignedMembershipOp) (n1 n2 : N) : Prop :=
  forall o, o ∈ ops -> expired n1 (op o) = expired n2 (op o).

Lemma op_at_expiry ops n1 n2 h : same_expiry ops n1 n2 ->
  expired n1 (op_at (index_by_hash ops) h) = expired n2 (op_at (index_by_hash ops) h).
Proof.
  intros Hs. unfold op_at. destruct (index_by_hash ops !! h) as [o|] eqn:E.
  - rewrite (lookup_total_correct _ _ _ E). apply Hs. by apply index_lookup_Some in E as [? _].
  - by rewrite lookup_total_alt, E.
Qed.

Lemma build_members_expiry ops n1 n2 order valid anc g gov : same_expiry ops n1 n2 ->
  build_members (index_by_hash ops) order valid anc g gov n1 = build_members (index_by_hash ops) order valid anc g gov n2.
Proof.
  intros Hs. unfold build_members.
  rewrite (foldl_ext (admit_step (index_by_hash ops) order valid anc g gov n1)
             (admit_step (index_by_hash ops) order valid anc g gov n2)); [done|].
  intros out h _. unfold admit_step. by rewrite (op_at_expiry ops n1 n2 h Hs).
Qed.

Lemma validity_loop_ext p q n v : (forall v, p v = q v) -> validity_loop p n v = validity_loop q n v.
Proof.
  intros Hpq. revert v. induction n as [|n IH]; intros v; [done|]. simpl. rewrite <- Hpq. by rewrite IH.
Qed.

Lemma valid_ops_expiry ops n1 n2 g owner gov : same_expiry ops n1 n2 ->
  valid_ops (index_by_hash ops) g owner gov n1 = valid_ops (index_by_hash ops) g owner gov n2.
Proof.
  intros Hs. unfold valid_ops. apply validity_loop_ext. intros v. unfold validity_pass.
  apply (f_equal list_to_set), List_filter_ext. intros h _. unfold survives, membership_at.
  by rewrite (op_at_expiry ops n1 n2 h Hs), (build_members_expiry ops n1 n2).
Qed.

Lemma derive_expiry ops anchor n1 n2 gov view : same_expiry ops n1 n2 ->
  derive_valid_members_governed ops anchor n1 gov view = derive_valid_members_governed ops anchor n2 gov view.
Proof.
  intros Hs. unfold derive_valid_members_governed. case_match; [|done]. unfold members_from.
  assert (Ha : same_expiry (admissible ops view) n1 n2).
  { intros o Ho. apply Hs. unfold admissible in Ho. by apply elem_of_List_filter in Ho as [? _]. }
  by rewrite (valid_ops_expiry _ n1 n2), (build_members_expiry _ n1 n2) by done.
Qed.

Lemma foldl_min_le l : forall a, (foldl N.min a l <= a)%N /\ forall e, e ∈ l -> (foldl N.min a l <= e)%N.
Proof.
  induction l as [|x l IH]; intros a; simpl; [split; [done|by intros e ?%not_elem_of_nil]|].
  destruct (IH (N.min a x)) as [Ha Hl]. split; [lia|]. intros e [->|He]%elem_of_cons; [lia|auto].
Qed.

Lemma horizon_expiry ops now now' : (now <= now')%N -> (now' < horizon ops now)%N -> same_expiry ops now now'.
Proof.
  intros Hle Hlt o Ho. unfold expired. destruct (expires_at (op o)) as [e|] eqn:Ee; [|done].
  destruct (N.leb_spec e now), (N.leb_spec e now'); try done; [lia|]. exfalso.
  assert (Hin : e ∈ List.filter (fun e => now <? e)%N (omap (fun o => expires_at (op o)) ops)).
  { apply elem_of_List_filter. split; [|by apply N.ltb_lt]. apply list_elem_of_omap. eauto. }
  unfold horizon in Hlt. destruct (List.filter _ _) as [|x l]; [by apply not_elem_of_nil in Hin|].
  destruct (foldl_min_le l x) as [Hx Hl]. apply elem_of_cons in Hin as [->|Hin]; [lia|]. specialize (Hl e Hin). lia.
Qed.

(** ** Reachable states *)

(** Within one knowledge base the state vector determines the op-log, as long
    as nothing is deleted from the log: the log with vector [sv] is [log_of]. *)
Context (log_of : string -> string -> gmap string (gmap string string)).

(** A daemon that starts with an empty cache on a database, then serves
    requests while its clock does not go back. *)
Definition boot (t : Tables) : KbState := load_blocklists true (mkKb ∅ ∅ ∅ t).
Inductive served (t : Tables) : N -> KbState -> Prop :=
  | served_boot now : served t now (boot t)
  | served_clock now now' s : served t now s -> (now <= now')%N -> served t now' s
  | served_anchor now s kb pk : served t now s -> served t now (set_kb_anchor s kb pk)
  | served_block now s ok kb p : served t now s -> served t now (add_kb_block ok s kb p).1
  | served_unblock now s ok kb p : served t now s -> served t now (remove_kb_block ok s kb p).1
  | served_query now s kb sv anchor :
      served t now s -> served t now (derived_membership s kb sv (log_of kb sv) anchor now).1.

(** A cache entry was computed at an earlier time under the present blocklist. *)
Definition entry_ok (now : N) s (kb : string) (e : CachedDerive) : Prop :=
  let ops := oplog_ops (log_of kb (c_sv e)) in
  exists t0, (t0 <= now)%N /\ valid_until e = horizon ops t0 /\
    result e = derive_fresh ops (c_anchor e) t0 (membership_view_for s kb).
Definition blocks_on_disk s : Prop :=
  forall kb p, p ∈ blocked s kb <-> (kb, p) ∈ kb_blocklist (tables s).

Lemma insert_block_spec m kb p kb' p' :
  p' ∈ default ∅ (insert_block m (kb, p) !! kb') <-> (kb = kb' /\ p = p') \/ p' ∈ default ∅ (m !! kb').
Proof.
  unfold insert_block. cbn [fst snd]. destruct (decide (kb = kb')) as [<-|Hne].
  - rewrite lookup_insert_eq. cbn. rewrite elem_of_union, elem_of_singleton. naive_solver.
  - rewrite lookup_insert_ne by done. naive_solver.
Qed.
Lemma insert_blocks_spec l : forall m kb p,
  p ∈ default ∅ (foldl insert_block m l !! kb) <-> (kb, p) ∈ l \/ p ∈ default ∅ (m !! kb).
Proof.
  induction l as [|[kb' p'] l IH]; intros m kb p; cbn [foldl].
  { rewrite elem_of_nil. naive_solver. }
  rewrite IH, insert_block_spec, elem_of_cons. naive_solver.
Qed.
Lemma boot_blocks t : blocks_on_disk (boot t).
Proof.
  intros kb p. unfold blocked, boot, load_blocklists, load_blocklist. cbn [kb_blocklists tables].
  rewrite insert_blocks_spec, lookup_empty, elem_of_elements. set_solver.
Qed.

Definition cache_ok (now : N) s : Prop :=
  blocks_on_disk s /\ forall kb e, derive_cache s !! kb = Some e -> entry_ok now s kb e.

(** A block or an unblock of one knowledge base leaves the others' views. *)
Lemma reblock_ok now s s' kb :
  cache_ok now s -> derive_cache s' = delete kb (derive_cache s) ->
  (forall kb', kb' <> kb -> blocked s' kb' = blocked s kb') -> blocks_on_disk s' -> cache_ok now s'.
Proof.
  intros [_ He] Hc Hb Hd. split; [done|]. intros kb' e. rewrite Hc, lookup_delete_Some. intros [Hne E].
  destruct (He kb' e E) as (t0 & Ht & Hv & Hr). exists t0. split_and!; [done..|]. unfold membership_view_for in *.
  by rewrite Hb.
Qed.

Lemma add_block_ok now s ok kb p : cache_ok now s -> cache_ok now (add_kb_block ok s kb p).1.
Proof.
  intros Hs. unfold add_kb_block. destruct ok; [|done]. cbn [negb fst].
  eapply (reblock_ok now s _ kb Hs); [done|..].
  - intros kb' Hne. unfold blocked, insert_block. cbn [invalidate_derive_cache kb_blocklists fst]. by rewrite lookup_insert_ne.
  - intros kb' p'. unfold blocked. cbn [invalidate_derive_cache kb_blocklists tables add_block kb_blocklist].
    rewrite insert_block_spec, elem_of_union, elem_of_singleton. change (default ∅ _) with (blocked s kb').
    rewrite (proj1 Hs kb' p'). naive_solver.
Qed.
Lemma remove_block_ok now s ok kb p : cache_ok now s -> cache_ok now (remove_kb_block ok s kb p).1.
Proof.
  intros Hs. unfold remove_kb_block. destruct ok; [|done]. cbn [negb fst].
  eapply (reblock_ok now s _ kb Hs); [done|..].
  - intros kb' Hne. unfold blocked. cbn [invalidate_derive_cache kb_blocklists]. by rewrite lookup_alter_ne.
  - intros kb' p'. pose proof (proj1 Hs kb' p') as Hd. unfold blocked in *.
    cbn [invalidate_derive_cache kb_blocklists tables remove_block kb_blocklist].
    rewrite elem_of_difference, elem_of_singleton, <- Hd. destruct (decide (kb = kb')) as [<-|Hne].
    + rewrite lookup_alter_eq. destruct (kb_blocklists s !! kb); cbn; set_solver.
    + rewrite lookup_alter_ne by done. naive_solver.
Qed.

Lemma query_ok now s kb sv anchor : cache_ok now s ->
  cache_ok now (derived_membership s kb sv (log_of kb sv) anchor now).1 /\
  (derived_membership s kb sv (log_of kb sv) anchor now).2 =
    derive_fresh (oplog_ops (log_of kb sv)) anchor now (membership_view_for s kb).
Proof.
  intros [Hb He].
  set (s' := mkKb (kb_anchors s) (kb_blocklists s)
       (<[kb := mkCached sv anchor (horizon (oplog_ops (log_of kb sv)) now)
            (derive_fresh (oplog_ops (log_of kb sv)) anchor now (membership_view_for s kb))]> (derive_cache s)) (tables s)).
  assert (Hmiss : cache_ok now s').
  { split; [done|]. intros kb' e. cbn [s' derive_cache]. rewrite lookup_insert_Some. intros [[<- <-]|[_ E]].
    - by exists now.
    - exact (He kb' e E). }
  unfold derived_membership. destruct (derive_cache s !! kb) as [e|] eqn:E;
    [|split; [exact Hmiss|exact eq_refl]].
  destruct (_ && _) eqn:Eh; [|split; [exact Hmiss|exact eq_refl]]. bool_prop. subst sv anchor.
  split; [exact (conj Hb He)|]. cbn [snd].
  destruct (He kb e E) as (t0 & Ht & Hv & Hr). rewrite Hr. unfold derive_fresh.
  assert (Hx : same_expiry (oplog_ops (log_of kb (c_sv e))) t0 now).
  { apply horizon_expiry; [done|]. rewrite <- Hv. by apply N.ltb_lt. }
  cbv zeta. set (gov := derive_governance _ _). clearbody gov.
  exact (f_equal (mkDerived gov) (derive_expiry _ _ t0 now gov (membership_view_for s kb) Hx)).
Qed.

Lemma served_ok t now s : served t now s -> cache_ok now s.
Proof.
  induction 1 as [now|now now' s _ IH Hle|now s kb pk _ IH|now s ok kb p _ IH|now s ok kb p _ IH|now s kb sv anchor _ IH].
  - split; [apply boot_blocks|]. intros kb e. cbn. by rewrite lookup_empty.
  - destruct IH as [Hb He]. split; [done|]. intros kb e E. destruct (He kb e E) as (t0 & ? & ?). exists t0. split; [lia|done].
  - exact IH.
  - by apply add_block_ok.
  - by apply remove_block_ok.
  - by apply query_ok.
Qed.

(** A principal on the local blocklist is never a derived member. *)
Lemma blocked_not_member ops anchor now gov view p :
  p ∈ blocklist view -> derive_valid_members_governed ops anchor now gov view !! p = None.
Proof.
  intros Hp. unfold derive_valid_members_governed. case_match; [|by rewrite lookup_empty]. unfold members_from.
  rewrite bool_decide_eq_false_2 by set_solver. apply map_lookup_filter_None. right. intros m _. naive_solver.
Qed.


End Cache.

Module CacheWitnesses.

(** The checks of [Toy] with 32-byte keys, which the log stores: a signature
    names the first two bytes of the key. *)
#[export] Instance wide : Crypto := {|
  vk_from_bytes _ := true;
  ed25519_verify pk _ sg := bool_decide (String.substring 0 2 sg = String.substring 0 2 pk);
  sha256 := Toy.hash;
  hex_encode := Toy.hex;
  hex_decode := Toy.unhex;
  base64_nopad s := s;
|}.
Definition key (k : string) : string := k +:+ String.concat "" (replicate 30 "0").
Definition fp (k : string) : string := fingerprint_of (key k).
Definition record (tag : string) (s : string) (r : Role) (k prev : string) (exp : option N) : SignedMembershipOp :=
  mkSigned (mkOp "kb" Admit s (Some r) true (fp k) 0 exp 0 prev None None None None Full None)
    (Toy.sign k tag) (key k).
Definition genesis : SignedMembershipOp := record "gene" (fp "ow") Owner "ow" "" None.
Definition editor (exp : option N) : SignedMembershipOp := record "adm1" (fp "ed") Editor "ow" (Toy.h "gene") exp.
Definition logged (ops : list SignedMembershipOp) : gmap string (gmap string string) :=
  foldl (fun l o => append_signed_op l (op o) (sig o) (author_pubkey o)) ∅ ops.

(** The log with state vector [v2] has the editor's record, admitted until 100. *)
Definition toy_log_of (kb sv : string) : gmap string (gmap string string) :=
  if bool_decide (sv = "v2") then logged [genesis; editor (Some 100%N)] else logged [genesis].
Definition asked (s : KbState) (sv : string) (now : N) : KbState * DerivedMembership :=
  derived_membership s "kb" sv (toy_log_of "kb" sv) (key "ow") now.


(** Who is a member, asked three times: before and after the editor's grant
    expires, and after the block of the owner. *)
Lemma cache_follows_expiry_and_blocks :
  let s0 := boot fresh_tables in
  let '(s1, r1) := asked s0 "v2" 50 in
  let '(s2, r2) := asked s1 "v2" 99 in
  let '(s3, r3) := asked s2 "v2" 100 in
  let s4 := (add_kb_block true s3 "kb" (fp "ow")).1 in
  let '(_, r4) := asked s4 "v2" 101 in
  map (fun r => bool_decide (is_Some (members r !! fp "ed"))) [r1; r2; r3; r4] = [true; true; false; false] /\
  map (fun r => bool_decide (is_Some (members r !! fp "ow"))) [r1; r2; r3; r4] = [true; true; true; false].
Proof. vm_compute. by split. Qed.

(** The cache key misses deletions: removing a record from the replicated log
    does not change the document's state vector, so a principal whose only
    grant was removed that way is still served from the cache as a member,
    although a fresh derivation refuses it. *)
Theorem cache_serves_deleted_grant :
  let ask s log := derived_membership s "kb" "v" log (key "ow") 50 in
  let granted := logged [genesis; editor None] in
  let deleted := delete (Toy.h "adm1") granted in
  let '(s1, _) := ask (boot fresh_tables) granted in
  let '(_, cached) := ask s1 deleted in
  let '(_, fresh) := ask (boot fresh_tables) deleted in
  bool_decide (deleted = logged [genesis]) = true /\
  (m_role <$> members cached !! fp "ed") = Some Editor /\ (m_role <$> members fresh !! fp "ed") = None.
Proof. vm_compute. by split_and!. Qed.

(** A clock that steps back is not noticed either: the answer for the later time
    is served although the grant has not expired yet. *)
Lemma cache_ignores_clock_step_back :
  let '(s1, r1) := asked (boot fresh_tables) "v2" 150 in
  let '(_, r2) := asked s1 "v2" 50 in
  let '(_, fresh) := asked (boot fresh_tables) "v2" 50 in
  (m_role <$> members r1 !! fp "ed") = None /\
  (m_role <$> members r2 !! fp "ed") = None /\ (m_role <$> members fresh !! fp "ed") = Some Editor.
Proof. vm_compute. by split_and!. Qed.

End CacheWitnesses.
