(* ===== verification/Lease.v ===== *)
(** * Lease: advisory leases for bulk operations

    Models [shared/sync/src/kb/collection_lease.rs], the claim record of
    [shared/sync/src/kb/mod.rs] and the fence of
    [daemon/src/collab_handler/kb_lease.rs]. The replicated map of claims is a
    finite map from claim keys to records of text fields; its iteration order
    is not specified, so readers take the records in a given order. *)
From S2P Require Import Prelude.

(** ** Claims *)

Definition LEASE_OP_KIND_KEY : string := "op_kind".
Definition LEASE_HOLDER_KEY : string := "holder_fp".
Definition LEASE_CLAIMED_AT_KEY : string := "claimed_at".
Definition LEASE_TTL_KEY : string := "ttl_secs".
Definition LEASE_GENERATION_KEY : string := "generation".

Record LeaseClaim := mkClaim {
  op_kind : string;
  holder_fp : string;
  claimed_at : N;
  lease_ttl_secs : N;
  generation : N;
}.
#[export] Instance LeaseClaim_eq_dec : EqDecision LeaseClaim.
Proof. solve_decision. Defined.

(** [u64::saturating_add]. *)
Definition saturating_add (a b : N) : N := N.min (a + b) u64_max.
Definition is_expired (c : LeaseClaim) (now : N) : bool :=
  (saturating_add (claimed_at c) (lease_ttl_secs c) <=? now)%N.

Notation Fields := (gmap string string).
Notation Leases := (gmap string Fields).
Implicit Types (entry : Fields) (leases : Leases) (now : N).

Definition read_str entry (key : string) : string := default "" (entry !! key).
Definition read_u64 entry (key : string) : N :=
  default 0%N (let? s := entry !! key in parse_uint u64_max s).

(** The claim a record holds. *)
Definition read_claim entry : LeaseClaim :=
  mkClaim (read_str entry LEASE_OP_KIND_KEY) (read_str entry LEASE_HOLDER_KEY)
    (read_u64 entry LEASE_CLAIMED_AT_KEY) (read_u64 entry LEASE_TTL_KEY) (read_u64 entry LEASE_GENERATION_KEY).

(** ** Claiming *)

(** The scan of [claim_lease]: the highest generation, the strongest unexpired
    claim of another holder, and whether the caller has an unexpired one. *)
Record Scan := mkScan { max_generation : N; blocking_holder : option string; is_renewal : bool }.
Definition scan_step (kind me : string) now (a : Scan) entry : Scan :=
  let c := read_claim entry in
  if negb (bool_decide (op_kind c = kind)) then a
  else
    let unexpired := (now <? saturating_add (claimed_at c) (lease_ttl_secs c))%N in
    let stronger := match blocking_holder a with None => true | Some b => String.ltb b (holder_fp c) end in
    mkScan (N.max (max_generation a) (generation c))
      (if unexpired && negb (bool_decide (holder_fp c = me)) && stronger then Some (holder_fp c) else blocking_holder a)
      (is_renewal a || (unexpired && bool_decide (holder_fp c = me))).
Definition scan (kind me : string) now (entries : list Fields) : Scan :=
  foldl (scan_step kind me now) (mkScan 0 None false) entries.

(** The sum wraps in a release build. *)
Definition final_generation (a : Scan) : N :=
  if is_renewal a || (max_generation a =? 0)%N then N.max (max_generation a) 1
  else ((max_generation a + 1) mod 2 ^ 64)%N.
Definition claim_key (kind me : string) now : string := kind +:+ ":" +:+ me +:+ "@" +:+ to_dec now.
Definition claim_record (kind me : string) (ttl now gen : N) : Fields :=
  <[LEASE_GENERATION_KEY := to_dec gen]> (<[LEASE_TTL_KEY := to_dec ttl]>
    (<[LEASE_CLAIMED_AT_KEY := to_dec now]> (<[LEASE_HOLDER_KEY := me]> (<[LEASE_OP_KIND_KEY := kind]> ∅)))).

Definition entries leases : list Fields := (map_to_list leases).*2.

(** The blocker wins the tiebreak against [me]. *)
Definition outranked (a : Scan) (me : string) : bool :=
  match blocking_holder a with Some b => String.ltb me b | None => false end.

(** [claim_lease]; [None] is the empty update of a refused claim. *)
Definition claim_lease leases (kind me : string) (ttl now : N) : option Leases :=
  let a := scan kind me now (entries leases) in
  if outranked a me then None
  else Some (<[claim_key kind me now := claim_record kind me ttl now (final_generation a)]> leases).

(** ** The current holder *)

Definition beats (c cur : LeaseClaim) : bool :=
  (generation cur <? generation c)%N
  || ((generation c =? generation cur)%N && String.ltb (holder_fp cur) (holder_fp c)).
Definition lease_step (kind : string) now (best : option LeaseClaim) entry : option LeaseClaim :=
  let c := read_claim entry in
  if negb (bool_decide (op_kind c = kind)) then best
  else if is_expired c now then best
  else match best with
       | None => Some c
       | Some cur => if beats c cur then Some c else best
       end.
Definition lease_of (kind : string) now (l : list Fields) : option LeaseClaim := foldl (lease_step kind now) None l.
Definition current_lease leases (kind : string) now : option LeaseClaim := lease_of kind now (entries leases).

(** ** The daemon's use of leases *)

(** Why a fence refuses a batch; [MovedOn] carries the present claim. *)
Inductive FenceError := MovedOn (lease : LeaseClaim) | NoHolder.
Definition enforce_lease_generation_fence leases (kind my_holder_fp : string) (my_generation now : N)
    : FenceError + unit :=
  match current_lease leases kind now with
  | Some lease => if bool_decide (holder_fp lease = my_holder_fp) && (generation lease =? my_generation)%N
                  then inr tt else inl (MovedOn lease)
  | None => inl NoHolder
  end.

(** [claim_lease_and_report]: [loaded] is the collection, when it loads, and
    [persisted] says whether a changed collection could be stored. The result
    is the collection after the call and the claim reported. *)
Inductive ReportError := NotFound | NotPersisted | NoCurrentHolder.
Definition claim_lease_and_report (loaded : option Leases) (persisted : bool) (kind me : string) (ttl now : N)
    : option Leases * (ReportError + LeaseClaim) :=
  match loaded with
  | None => (None, inl NotFound)
  | Some leases =>
      let report l := match current_lease l kind now with Some c => inr c | None => inl NoCurrentHolder end in
      match claim_lease leases kind me ttl now with
      | None => (Some leases, report leases)
      | Some leases' => if persisted then (Some leases', report leases') else (Some leases, inl NotPersisted)
      end
  end.

(** [DaemonLeaseFence::check]; [None] is a collection that does not load. *)
Definition fence_check (loaded : option Leases) (kind my_holder_fp : string) (my_generation now : N) : bool :=
  match loaded with
  | None => false
  | Some leases => match enforce_lease_generation_fence leases kind my_holder_fp my_generation now with
                   | inr _ => true | inl _ => false
                   end
  end.

(** ** The winner is a maximum *)

(** An unexpired claim of the operation among the records. *)
Definition live (kind : string) now (l : list Fields) (c : LeaseClaim) : Prop :=
  exists entry, entry ∈ l /\ read_claim entry = c /\ op_kind c = kind /\ is_expired c now = false.
Definition rank_le (c d : LeaseClaim) : Prop :=
  (generation c < generation d)%N \/ (generation c = generation d /\ String.le (holder_fp c) (holder_fp d)).

Lemma rank_le_refl c : rank_le c c.
Proof. right. by split. Qed.
Lemma rank_le_trans c d e : rank_le c d -> rank_le d e -> rank_le c e.
Proof.
  intros [?|[? ?]] [?|[? ?]]; [left; lia|left; lia|left; lia|right]. split; [lia|]. by etrans.
Qed.
Lemma rank_le_antisym c d : rank_le c d -> rank_le d c -> holder_fp c = holder_fp d /\ generation c = generation d.
Proof. intros [?|[? ?]] [?|[? ?]]; try lia. split; [|done]. by apply (anti_symm String.le). Qed.
Lemma beats_spec c d : if beats c d then rank_le d c else rank_le c d.
Proof.
  unfold beats. destruct (N.ltb_spec (generation d) (generation c)) as [Hlt|Hge]; simpl; [by left|].
  destruct (N.eqb_spec (generation c) (generation d)) as [E|Hne]; simpl; [|left; lia].
  destruct (String.ltb (holder_fp d) (holder_fp c)) eqn:El; right; split; try done.
  - by apply ltb_iff in El as [? _].
  - by apply ltb_false_iff in El.
Qed.

Lemma lease_of_spec kind now l :
  match lease_of kind now l with
  | Some c => live kind now l c /\ forall d, live kind now l d -> rank_le d c
  | None => forall d, ~ live kind now l d
  end.
Proof.
  unfold lease_of. induction l as [|e l IH] using rev_ind; [by intros d (? & ?%not_elem_of_nil & _)|].
  rewrite foldl_snoc. set (best := foldl _ _ l) in *. clearbody best.
  assert (Hsplit : forall d, live kind now (l ++ [e]) d <->
    live kind now l d \/ (read_claim e = d /\ op_kind d = kind /\ is_expired d now = false)).
  { intros d. split.
    - intros (x & [Hx| ->%list_elem_of_singleton]%elem_of_app & Hr); [left; by exists x|by right].
    - intros [(x & Hx & Hr)|Hr]; [exists x|exists e]; (split; [|done]); apply elem_of_app; [by left|right].
      by apply list_elem_of_singleton. }
  assert (Hskip : (forall d, live kind now (l ++ [e]) d -> live kind now l d) ->
    match best with
    | Some c => live kind now (l ++ [e]) c /\ forall d, live kind now (l ++ [e]) d -> rank_le d c
    | None => forall d, ~ live kind now (l ++ [e]) d
    end).
  { intros Hback. destruct best as [c|]; [|by intros d Hd%Hback; apply (IH d)].
    destruct IH as [Hl Hm]. split; [apply Hsplit; by left|]. intros d Hd. by apply Hm, Hback. }
  unfold lease_step. destruct (bool_decide (op_kind (read_claim e) = kind)) eqn:Ek; cbn [negb]; bool_prop.
  2: { apply Hskip. intros d [?|(<- & ? & _)]%Hsplit; [done|congruence]. }
  destruct (is_expired (read_claim e) now) eqn:Ex;
    [apply Hskip; intros d [?|(<- & _ & ?)]%Hsplit; [done|congruence]|].
  destruct best as [c|].
  - destruct IH as [Hl Hm]. pose proof (beats_spec (read_claim e) c) as Hb. destruct (beats (read_claim e) c).
    + split; [apply Hsplit; by right|]. intros d [Hd|(<- & _)]%Hsplit; [|apply rank_le_refl].
      eapply rank_le_trans; [by apply Hm|done].
    + split; [apply Hsplit; by left|]. intros d [Hd|(<- & _)]%Hsplit; [by apply Hm|done].
  - split; [apply Hsplit; by right|]. intros d [Hd|(<- & _)]%Hsplit; [by edestruct IH|apply rank_le_refl].
Qed.

Lemma live_perm kind now l k c : l ≡ₚ k -> live kind now l c -> live kind now k c.
Proof. intros Hp (e & He & ?). exists e. by rewrite <- Hp. Qed.

(** The holder and the generation of the current lease do not depend on the
    order in which the replicated map is read. *)
Lemma winner_order_independent kind now l k : l ≡ₚ k ->
  (fun c => (holder_fp c, generation c)) <$> lease_of kind now l =
  (fun c => (holder_fp c, generation c)) <$> lease_of kind now k.
Proof.
  intros Hp. pose proof (lease_of_spec kind now l) as Hl. pose proof (lease_of_spec kind now k) as Hk.
  destruct (lease_of kind now l) as [c|], (lease_of kind now k) as [d|]; simpl; try done.
  - destruct Hl as [Lc Mc], Hk as [Ld Md].
    destruct (rank_le_antisym c d) as [-> ->]; [apply Md; by eapply live_perm|apply Mc; by eapply live_perm|done].
  - destruct Hl as [Lc _]. by destruct (Hk c (live_perm _ _ _ _ _ Hp Lc)).
  - destruct Hk as [Ld _]. symmetry in Hp. by destruct (Hl d (live_perm _ _ _ _ _ Hp Ld)).
Qed.

(** ** What a claim finds *)

Lemma unexpired_live c now : (now <? saturating_add (claimed_at c) (lease_ttl_secs c))%N = negb (is_expired c now).
Proof. unfold is_expired. by rewrite N.leb_antisym, negb_involutive. Qed.

Lemma scan_spec kind me now l :
  (forall e, e ∈ l -> op_kind (read_claim e) = kind -> (generation (read_claim e) <= max_generation (scan kind me now l))%N) /\
  (forall c, live kind now l c -> holder_fp c <> me ->
     exists b, blocking_holder (scan kind me now l) = Some b /\ String.le (holder_fp c) b) /\
  (forall b, blocking_holder (scan kind me now l) = Some b -> exists c, live kind now l c /\ holder_fp c = b).
Proof.
  unfold scan. induction l as [|e l IH] using rev_ind.
  { split_and!; [by intros e ?%not_elem_of_nil|by intros c (? & ?%not_elem_of_nil & _)|done]. }
  rewrite foldl_snoc. set (a := foldl _ _ l) in *. clearbody a. destruct IH as (Hg & Hb & Hc).
  assert (Hl : forall c, live kind now l c -> live kind now (l ++ [e]) c).
  { intros c (e' & He & ?). exists e'. split; [set_solver|done]. }
  unfold scan_step. rewrite unexpired_live. destruct (bool_decide (op_kind (read_claim e) = kind)) eqn:Ek; cbn [negb]; bool_prop.
  2: { split_and!.
       - intros e' [?| ->%list_elem_of_singleton]%elem_of_app ?; [by apply Hg|congruence].
       - intros c (e' & [He| ->%list_elem_of_singleton]%elem_of_app & <- & ? & ?) Hne; [|congruence]. apply Hb; [|done]. by exists e'.
       - intros b (c & ? & ?)%Hc. eauto. }
  split_and!; cbn [max_generation blocking_holder].
  - intros e' [He| ->%list_elem_of_singleton]%elem_of_app Hk; [specialize (Hg e' He Hk)|]; lia.
  - intros c (e' & [He| ->%list_elem_of_singleton]%elem_of_app & <- & ? & Hx) Hne.
    + destruct (Hb (read_claim e')) as (b & -> & Hle); [by exists e'|done|].
      destruct (_ && _) eqn:Eu; [|eauto]. apply andb_true_iff in Eu as [_ Hs]. apply ltb_iff in Hs as [Hs _].
      eexists; split; [done|]. by etrans.
    + rewrite Hx, bool_decide_eq_false_2 by done. cbn [negb andb]. destruct (blocking_holder a) as [b|]; [|eauto].
      destruct (String.ltb b (holder_fp (read_claim e))) eqn:Es; [eauto|]. apply ltb_false_iff in Es. eauto.
  - intros b. destruct (_ && _) eqn:Eu; [|intros (c & ? & ?)%Hc; eauto]. intros [= <-].
    apply andb_true_iff in Eu as [[Hx _]%andb_true_iff _]. apply negb_true_iff in Hx.
    exists (read_claim e). split; [|done]. exists e. set_solver.
Qed.

Lemma elem_of_entries_insert leases k r e :
  e ∈ entries (<[k := r]> leases) -> e = r \/ e ∈ entries leases.
Proof.
  unfold entries. rewrite !list_elem_of_fmap. intros ([k' e'] & -> & Hin). apply elem_of_map_to_list in Hin.
  apply lookup_insert_Some in Hin as [[_ <-]|[_ Hin]]; [by left|]. right. exists (k', e'). by rewrite elem_of_map_to_list.
Qed.
Lemma entries_insert leases k r : r ∈ entries (<[k := r]> leases).
Proof.
  unfold entries. apply list_elem_of_fmap. exists (k, r). split; [done|]. apply elem_of_map_to_list, lookup_insert_eq.
Qed.

Lemma read_claim_record kind me ttl now gen : (ttl <= u64_max)%N -> (now <= u64_max)%N -> (gen <= u64_max)%N ->
  read_claim (claim_record kind me ttl now gen) = mkClaim kind me now ttl gen.
Proof.
  intros Ht Hn Hg. unfold read_claim, read_str, read_u64, claim_record,
    LEASE_OP_KIND_KEY, LEASE_HOLDER_KEY, LEASE_CLAIMED_AT_KEY, LEASE_TTL_KEY, LEASE_GENERATION_KEY.
  repeat first [rewrite lookup_insert_eq | rewrite lookup_insert_ne by done]. cbn [default from_option].
  by rewrite !parse_to_dec.
Qed.

(** The premises under which arithmetic on the clock does not saturate. *)
Definition in_range leases (kind me : string) (ttl now : N) : Prop :=
  (0 < ttl)%N /\ (now + ttl <= u64_max)%N /\ (max_generation (scan kind me now (entries leases)) < u64_max)%N.

Lemma final_generation_range a : (max_generation a < u64_max)%N ->
  (max_generation a <= final_generation a <= u64_max)%N /\
  (is_renewal a = false -> (max_generation a < final_generation a)%N) /\ (1 <= final_generation a)%N.
Proof.
  unfold final_generation, u64_max. intros Hm. destruct (is_renewal a) eqn:Er; simpl; [lia|].
  destruct (N.eqb_spec (max_generation a) 0) as [E|Hne]; [lia|].
  rewrite N.mod_small by lia. lia.
Qed.

Lemma granted_wins leases kind me ttl now leases' t :
  in_range leases kind me ttl now -> claim_lease leases kind me ttl now = Some leases' ->
  (now <= t < now + ttl)%N ->
  let gen := final_generation (scan kind me now (entries leases)) in
  exists c, current_lease leases' kind t = Some c /\ holder_fp c = me /\ generation c = gen.
Proof.
  intros (Ht & Hn & Hm) E Hr gen. unfold claim_lease in E.
  set (a := scan kind me now (entries leases)) in *. destruct (outranked a me) eqn:Eb; [done|].
  unfold outranked in Eb.
  injection E as <-. pose proof (scan_spec kind me now (entries leases)) as (Hg & Hb & _). fold a in Hg, Hb.
  destruct (final_generation_range a Hm) as (Hgen & _ & _). fold gen in Hgen.
  pose proof (read_claim_record kind me ttl now gen ltac:(lia) ltac:(lia) ltac:(lia)) as Hread.
  set (mine := mkClaim kind me now ttl gen) in *. 
  set (l' := entries (<[claim_key kind me now := claim_record kind me ttl now gen]> leases)).
  assert (Hlive : live kind t l' mine).
  { eexists. split; [apply entries_insert|]. split; [exact Hread|]. split; [done|].
    unfold is_expired, saturating_add. simpl. apply N.leb_gt. lia. }
  assert (Hmax : forall d, live kind t l' d -> rank_le d mine).
  { intros d (e & He & <- & Hk & Hx). apply elem_of_entries_insert in He as [->|He].
    { fold a gen. rewrite Hread. apply rank_le_refl. }
    specialize (Hg e He Hk). destruct (decide (generation (read_claim e) = gen)) as [Eg|]; [|left; change (generation mine) with gen; lia]. right.
    split; [done|]. cbn [mine holder_fp]. destruct (decide (holder_fp (read_claim e) = me)) as [->|Hne]; [done|].
    destruct (Hb (read_claim e)) as (b & Eb' & Hle); [|done|].
    - exists e. split_and!; try done. unfold is_expired in *. apply N.leb_gt in Hx. apply N.leb_gt. lia.
    - rewrite Eb' in Eb. apply ltb_false_iff in Eb. by etrans. }
  change (current_lease _ kind t) with (lease_of kind t l'). pose proof (lease_of_spec kind t l') as Hs.
  destruct (lease_of kind t l') as [c|]; [|by destruct (Hs mine)]. destruct Hs as [Hc Hcm].
  destruct (rank_le_antisym c mine) as [Hh Hge]; [by apply Hmax|by apply Hcm|]. exists c.
  split; [done|]. split; [exact Hh|exact Hge].
Qed.

(** When a claim is refused. *)
Lemma refused_iff leases kind me ttl now :
  claim_lease leases kind me ttl now = None <->
  exists c, live kind now (entries leases) c /\ holder_fp c <> me /\ String.ltb me (holder_fp c) = true.
Proof.
  unfold claim_lease. pose proof (scan_spec kind me now (entries leases)) as (_ & Hb & Hc).
  set (a := scan _ _ _ _) in *. unfold outranked. destruct (blocking_holder a) as [b|] eqn:Eb.
  - destruct (Hc b eq_refl) as (c & Hl & <-). destruct (String.ltb me (holder_fp c)) eqn:Elt.
    + split; [|done]. intros _. exists c. split_and!; [done| |done]. intros E. apply ltb_iff in Elt as [_ ?]. congruence.
    + split; [done|]. intros (d & Hd & Hne & Hlt). destruct (Hb d Hd Hne) as (b' & Eb' & Hle). simplify_eq.
      apply ltb_iff in Hlt as [Hlt ?]. apply ltb_false_iff in Elt. exfalso. apply Hne.
      apply (anti_symm String.le); [by etrans|done].
  - split; [done|]. intros (d & Hd & Hne & _). by destruct (Hb d Hd Hne) as (? & ? & _).
Qed.


(** Progress: whatever claims a collection holds, as long as none of them
    was made for ever there is a moment from which on every claimant that asks
    is granted the lease and passes the fence with it; no holder can keep
    others out by not renewing. *)
Theorem lease_becomes_available leases kind :
  (forall e, e ∈ entries leases -> op_kind (read_claim e) = kind ->
     (claimed_at (read_claim e) + lease_ttl_secs (read_claim e) < u64_max)%N) ->
  exists T, (T < u64_max)%N /\ forall me ttl now, (T <= now)%N -> in_range leases kind me ttl now ->
    exists leases' gen, claim_lease leases kind me ttl now = Some leases' /\
      enforce_lease_generation_fence leases' kind me gen now = inr tt.
Proof.
  intros Hfin.
  assert (HT : exists T, (T < u64_max)%N /\ forall e, e ∈ entries leases -> op_kind (read_claim e) = kind ->
                 (claimed_at (read_claim e) + lease_ttl_secs (read_claim e) <= T)%N).
  { induction (entries leases) as [|e l IH].
    { exists 0%N. split; [done|]. by intros e ?%not_elem_of_nil. }
    destruct IH as (T & HT & Hl); [intros e' ? ?; apply Hfin; [by right|done]|].
    destruct (decide (op_kind (read_claim e) = kind)) as [Hk|Hk].
    - exists (N.max T (claimed_at (read_claim e) + lease_ttl_secs (read_claim e))). split.
      + specialize (Hfin e ltac:(by left) Hk). lia.
      + intros e' [->|He]%elem_of_cons Hk'; [lia|]. specialize (Hl e' He Hk'). lia.
    - exists T. split; [done|]. intros e' [->|He]%elem_of_cons Hk'; [done|]. by apply Hl. }
  destruct HT as (T & HT & Hexp). exists T. split; [done|]. intros me ttl now Hnow Hin.
  destruct (claim_lease leases kind me ttl now) as [leases'|] eqn:E.
  - destruct Hin as (Ht & Hn & Hm). destruct (granted_wins leases kind me ttl now leases' now) as (c & Ec & Hh & Hg);
      [done|done|lia|]. exists leases', (generation c). split; [done|].
    unfold enforce_lease_generation_fence. by rewrite Ec, Hh, bool_decide_eq_true_2, N.eqb_refl.
  - exfalso. apply refused_iff in E as (c & (e & He & <- & Hk & Hx) & _). specialize (Hexp e He Hk).
    unfold is_expired, saturating_add in Hx. apply N.leb_gt in Hx. lia.
Qed.

Module LeaseWitnesses.

Definition A : string := "SHA256:a".
Definition B : string := "SHA256:b".
(** A claims for 1000 seconds at time 0, B preempts it at 10 for 10 seconds. *)
Definition after_a : Leases := default ∅ (claim_lease ∅ "enrichment" A 1000 0).
Definition after_b : Leases := default ∅ (claim_lease after_a "enrichment" B 10 10).


Lemma lease_becomes_available_witness :
  exists T, (T < u64_max)%N /\ forall me ttl now, (T <= now)%N -> in_range after_b "enrichment" me ttl now ->
    exists leases' gen, claim_lease after_b "enrichment" me ttl now = Some leases' /\
      enforce_lease_generation_fence leases' "enrichment" me gen now = inr tt.
Proof.
  apply (lease_becomes_available after_b "enrichment"). intros e He _.
  assert (Ha : Forall (fun e => claimed_at (read_claim e) + lease_ttl_secs (read_claim e) < u64_max)%N (entries after_b)).
  { apply (bool_decide_unpack _). vm_compute. exact I. }
  rewrite Forall_forall in Ha. by apply Ha.
Defined.

(** The generation is not a fencing token: a holder that was preempted passes
    the fence again with its old generation once the claim that preempted it
    has expired, although the lease was granted to another daemon in between;
    and a renewal then takes the generation of that other daemon's grant. *)
Theorem stale_generation_passes_fence :
  enforce_lease_generation_fence after_a "enrichment" A 1 5 = inr tt /\
  enforce_lease_generation_fence after_b "enrichment" B 2 15 = inr tt /\
  (exists c, enforce_lease_generation_fence after_b "enrichment" A 1 15 = inl (MovedOn c)) /\
  enforce_lease_generation_fence after_b "enrichment" A 1 25 = inr tt /\
  enforce_lease_generation_fence (default ∅ (claim_lease after_b "enrichment" A 100 30)) "enrichment" A 2 30 = inr tt.
Proof. split_and!; try (vm_compute; reflexivity). eexists. vm_compute. reflexivity. Qed.

(** The other fields of the derived claim do depend on the iteration order: two
    claims of one holder at one generation. *)
Lemma claimed_at_depends_on_order :
  let e1 := claim_record "k" A 100 0 1 in
  let e2 := claim_record "k" A 100 7 1 in
  lease_of "k" 50 [e1; e2] = Some (mkClaim "k" A 0 100 1) /\ lease_of "k" 50 [e2; e1] = Some (mkClaim "k" A 7 100 1).
Proof. by vm_compute. Qed.

End LeaseWitnesses.
