(* ===== verification/Json.v ===== *)
(** * Json: the JSON values of requests

    The part of [serde_json::Value] the request handlers use: objects with
    distinct keys, strings, and numbers with the crate's three
    representations. *)
From S2P Require Import Prelude.

(** [JFloat] carries the bits of the number. *)
Inductive Json :=
  | JNull
  | JBool (b : bool)
  | JPosInt (n : N)
  | JNegInt (z : Z)
  | JFloat (bits : N)
  | JString (s : string)
  | JArray (l : list Json)
  | JObject (o : gmap string Json).

(** [v.get(k)] and [v[k]] on a missing key, [as_str], [as_u64], [as_object]. *)
Definition json_get (v : Json) (k : string) : option Json :=
  match v with JObject o => o !! k | _ => None end.
Definition as_str (v : Json) : option string := match v with JString s => Some s | _ => None end.
Definition as_u64 (v : Json) : option N := match v with JPosInt n => Some n | _ => None end.
Definition get_str (v : Json) (k : string) : option string := let? x := json_get v k in as_str x.
Definition get_u64 (v : Json) (k : string) : option N := let? x := json_get v k in as_u64 x.

(** [v[k] = x]: a null becomes an object, any other non-object panics. *)
Definition json_set (v : Json) (k : string) (x : Json) : option Json :=
  match v with
  | JObject o => Some (JObject (<[k := x]> o))
  | JNull => Some (JObject {[k := x]})
  | _ => None
  end.

(** [json!({..})] and the merge of one object's members into another. *)
Definition obj (l : list (string * Json)) : Json := JObject (list_to_map l).
Definition merge_members (a b : gmap string Json) : gmap string Json := b ∪ a.

Lemma get_obj l k x : NoDup l.*1 -> (k, x) ∈ l -> json_get (obj l) k = Some x.
Proof. intros Hn Hin. by apply elem_of_list_to_map. Qed.
