(* ===== verification/ContentOps.v ===== *)
(** * ContentOps: signed edits and their admission

    Models [shared/sync/src/content_ops.rs] (the signed authorship header of an
    edit, its canonical bytes, admission against the derived members and the
    JSON form), the request builders of [shared/sync/src/wire.rs] that carry
    it, and the relay check of [daemon/src/collab_handler/mod.rs] that ties it
    to the document address, the trust anchor and the memoized membership. *)
From S2P Require Import Prelude Membership OpLog DocAddress Storage DeriveCache Json.

(** [base64::engine::general_purpose::STANDARD]. *)
Class Base64 := { b64_encode : string -> string; b64_decode : string -> option string }.
Class Base64Laws (B : Base64) : Prop := { b64_decode_encode : forall b, b64_decode (b64_encode b) = Some b }.

(** ** Operations *)

Record ContentOp := mkContent {
  co_kb_id : string;
  co_node_id : string;
  base_sv : string;
  co_author : string;
  co_epoch : N;
  co_issued_at : N;
}.
Record SignedContentOp := mkSignedContent {
  co_op : ContentOp;
  payload : string;
  co_sig : string;
  co_pubkey : string;
}.
Inductive AdmissionError := BadSignature | NotAMember | InsufficientRole | StaleEpoch (op_epoch current_epoch : N).
#[export] Instance AdmissionError_eq_dec : EqDecision AdmissionError.
Proof. solve_decision. Defined.

Section Content.
Context `{Crypto, Base64}.

Definition content_bytes (o : ContentOp) (pay : string) : string :=
  field "maecontent/v1" +:+ field (co_kb_id o) +:+ field (co_node_id o) +:+ field (hex_encode (base_sv o)) +:+
  field (co_author o) +:+ field (to_dec (co_epoch o)) +:+ field (to_dec (co_issued_at o)) +:+ pay.

Definition content_verify (o : ContentOp) (sg pubkey pay : string) : bool :=
  if negb (vk_from_bytes pubkey) then false
  else if negb (String.length sg =? 64) then false
  else ed25519_verify pubkey (content_bytes o pay) sg.

Definition content_fingerprint_matches (o : ContentOp) (pubkey : string) : bool :=
  bool_decide (fingerprint_of pubkey = co_author o).

Definition content_verify_signed (s : SignedContentOp) : bool :=
  content_fingerprint_matches (co_op s) (co_pubkey s) && content_verify (co_op s) (co_sig s) (co_pubkey s) (payload s).

Definition admit_signed (s : SignedContentOp) (mem : gmap string ValidMember) : AdmissionError + unit :=
  if negb (content_verify_signed s) then inl BadSignature
  else match mem !! co_author (co_op s) with
       | None => inl NotAMember
       | Some m => if negb (includes (m_role m) Editor) then inl InsufficientRole
                   else if negb (m_epoch m =? co_epoch (co_op s))%N then inl (StaleEpoch (co_epoch (co_op s)) (m_epoch m))
                   else inr tt
       end.

(** ** JSON form *)

Definition header_params (s : SignedContentOp) : Json :=
  obj [("author", JString (co_author (co_op s))); ("epoch", JPosInt (co_epoch (co_op s)));
       ("issued_at", JPosInt (co_issued_at (co_op s))); ("base_sv", JString (b64_encode (base_sv (co_op s))));
       ("sig", JString (b64_encode (co_sig s))); ("author_pubkey", JString (b64_encode (co_pubkey s)))].

Definition get_b64 (v : Json) (k : string) : option string := let? s := get_str v k in b64_decode s.

Definition from_params (params : Json) (pay : string) : option SignedContentOp :=
  let? sig_b64 := get_str params "sig" in
  let? kb := get_str params "kb_id" in
  let? node := get_str params "node_id" in
  let? auth := get_str params "author" in
  let? ep := get_u64 params "epoch" in
  let? iss := get_u64 params "issued_at" in
  let? sv := get_b64 params "base_sv" in
  let? sg := b64_decode sig_b64 in
  let? pk := get_b64 params "author_pubkey" in
  let? pk := array32 pk in
  Some (mkSignedContent (mkContent kb node sv auth ep iss) pay sg pk).

(** The requests that carry an edit. *)
Definition node_update_params (kb node update_b64 : string) : list (string * Json) :=
  [("kb_id", JString kb); ("node_id", JString node); ("update", JString update_b64)].
Definition node_update_envelope (id : N) (params : Json) : Json :=
  obj [("jsonrpc", JString "2.0"); ("id", JPosInt id); ("method", JString "kb/node_update"); ("params", params)].
Definition kb_node_update_request (id : N) (kb node update_b64 : string) : Json :=
  node_update_envelope id (obj (node_update_params kb node update_b64)).
(** A header that is not an object leaves the request unsigned. *)
Definition kb_node_update_request_signed (id : N) (kb node update_b64 : string) (header : Json) : Json :=
  match header with
  | JObject h => node_update_envelope id (JObject (merge_members (list_to_map (node_update_params kb node update_b64)) h))
  | _ => kb_node_update_request id kb node update_b64
  end.

(** ** Relay verification *)

(** What the daemon knows of a collection: its state vector, op-log and owner. *)
Record Collection := mkColl { coll_sv : string; coll_log : gmap string (gmap string string); coll_owner : string }.

(** [resolve_content_anchor]: the registered anchor, or this daemon's own key
    for a collection it owns. [signer] is its fingerprint and public key. *)
Definition resolve_content_anchor (st : KbState) (signer : option (string * string)) (coll : option Collection)
    (kb : string) : option string :=
  match kb_anchor st kb with
  | Some a => Some a
  | None =>
      let? (fp, pk) := signer in
      let? c := coll in
      if negb (bool_decide (coll_owner c = "")) && bool_decide (coll_owner c = fp) then Some pk else None
  end.

Inductive RelayError := Unsigned | MalformedHeader | NoCollection | Rejected (e : AdmissionError).

Definition verify_content_op (st : KbState) (coll : option Collection) (now : N) (kb anchor : string)
    (signed : SignedContentOp) : KbState * (RelayError + unit) :=
  match coll with
  | None => (st, inl NoCollection)
  | Some c =>
      let '(st, dm) := derived_membership st kb (coll_sv c) (coll_log c) anchor now in
      (st, match admit_signed signed (members dm) with inl e => inl (Rejected e) | inr _ => inr tt end)
  end.

(** [verify_relayed_content_op]; [Some header] of the result is carried onward.
    [coll] is the loaded collection, [None] when it does not load. *)
Definition verify_relayed_content_op (st : KbState) (signer : option (string * string)) (coll : option Collection)
    (now : N) (kb doc update : string) (header : option Json) (require_signed : bool)
    : KbState * (RelayError + option Json) :=
  match parse doc with
  | Some (KbNode _ node_id) =>
      match resolve_content_anchor st signer coll kb with
      | None => (st, inr None)
      | Some anchor =>
          let unsigned := (st, if require_signed then inl Unsigned else inr None) in
          match header with
          | None => unsigned
          | Some h =>
              if negb (bool_decide (is_Some (json_get h "sig"))) then unsigned
              else
                match (let? p := json_set h "kb_id" (JString kb) in
                       let? p := json_set p "node_id" (JString node_id) in
                       from_params p update) with
                | None => (st, inl MalformedHeader)
                | Some signed =>
                    let '(st, r) := verify_content_op st coll now kb anchor signed in
                    (st, match r with inl e => inl e | inr _ => inr (Some (header_params signed)) end)
                end
          end
      end
  | _ => (st, inr None)
  end.

(** ** Theorems *)

Context `{!HexLaws _, !Base64Laws _}.

Definition no_nul_ids (o : ContentOp) : bool := no_nul (co_kb_id o) && no_nul (co_node_id o) && no_nul (co_author o).

(** The signature of an edit covers every field of its header and the whole
    payload, NUL bytes in the payload included: for ids without NUL, two edits
    have the same signed bytes only when they are the same edit. *)
Theorem content_bytes_bind_everything o pay o' pay' :
  no_nul_ids o = true -> no_nul_ids o' = true ->
  content_bytes o pay = content_bytes o' pay' -> o = o' /\ pay = pay'.
Proof.
  intros Ho Ho' E. unfold no_nul_ids in *. bool_prop. unfold content_bytes in E.
  do 7 (apply field_app_inj in E as [? E]; [|first [done|apply hex_no_nul|apply to_dec_no_nul]..]).
  split; [|done]. destruct o, o'; cbn in *. subst.
  repeat match goal with
  | Hd : to_dec _ = to_dec _ |- _ => apply to_dec_inj in Hd; subst
  | Hx : hex_encode _ = hex_encode _ |- _ => apply (f_equal hex_decode) in Hx; rewrite !hex_decode_encode in Hx; simplify_eq
  end. done.
Qed.

(** The decision of [admit_signed], branch by branch. *)
Lemma admit_ok_iff s mem : admit_signed s mem = inr tt <->
  content_verify_signed s = true /\
  exists m, mem !! co_author (co_op s) = Some m /\ includes (m_role m) Editor = true /\ m_epoch m = co_epoch (co_op s).
Proof.
  unfold admit_signed. destruct (content_verify_signed s); cbn [negb]; [|by split; [|intros [? _]]].
  destruct (mem !! _) as [m|]; [|by split; [|intros (_ & m & ? & _)]].
  destruct (includes (m_role m) Editor) eqn:Er; cbn [negb].
  2: { split; [done|]. intros (_ & m' & [= <-] & Hr & _). congruence. }
  destruct (N.eqb_spec (m_epoch m) (co_epoch (co_op s))) as [E|E]; cbn [negb].
  - split; [|done]. intros _. split; [done|]. by exists m.
  - split; [done|]. by intros (_ & m' & [= <-] & _ & ?).
Qed.

(** Any object with the header's members and the two ids is read back. *)
Lemma from_params_header s (o : gmap string Json) :
  String.length (co_pubkey s) = 32 ->
  (forall k x, json_get (header_params s) k = Some x -> o !! k = Some x) ->
  o !! "kb_id" = Some (JString (co_kb_id (co_op s))) -> o !! "node_id" = Some (JString (co_node_id (co_op s))) ->
  from_params (JObject o) (payload s) = Some s.
Proof.
  intros Hpk Hh Hk Hn. unfold from_params, get_b64, get_str, get_u64. cbn [json_get].
  rewrite Hk, Hn, (Hh "sig" (JString (b64_encode (co_sig s)))), (Hh "author" (JString (co_author (co_op s)))),
    (Hh "epoch" (JPosInt (co_epoch (co_op s)))), (Hh "issued_at" (JPosInt (co_issued_at (co_op s)))),
    (Hh "base_sv" (JString (b64_encode (base_sv (co_op s))))),
    (Hh "author_pubkey" (JString (b64_encode (co_pubkey s)))) by done.
  cbn [as_str as_u64]. rewrite !b64_decode_encode. unfold array32. rewrite (proj2 (Nat.eqb_eq _ _) Hpk).
  by destruct s as [[] ? ? ?].
Qed.

(** The wire form loses nothing: the daemon parses the request an editor
    builds from a signed edit back to exactly that edit, and what a daemon
    carries onward after verifying it is parsed to the same edit by the next
    one. *)
Theorem signed_request_round_trip id s update_b64 :
  String.length (co_pubkey s) = 32 ->
  (exists params,
     json_get (kb_node_update_request_signed id (co_kb_id (co_op s)) (co_node_id (co_op s)) update_b64 (header_params s))
       "params" = Some params /\
     from_params params (payload s) = Some s) /\
  (let? p := json_set (header_params s) "kb_id" (JString (co_kb_id (co_op s))) in
   let? p := json_set p "node_id" (JString (co_node_id (co_op s))) in
   from_params p (payload s)) = Some s.
Proof.
  intros Hpk. split.
  - unfold kb_node_update_request_signed, header_params, obj, node_update_envelope. eexists. split; [reflexivity|].
    apply from_params_header; [done|..]; unfold merge_members.
    + intros k x Hx. cbn [json_get header_params obj] in Hx. by apply lookup_union_Some_l.
    + rewrite lookup_union_r; reflexivity.
    + rewrite lookup_union_r; reflexivity.
  - unfold header_params at 1, obj. cbn [json_set]. apply from_params_header; [done|..].
    + intros k x Hx. cbn [json_get header_params obj] in Hx.
      rewrite !lookup_insert_ne; [exact Hx|intros <-; by vm_compute in Hx..].
    + by rewrite lookup_insert_ne, lookup_insert_eq.
    + by rewrite lookup_insert_eq.
Qed.

(** The ids and the payload of an accepted header are the caller's, whatever
    the header says. *)
Lemma rebound_ids h kb node pay s :
  (let? p := json_set h "kb_id" (JString kb) in
   let? p := json_set p "node_id" (JString node) in from_params p pay) = Some s ->
  co_kb_id (co_op s) = kb /\ co_node_id (co_op s) = node /\ payload s = pay.
Proof.
  assert (Hp : forall p, get_str p "kb_id" = Some kb -> get_str p "node_id" = Some node ->
    from_params p pay = Some s -> co_kb_id (co_op s) = kb /\ co_node_id (co_op s) = node /\ payload s = pay).
  { intros p Hk Hn. unfold from_params. rewrite Hk, Hn. intros E.
    repeat (case_match; [|done]). by simplify_eq. }
  destruct h; try discriminate; cbn [json_set]; apply Hp; unfold get_str; cbn [json_get];
    rewrite ?lookup_insert_eq; try done; by rewrite lookup_insert_ne, ?lookup_insert_eq.
Qed.

Section Relay.
Context (log_of : string -> string -> gmap string (gmap string string)).

(** A relayed edit that the mesh policy lets through is an authorized one:
    the header carried onward parses from a signed edit of this node and exactly
    this payload, its signature verifies under a key whose fingerprint is the
    author, and the author is, in a derivation made afresh from the collection's
    log, a member with at least the editor role at the edit's epoch and not on
    the local blocklist. *)
Theorem relayed_edit_is_authorized t now st signer c kb k node doc anchor update header st' onward :
  served log_of t now st ->
  coll_log c = log_of kb (coll_sv c) ->
  parse doc = Some (KbNode k node) ->
  resolve_content_anchor st signer (Some c) kb = Some anchor ->
  verify_relayed_content_op st signer (Some c) now kb doc update header true = (st', inr onward) ->
  exists s m,
    onward = Some (header_params s) /\
    co_kb_id (co_op s) = kb /\ co_node_id (co_op s) = node /\ payload s = update /\
    fingerprint_of (co_pubkey s) = co_author (co_op s) /\
    content_verify (co_op s) (co_sig s) (co_pubkey s) update = true /\
    members (derive_fresh (oplog_ops (coll_log c)) anchor now (membership_view_for st kb)) !! co_author (co_op s) = Some m /\
    includes (m_role m) Editor = true /\ m_epoch m = co_epoch (co_op s) /\
    co_author (co_op s) ∉ blocked st kb.
Proof.
  intros Hs Hl Hd Ha. unfold verify_relayed_content_op. rewrite Hd, Ha.
  destruct header as [h|]; [|done]. destruct (bool_decide _); cbn [negb]; [|done].
  case_match eqn:Ep; [|done]. destruct (rebound_ids h kb node update s Ep) as (Hk & Hn & Hp).
  unfold verify_content_op. pose proof (query_ok log_of now st kb (coll_sv c) anchor (served_ok log_of t now st Hs)) as [_ Hq].
  rewrite <- Hl in Hq. destruct (derived_membership _ _ _ _ _ _) as [st2 dm]. cbn [snd] in Hq.
  destruct (admit_signed s (members dm)) as [e|[]] eqn:Ead; [done|]. intros [= <- <-].
  apply admit_ok_iff in Ead as (Hv & m & Hm & Hr & He). rewrite Hq in Hm.
  unfold content_verify_signed, content_fingerprint_matches in Hv. apply andb_true_iff in Hv as [Hf Hv].
  apply bool_decide_eq_true in Hf. rewrite Hp in Hv.
  exists s, m. split_and!; try done.
  intros Hb. unfold derive_fresh in Hm. cbn [members] in Hm. by rewrite blocked_not_member in Hm.
Qed.

End Relay.

(** The knowledge base named in the document address plays no part in the
    check: only the node id does. *)
Lemma relay_check_ignores_address_kb st signer coll now kb k k' node doc doc' update header req :
  parse doc = Some (KbNode k node) -> parse doc' = Some (KbNode k' node) ->
  verify_relayed_content_op st signer coll now kb doc update header req =
  verify_relayed_content_op st signer coll now kb doc' update header req.
Proof. intros Hd Hd'. unfold verify_relayed_content_op. by rewrite Hd, Hd'. Qed.

End Content.

Module ContentWitnesses.
Export CacheWitnesses.

#[export] Instance plain64 : Base64 := {| b64_encode s := s; b64_decode s := Some s |}.
#[export] Instance plain64_laws : Base64Laws plain64.
Proof. by split. Qed.
#[export] Instance wide_hex_laws : HexLaws wide.
Proof. split; [exact OpLogWitnesses.unhex_hex|done|exact OpLogWitnesses.hex_digits_no_nul]. Qed.

(** An edit of node [n] of [kb] by the key [k] at epoch [e]. *)
Definition signature (k : string) : string := k +:+ String.concat "" (replicate 62 "0").
Definition edit (k kb node pay : string) (e : N) : SignedContentOp :=
  mkSignedContent (mkContent kb node "sv" (fp k) e 7) pay (signature k) (key k).

(** NUL bytes are accepted in ids: two edits of different knowledge bases and
    nodes then have the same signed bytes. *)
Lemma nul_in_ids_is_ambiguous :
  let nul := String "000" "" in
  let o kb node := mkContent kb node "sv" "author" 0 7 in
  content_bytes (o ("a" +:+ nul +:+ "b") "c") "pay" = content_bytes (o "a" ("b" +:+ nul +:+ "c")) "pay".
Proof. by vm_compute. Qed.

Lemma content_bytes_bind_everything_witness :
  let o := co_op (edit "ed" "kb" "n" "pay" 0) in
  no_nul_ids o = true /\ o = o /\ "pay" = "pay".
Proof.
  intros o. split; [by vm_compute|]. apply (content_bytes_bind_everything o "pay" o "pay"); [by vm_compute..|done].
Defined.

Lemma signed_request_round_trip_witness :
  let s := edit "ed" "kb" "n" "pay" 0 in
  (exists params,
     json_get (kb_node_update_request_signed 1 "kb" "n" "pay" (header_params s)) "params" = Some params /\
     from_params params "pay" = Some s) /\
  (let? p := json_set (header_params s) "kb_id" (JString "kb") in
   let? p := json_set p "node_id" (JString "n") in
   from_params p "pay") = Some s.
Proof. exact (signed_request_round_trip 1 (edit "ed" "kb" "n" "pay" 0) "pay" eq_refl). Defined.

(** A joined collection at state vector [v2] and a daemon that knows its owner. *)
Definition joined : KbState := set_kb_anchor (boot fresh_tables) "kb" (key "ow").
Definition coll2 : Collection := mkColl "v2" (toy_log_of "kb" "v2") "".
Definition relayed (k node pay : string) (e now : N) (doc update : string) : RelayError + option Json :=
  (verify_relayed_content_op joined None (Some coll2) now "kb" doc update (Some (header_params (edit k "kb" node pay e))) true).2.

(** The edit of the editor passes; a wrong epoch, an
    expired grant and a stranger do not. *)
Lemma relay_decisions :
  (match relayed "ed" "n" "pay" 0 50 "kbn:kb:n" "pay" with inr (Some _) => true | _ => false end) = true /\
  relayed "ed" "n" "pay" 1 50 "kbn:kb:n" "pay" = inl (Rejected (StaleEpoch 1 0)) /\
  relayed "ed" "n" "pay" 0 100 "kbn:kb:n" "pay" = inl (Rejected NotAMember) /\
  relayed "xx" "n" "pay" 0 50 "kbn:kb:n" "pay" = inl (Rejected NotAMember).
Proof. vm_compute. by split_and!. Qed.

Lemma relayed_edit_is_authorized_witness :
  exists s m,
    Some (header_params (edit "ed" "kb" "n" "pay" 0)) = Some (header_params s) /\
    co_kb_id (co_op s) = "kb" /\ co_node_id (co_op s) = "n" /\ payload s = "pay" /\
    fingerprint_of (co_pubkey s) = co_author (co_op s) /\
    content_verify (co_op s) (co_sig s) (co_pubkey s) "pay" = true /\
    members (derive_fresh (oplog_ops (coll_log coll2)) (key "ow") 50 (membership_view_for joined "kb")) !! co_author (co_op s) = Some m /\
    includes (m_role m) Editor = true /\ m_epoch m = co_epoch (co_op s) /\
    co_author (co_op s) ∉ blocked joined "kb".
Proof.
  apply (relayed_edit_is_authorized toy_log_of fresh_tables 50 joined None coll2 "kb" "kb" "n" "kbn:kb:n" (key "ow") "pay"
    (Some (header_params (edit "ed" "kb" "n" "pay" 0)))
    (verify_content_op joined (Some coll2) 50 "kb" (key "ow") (edit "ed" "kb" "n" "pay" 0)).1);
    [repeat constructor|done..|].
  by vm_compute.
Defined.

End ContentWitnesses.
