(* ===== verification/Broadcast.v ===== *)
(** * Broadcast: events to connected clients

    Models [shared/mcp/src/broadcast.rs]: the events, the per-client event and
    document subscriptions, and their delivery through bounded channels. A
    channel of the runtime is its buffer and whether its receiver is alive; the
    broadcaster keeps the sending end, the session the receiving end. *)
From S2P Require Import Prelude Json.

(** ** Events *)

Inductive EditorEvent :=
  | BufferEdited (buffer_idx version : N)
  | CursorMoved (buffer_idx row col : N)
  | DiagnosticsUpdated (buffer_idx : N)
  | ModeChanged (mode : string)
  | BufferOpened (buffer_idx : N) (path : option string)
  | BufferClosed (buffer_idx : N)
  | SyncUpdate (buffer_name update_base64 : string) (wal_seq : N) (content_header : option Json)
  | PeerJoined (session_id peer_count : N)
  | PeerLeft (session_id peer_count : N)
  | SharerLeft (session_id : N) (doc : string) (peer_count : N)
  | SaveCommitted (doc saved_by : string) (save_epoch : N) (content_hash : string)
  | AwarenessUpdate (doc_id : string) (client_id : N) (user_name : string) (cursor_row cursor_col : N)
      (selection : option (N * N * N * N)) (mode : string).

Definition doc_id (ev : EditorEvent) : option string :=
  match ev with
  | SyncUpdate buffer_name _ _ _ => Some buffer_name
  | SharerLeft _ doc _ => Some doc
  | SaveCommitted doc _ _ _ => Some doc
  | AwarenessUpdate doc_id _ _ _ _ _ _ => Some doc_id
  | _ => None
  end.

Definition event_type (ev : EditorEvent) : string :=
  match ev with
  | BufferEdited _ _ => "buffer_edit"
  | CursorMoved _ _ _ => "cursor_move"
  | DiagnosticsUpdated _ => "diagnostics"
  | ModeChanged _ => "mode_change"
  | BufferOpened _ _ => "buffer_open"
  | BufferClosed _ => "buffer_close"
  | SyncUpdate _ _ _ _ => "sync_update"
  | PeerJoined _ _ => "peer_joined"
  | PeerLeft _ _ => "peer_left"
  | SharerLeft _ _ _ => "sharer_left"
  | SaveCommitted _ _ _ _ => "save_committed"
  | AwarenessUpdate _ _ _ _ _ _ _ => "awareness_update"
  end.

(** ** State *)

Definition DEFAULT_QUEUE_CAPACITY : nat := 100.

(** [tx] names the client's channel. *)
Record ClientEntry := mkClient { event_subs : list string; doc_subs : gset string; tx : N }.
(** [mpsc::channel]: the buffered events and whether the receiver is alive. *)
Record Channel := mkChan { queue : list EditorEvent; receiver_alive : bool }.
Record EventBroadcaster := mkBc {
  clients : gmap N ClientEntry;
  next_seq : N;
  channels : gmap N Channel;
  next_chan : N;
}.
Implicit Types (bc : EventBroadcaster) (ev : EditorEvent).

Definition new_broadcaster : EventBroadcaster := mkBc ∅ 1 ∅ 0.
Definition set_clients bc (c : gmap N ClientEntry) : EventBroadcaster :=
  mkBc c (next_seq bc) (channels bc) (next_chan bc).

(** [subscribe]: the channel is new; the result is its receiving end. *)
Definition subscribe bc (session_id : N) (subscriptions : list string) : EventBroadcaster * N :=
  let ch := next_chan bc in
  (mkBc (<[session_id := mkClient subscriptions ∅ ch]> (clients bc)) (next_seq bc)
     (<[ch := mkChan [] true]> (channels bc)) (ch + 1), ch).
Definition unsubscribe bc (session_id : N) : EventBroadcaster := set_clients bc (delete session_id (clients bc)).
Definition update_subscriptions bc (session_id : N) (subscriptions : list string) : EventBroadcaster :=
  set_clients bc (alter (fun e => mkClient subscriptions (doc_subs e) (tx e)) session_id (clients bc)).
Definition add_event_sub bc (session_id : N) (ty : string) : EventBroadcaster :=
  set_clients bc (alter (fun e => if existsb (String.eqb ty) (event_subs e) then e
                                  else mkClient (event_subs e ++ [ty]) (doc_subs e) (tx e)) session_id (clients bc)).
Definition subscribe_doc bc (session_id : N) (doc : string) : EventBroadcaster :=
  set_clients bc (alter (fun e => mkClient (event_subs e) ({[doc]} ∪ doc_subs e) (tx e)) session_id (clients bc)).
Definition unsubscribe_doc bc (session_id : N) (doc : string) : EventBroadcaster :=
  set_clients bc (alter (fun e => mkClient (event_subs e) (doc_subs e ∖ {[doc]}) (tx e)) session_id (clients bc)).

Definition should_deliver (e : ClientEntry) ev : bool :=
  if negb (existsb (fun s => String.eqb s (event_type ev) || String.eqb s "*") (event_subs e)) then false
  else if negb (bool_decide (doc_subs e = ∅))
       then match doc_id ev with
            | Some doc => bool_decide (doc ∈ doc_subs e)
            | None => true
            end
       else true.

(** [try_send]: a full buffer drops the event, a dead receiver is reported. *)
Definition try_deliver (chs : gmap N Channel) (e : ClientEntry) ev : gmap N Channel * bool :=
  match chs !! tx e with
  | Some ch => if negb (receiver_alive ch) then (chs, true)
               else if DEFAULT_QUEUE_CAPACITY <=? length (queue ch) then (chs, false)
               else (<[tx e := mkChan (queue ch ++ [ev]) true]> chs, false)
  | None => (chs, true)
  end.

(** One iteration of the loop over the clients. *)
Definition deliver_step (exclude : option N) ev (acc : gmap N Channel * list N) (kv : N * ClientEntry)
    : gmap N Channel * list N :=
  let '(session_id, e) := kv in
  if bool_decide (exclude = Some session_id) then acc
  else if should_deliver e ev
       then let '(chs, dead) := try_deliver acc.1 e ev in (chs, if dead then acc.2 ++ [session_id] else acc.2)
       else acc.
Definition deliver bc (exclude : option N) ev : EventBroadcaster :=
  let '(chs, closed) := foldl (deliver_step exclude ev) (channels bc, []) (map_to_list (clients bc)) in
  mkBc (foldl (fun m id => delete id m) (clients bc) closed) ((next_seq bc + 1) mod 2 ^ 64) chs (next_chan bc).
Definition broadcast bc ev : EventBroadcaster := deliver bc None ev.
Definition broadcast_except bc ev (exclude_session : N) : EventBroadcaster := deliver bc (Some exclude_session) ev.
Definition client_count bc : nat := size (clients bc).
Definition current_seq bc : N := next_seq bc.

(** The receiving end: take the next event, or drop the receiver. *)
Definition recv bc (ch : N) : EventBroadcaster * option EditorEvent :=
  match channels bc !! ch with
  | Some (mkChan (ev :: q) alive) =>
      (mkBc (clients bc) (next_seq bc) (<[ch := mkChan q alive]> (channels bc)) (next_chan bc), Some ev)
  | _ => (bc, None)
  end.
Definition drop_receiver bc (ch : N) : EventBroadcaster :=
  mkBc (clients bc) (next_seq bc) (alter (fun _ => mkChan [] false) ch (channels bc)) (next_chan bc).

(** ** Invariant *)

(** Every client has its own channel, and no channel holds more than its
    capacity. *)
Record bc_ok bc : Prop := {
  bc_own : forall i j e e', clients bc !! i = Some e -> clients bc !! j = Some e' -> tx e = tx e' -> i = j;
  bc_live : forall i e, clients bc !! i = Some e -> is_Some (channels bc !! tx e);
  bc_fresh : forall c, is_Some (channels bc !! c) -> (c < next_chan bc)%N;
  bc_bound : forall c ch, channels bc !! c = Some ch -> length (queue ch) <= DEFAULT_QUEUE_CAPACITY;
}.

(** Whether a client is sent an event, and the channel and the liveness test
    that result. *)
Definition receives (exclude : option N) ev (i : N) (e : ClientEntry) : bool :=
  negb (bool_decide (exclude = Some i)) && should_deliver e ev.
Definition pushed ev (ch : Channel) : Channel :=
  if receiver_alive ch && (length (queue ch) <? DEFAULT_QUEUE_CAPACITY) then mkChan (queue ch ++ [ev]) true else ch.
Definition dead (chs : gmap N Channel) (e : ClientEntry) : bool :=
  match chs !! tx e with Some ch => negb (receiver_alive ch) | None => true end.

Lemma try_deliver_spec chs e ev :
  (try_deliver chs e ev).1 = alter (pushed ev) (tx e) chs /\ (try_deliver chs e ev).2 = dead chs e.
Proof.
  unfold try_deliver, dead, pushed. destruct (chs !! tx e) as [[q a]|] eqn:E; cbn [queue receiver_alive].
  - destruct a; cbn [negb andb].
    + split; [|by case_match]. destruct (Nat.leb_spec DEFAULT_QUEUE_CAPACITY (length q)); cbn [fst].
      * symmetry. apply map_eq. intros c. destruct (decide (c = tx e)) as [->|?].
        -- rewrite lookup_alter_eq, E. cbn [fmap option_fmap option_map queue receiver_alive andb].
           by rewrite (proj2 (Nat.ltb_ge _ _)).
        -- by rewrite lookup_alter_ne.
      * apply map_eq. intros c. destruct (decide (c = tx e)) as [->|?].
        -- rewrite lookup_insert_eq, lookup_alter_eq, E. cbn [fmap option_fmap option_map queue receiver_alive andb].
           by rewrite (proj2 (Nat.ltb_lt _ _)).
        -- by rewrite lookup_insert_ne, lookup_alter_ne.
    + split; [|done]. symmetry. apply map_eq. intros c. destruct (decide (c = tx e)) as [->|?].
      * by rewrite lookup_alter_eq, E.
      * by rewrite lookup_alter_ne.
  - split; [|done]. symmetry. apply map_eq. intros c. destruct (decide (c = tx e)) as [->|?].
    + by rewrite lookup_alter_eq, E.
    + by rewrite lookup_alter_ne.
Qed.

Lemma step_eq exclude ev chs closed i e :
  deliver_step exclude ev (chs, closed) (i, e) =
  if receives exclude ev i e
  then (alter (pushed ev) (tx e) chs, if dead chs e then closed ++ [i] else closed)
  else (chs, closed).
Proof.
  unfold deliver_step, receives. cbn [fst snd]. case_bool_decide; [done|]. cbn [negb andb].
  destruct (should_deliver e ev); [|done]. destruct (try_deliver_spec chs e ev) as [E1 E2].
  destruct (try_deliver chs e ev). cbn [fst snd] in *. by subst.
Qed.

(** The loop changes the channels of the listed clients only, each as if it were
    alone, and collects the dead ones. *)
Lemma deliver_fold exclude ev l : forall chs closed,
  (forall i j e e', (i, e) ∈ l -> (j, e') ∈ l -> tx e = tx e' -> i = j) -> NoDup l.*1 ->
  let r := foldl (deliver_step exclude ev) (chs, closed) l in
  (forall c, (forall i e, (i, e) ∈ l -> tx e <> c) -> r.1 !! c = chs !! c) /\
  (forall i e, (i, e) ∈ l -> r.1 !! tx e = (if receives exclude ev i e then pushed ev else id) <$> chs !! tx e) /\
  (forall i, i ∈ r.2 <-> i ∈ closed \/ exists e, (i, e) ∈ l /\ receives exclude ev i e = true /\ dead chs e = true).
Proof.
  induction l as [|[i0 e0] l IH]; intros chs closed Hinj Hnd.
  { cbn. split_and!; [done|by intros ?? ?%not_elem_of_nil|]. intros i. split; [auto|].
    intros [?|(e & H%not_elem_of_nil & _)]; done. }
  cbn [foldl]. rewrite step_eq. apply NoDup_cons in Hnd as [Hni Hnd].
  assert (Hne : forall i e, (i, e) ∈ l -> tx e <> tx e0).
  { intros i e Hin Et. assert (i = i0) by (eapply (Hinj i i0 e e0); [by right|by left|done]). subst i. apply Hni.
    by apply (list_elem_of_fmap_2 fst l (i0, e)). }
  assert (Hinj' : forall i j e e', (i, e) ∈ l -> (j, e') ∈ l -> tx e = tx e' -> i = j).
  { intros i j e e' Hi Hj. apply Hinj; by right. }
  set (chs1 := if receives exclude ev i0 e0 then alter (pushed ev) (tx e0) chs else chs).
  set (cl1 := if receives exclude ev i0 e0 && dead chs e0 then closed ++ [i0] else closed).
  replace (if receives exclude ev i0 e0 then _ else (chs, closed)) with (chs1, cl1)
    by (unfold chs1, cl1; by destruct (receives exclude ev i0 e0)).
  assert (Hch : forall c, c <> tx e0 -> chs1 !! c = chs !! c).
  { intros c Hc. unfold chs1. case_match; [by rewrite lookup_alter_ne|done]. }
  destruct (IH chs1 cl1 Hinj' Hnd) as (Ho & Hl & Hd). cbn zeta. split_and!.
  - intros c Hc. rewrite Ho; [|intros i e Hin; apply (Hc i e); by right]. apply Hch. intros ->. by apply (Hc i0 e0); [left|].
  - intros i e [[= -> ->]|Hin]%elem_of_cons.
    + rewrite (Ho (tx e0)) by exact Hne. unfold chs1. case_match; [by rewrite lookup_alter_eq|]. by rewrite option_fmap_id.
    + rewrite (Hl i e Hin), Hch by eauto. done.
  - assert (Hdd : forall i e, (i, e) ∈ l -> dead chs1 e = dead chs e).
    { intros i e Hin. unfold dead. by rewrite Hch by eauto. }
    intros i. rewrite Hd. unfold cl1. setoid_rewrite elem_of_cons. split.
    + intros [Hin|(e & Hin & Hr & Hde)].
      * destruct (receives exclude ev i0 e0 && dead chs e0) eqn:E; [|by left].
        apply elem_of_app in Hin as [?| ->%list_elem_of_singleton]; [by left|]. apply andb_true_iff in E as [??]. right. eauto.
      * right. exists e. rewrite (Hdd i e Hin) in Hde. auto.
    + intros [Hin|(e & [[= -> ->]|Hin] & Hr & Hde)].
      * left. case_match; [apply elem_of_app; by left|done].
      * left. rewrite Hr, Hde. cbn. apply elem_of_app. right. by left.
      * right. exists e. by rewrite (Hdd i e Hin).
Qed.

(** What a broadcast does, client by client and channel by channel. *)
Lemma deliver_spec bc exclude ev : bc_ok bc ->
  let bc' := deliver bc exclude ev in
  (forall i e, clients bc !! i = Some e ->
     channels bc' !! tx e = (if receives exclude ev i e then pushed ev else id) <$> channels bc !! tx e) /\
  (forall c, (forall i e, clients bc !! i = Some e -> tx e <> c) -> channels bc' !! c = channels bc !! c) /\
  (forall i, clients bc' !! i =
     let? e := clients bc !! i in
     if receives exclude ev i e && dead (channels bc) e then None else Some e).
Proof.
  intros Hok. cbn zeta. unfold deliver.
  destruct (deliver_fold exclude ev (map_to_list (clients bc)) (channels bc) []) as (Ho & Hl & Hd).
  { intros i j e e' Hi%elem_of_map_to_list Hj%elem_of_map_to_list. by eapply bc_own. }
  { apply NoDup_fst_map_to_list. }
  destruct (foldl _ _ _) as [chs closed]. cbn [fst snd] in *. cbn [clients channels]. split_and!.
  - intros i e Hi. apply Hl. by apply elem_of_map_to_list.
  - intros c Hc. apply Ho. intros i e Hi%elem_of_map_to_list. eauto.
  - intros i. rewrite deletes_lookup. destruct (clients bc !! i) as [e|] eqn:E; [|by case_bool_decide].
    case_bool_decide as Hin.
    + apply Hd in Hin as [?%not_elem_of_nil|(e' & He' & Hr & Hde)]; [done|].
      apply elem_of_map_to_list in He'. rewrite E in He'. injection He' as <-. by rewrite Hr, Hde.
    + destruct (receives exclude ev i e && dead (channels bc) e) eqn:Er; [|done]. exfalso. apply Hin, Hd. right.
      apply andb_true_iff in Er as [??]. exists e. by rewrite elem_of_map_to_list.
Qed.

(** ** Reachable broadcasters *)

Inductive BcOp :=
  | OpSubscribe (i : N) (subs : list string)
  | OpUnsubscribe (i : N)
  | OpUpdateSubs (i : N) (subs : list string)
  | OpAddEvent (i : N) (ty : string)
  | OpSubscribeDoc (i : N) (d : string)
  | OpUnsubscribeDoc (i : N) (d : string)
  | OpDeliver (exclude : option N) (ev : EditorEvent)
  | OpRecv (ch : N)
  | OpDrop (ch : N).
Definition bc_exec bc (o : BcOp) : EventBroadcaster :=
  match o with
  | OpSubscribe i subs => (subscribe bc i subs).1
  | OpUnsubscribe i => unsubscribe bc i
  | OpUpdateSubs i subs => update_subscriptions bc i subs
  | OpAddEvent i ty => add_event_sub bc i ty
  | OpSubscribeDoc i d => subscribe_doc bc i d
  | OpUnsubscribeDoc i d => unsubscribe_doc bc i d
  | OpDeliver x ev => deliver bc x ev
  | OpRecv ch => (recv bc ch).1
  | OpDrop ch => drop_receiver bc ch
  end.
Definition bc_run (ops : list BcOp) : EventBroadcaster := foldl bc_exec new_broadcaster ops.

(** Changes of the client table that keep each client's channel. *)
Lemma set_clients_ok bc m : bc_ok bc ->
  (forall i e, m !! i = Some e -> exists e', clients bc !! i = Some e' /\ tx e' = tx e) -> bc_ok (set_clients bc m).
Proof.
  intros [Ho Hl Hf Hb] Hm. split; cbn [set_clients clients channels next_chan]; [..|done|done].
  - intros i j e e' Hi Hj Et. destruct (Hm i e Hi) as (f & Hf1 & Ef), (Hm j e' Hj) as (g & Hg1 & Eg).
    apply (Ho i j f g); congruence.
  - intros i e Hi. destruct (Hm i e Hi) as (f & Hf1 & <-). eauto.
Qed.
Lemma alter_clients_ok bc f i : bc_ok bc -> (forall e, tx (f e) = tx e) -> bc_ok (set_clients bc (alter f i (clients bc))).
Proof.
  intros Hok Hf. apply set_clients_ok; [done|]. intros j e. rewrite lookup_alter_Some.
  intros [(<- & e' & ? & ->)|[_ ?]]; eauto.
Qed.

(** Changes of the channels that keep them in place and within capacity. *)
Lemma channels_ok bc m : bc_ok bc ->
  (forall c, is_Some (channels bc !! c) <-> is_Some (m !! c)) ->
  (forall c ch, m !! c = Some ch -> length (queue ch) <= DEFAULT_QUEUE_CAPACITY) ->
  bc_ok (mkBc (clients bc) (next_seq bc) m (next_chan bc)).
Proof.
  intros [Ho Hl Hf Hb] Hd Hq. split; cbn [clients channels next_chan]; [done|..|done].
  - intros i e Hi. apply Hd. eauto.
  - intros c Hc. apply Hf. by apply Hd.
Qed.

Lemma subscribe_ok bc i subs : bc_ok bc -> bc_ok (subscribe bc i subs).1.
Proof.
  intros [Ho Hl Hf Hb]. assert (Hn : channels bc !! next_chan bc = None).
  { destruct (channels bc !! next_chan bc) eqn:E; [|done]. assert (next_chan bc < next_chan bc)%N by eauto. lia. }
  assert (Hne : forall j e, clients bc !! j = Some e -> tx e <> next_chan bc).
  { intros j e Hj Et. destruct (Hl j e Hj) as [ch Hch]. congruence. }
  split; cbn [subscribe fst clients channels next_chan].
  - intros j k e e'. rewrite !lookup_insert_Some. intros [[<- <-]|[? Hj]] [[<- <-]|[? Hk]] Et; cbn [tx] in *; try done.
    + by destruct (Hne k e').
    + by destruct (Hne j e).
    + by eapply Ho.
  - intros j e. rewrite lookup_insert_Some. intros [[<- <-]|[? Hj]]; cbn [tx].
    + by rewrite lookup_insert_eq.
    + rewrite lookup_insert_ne by (by apply not_eq_sym, (Hne j)). eauto.
  - intros c. rewrite lookup_insert_is_Some. intros [<-|[? Hc]]; [lia|]. apply Hf in Hc. lia.
  - intros c ch. rewrite lookup_insert_Some. intros [[<- <-]|[? Hc]]; [cbn; lia|eauto].
Qed.

Lemma pushed_length ev ch : length (queue ch) <= DEFAULT_QUEUE_CAPACITY -> length (queue (pushed ev ch)) <= DEFAULT_QUEUE_CAPACITY.
Proof.
  intros Hl. unfold pushed. destruct (receiver_alive ch); [|done]. cbn [andb].
  destruct (Nat.ltb_spec (length (queue ch)) DEFAULT_QUEUE_CAPACITY); [|done]. cbn [queue]. rewrite length_app. cbn. lia.
Qed.

Lemma deliver_ok bc x ev : bc_ok bc -> bc_ok (deliver bc x ev).
Proof.
  intros Hok. destruct (deliver_spec bc x ev Hok) as (Hl & Ho & Hc).
  assert (Hch : forall c, exists f : Channel -> Channel, channels (deliver bc x ev) !! c = f <$> channels bc !! c /\
    forall ch, length (queue ch) <= DEFAULT_QUEUE_CAPACITY -> length (queue (f ch)) <= DEFAULT_QUEUE_CAPACITY).
  { intros c. destruct (decide (map_Exists (fun _ e => tx e = c) (clients bc))) as [(i & e & Hi & <-)|Hn].
    - exists (if receives x ev i e then pushed ev else id). split; [by apply Hl|]. case_match; [apply pushed_length|done].
    - exists id. rewrite option_fmap_id. split; [|done]. apply Ho. intros i e Hi Et. apply Hn. by exists i, e. }
  assert (Hm : bc_ok (mkBc (clients bc) (next_seq bc) (channels (deliver bc x ev)) (next_chan bc))).
  { apply channels_ok; [done|..].
    - intros c. destruct (Hch c) as (f & -> & _). by rewrite fmap_is_Some.
    - intros c ch. destruct (Hch c) as (f & -> & Hf). rewrite fmap_Some. intros (ch' & Hc' & ->).
      apply Hf. by eapply bc_bound. }
  destruct Hm as [Ho' Hl' Hf' Hb']. cbn [clients channels next_chan] in *.
  assert (Hsub : forall i e, clients (deliver bc x ev) !! i = Some e -> clients bc !! i = Some e).
  { intros i e. rewrite Hc. destruct (clients bc !! i); [|done]. by case_match. }
  assert (Hn : next_chan (deliver bc x ev) = next_chan bc) by (unfold deliver; by case_match).
  split.
  - intros i j e e' Hi Hj. by apply Ho'; apply Hsub.
  - intros i e Hi. by apply (Hl' i), Hsub.
  - rewrite Hn. exact Hf'.
  - exact Hb'.
Qed.

Lemma recv_ok bc c : bc_ok bc -> bc_ok (recv bc c).1.
Proof.
  intros Hok. unfold recv. destruct (channels bc !! c) as [[[|ev q] a]|] eqn:E; try done. apply channels_ok; [done|..].
  - intros c'. rewrite lookup_insert_is_Some. destruct (decide (c = c')) as [<-|?]; naive_solver.
  - intros c' ch. rewrite lookup_insert_Some. intros [[<- <-]|[_ H']]; [|by eapply bc_bound].
    apply bc_bound in E; [|done]. cbn in *. lia.
Qed.
Lemma drop_ok bc c : bc_ok bc -> bc_ok (drop_receiver bc c).
Proof.
  intros Hok. apply channels_ok; [done|..].
  - intros c'. by rewrite lookup_alter_is_Some.
  - intros c' ch. rewrite lookup_alter_Some. intros [(<- & ch' & _ & ->)|[_ H']]; [cbn; lia|by eapply bc_bound].
Qed.

Lemma bc_run_ok ops : bc_ok (bc_run ops).
Proof.
  unfold bc_run. apply foldl_inv.
  - split; intros *; cbn [new_broadcaster clients channels]; rewrite !lookup_empty; try done; by intros [? ?].
  - intros bc o _ Hok. destruct o; cbn [bc_exec].
    + by apply subscribe_ok.
    + apply set_clients_ok; [done|]. intros j e. rewrite lookup_delete_Some. naive_solver.
    + by apply alter_clients_ok.
    + apply alter_clients_ok; [done|]. intros e. by case_match.
    + by apply alter_clients_ok.
    + by apply alter_clients_ok.
    + by apply deliver_ok.
    + by apply recv_ok.
    + by apply drop_ok.
Qed.

(** ** Delivery *)

(** What a client asked for. *)
Definition wants (e : ClientEntry) ev : Prop :=
  (event_type ev ∈ event_subs e \/ "*" ∈ event_subs e) /\
  (doc_subs e = ∅ \/ forall d, doc_id ev = Some d -> d ∈ doc_subs e).

Lemma should_deliver_iff e ev : should_deliver e ev = true <-> wants e ev.
Proof.
  unfold should_deliver, wants.
  assert (Hs : existsb (fun s => String.eqb s (event_type ev) || String.eqb s "*") (event_subs e) = true <->
               event_type ev ∈ event_subs e \/ "*" ∈ event_subs e).
  { rewrite existsb_exists. setoid_rewrite orb_true_iff. setoid_rewrite String.eqb_eq.
    setoid_rewrite <- list_elem_of_In. naive_solver. }
  rewrite <- Hs. destruct (existsb _ _); cbn [negb]; [|by split; [|intros [? _]]].
  case_bool_decide as Ed; cbn [negb]; [by split; auto|].
  destruct (doc_id ev) as [d|]; [rewrite bool_decide_eq_true|]; naive_solver.
Qed.

(** In every broadcaster the operations can build, an event is appended to
    the queue of exactly those other clients that asked for its type and, if
    they follow documents, for its document, as long as they are connected and
    their queue has room; every other queue is unchanged, no queue exceeds the
    capacity, and exactly the clients found disconnected are dropped. *)
Theorem broadcast_reaches_exactly_subscribers ops x ev i e :
  clients (bc_run ops) !! i = Some e ->
  let bc := bc_run ops in
  let bc' := broadcast_except bc ev x in
  exists ch, channels bc !! tx e = Some ch /\ length (queue ch) <= 100 /\
  ((i <> x /\ wants e ev /\ receiver_alive ch = true /\ length (queue ch) < 100 /\
    channels bc' !! tx e = Some (mkChan (queue ch ++ [ev]) true) /\ clients bc' !! i = Some e) \/
   (~ (i <> x /\ wants e ev /\ receiver_alive ch = true /\ length (queue ch) < 100) /\
    channels bc' !! tx e = Some ch /\
    clients bc' !! i = if bool_decide (i = x) || receiver_alive ch || negb (should_deliver e ev) then Some e else None)).
Proof.
  intros Hi bc bc'. pose proof (bc_run_ok ops) as Hok. destruct (bc_live _ Hok i e Hi) as [ch Hch].
  exists ch. split; [done|]. split; [by apply (bc_bound _ Hok (tx e))|].
  destruct (deliver_spec bc (Some x) ev Hok) as (Hl & _ & Hc). specialize (Hl i e Hi). specialize (Hc i).
  fold bc in Hi, Hch. unfold bc', broadcast_except. rewrite Hl, Hc, Hch, Hi. unfold receives, dead, pushed. rewrite Hch.
  rewrite <- should_deliver_iff. cbn [fmap option_fmap option_map].
  destruct (decide (i = x)) as [->|Hx].
  { right. rewrite !bool_decide_eq_true_2 by done. cbn. naive_solver. }
  rewrite !bool_decide_eq_false_2 by congruence. cbn [negb andb orb].
  destruct (should_deliver e ev); cbn [negb andb orb]; [|right; rewrite orb_true_r; naive_solver].
  rewrite orb_false_r. destruct (receiver_alive ch); cbn [negb andb orb]; [|right; naive_solver].
  change DEFAULT_QUEUE_CAPACITY with 100. destruct (Nat.ltb_spec (length (queue ch)) 100); [by left|].
  right. split; [|done]. intros (_ & _ & _ & ?). lia.
Qed.

(** A client that asked for an event type and follows no document yet is sent
    the events of every document. *)
Lemma unscoped_client_wants_every_document e ev :
  doc_subs e = ∅ -> event_type ev ∈ event_subs e -> wants e ev.
Proof. intros Hd Ht. split; [by left|by left]. Qed.

Module BroadcastWitnesses.

Definition update (d : string) : EditorEvent := SyncUpdate d "dTE=" 1 None.
Definition three : list BcOp :=
  [OpSubscribe 1 []; OpSubscribe 2 []; OpSubscribe 3 []; OpUpdateSubs 2 ["sync_update"]; OpAddEvent 3 "sync_update";
   OpSubscribeDoc 3 "a.rs"; OpSubscribeDoc 1 "a.rs"].

Lemma broadcast_reaches_exactly_subscribers_witness :
  let bc := bc_run three in
  let e := mkClient ["sync_update"] {["a.rs"]} 2 in
  let bc' := broadcast_except bc (update "a.rs") 1 in
  exists ch, channels bc !! tx e = Some ch /\ length (queue ch) <= 100 /\
  ((3%N <> 1%N /\ wants e (update "a.rs") /\ receiver_alive ch = true /\ length (queue ch) < 100 /\
    channels bc' !! tx e = Some (mkChan (queue ch ++ [update "a.rs"]) true) /\ clients bc' !! 3%N = Some e) \/
   (~ (3%N <> 1%N /\ wants e (update "a.rs") /\ receiver_alive ch = true /\ length (queue ch) < 100) /\
    channels bc' !! tx e = Some ch /\
    clients bc' !! 3%N = if bool_decide (3%N = 1%N) || receiver_alive ch || negb (should_deliver e (update "a.rs")) then Some e else None)).
Proof.
  intros bc e. apply (broadcast_reaches_exactly_subscribers three 1 (update "a.rs") 3 e). by vm_compute.
Defined.

(** Session 3 follows [a.rs] and is not sent [b.rs]; session 2, which follows
    nothing, is sent both. *)
Lemma document_scope_example :
  let bc := broadcast_except (broadcast_except (bc_run three) (update "a.rs") 1) (update "b.rs") 1 in
  (length ∘ queue <$> channels bc !! 0%N) = Some 0 /\ (length ∘ queue <$> channels bc !! 1%N) = Some 2 /\
  (length ∘ queue <$> channels bc !! 2%N) = Some 1.
Proof. vm_compute. by split_and!. Qed.

End BroadcastWitnesses.
