(* ===== verification/Collection.v ===== *)
(** * Collection: the manifest, roster and policies of a shared knowledge base

    Models [shared/sync/src/kb/collection_core.rs], [collection_roles.rs], the
    member keys and the schema migration of [collection_crypto.rs], and the
    policies of [kb/mod.rs]. A collection is the
    root map of its CRDT document on one replica; an operation is one
    transaction on it. The random epoch tokens are arguments. *)
From S2P Require Import Prelude Membership OpLog.

(** ** Policies *)

Inductive JoinPolicy := Restrictive | Invite | Permissive.
Inductive Transport := Hub | P2p.
Inductive TransportPolicy := PolicyHub | PolicyP2p | PolicyBoth.
#[export] Instance JoinPolicy_eq_dec : EqDecision JoinPolicy.
Proof. solve_decision. Defined.
#[export] Instance Transport_eq_dec : EqDecision Transport.
Proof. solve_decision. Defined.
#[export] Instance TransportPolicy_eq_dec : EqDecision TransportPolicy.
Proof. solve_decision. Defined.

Definition JoinPolicy_as_str (p : JoinPolicy) : string :=
  match p with Restrictive => "restrictive" | Invite => "invite" | Permissive => "permissive" end.
Definition JoinPolicy_parse (s : string) : option JoinPolicy :=
  if bool_decide (s = "restrictive") then Some Restrictive
  else if bool_decide (s = "invite") then Some Invite
  else if bool_decide (s = "permissive") then Some Permissive
  else None.
Definition TransportPolicy_as_str (p : TransportPolicy) : string :=
  match p with PolicyHub => "hub" | PolicyP2p => "p2p" | PolicyBoth => "both" end.
Definition TransportPolicy_parse (s : string) : option TransportPolicy :=
  if bool_decide (s = "hub") then Some PolicyHub
  else if bool_decide (s = "p2p") then Some PolicyP2p
  else if bool_decide (s = "both") then Some PolicyBoth
  else None.
Definition Encryption_as_str (e : Encryption) : string := match e with EncNone => "none" | E2e => "e2e" end.
Definition Encryption_parse (s : string) : option Encryption :=
  if bool_decide (s = "none") then Some EncNone else if bool_decide (s = "e2e") then Some E2e else None.

Definition allows (p : TransportPolicy) (t : Transport) : bool :=
  match p, t with
  | PolicyBoth, _ | PolicyHub, Hub | PolicyP2p, P2p => true
  | _, _ => false
  end.
Definition with_transport (p : TransportPolicy) (t : Transport) : TransportPolicy :=
  match p, t with
  | PolicyBoth, _ | PolicyHub, Hub | PolicyP2p, P2p => p
  | _, _ => PolicyBoth
  end.
Definition union_policy (p q : TransportPolicy) : TransportPolicy :=
  match p, q with
  | PolicyBoth, _ | _, PolicyBoth => PolicyBoth
  | PolicyHub, PolicyHub => PolicyHub
  | PolicyP2p, PolicyP2p => PolicyP2p
  | _, _ => PolicyBoth
  end.

(** ** The document *)

(** [yrs::Out]: a scalar by its text, an array of scalars, a map. *)
Inductive Out := OStr (s : string) | OArr (l : list string) | OMap (m : gmap string Out).
Notation Root := (gmap string Out).

Record Member := mkMember { fingerprint : string; mb_role : Role; label : string }.
Record PendingRequest := mkPending {
  pd_fingerprint : string; pd_label : string; requested_at : string; pd_pubkey : option string; pd_wrap : option string }.

Section Doc.
(** [show] prints a container, as the crate does where a scalar is expected. *)
Context (show : Out -> string) `{Crypto}.
Implicit Types (root : Root) (p principal : string).

Definition to_string (o : Out) : string := match o with OStr s => s | _ => show o end.
Definition get_map root (k : string) : option (gmap string Out) :=
  match root !! k with Some (OMap m) => Some m | _ => None end.
Definition get_scalar root (k : string) : option string := to_string <$> root !! k.

(** *** Readers *)

Definition coll_name root : string := default "" (get_scalar root "name").
Definition creator root : string := default "" (get_scalar root "creator").
Definition schema_version root : N := default 0%N (let? s := get_scalar root "schema" in parse_uint (2 ^ 32 - 1) s).
Definition owner root : string := default "" (get_scalar root "owner").
Definition owner_label root : string := creator root.

Definition entry_role (e : gmap string Out) : option Role := let? s := get_scalar e "role" in Role_parse s.
Definition entry_epoch (e : gmap string Out) : N := default 0%N (let? s := get_scalar e "epoch" in parse_uint u64_max s).
Definition as_map (o : Out) : option (gmap string Out) := match o with OMap m => Some m | _ => None end.
Definition member_entry root principal : option (gmap string Out) :=
  let? m := get_map root "member_roles" in let? o := m !! principal in as_map o.

Definition role_of root principal : option Role := let? e := member_entry root principal in entry_role e.
Definition epoch_of root principal : N := default 0%N (entry_epoch <$> member_entry root principal).
Definition member_of (kv : string * Out) : option Member :=
  let? e := as_map kv.2 in Some (mkMember kv.1 (default Viewer (entry_role e)) (default "" (get_scalar e "label"))).
Definition member_roles root : list Member :=
  match get_map root "member_roles" with Some m => omap member_of (map_to_list m) | None => [] end.
Definition join_policy root : JoinPolicy := default Invite (let? s := get_scalar root "join_policy" in JoinPolicy_parse s).
Definition transport_policy_raw root : option TransportPolicy :=
  let? s := get_scalar root "transport_policy" in TransportPolicy_parse s.
Definition transport_policy root : TransportPolicy := default PolicyHub (transport_policy_raw root).
Definition encryption root : Encryption := default EncNone (let? s := get_scalar root "encryption" in Encryption_parse s).

(** A hexadecimal 32-byte key of a record. *)
Definition get_key (e : gmap string Out) (k : string) : option string :=
  let? h := get_scalar e k in let? b := hex_decode h in array32 b.
Definition pending_of (kv : string * Out) : option PendingRequest :=
  let? e := as_map kv.2 in
  Some (mkPending kv.1 (default "" (get_scalar e "label")) (default "" (get_scalar e "requested_at"))
          (get_key e "pubkey") (get_key e "wrap_pubkey")).
Definition pending root : list PendingRequest :=
  match get_map root "pending" with Some m => omap pending_of (map_to_list m) | None => [] end.

(** *** Construction and nodes *)

Definition new_collection (name creator : string) : Root :=
  let root := <["name" := OStr name]> ∅ in
  let root := <["creator" := OStr creator]> root in
  let root := <["nodes" := OMap ∅]> root in
  let root := <["members" := OArr [creator]]> root in
  <["leases" := OMap ∅]> root.

Definition new_owned_with (name owner_principal owner_label : string) (policy : JoinPolicy) : Root :=
  let root := <["name" := OStr name]> ∅ in
  let root := <["schema" := OStr "2"]> root in
  let root := <["owner" := OStr owner_principal]> root in
  let root := <["creator" := OStr owner_label]> root in
  let root := <["nodes" := OMap ∅]> root in
  let root := <["join_policy" := OStr (JoinPolicy_as_str policy)]> root in
  let root := <["pending" := OMap ∅]> root in
  let root := <["leases" := OMap ∅]> root in
  let m := if bool_decide (owner_principal = "") then ∅
           else {[owner_principal := OMap (<["label" := OStr owner_label]> {["role" := OStr (Role_as_str Owner)]})]} in
  let root := <["member_roles" := OMap m]> root in
  <["members" := OArr [owner_label]]> root.
Definition new_owned (name owner_principal owner_label : string) : Root :=
  new_owned_with name owner_principal owner_label Invite.

(** A change of a nested map, when it is one. *)
Definition on_map root (k : string) (f : gmap string Out -> gmap string Out) : Root :=
  match get_map root k with Some m => <[k := OMap (f m)]> root | None => root end.
Definition add_node root (node_id title : string) : Root := on_map root "nodes" (insert node_id (OStr title)).
Definition remove_node root (node_id : string) : Root := on_map root "nodes" (delete node_id).
Definition list_nodes root : list (string * string) :=
  match get_map root "nodes" with Some m => map_to_list (to_string <$> m) | None => [] end.
Definition has_node root (node_id : string) : bool :=
  match get_map root "nodes" with Some m => bool_decide (is_Some (m !! node_id)) | None => false end.
Definition node_count root : nat := match get_map root "nodes" with Some m => size m | None => 0 end.
(** [false] when there was nothing to blank (the delta is empty). *)
Definition blank_node_titles_delta root : Root * bool :=
  match get_map root "nodes" with
  | None => (root, false)
  | Some m => if bool_decide (map_Forall (fun _ o => to_string o = "") m) then (root, false)
              else (<["nodes" := OMap ((fun o => if bool_decide (to_string o = "") then o else OStr "") <$> m)]> root, true)
  end.

(** The legacy array of labels. *)
Definition legacy_members root : list string := match root !! "members" with Some (OArr l) => l | _ => [] end.
Definition add_member root (user_name : string) : Root :=
  match root !! "members" with
  | Some (OArr l) => if bool_decide (user_name ∈ l) then root else <["members" := OArr (l ++ [user_name])]> root
  | _ => root
  end.
Fixpoint remove_first (x : string) (l : list string) : list string :=
  match l with [] => [] | y :: l' => if bool_decide (y = x) then l' else y :: remove_first x l' end.
Definition remove_member root (user_name : string) : Root :=
  match root !! "members" with
  | Some (OArr l) => if bool_decide (user_name ∈ l) then <["members" := OArr (remove_first user_name l)]> root else root
  | _ => root
  end.
Definition set_creator root (creator : string) : Root := add_member (<["creator" := OStr creator]> root) creator.

(** *** Roles and epochs *)

(** [member_roles_map], [retired_map]: get or create. *)
Definition map_or_empty root (k : string) : gmap string Out := default ∅ (get_map root k).
Definition is_retired root principal : bool :=
  match get_map root "retired" with Some m => bool_decide (is_Some (m !! principal)) | None => false end.

Definition next_epoch (token : N) (prev : option (Role * N)) (new_role : Role) (was_retired : bool) : N :=
  match prev with
  | Some (prev_role, prev_epoch) => if bool_decide (prev_role = new_role) then prev_epoch else token
  | None => if was_retired then token else 0
  end.
Definition entry_role_epoch (m : gmap string Out) principal : option (Role * N) :=
  let? o := m !! principal in let? e := as_map o in let? r := entry_role e in Some (r, entry_epoch e).

(** The record of a member. *)
Definition grant (r : Role) (label : string) (epoch : N) : Out :=
  OMap (<["epoch" := OStr (to_dec epoch)]> (<["label" := OStr label]> {["role" := OStr (Role_as_str r)]})).

Definition if_absent root (k : string) (o : Out) : Root := if bool_decide (root !! k = None) then <[k := o]> root else root.
Definition set_owner (token : N) root principal (label : string) : Root :=
  let root := <["owner" := OStr principal]> root in
  let root := <["creator" := OStr label]> root in
  let root := if_absent root "schema" (OStr "2") in
  let root := if_absent root "join_policy" (OStr (JoinPolicy_as_str Invite)) in
  let root := if_absent root "pending" (OMap ∅) in
  let m := map_or_empty root "member_roles" in
  let epoch := next_epoch token (entry_role_epoch m principal) Owner false in
  <["member_roles" := OMap (<[principal := grant Owner label epoch]> m)]> root.

(** The common end of [upsert_member] and [approve]. *)
Definition admit_member (token : N) root principal (label : string) (r : Role) : Root :=
  let was_retired := is_retired root principal in
  let m := map_or_empty root "member_roles" in
  let epoch := next_epoch token (entry_role_epoch m principal) r was_retired in
  let root := <["member_roles" := OMap (<[principal := grant r label epoch]> m)]> root in
  if was_retired then <["retired" := OMap (delete principal (map_or_empty root "retired"))]> root else root.
Definition upsert_member (token : N) root principal (label : string) (r : Role) : Root :=
  admit_member token root principal label r.

Definition set_role (token : N) root principal (r : Role) : Root :=
  match member_entry root principal with
  | Some e =>
      let prev := let? pr := entry_role e in Some (pr, entry_epoch e) in
      let epoch := next_epoch token prev r false in
      let e := <["epoch" := OStr (to_dec epoch)]> (<["role" := OStr (Role_as_str r)]> e) in
      on_map root "member_roles" (insert principal (OMap e))
  | None => root
  end.

Definition remove_principal root principal : Root :=
  match get_map root "member_roles" with
  | Some m =>
      let prev := snd <$> entry_role_epoch m principal in
      let root := <["member_roles" := OMap (delete principal m)]> root in
      match prev with
      | Some e => <["retired" := OMap (<[principal := OStr (to_dec e)]> (map_or_empty root "retired"))]> root
      | None => root
      end
  | None => root
  end.

Definition set_join_policy root (policy : JoinPolicy) : Root := <["join_policy" := OStr (JoinPolicy_as_str policy)]> root.
Definition set_transport_policy root (policy : TransportPolicy) : Root :=
  <["transport_policy" := OStr (TransportPolicy_as_str policy)]> root.
Definition set_encryption root (mode : Encryption) : Root := <["encryption" := OStr (Encryption_as_str mode)]> root.

(** *** Pending requests *)

Definition insert_key (e : gmap string Out) (k : string) (key : option string) : gmap string Out :=
  match key with Some b => <[k := OStr (hex_encode b)]> e | None => e end.
Definition add_pending root principal (label requested_at : string) (pubkey wrap_pubkey : option string) : Root :=
  let req := <["requested_at" := OStr requested_at]> {["label" := OStr label]} in
  let req := insert_key (insert_key req "pubkey" pubkey) "wrap_pubkey" wrap_pubkey in
  <["pending" := OMap (<[principal := OMap req]> (map_or_empty root "pending"))]> root.
Definition remove_pending root principal : Root := on_map root "pending" (delete principal).
Definition approve (token : N) root principal (r : Role) : Root :=
  let label := default "" (let? m := get_map root "pending" in let? o := m !! principal in
                           let? req := as_map o in get_scalar req "label") in
  admit_member token (remove_pending root principal) principal label r.

(** *** Member keys and migration *)

Definition store_key (k : string) root principal (key : string) : Root :=
  match member_entry root principal with
  | Some e => on_map root "member_roles" (insert principal (OMap (<[k := OStr (hex_encode key)]> e)))
  | None => root
  end.
Definition store_member_pubkey root principal key : Root := store_key "pubkey" root principal key.
Definition store_member_wrap_pubkey root principal key : Root := store_key "wrap_pubkey" root principal key.
Definition member_pubkey root principal : option string := let? e := member_entry root principal in get_key e "pubkey".
Definition member_wrap_pubkey root principal : option string := let? e := member_entry root principal in get_key e "wrap_pubkey".

Definition migrate_members (resolve : string -> string * string) (owner_principal : string) (legacy : list string)
    (m : gmap string Out) : gmap string Out :=
  foldl (fun m lbl =>
    let '(principal, disp) := resolve lbl in
    if bool_decide (principal = owner_principal) then m
    else <[principal := OMap (<["label" := OStr disp]> {["role" := OStr (Role_as_str Editor)]})]> m) m legacy.
Definition migrate_if_legacy root (resolver : string -> option (string * string)) : option Root :=
  if (2 <=? schema_version root)%N then None
  else
    let resolve lbl := default ("legacy:" +:+ lbl, lbl) (resolver lbl) in
    let '(owner_principal, owner_label) := resolve (creator root) in
    let legacy := legacy_members root in
    let root := <["schema" := OStr "2"]> root in
    let root := <["owner" := OStr owner_principal]> root in
    let root := if_absent root "join_policy" (OStr (JoinPolicy_as_str Invite)) in
    let root := if_absent root "pending" (OMap ∅) in
    let m := <[owner_principal := OMap (<["label" := OStr owner_label]> {["role" := OStr (Role_as_str Owner)]})]>
               (map_or_empty root "member_roles") in
    Some (<["member_roles" := OMap (migrate_members resolve owner_principal legacy m)]> root).

(** ** Operation sequences *)

(** The mutations of a collection; an operation that issues an epoch carries the
    token it draws. *)
Inductive CollOp :=
  | CAddNode (node_id title : string)
  | CRemoveNode (node_id : string)
  | CBlankTitles
  | CAddMember (user_name : string)
  | CRemoveMember (user_name : string)
  | CSetCreator (c : string)
  | CSetOwner (token : N) (p l : string)
  | CUpsert (token : N) (p l : string) (r : Role)
  | CSetRole (token : N) (p : string) (r : Role)
  | CRemovePrincipal (p : string)
  | CJoinPolicy (j : JoinPolicy)
  | CTransportPolicy (t : TransportPolicy)
  | CEncryption (e : Encryption)
  | CAddPending (p l at_ : string) (pk wk : option string)
  | CRemovePending (p : string)
  | CApprove (token : N) (p : string) (r : Role)
  | CStorePubkey (p key : string)
  | CStoreWrapPubkey (p key : string).
Definition coll_exec root (o : CollOp) : Root :=
  match o with
  | CAddNode n t => add_node root n t
  | CRemoveNode n => remove_node root n
  | CBlankTitles => (blank_node_titles_delta root).1
  | CAddMember u => add_member root u
  | CRemoveMember u => remove_member root u
  | CSetCreator c => set_creator root c
  | CSetOwner t p l => set_owner t root p l
  | CUpsert t p l r => upsert_member t root p l r
  | CSetRole t p r => set_role t root p r
  | CRemovePrincipal p => remove_principal root p
  | CJoinPolicy j => set_join_policy root j
  | CTransportPolicy t => set_transport_policy root t
  | CEncryption e => set_encryption root e
  | CAddPending p l a pk wk => add_pending root p l a pk wk
  | CRemovePending p => remove_pending root p
  | CApprove t p r => approve t root p r
  | CStorePubkey p k => store_member_pubkey root p k
  | CStoreWrapPubkey p k => store_member_wrap_pubkey root p k
  end.
Definition token_of (o : CollOp) : option N :=
  match o with CSetOwner t _ _ | CUpsert t _ _ _ | CSetRole t _ _ | CApprove t _ _ => Some t | _ => None end.
Definition coll_run root (ops : list CollOp) : Root := foldl coll_exec root ops.

(** ** Types *)

(** What each key of the root may hold. *)
Definition entry_ok (o : Out) : Prop :=
  exists e r l, o = OMap e /\ e !! "role" = Some (OStr (Role_as_str r)) /\ e !! "label" = Some (OStr l) /\
    (e !! "epoch" = None \/ exists n, (n <= u64_max)%N /\ e !! "epoch" = Some (OStr (to_dec n))).
Definition request_ok (o : Out) : Prop :=
  exists e l a, o = OMap e /\ e !! "label" = Some (OStr l) /\ e !! "requested_at" = Some (OStr a).
Definition stone_ok (o : Out) : Prop := exists n, (n <= u64_max)%N /\ o = OStr (to_dec n).
Definition text_ok (o : Out) : Prop := exists s, o = OStr s.
Definition map_of (P : Out -> Prop) (o : Out) : Prop := exists m, o = OMap m /\ forall k x, m !! k = Some x -> P x.

Definition slot_ok (k : string) : Out -> Prop :=
  if bool_decide (k = "member_roles") then map_of entry_ok
  else if bool_decide (k = "pending") then map_of request_ok
  else if bool_decide (k = "retired") then map_of stone_ok
  else if bool_decide (k = "nodes") then map_of text_ok
  else if bool_decide (k = "members") then fun o => exists l, o = OArr l
  else if bool_decide (k = "schema") then fun o => o = OStr "2"
  else if bool_decide (k = "join_policy") then fun o => exists j, o = OStr (JoinPolicy_as_str j)
  else if bool_decide (k = "transport_policy") then fun o => exists t, o = OStr (TransportPolicy_as_str t)
  else if bool_decide (k = "encryption") then fun o => exists e, o = OStr (Encryption_as_str e)
  else if bool_decide (k = "leases") then fun _ => True
  else text_ok.
Definition required : list string := ["schema"; "owner"; "creator"; "join_policy"; "pending"; "nodes"; "member_roles"; "members"].
Definition well_typed root : Prop :=
  (forall k o, root !! k = Some o -> slot_ok k o) /\ forall k, k ∈ required -> is_Some (root !! k).

Lemma wt_insert root k o : slot_ok k o -> well_typed root -> well_typed (<[k := o]> root).
Proof.
  intros Ho [Hs Hr]. split.
  - intros k' o'. rewrite lookup_insert_Some. intros [[<- <-]|[_ ?]]; auto.
  - intros k' Hk. rewrite lookup_insert_is_Some. destruct (decide (k = k')); auto.
Qed.
Lemma wt_if_absent root k o : slot_ok k o -> well_typed root -> well_typed (if_absent root k o).
Proof. intros. unfold if_absent. case_bool_decide; [by apply wt_insert|done]. Qed.

(** A nested map of a given element type. *)
Lemma wt_get_map root k P : slot_ok k = map_of P -> well_typed root ->
  forall m, get_map root k = Some m -> forall x o, m !! x = Some o -> P o.
Proof.
  intros Hk [Hs _] m Hm. unfold get_map in Hm. destruct (root !! k) as [o|] eqn:E; [|done].
  specialize (Hs k o E). rewrite Hk in Hs. destruct Hs as (m' & -> & Hm'). by injection Hm as <-.
Qed.
Lemma wt_map_or_empty root k P : slot_ok k = map_of P -> well_typed root ->
  forall x o, map_or_empty root k !! x = Some o -> P o.
Proof.
  intros Hk Hw x o. unfold map_or_empty. destruct (get_map root k) as [m|] eqn:E; cbn; [|by rewrite lookup_empty].
  by eapply wt_get_map.
Qed.
Lemma wt_on_map root k P f : slot_ok k = map_of P -> well_typed root ->
  (forall m, (forall x o, m !! x = Some o -> P o) -> forall x o, f m !! x = Some o -> P o) -> well_typed (on_map root k f).
Proof.
  intros Hk Hw Hf. unfold on_map. destruct (get_map root k) as [m|] eqn:E; [|done]. apply wt_insert; [|done].
  rewrite Hk. exists (f m). split; [done|]. apply Hf. by eapply wt_get_map.
Qed.
Lemma insert_all {P : Out -> Prop} (m : gmap string Out) k o :
  P o -> (forall x o, m !! x = Some o -> P o) -> forall x o', <[k := o]> m !! x = Some o' -> P o'.
Proof. intros Ho Hm x o'. rewrite lookup_insert_Some. intros [[_ <-]|[_ ?]]; eauto. Qed.
Lemma delete_all {P : Out -> Prop} (m : gmap string Out) k :
  (forall x o, m !! x = Some o -> P o) -> forall x o', delete k m !! x = Some o' -> P o'.
Proof. intros Hm x o'. rewrite lookup_delete_Some. intros [_ ?]; eauto. Qed.

Lemma grant_ok r l n : (n <= u64_max)%N -> entry_ok (grant r l n).
Proof. intros Hn. eexists _, r, l. split; [done|]. split; [done|]. split; [done|]. right. by exists n. Qed.

Lemma entry_epoch_bound e : (entry_epoch e <= u64_max)%N.
Proof.
  unfold entry_epoch. destruct (get_scalar e "epoch") as [s|]; cbn; [|unfold u64_max; lia].
  destruct (parse_uint u64_max s) as [n|] eqn:E; cbn; [|unfold u64_max; lia]. by eapply parse_uint_le.
Qed.
Lemma next_epoch_bound t m p r b : (t <= u64_max)%N -> (next_epoch t (entry_role_epoch m p) r b <= u64_max)%N.
Proof.
  intros Ht. unfold next_epoch, entry_role_epoch.
  destruct (m !! p) as [o|]; [|by destruct b; [|unfold u64_max; lia]].
  destruct (as_map o) as [e|]; [|by destruct b; [|unfold u64_max; lia]].
  destruct (entry_role e); [|by destruct b; [|unfold u64_max; lia]].
  case_bool_decide; [apply entry_epoch_bound|done].
Qed.

Lemma wt_roster root m : well_typed root -> (forall x o, m !! x = Some o -> entry_ok o) ->
  well_typed (<["member_roles" := OMap m]> root).
Proof. intros Hw Hm. apply wt_insert; [by exists m|done]. Qed.

Lemma wt_admit t root p l r : (t <= u64_max)%N -> well_typed root -> well_typed (admit_member t root p l r).
Proof.
  intros Ht Hw. unfold admit_member. cbv zeta. set (e := next_epoch _ _ _ _).
  assert (Hr : well_typed (<["member_roles" := OMap (<[p := grant r l e]> (map_or_empty root "member_roles"))]> root)).
  { apply wt_roster; [done|]. apply insert_all; [by apply grant_ok, next_epoch_bound|]. by eapply wt_map_or_empty. }
  case_match; [|done]. apply wt_insert; [|done]. eexists. split; [done|]. apply delete_all. by eapply wt_map_or_empty.
Qed.

Lemma wt_remove_pending root p : well_typed root -> well_typed (remove_pending root p).
Proof. intros Hw. eapply (wt_on_map root "pending" request_ok); [done|done|]. intros m Hm. by apply delete_all. Qed.

(** A change of some fields of a member's record. *)
Lemma wt_entry root p e f : well_typed root -> member_entry root p = Some e ->
  (entry_ok (OMap e) -> entry_ok (OMap (f e))) -> well_typed (on_map root "member_roles" (insert p (OMap (f e)))).
Proof.
  intros Hw He Hf. eapply (wt_on_map root "member_roles" entry_ok); [done|done|]. intros m Hm. apply insert_all; [|done].
  apply Hf. unfold member_entry in He. destruct (get_map root "member_roles") as [m'|] eqn:E; [|done].
  destruct (m' !! p) as [o|] eqn:Eo; [|done]. assert (o = OMap e) as -> by (destruct o; cbn in He; congruence).
  by eapply (wt_get_map root "member_roles" entry_ok).
Qed.
Lemma entry_key_ok e k x : k <> "role" -> k <> "label" -> k <> "epoch" ->
  entry_ok (OMap e) -> entry_ok (OMap (<[k := x]> e)).
Proof.
  intros H1 H2 H3 (e' & r & l & [= <-] & Hr & Hl & Hp). exists (<[k := x]> e), r, l.
  rewrite !lookup_insert_ne by done. done.
Qed.

Lemma role_parse_as_str r : Role_parse (Role_as_str r) = Some r.
Proof. by destruct r. Qed.
Lemma wt_set_role t root p r : (t <= u64_max)%N -> well_typed root -> well_typed (set_role t root p r).
Proof.
  intros Ht Hw. unfold set_role. destruct (member_entry root p) as [e|] eqn:Ee; [|done]. cbv zeta.
  set (n := next_epoch _ _ _ _). assert (Hn : (n <= u64_max)%N).
  { unfold n, next_epoch. destruct (entry_role e); [|unfold u64_max; lia]. case_bool_decide; [apply entry_epoch_bound|done]. }
  eapply (wt_entry root p e (fun e => <["epoch" := _]> (<["role" := _]> e))); [done|done|].
  intros (e' & r' & l & [= <-] & Hr & Hl & Hp). eexists _, r, l. split; [done|].
  split; [by rewrite lookup_insert_ne, lookup_insert_eq|].
  split; [by rewrite !lookup_insert_ne|]. right. exists n. by rewrite lookup_insert_eq.
Qed.

Lemma wt_add_member root u : well_typed root -> well_typed (add_member root u).
Proof. intros Hw. unfold add_member. repeat case_match; try done. apply wt_insert; [by eexists|done]. Qed.

Lemma wt_exec root o : (forall t, token_of o = Some t -> (t <= u64_max)%N) -> well_typed root -> well_typed (coll_exec root o).
Proof.
  intros Ht Hw. destruct o; cbn [coll_exec token_of] in *.
  - eapply (wt_on_map root "nodes" text_ok); [done|done|]. intros m Hm. apply insert_all; [by eexists|done].
  - eapply (wt_on_map root "nodes" text_ok); [done|done|]. intros m Hm. by apply delete_all.
  - unfold blank_node_titles_delta. destruct (get_map root "nodes") as [m|] eqn:E; [|done]. case_bool_decide; [done|].
    apply wt_insert; [|done]. eexists. split; [done|]. intros k x. rewrite lookup_fmap_Some. intros (y & <- & Hy).
    case_bool_decide; [|by eexists]. by eapply (wt_get_map root "nodes" text_ok).
  - by apply wt_add_member.
  - unfold remove_member. repeat case_match; try done. apply wt_insert; [by eexists|done].
  - apply wt_add_member, wt_insert; [by eexists|done].
  - unfold set_owner. cbv zeta. set (root' := if_absent _ "pending" _).
    assert (Hw' : well_typed root').
    { apply wt_if_absent; [exists ∅; split; [done|]; intros k x; by rewrite lookup_empty|].
      apply wt_if_absent; [by exists Invite|]. apply wt_if_absent; [done|]. by repeat (apply wt_insert; [by eexists|]). }
    apply wt_roster; [done|]. apply insert_all; [by apply grant_ok, next_epoch_bound, Ht|]. by eapply wt_map_or_empty.
  - apply wt_admit; auto.
  - apply wt_set_role; auto.
  - unfold remove_principal. destruct (get_map root "member_roles") as [m|] eqn:E; [|done]. cbv zeta.
    assert (Hr : well_typed (<["member_roles" := OMap (delete p m)]> root)).
    { apply wt_roster; [done|]. apply delete_all. by eapply (wt_get_map root "member_roles" entry_ok). }
    destruct (snd <$> entry_role_epoch m p) as [n|] eqn:En; [|done]. apply wt_insert; [|done].
    eexists. split; [done|]. apply insert_all; [|by eapply wt_map_or_empty]. exists n. split; [|done].
    unfold entry_role_epoch in En. destruct (m !! p) as [o|]; [|done]. destruct (as_map o) as [e|]; [|done].
    destruct (entry_role e); [|done]. injection En as <-. apply entry_epoch_bound.
  - apply wt_insert; [by eexists|done].
  - apply wt_insert; [by eexists|done].
  - apply wt_insert; [by eexists|done].
  - apply wt_insert; [|done]. eexists. split; [done|]. apply insert_all; [|by eapply wt_map_or_empty].
    eexists _, l, at_. split; [done|]. by destruct pk, wk.
  - by apply wt_remove_pending.
  - apply wt_admit; [auto|]. by apply wt_remove_pending.
  - unfold store_member_pubkey, store_key. destruct (member_entry root p) as [e|] eqn:Ee; [|done].
    by eapply (wt_entry root p e (insert "pubkey" _)), entry_key_ok.
  - unfold store_member_wrap_pubkey, store_key. destruct (member_entry root p) as [e|] eqn:Ee; [|done].
    by eapply (wt_entry root p e (insert "wrap_pubkey" _)), entry_key_ok.
Qed.

Lemma slots_insert root k o : slot_ok k o -> (forall k o, root !! k = Some o -> slot_ok k o) ->
  forall k' o', <[k := o]> root !! k' = Some o' -> slot_ok k' o'.
Proof. intros Ho Hs k' o'. rewrite lookup_insert_Some. intros [[<- <-]|[_ ?]]; auto. Qed.

Lemma wt_new name o l pol : well_typed (new_owned_with name o l pol).
Proof.
  assert (He : forall P, map_of P (OMap ∅)) by (intros P; exists ∅; split; [done|]; intros k x; by rewrite lookup_empty).
  split.
  - unfold new_owned_with. cbv zeta.
    apply slots_insert; [by eexists|]. apply slots_insert.
    { case_bool_decide; [apply He|]. eexists. split; [done|]. intros k x [<- <-]%lookup_singleton_Some.
      eexists _, Owner, l. split; [done|]. split; [done|]. split; [done|]. by left. }
    apply slots_insert; [done|]. apply slots_insert; [apply He|]. apply slots_insert; [by exists pol|].
    apply slots_insert; [apply He|]. do 2 (apply slots_insert; [by eexists|]). apply slots_insert; [done|].
    apply slots_insert; [by eexists|]. intros k x. by rewrite lookup_empty.
  - intros k Hk. unfold required in Hk. repeat (apply elem_of_cons in Hk as [->|Hk]; [by eexists|]). by apply not_elem_of_nil in Hk.
Qed.

Lemma wt_run root ops : Forall (fun o => forall t, token_of o = Some t -> (t <= u64_max)%N) ops ->
  well_typed root -> well_typed (coll_run root ops).
Proof.
  intros Ht Hw. unfold coll_run. apply foldl_inv; [done|]. intros r o Ho. apply wt_exec. by apply (proj1 (Forall_forall _ _) Ht).
Qed.

Lemma wt_entry_role root p e : well_typed root -> member_entry root p = Some e ->
  exists r, entry_role e = Some r.
Proof.
  intros Hw He. unfold member_entry in He. destruct (get_map root "member_roles") as [m|] eqn:E; [|done].
  destruct (m !! p) as [o|] eqn:Eo; [|done].
  destruct (wt_get_map root "member_roles" entry_ok eq_refl Hw m E p o Eo) as (e' & r & l & -> & Hr & _).
  injection He as <-. exists r. unfold entry_role, get_scalar. rewrite Hr. cbn. apply role_parse_as_str.
Qed.


(** ** Epochs *)

(** The role and epoch a principal holds. *)
Definition held root p : option (Role * N) := entry_role_epoch (map_or_empty root "member_roles") p.

Lemma get_map_insert_eq root k m : get_map (<[k := OMap m]> root) k = Some m.
Proof. unfold get_map. by rewrite lookup_insert_eq. Qed.
Lemma get_map_insert_ne root k k' o : k <> k' -> get_map (<[k := o]> root) k' = get_map root k'.
Proof. intros. unfold get_map. by rewrite lookup_insert_ne. Qed.

(** A change of another key keeps roster and tombstones. *)
Definition same_roster root root' : Prop :=
  get_map root' "member_roles" = get_map root "member_roles" /\ get_map root' "retired" = get_map root "retired".
Lemma same_insert root k o : k <> "member_roles" -> k <> "retired" -> same_roster root (<[k := o]> root).
Proof. intros. split; by apply get_map_insert_ne. Qed.
Lemma same_on_map root k f : k <> "member_roles" -> k <> "retired" -> same_roster root (on_map root k f).
Proof. intros. unfold on_map. case_match; [by apply same_insert|done]. Qed.
Lemma same_if_absent root k o : k <> "member_roles" -> k <> "retired" -> same_roster root (if_absent root k o).
Proof. intros. unfold if_absent. case_bool_decide; [by apply same_insert|done]. Qed.
Lemma same_trans root1 root2 root3 : same_roster root1 root2 -> same_roster root2 root3 -> same_roster root1 root3.
Proof. intros [??] [??]. split; congruence. Qed.
Lemma same_held root root' p : same_roster root root' -> held root' p = held root p /\ is_retired root' p = is_retired root p.
Proof. intros [E1 E2]. unfold held, map_or_empty, is_retired. by rewrite E1, E2. Qed.

(** What one operation does to one principal. *)
Inductive fate (token : option N) (g : option (Role * N)) (ret : bool) : option (Role * N) -> bool -> Prop :=
  | fate_kept ret' : (g = None -> ret = ret') -> fate token g ret g ret'
  | fate_removed : is_Some g -> fate token g ret None true
  | fate_token t r ret' : token = Some t -> fate token g ret (Some (r, t)) ret'
  | fate_fresh r ret' : g = None -> ret = false -> fate token g ret (Some (r, 0%N)) ret'.

Lemma epoch_written e n : (n <= u64_max)%N -> entry_epoch (<["epoch" := OStr (to_dec n)]> e) = n.
Proof.
  intros Hn. unfold entry_epoch, get_scalar. rewrite lookup_insert_eq. cbn [fmap option_fmap option_map to_string].
  by rewrite parse_to_dec.
Qed.

(** The role and epoch of a granted record. *)
Lemma held_grant m p r l n : (n <= u64_max)%N -> entry_role_epoch (<[p := grant r l n]> m) p = Some (r, n).
Proof.
  intros Hn. unfold entry_role_epoch. rewrite lookup_insert_eq. unfold grant. cbn [as_map].
  unfold entry_role, get_scalar. rewrite lookup_insert_ne, lookup_insert_ne, lookup_singleton_eq by done.
  cbn [fmap option_fmap option_map to_string]. by rewrite role_parse_as_str, epoch_written.
Qed.
Lemma held_other m p q o : p <> q -> entry_role_epoch (<[p := o]> m) q = entry_role_epoch m q.
Proof. intros. unfold entry_role_epoch. by rewrite lookup_insert_ne. Qed.

Lemma fate_next t g r l ret b ret' m p : g = entry_role_epoch m p -> (t <= u64_max)%N ->
  (b = false -> ret = false \/ is_Some g) ->
  fate (Some t) g ret (entry_role_epoch (<[p := grant r l (next_epoch t g r b)]> m) p) ret'.
Proof.
  intros Hg Ht Hb. rewrite held_grant by (subst g; by apply next_epoch_bound). unfold next_epoch.
  destruct g as [[r0 e0]|]; cbn.
  - case_bool_decide; [subst r0; by apply fate_kept|by apply (fate_token _ _ _ t)].
  - destruct b; [by apply (fate_token _ _ _ t)|]. apply fate_fresh; [done|]. destruct (Hb eq_refl) as [?|[? ?]]; done.
Qed.

Lemma fate_same token root root' p : same_roster root root' ->
  fate token (held root p) (is_retired root p) (held root' p) (is_retired root' p).
Proof. intros Hs. destruct (same_held root root' p Hs) as [-> ->]. by apply fate_kept. Qed.

(** The roster is replaced; the tombstones stay. *)
Lemma held_roster root m p : held (<["member_roles" := OMap m]> root) p = entry_role_epoch m p.
Proof. unfold held, map_or_empty. by rewrite get_map_insert_eq. Qed.
Lemma retired_roster root o p : is_retired (<["member_roles" := o]> root) p = is_retired root p.
Proof. unfold is_retired. by rewrite get_map_insert_ne. Qed.
Lemma held_stones root o p : held (<["retired" := o]> root) p = held root p.
Proof. unfold held, map_or_empty. by rewrite get_map_insert_ne. Qed.
Lemma retired_stones root m p : is_retired (<["retired" := OMap m]> root) p = bool_decide (is_Some (m !! p)).
Proof. unfold is_retired. by rewrite get_map_insert_eq. Qed.
Lemma retired_alt root p : is_retired root p = bool_decide (is_Some (map_or_empty root "retired" !! p)).
Proof.
  unfold is_retired, map_or_empty. destruct (get_map root "retired"); cbn; [done|]. rewrite lookup_empty.
  by rewrite bool_decide_eq_false_2 by (by intros [? ?]).
Qed.

Lemma fate_admit t root q l r p : (t <= u64_max)%N ->
  fate (Some t) (held root p) (is_retired root p)
    (held (admit_member t root q l r) p) (is_retired (admit_member t root q l r) p).
Proof.
  intros Ht. unfold admit_member. cbv zeta. set (m := map_or_empty root "member_roles").
  set (root' := <["member_roles" := _]> root). set (root'' := if is_retired root q then _ else root').
  assert (Hh : held root'' p = held root' p) by (unfold root''; case_match; [apply held_stones|done]).
  assert (Hr : p <> q -> is_retired root'' p = is_retired root p).
  { intros Hne. unfold root''. destruct (is_retired root q) eqn:Eq; [|apply retired_roster].
    rewrite retired_stones, lookup_delete_ne, <- retired_alt by congruence. apply retired_roster. }
  rewrite Hh. unfold root' at 1. rewrite held_roster. destruct (decide (p = q)) as [->|Hne].
  - apply fate_next; [done|done|]. intros Hf. by left.
  - rewrite held_other, Hr by congruence. by apply fate_kept.
Qed.

Lemma member_entry_held root p e : member_entry root p = Some e ->
  held root p = (let? r := entry_role e in Some (r, entry_epoch e)) /\ exists m, get_map root "member_roles" = Some m.
Proof.
  unfold member_entry, held, map_or_empty, entry_role_epoch. destruct (get_map root "member_roles") as [m|]; [|done].
  cbn. destruct (m !! p) as [o|]; [|done]. destruct (as_map o); [|done]. intros [= <-]. eauto.
Qed.

Lemma fate_set_role t root q r p : (t <= u64_max)%N -> well_typed root ->
  fate (Some t) (held root p) (is_retired root p) (held (set_role t root q r) p) (is_retired (set_role t root q r) p).
Proof.
  intros Ht Hw. unfold set_role. destruct (member_entry root q) as [e|] eqn:Ee; [|by apply fate_same].
  destruct (member_entry_held root q e Ee) as [Hq [m Hm]]. cbv zeta. rewrite <- Hq. unfold on_map. rewrite Hm.
  rewrite held_roster, retired_roster. destruct (wt_entry_role root q e Hw Ee) as [r0 Er].
  destruct (decide (p = q)) as [->|Hne].
  - rewrite Er in Hq. rewrite Hq. unfold entry_role_epoch. rewrite lookup_insert_eq. cbn [as_map].
    unfold entry_role at 1, get_scalar. rewrite lookup_insert_ne, lookup_insert_eq by done.
    cbn [fmap option_fmap option_map to_string]. rewrite role_parse_as_str. unfold next_epoch.
    case_bool_decide as Eb.
    + subst r0. rewrite epoch_written by apply entry_epoch_bound. by apply fate_kept.
    + rewrite epoch_written by done. by apply (fate_token _ _ _ t).
  - rewrite held_other by congruence. unfold held, map_or_empty. rewrite Hm. by apply fate_kept.
Qed.

Lemma fate_remove token root q p :
  fate token (held root p) (is_retired root p) (held (remove_principal root q) p) (is_retired (remove_principal root q) p).
Proof.
  unfold remove_principal. destruct (get_map root "member_roles") as [m|] eqn:Hm; [|by apply fate_same]. cbv zeta.
  assert (Hh : forall x, held root x = entry_role_epoch m x) by (intros x; unfold held, map_or_empty; by rewrite Hm).
  set (root' := <["member_roles" := _]> root). set (root'' := match snd <$> _ with Some e => _ | None => root' end).
  assert (H1 : held root'' p = entry_role_epoch (delete q m) p).
  { unfold root''. case_match; rewrite ?held_stones; apply held_roster. }
  rewrite H1. destruct (decide (p = q)) as [->|Hne].
  - assert (entry_role_epoch (delete q m) q = None) as -> by (unfold entry_role_epoch; by rewrite lookup_delete_eq).
    unfold root''. rewrite <- Hh. destruct (held root q) as [[r e]|]; cbn [fmap option_fmap option_map snd].
    + rewrite retired_stones, lookup_insert_eq, bool_decide_eq_true_2 by eauto. by apply fate_removed.
    + unfold root'. rewrite retired_roster. by apply fate_kept.
  - assert (entry_role_epoch (delete q m) p = held root p) as ->.
    { rewrite Hh. unfold entry_role_epoch. by rewrite lookup_delete_ne by congruence. }
    apply fate_kept. intros _. unfold root''. case_match; unfold root'; [|by rewrite retired_roster].
    rewrite retired_stones, lookup_insert_ne, <- retired_alt by congruence. by rewrite retired_roster.
Qed.

Lemma fate_store token k key root q p : k <> "role" -> k <> "epoch" ->
  fate token (held root p) (is_retired root p) (held (store_key k root q key) p) (is_retired (store_key k root q key) p).
Proof.
  intros Hk1 Hk2. unfold store_key. destruct (member_entry root q) as [e|] eqn:Ee; [|by apply fate_same].
  destruct (member_entry_held root q e Ee) as [Hq [m Hm]]. unfold on_map. rewrite Hm, held_roster, retired_roster.
  assert (entry_role_epoch (<[q := OMap (<[k := OStr (hex_encode key)]> e)]> m) p = held root p) as ->; [|by apply fate_kept].
  destruct (decide (p = q)) as [->|Hne].
  - rewrite Hq. unfold entry_role_epoch. rewrite lookup_insert_eq. cbn [as_map]. unfold entry_role, entry_epoch, get_scalar.
    by rewrite !lookup_insert_ne.
  - rewrite held_other by congruence. unfold held, map_or_empty. by rewrite Hm.
Qed.

(** A share by a principal that was removed before is left out: the owner is
    not removed from the roster. *)
Definition op_guard root (o : CollOp) : bool :=
  match o with CSetOwner _ p _ => negb (is_retired root p) | _ => true end.

Lemma exec_fate root o p : well_typed root -> (forall t, token_of o = Some t -> (t <= u64_max)%N) -> op_guard root o = true ->
  fate (token_of o) (held root p) (is_retired root p) (held (coll_exec root o) p) (is_retired (coll_exec root o) p).
Proof.
  intros Hw Ht Hg. destruct o; cbn [coll_exec token_of op_guard] in *.
  - by apply fate_same, same_on_map.
  - by apply fate_same, same_on_map.
  - apply fate_same. unfold blank_node_titles_delta. repeat case_match; try done. by apply same_insert.
  - apply fate_same. unfold add_member. repeat case_match; try done. by apply same_insert.
  - apply fate_same. unfold remove_member. repeat case_match; try done. by apply same_insert.
  - apply fate_same. unfold set_creator. apply same_trans with (<["creator" := OStr c]> root); [by apply same_insert|]. unfold add_member.
    repeat case_match; try done. by apply same_insert.
  - unfold set_owner. cbv zeta. set (root' := if_absent _ "pending" _).
    assert (Hs : same_roster root root').
    { do 3 (eapply same_trans; [|by apply same_if_absent]). apply same_trans with (<["owner" := OStr p0]> root);
        by apply same_insert. }
    clearbody root'. destruct (same_held root root' p Hs) as [<- <-]. rewrite held_roster, retired_roster.
    destruct (decide (p = p0)) as [->|Hne].
    + apply fate_next; [done|auto|]. intros _. left. destruct (same_held root root' p0 Hs) as [_ ->].
      by apply negb_true_iff in Hg.
    + rewrite held_other by congruence. by apply fate_kept.
  - apply fate_admit; auto.
  - apply fate_set_role; auto.
  - apply fate_remove.
  - by apply fate_same, same_insert.
  - by apply fate_same, same_insert.
  - by apply fate_same, same_insert.
  - by apply fate_same, same_insert.
  - by apply fate_same, same_on_map.
  - unfold approve. set (root' := remove_pending root p0). assert (Hs : same_roster root root') by by apply same_on_map.
    destruct (same_held root root' p Hs) as [<- <-]. apply fate_admit; auto.
  - by apply fate_store.
  - by apply fate_store.
Qed.

(** The states a run passes through. *)
Fixpoint history root (ops : list CollOp) : list Root :=
  root :: match ops with [] => [] | o :: ops' => history (coll_exec root o) ops' end.

Lemma history_lookup root ops k : k <= length ops -> history root ops !! k = Some (coll_run root (take k ops)).
Proof.
  revert root k. induction ops as [|o ops IH]; intros root [|k] Hk; cbn in *; [done|lia|done|]. apply IH. lia.
Qed.
Fixpoint guarded root (ops : list CollOp) : bool :=
  match ops with [] => true | o :: ops' => op_guard root o && guarded (coll_exec root o) ops' end.
Definition tokens (ops : list CollOp) : list N := omap token_of ops.

(** [used p e]: the principal held the epoch at some point. *)
Record epochs_ok root (ops : list CollOp) (used : string -> N -> Prop) : Prop := {
  eo_typed : well_typed root;
  eo_held : forall p r e, held root p = Some (r, e) -> used p e;
  eo_stone : forall p e, used p e -> held root p = None -> is_retired root p = true;
  eo_fresh : forall p t, t ∈ tokens ops -> ~ used p t;
  eo_tokens : NoDup (tokens ops) /\ Forall (fun t => 0 < t <= u64_max)%N (tokens ops);
  eo_guard : guarded root ops = true;
}.

Lemma epochs_step root o ops used : epochs_ok root (o :: ops) used ->
  let root' := coll_exec root o in
  (forall p, fate (token_of o) (held root p) (is_retired root p) (held root' p) (is_retired root' p)) /\
  (forall p t, token_of o = Some t -> ~ used p t) /\
  epochs_ok root' ops (fun p e => used p e \/ exists r, held root' p = Some (r, e)).
Proof.
  intros [Hw Hh Hs Hf [Hn Hb] Hg] root'. cbn [guarded] in Hg. apply andb_true_iff in Hg as [Hg Hg'].
  assert (Htok : forall t, token_of o = Some t -> t ∈ tokens (o :: ops)).
  { intros t Ht. apply list_elem_of_omap. exists o. split; [by left|done]. }
  assert (Hb' : forall t, token_of o = Some t -> (t <= u64_max)%N).
  { intros t Ht%Htok. apply (proj1 (Forall_forall _ _) Hb) in Ht. lia. }
  assert (Hfate : forall p, fate (token_of o) (held root p) (is_retired root p) (held root' p) (is_retired root' p)).
  { intros p. by apply exec_fate. }
  split_and!; [done|eauto|].
  assert (Hsub : forall t, t ∈ tokens ops -> t ∈ tokens (o :: ops)).
  { intros t. unfold tokens. cbn. destruct (token_of o); [by right|done]. }
  split; [by apply wt_exec| |..].
  - eauto.
  - intros p e Hu Hnone. specialize (Hfate p). rewrite Hnone in Hfate. inversion Hfate as [ret' Hk| | |]; subst; [|done].
    destruct Hu as [Hu|[r Hr]]; [|congruence]. rewrite <- Hk by done. by apply (Hs p e).
  - intros p t Ht [Hu|[r Hr]]; [by apply (Hf p t (Hsub t Ht))|]. specialize (Hfate p). rewrite Hr in Hfate.
    inversion Hfate as [ret' Hk| |t0 r0 ret' Et|r0 ret' E0 E1]; subst.
    + by apply (Hf p t (Hsub t Ht)), (Hh p r t).
    + unfold tokens in Hn. cbn in Hn. rewrite Et in Hn. by apply NoDup_cons in Hn as [? _].
    + apply Hsub, (proj1 (Forall_forall _ _) Hb) in Ht. lia.
  - unfold tokens in *. cbn in Hn, Hb. destruct (token_of o); [|done]. apply NoDup_cons in Hn as [_ ?].
    by apply Forall_cons in Hb as [_ ?].
  - done.
Qed.

(** An epoch once left is not held again. *)
Lemma left_epoch_stays ops : forall root used p e, epochs_ok root ops used -> used p e ->
  (forall r, held root p <> Some (r, e)) ->
  forall k c, history root ops !! k = Some c -> forall r, held c p <> Some (r, e).
Proof.
  induction ops as [|o ops IH]; intros root used p e Hok Hu Hne [|k] c; try (by intros [= <-]). cbn.
  destruct (epochs_step root o ops used Hok) as (Hfate & Hfr & Hok').
  apply (IH _ _ p e Hok'); [by left|]. intros r Hr. specialize (Hfate p). rewrite Hr in Hfate.
  inversion Hfate as [ret' Hk| |t0 r0 ret' Et|r0 ret' E0 E1]; subst.
  - by apply (Hne r).
  - by apply (Hfr p e Et).
  - pose proof (eo_stone _ _ _ Hok p 0%N Hu E0). congruence.
Qed.

Lemma held_throughout ops : forall root used p r e, epochs_ok root ops used -> held root p = Some (r, e) ->
  forall j b r', history root ops !! j = Some b -> held b p = Some (r', e) ->
  forall k c, k <= j -> history root ops !! k = Some c -> held c p = Some (r, e).
Proof.
  induction ops as [|o ops IH]; intros root used p r e Hok Hp j b r' Hj Hb k c Hk; destruct k as [|k]; try (by intros [= <-]).
  destruct j as [|j]; [lia|]. cbn in Hj |- *. destruct (epochs_step root o ops used Hok) as (Hfate & Hfr & Hok').
  destruct (decide (held (coll_exec root o) p = Some (r, e))) as [Hp'|Hp'].
  { apply (IH _ _ p r e Hok' Hp' j b r' Hj Hb k c). lia. }
  exfalso. apply (left_epoch_stays ops _ _ p e Hok') with (k := j) (c := b) (r := r'); [|..|done|done].
  - left. by apply (eo_held _ _ _ Hok p r e).
  - intros r0 Hr0. specialize (Hfate p). rewrite Hr0, Hp in Hfate.
    inversion Hfate as [ret' Hk'| |t0 r1 ret' Et|]; subst; try congruence. apply (Hfr p e Et).
    by apply (eo_held _ _ _ Hok p r e).
Qed.

Lemma held_between i : forall ops root used p r r' e j a b, epochs_ok root ops used ->
  history root ops !! i = Some a -> held a p = Some (r, e) -> history root ops !! j = Some b -> held b p = Some (r', e) ->
  forall k c, i <= k <= j -> history root ops !! k = Some c -> held c p = Some (r, e).
Proof.
  induction i as [|i IH]; intros ops root used p r r' e j a b Hok Hi Ha Hj Hb k c Hk Hc.
  { assert (a = root) as -> by (destruct ops; cbn in Hi; congruence).
    exact (held_throughout ops root used p r e Hok Ha j b r' Hj Hb k c (proj2 Hk) Hc). }
  destruct ops as [|o ops]; [done|]. destruct j as [|j], k as [|k]; try lia. cbn in Hi, Hj, Hc.
  destruct (epochs_step root o ops used Hok) as (_ & _ & Hok').
  apply (IH ops _ _ p r r' e j a b Hok' Hi Ha Hj Hb k c); [lia|done].
Qed.

(** An authorization epoch names one uninterrupted grant: with distinct
    non-zero random tokens, if a principal holds the same epoch at two moments
    of a collection's history, then it was a member with that same role and
    epoch at every moment between. A change of role, or a removal followed by
    a new admission, therefore always gives an epoch the principal never held
    before. *)
Theorem epoch_names_one_grant name o l pol ops i j p r r' e a b :
  NoDup (tokens ops) -> Forall (fun t => 0 < t <= u64_max)%N (tokens ops) ->
  guarded (new_owned_with name o l pol) ops = true ->
  history (new_owned_with name o l pol) ops !! i = Some a -> held a p = Some (r, e) ->
  history (new_owned_with name o l pol) ops !! j = Some b -> held b p = Some (r', e) ->
  forall k c, i <= k <= j -> history (new_owned_with name o l pol) ops !! k = Some c -> held c p = Some (r, e).
Proof.
  intros Hn Hb Hg. apply (held_between i ops _ (fun p e => exists r, held (new_owned_with name o l pol) p = Some (r, e))).
  assert (H0 : forall p r e, held (new_owned_with name o l pol) p = Some (r, e) -> e = 0%N).
  { intros q rq eq. unfold held, new_owned_with. cbv zeta. unfold map_or_empty. rewrite get_map_insert_ne by done.
    rewrite get_map_insert_eq. cbn [default from_option id]. unfold entry_role_epoch. case_bool_decide; [by rewrite lookup_empty|].
    destruct (decide (q = o)) as [->|?]; [|by rewrite lookup_singleton_ne].
    rewrite lookup_singleton_eq. cbn [as_map]. unfold entry_role, entry_epoch, get_scalar. by intros [= <- <-]. }
  split; [apply wt_new|eauto|..].
  - intros q x [rq Hq] Hnone. congruence.
  - intros q t Ht [rq Hq]. apply H0 in Hq. subst t. apply (proj1 (Forall_forall _ _) Hb) in Ht. lia.
  - done.
  - done.
Qed.

End Doc.

(** The transport policies form a join semilattice of exposures: widening by a
    transport is the join with its policy, and a join exposes exactly what one
    of its parts exposes. *)
Lemma transport_policy_lattice p q t :
  allows (union_policy p q) t = allows p t || allows q t /\
  union_policy p q = union_policy q p /\ union_policy p p = p /\
  with_transport p t = union_policy p (match t with Hub => PolicyHub | P2p => PolicyP2p end) /\
  TransportPolicy_parse (TransportPolicy_as_str p) = Some p.
Proof. by destruct p, q, t. Qed.

Module CollectionWitnesses.
#[local] Existing Instance Toy.toy.

Definition show_json (o : Out) : string := "{}".
(** A viewer is added, becomes an editor, is removed and added again. *)
Definition life : list CollOp :=
  [CAddPending "bob" "Bob" "t0" None (Some "k"); CApprove 5 "bob" Viewer; CAddNode "n1" "Title"; CSetRole 6 "bob" Editor;
   CRemovePrincipal "bob"; CUpsert 7 "bob" "Bob" Editor; CBlankTitles; CUpsert 8 "bob" "Bob" Editor].
Definition start : Root := new_owned "kb" "ann" "Ann".

(** Bob's role and epoch after each step. *)
Lemma epochs_example :
  map (fun root => held show_json root "bob") (history show_json start life) =
  [None; None; Some (Viewer, 0%N); Some (Viewer, 0%N); Some (Editor, 6%N); None; Some (Editor, 7%N); Some (Editor, 7%N);
   Some (Editor, 7%N)].
Proof. by vm_compute. Qed.


Lemma epoch_names_one_grant_witness :
  held show_json (coll_run show_json start (take 7 life)) "bob" = Some (Editor, 7%N).
Proof.
  refine (epoch_names_one_grant show_json "kb" "ann" "Ann" Invite life 6 8 "bob" Editor Editor 7
    (coll_run show_json start (take 6 life)) (coll_run show_json start life) _ _ _ _ _ _ _
    7 (coll_run show_json start (take 7 life)) _ _).
  - apply (bool_decide_unpack _). by vm_compute.
  - apply (bool_decide_unpack _). by vm_compute.
  - by vm_compute.
  - apply history_lookup. vm_compute; lia.
  - by vm_compute.
  - apply (history_lookup show_json start life 8). vm_compute; lia.
  - by vm_compute.
  - lia.
  - apply history_lookup. vm_compute; lia.
Defined.

(** A share by a removed principal resets its epoch to the one it first held. *)
Lemma share_by_removed_member_reuses_epoch :
  let root := coll_run show_json start [CUpsert 5 "bob" "Bob" Editor; CRemovePrincipal "bob"; CSetOwner 6 "bob" "Bob"] in
  held show_json root "bob" = Some (Owner, 0%N) /\ is_retired root "bob" = true.
Proof. by vm_compute. Qed.

(** Granting a role again replaces the member's record and loses the published
    wrap key; a role change in place keeps it. *)
Lemma upsert_forgets_wrap_key :
  let key := String.concat "" (replicate 32 "k") in
  let root := coll_run show_json start [CUpsert 5 "bob" "Bob" Viewer; CStoreWrapPubkey "bob" key] in
  member_wrap_pubkey show_json root "bob" = Some key /\
  member_wrap_pubkey show_json (coll_exec show_json root (CSetRole 6 "bob" Editor)) "bob" = Some key /\
  member_wrap_pubkey show_json (coll_exec show_json root (CUpsert 6 "bob" "Bob" Editor)) "bob" = None.
Proof. by vm_compute. Qed.

End CollectionWitnesses.
