(* ===== verification/Access.v ===== *)
(** * Access: who may do what to a knowledge base

    Models [daemon/src/collab_handler/access.rs] (the access decision, the
    member set, the gate for updates a member makes to its own identity) and
    [daemon/src/collab_handler/method_authz.rs] and [kb_id_guard.rs] (which
    method may reach which document). A loaded collection is its root map with
    the state vector of its document. *)
From S2P Require Import Prelude Membership OpLog DocAddress Storage DeriveCache Json Collection.

(** ** Methods and documents *)

Inductive Method :=
  | SyncStateVector | SyncUpdateM | SyncAwareness | SyncFullState | SyncDiff | SyncResync | SyncShare
  | DocsList | DocsContent | DocsStats | DocsMetadata | DocsSaveIntent | DocsSaveCommitted | DocsDelete | DebugStats
  | KbRegister | KbList | KbUnregister | KbShare | KbJoin | KbNodeFetch | KbNodeUpdate | KbCollectionOp | KbClaimLease
  | KbFetchArtifact | KbAddMember | KbRemoveMember | KbCollectionNodeAdd | KbCollectionNodeRemove | KbSetPolicy
  | KbBlockPrincipal | KbUnblockPrincipal | KbBlocklist | KbSetGovernance | KbRevoke | KbListPending | KbApproveMember
  | KbLeave | KbQueryCapabilities | KbQueryGet | KbQuerySearch | KbQueryGraph | KbQueryMyWrappedKey | KbQuerySelfToken.
#[export] Instance Method_eq_dec : EqDecision Method.
Proof. solve_decision. Defined.

(** [Method::parse], in the order of its arms. *)
Definition method_names : list (string * Method) :=
  [("sync/state_vector", SyncStateVector); ("sync/update", SyncUpdateM); ("sync/awareness", SyncAwareness);
   ("sync/full_state", SyncFullState); ("sync/diff", SyncDiff); ("sync/resync", SyncResync); ("sync/share", SyncShare);
   ("docs/list", DocsList); ("docs/content", DocsContent); ("docs/stats", DocsStats); ("docs/metadata", DocsMetadata);
   ("docs/save_intent", DocsSaveIntent); ("docs/save_committed", DocsSaveCommitted); ("docs/delete", DocsDelete);
   ("$/debug", DebugStats);
   ("kb/register", KbRegister); ("kb/list", KbList); ("kb/unregister", KbUnregister); ("kb/share", KbShare);
   ("kb/join", KbJoin); ("kb/node_fetch", KbNodeFetch); ("kb/node_update", KbNodeUpdate);
   ("kb/collection_op", KbCollectionOp); ("kb/claim_lease", KbClaimLease); ("kb/fetch_artifact", KbFetchArtifact);
   ("kb/add_member", KbAddMember); ("kb/remove_member", KbRemoveMember);
   ("kb/collection_node_add", KbCollectionNodeAdd); ("kb/collection_node_remove", KbCollectionNodeRemove);
   ("kb/set_policy", KbSetPolicy); ("kb/block_principal", KbBlockPrincipal);
   ("kb/unblock_principal", KbUnblockPrincipal); ("kb/blocklist", KbBlocklist); ("kb/set_governance", KbSetGovernance);
   ("kb/revoke", KbRevoke); ("kb/list_pending", KbListPending); ("kb/approve_member", KbApproveMember);
   ("kb/leave", KbLeave); ("kb/query.capabilities", KbQueryCapabilities); ("kb/query.get", KbQueryGet);
   ("kb/query.search", KbQuerySearch); ("kb/query.graph", KbQueryGraph);
   ("kb/query.my_wrapped_key", KbQueryMyWrappedKey); ("kb/query.self_token", KbQuerySelfToken)].
Definition method_parse (s : string) : option Method :=
  snd <$> List.find (fun kv => String.eqb kv.1 s) method_names.

Inductive DocScope := KbGated | SelfGatedNamedDoc | NonKbDocOnly | Enumerates.
#[export] Instance DocScope_eq_dec : EqDecision DocScope.
Proof. solve_decision. Defined.
Definition scope_of (m : Method) : DocScope :=
  match m with
  | SyncStateVector | SyncUpdateM | SyncAwareness | SyncFullState | SyncDiff | SyncResync | SyncShare => SelfGatedNamedDoc
  | DocsContent | DocsStats | DocsMetadata | DocsSaveIntent | DocsSaveCommitted | DocsDelete => NonKbDocOnly
  | DocsList | DebugStats => Enumerates
  | _ => KbGated
  end.

(** The address is one of a knowledge base. *)
Definition is_kb_doc (name : string) : bool :=
  match parse name with Some (KbNode _ _) | Some (KbCollection _) => true | _ => false end.
(** [true]: the request is refused. *)
Definition authorize_named_doc (m : Method) (params : Json) : bool :=
  if negb (bool_decide (scope_of m = NonKbDocOnly)) then false
  else match get_str params "doc" with
       | None => false
       | Some doc_name => is_kb_doc doc_name
       end.
Definition is_enumerable (doc_name : string) : bool := negb (is_kb_doc doc_name).
Definition refuse_unaddressable_kb_id (params : Json) : bool :=
  match get_str params "kb_id" with
  | None => false
  | Some kb_id => negb (kb_id_is_addressable kb_id)
  end.

(** ** Decisions *)

Inductive KbOp := Join | Read | Edit | Manage.
#[export] Instance KbOp_eq_dec : EqDecision KbOp.
Proof. solve_decision. Defined.
Inductive DenyReason := NotShared (t : Transport) | QueryOnlyMember | RoleMayNot (r : Role) (op : KbOp) | NotMember.
#[export] Instance DenyReason_eq_dec : EqDecision DenyReason.
Proof. solve_decision. Defined.
Inductive AccessDecision := Allow | AllowAutoJoin | Pending | Deny (why : DenyReason).
#[export] Instance AccessDecision_eq_dec : EqDecision AccessDecision.
Proof. solve_decision. Defined.

(** A decoded collection document. *)
Record Loaded := mkLoaded { l_root : Root; l_sv : string }.

Section Access.
Context `{Crypto} (show : Out -> string).
Implicit Types (st : KbState) (c : Loaded) (root : Root).

(** The op-log as its records of strings. *)
Definition oplog_of root : gmap string (gmap string string) :=
  match get_map root "membership_oplog" with
  | Some m => omap (fun o => (fun r : Root => to_string show <$> r) <$> as_map o) m
  | None => ∅
  end.

(** The derived members when the collection is anchored and has a log. *)
Definition anchored_members st c (now : N) (kb : string) : KbState * option DerivedMembership :=
  match kb_anchor st kb with
  | Some anchor =>
      if bool_decide (is_Some (oplog_head (oplog_of (l_root c))))
      then let '(st, dm) := derived_membership st kb (l_sv c) (oplog_of (l_root c)) anchor now in (st, Some dm)
      else (st, None)
  | None => (st, None)
  end.

(** The role and replication policy of the caller. *)
Definition caller_role st c (now : N) (kb principal : string) : KbState * (option Role * ReplicationPolicy) :=
  let '(st, dm) := anchored_members st c now kb in
  (st, match dm with
       | Some dm => match members dm !! principal with
                    | Some m => (Some (m_role m), m_replication m)
                    | None => (None, Full)
                    end
       | None => (role_of show (l_root c) principal, Full)
       end).

(** The decision once the role is known. *)
Definition decide_access root (role : option Role) (replication : ReplicationPolicy) (op : KbOp) (transport : Transport)
    : AccessDecision :=
  if negb (bool_decide (role = Some Owner)) && negb (allows (transport_policy show root) transport)
  then Deny (NotShared transport)
  else match role with
       | Some r =>
           if bool_decide (op = Join) && bool_decide (replication = QueryOnly) then Deny QueryOnlyMember
           else
             let allowed := match op with
                            | Join | Read => true
                            | Edit => includes r Editor
                            | Manage => includes r Owner
                            end in
             if allowed then Allow else Deny (RoleMayNot r op)
       | None =>
           match op with
           | Join => match join_policy show root with
                     | Permissive => AllowAutoJoin
                     | Invite => Pending
                     | Restrictive => Deny NotMember
                     end
           | _ => Deny NotMember
           end
       end.

(** [kb_access_with_coll]; [coll] is [None] when the collection does not load,
    and [None] of the result is that error. *)
Definition kb_access st (coll : option Loaded) (now : N) (kb : string) (principal : option string) (op : KbOp)
    (transport : Transport) : KbState * option AccessDecision :=
  match principal with
  | None => (st, Some Allow)
  | Some p =>
      match coll with
      | None => (st, None)
      | Some c => let '(st, (role, replication)) := caller_role st c now kb p in
                  (st, Some (decide_access (l_root c) role replication op transport))
      end
  end.

Definition current_member_set st c (now : N) (kb : string) : KbState * gset string :=
  let '(st, dm) := anchored_members st c now kb in
  (st, match dm with
       | Some dm => dom (members dm)
       | None => list_to_set (map fingerprint (member_roles show (l_root c)))
       end).

(** [kb_member_epoch]: the epoch the write fence expects. *)
Definition kb_member_epoch st c (now : N) (kb principal : string) : KbState * N :=
  let '(st, dm) := anchored_members st c now kb in
  (st, match dm with
       | Some dm => default 0%N (m_epoch <$> members dm !! principal)
       | None => epoch_of show (l_root c) principal
       end).

(** ** The self-service gate *)

Definition roster_of root : gmap string (Role * string) :=
  list_to_map (map (fun m => (fingerprint m, (mb_role m, label m))) (member_roles show root)).

Inductive GateError :=
  | NoPrincipal | NotFound | NotApplied | TouchesRoster | RemovesOps | NoNewOp | BadOp (o : SignedMembershipOp).

(** The check of one new record; [Some pairs] accepts it. *)
Definition self_service_op (principal : string) (mem : gset string) (registry : gmap string string) (o : SignedMembershipOp)
    : option (list (string * string)) :=
  match action (op o) with
  | Rebind =>
      let? npk := new_pubkey (op o) in
      let? _ := new_wrap_pubkey (op o) in
      if negb (bool_decide (fingerprint_of npk = subject (op o))) then None
      else if bool_decide (subject (op o) = author (op o)) then None
      else if negb (bool_decide (author (op o) ∈ mem)) then None
      else if bool_decide (subject (op o) ∈ mem) then None
      else if verify_signed o
           then if negb (bool_decide (author (op o) = principal)) then None else Some [(subject (op o), author (op o))]
           else if is_recovery_rebind o registry
                then if negb (bool_decide (subject (op o) = principal)) then None
                     else Some [(subject (op o), author (op o))]
                else None
  | RegisterRecoveryKey =>
      if negb (verify_signed o) then None
      else if negb (bool_decide (author (op o) = principal)) || negb (bool_decide (subject (op o) = principal)) then None
      else if bool_decide (recovery_pubkey (op o) = None) then None
      else if negb (bool_decide (author (op o) ∈ mem)) then None
      else Some []
  | _ => None
  end.

Fixpoint self_service_ops (principal : string) (mem : gset string) (registry : gmap string string)
    (ops : list SignedMembershipOp) : GateError + list (string * string) :=
  match ops with
  | [] => inr []
  | o :: ops' =>
      match self_service_op principal mem registry o with
      | None => inl (BadOp o)
      | Some ps => match self_service_ops principal mem registry ops' with
                   | inr qs => inr (ps ++ qs)
                   | inl err => inl err
                   end
      end
  end.

Definition hashes (ops : list SignedMembershipOp) : gset string := list_to_set (map chain_hash ops).

(** [verify_member_self_service_update]: [before] is the stored collection,
    [after] the result of applying the update to it. *)
Definition verify_member_self_service_update st (before : option Loaded) (after : option Root) (now : N) (kb : string)
    (auth_principal : option string) : KbState * (GateError + list (string * string)) :=
  match auth_principal with
  | None => (st, inl NoPrincipal)
  | Some principal =>
      match before, after with
      | None, _ => (st, inl NotFound)
      | Some _, None => (st, inl NotApplied)
      | Some b, Some a =>
          let rb := l_root b in
          if negb (bool_decide (owner show a = owner show rb)) || negb (bool_decide (roster_of a = roster_of rb))
             || negb (bool_decide (join_policy show a = join_policy show rb))
             || negb (bool_decide (transport_policy_raw show a = transport_policy_raw show rb))
             || negb (bool_decide (encryption show a = encryption show rb))
             || negb (bool_decide (creator show a = creator show rb))
          then (st, inl TouchesRoster)
          else
            let before_ops := oplog_ops (oplog_of rb) in
            let registry := recovery_registry before_ops in
            let after_ops := oplog_ops (oplog_of a) in
            if negb (bool_decide (hashes before_ops ⊆ hashes after_ops)) then (st, inl RemovesOps)
            else
              let new_ops := List.filter (fun o => negb (bool_decide (chain_hash o ∈ hashes before_ops))) after_ops in
              match new_ops with
              | [] => (st, inl NoNewOp)
              | _ => let '(st, mem) := current_member_set st b now kb in
                     (st, self_service_ops principal mem registry new_ops)
              end
      end
  end.

(** [owner_self_rebind_pairs]: the caller's own valid rotations of an update. *)
Definition own_rebind (principal : string) (o : SignedMembershipOp) : option (string * string) :=
  if negb (bool_decide (action (op o) = Rebind)) then None
  else let? npk := new_pubkey (op o) in
       if negb (bool_decide (author (op o) = principal)) || bool_decide (subject (op o) = author (op o)) then None
       else if negb (bool_decide (fingerprint_of npk = subject (op o))) || negb (verify_signed o) then None
       else Some (subject (op o), author (op o)).
Definition owner_self_rebind_pairs (principal : string) (before after : option Root) : list (string * string) :=
  if bool_decide (principal = "") then []
  else match before, after with
       | Some b, Some a =>
           let before_hashes := hashes (oplog_ops (oplog_of b)) in
           omap (fun o => if bool_decide (chain_hash o ∈ before_hashes) then None else own_rebind principal o)
             (oplog_ops (oplog_of a))
       | _, _ => []
       end.

(** ** Theorems *)

(** The decision for a known role. *)
Lemma decide_access_allow root role repl o tr :
  decide_access root role repl o tr = Allow <->
  exists r, role = Some r /\ (r = Owner \/ allows (transport_policy show root) tr = true) /\
    (o = Join -> repl <> QueryOnly) /\ (o = Edit -> includes r Editor = true) /\ (o = Manage -> r = Owner).
Proof.
  unfold decide_access. destruct role as [r|].
  - assert (Ho : bool_decide (Some r = Some Owner) = bool_decide (r = Owner)) by (apply bool_decide_ext; naive_solver).
    rewrite Ho. destruct (allows _ tr) eqn:Et, r, o, repl; cbn;
      (split; [intros E; first [discriminate|eexists; split; [done|]; naive_solver]
              |intros (r' & [= <-] & H1 & H2 & H3 & H4); naive_solver]).
  - rewrite bool_decide_eq_false_2 by done. cbn [negb andb].
    split; [|by intros (r & ? & _)]. repeat case_match; done.
Qed.

Section Served.
Context (log_of : string -> string -> gmap string (gmap string string)).

(** The membership lookup of an anchored collection is a fresh derivation. *)
Lemma anchored_members_fresh t now st c kb anchor :
  served log_of t now st -> oplog_of (l_root c) = log_of kb (l_sv c) ->
  kb_anchor st kb = Some anchor -> is_Some (oplog_head (oplog_of (l_root c))) ->
  (anchored_members st c now kb).2 =
    Some (derive_fresh (oplog_ops (oplog_of (l_root c))) anchor now (membership_view_for st kb)).
Proof.
  intros Hs Hl Ha Hh. unfold anchored_members. rewrite Ha, bool_decide_eq_true_2 by done.
  pose proof (query_ok log_of now st kb (l_sv c) anchor (served_ok log_of t now st Hs)) as [_ Hq]. rewrite <- Hl in Hq.
  destruct (derived_membership _ _ _ _ _ _) as [st' dm]. cbn [snd] in *. by f_equal.
Qed.


End Served.

(** A record the gate accepts. *)
Definition own_service (principal : string) (mem : gset string) (registry : gmap string string) (o : SignedMembershipOp) : Prop :=
  (action (op o) = Rebind /\ (exists npk, new_pubkey (op o) = Some npk /\ fingerprint_of npk = subject (op o)) /\
   author (op o) ∈ mem /\ subject (op o) ∉ mem /\
   (verify_signed o = true /\ author (op o) = principal \/
    is_recovery_rebind o registry = true /\ subject (op o) = principal)) \/
  (action (op o) = RegisterRecoveryKey /\ verify_signed o = true /\ author (op o) = principal /\
   subject (op o) = principal /\ principal ∈ mem).

Lemma self_service_op_ok principal mem registry o ps :
  self_service_op principal mem registry o = Some ps ->
  own_service principal mem registry o /\ forall s q, (s, q) ∈ ps -> s = subject (op o) /\ q = author (op o) /\ s ∉ mem /\ q ∈ mem.
Proof.
  unfold self_service_op, own_service. destruct (action (op o)) eqn:Ea; try done.
  - destruct (new_pubkey (op o)) as [npk|]; [|done]. destruct (new_wrap_pubkey (op o)) as [wk|]; [|done].
    case_bool_decide as E1; [|done]. case_bool_decide as E2; [done|]. case_bool_decide as E3; [|done].
    case_bool_decide as E4; [done|]. cbn [negb].
    destruct (verify_signed o) eqn:Ev.
    + case_bool_decide as E5; [|done]. cbn [negb]. intros [= <-]. split; [left; naive_solver|].
      intros s q [[= -> ->]|?%not_elem_of_nil]%elem_of_cons; done.
    + destruct (is_recovery_rebind o registry) eqn:Er; [|done]. case_bool_decide as E5; [|done]. cbn [negb].
      intros [= <-]. split; [left; naive_solver|]. intros s q [[= -> ->]|?%not_elem_of_nil]%elem_of_cons; done.
  - destruct (verify_signed o) eqn:Ev; [|done]. cbn [negb]. do 2 (case_bool_decide; [|done]). cbn [negb orb].
    case_bool_decide; [done|]. case_bool_decide as E3; [|done]. cbn [negb]. intros [= <-]. split.
    + right. rewrite H0 in E3. naive_solver.
    + by intros s q ?%not_elem_of_nil.
Qed.

Lemma self_service_ops_ok principal mem registry ops : forall pairs,
  self_service_ops principal mem registry ops = inr pairs ->
  (forall o, o ∈ ops -> own_service principal mem registry o) /\ forall s q, (s, q) ∈ pairs -> s ∉ mem /\ q ∈ mem.
Proof.
  induction ops as [|o ops IH]; intros pairs; cbn [self_service_ops].
  { intros [= <-]. split; [by intros o ?%not_elem_of_nil|by intros s q ?%not_elem_of_nil]. }
  destruct (self_service_op principal mem registry o) as [ps|] eqn:Eo; [|done].
  destruct (self_service_ops principal mem registry ops) as [err|qs]; [done|]. intros [= <-].
  destruct (self_service_op_ok principal mem registry o ps Eo) as [Ho Hp], (IH qs eq_refl) as [Hos Hq]. split.
  - intros o' [->|?]%elem_of_cons; auto.
  - intros s q [Hin|Hin]%elem_of_app; [apply Hp in Hin; naive_solver|auto].
Qed.

(** What a member may change without the owner: an update accepted by the
    self-service gate leaves the owner, the roles and labels of the roster and
    all policies as they were, loses no record of the log, and adds at least
    one; every added record is the caller's own rotation signed by its key
    into a fresh key, a rotation into the caller's key signed by the
    predecessor's registered recovery key, or the registration of the caller's
    own recovery key. *)
Theorem self_service_changes_only_own_identity st b a now kb p st' pairs :
  verify_member_self_service_update st (Some b) (Some a) now kb (Some p) = (st', inr pairs) ->
  let old := oplog_ops (oplog_of (l_root b)) in
  let new := oplog_ops (oplog_of a) in
  let mem := (current_member_set st b now kb).2 in
  owner show a = owner show (l_root b) /\ roster_of a = roster_of (l_root b) /\
  join_policy show a = join_policy show (l_root b) /\ encryption show a = encryption show (l_root b) /\
  transport_policy show a = transport_policy show (l_root b) /\
  (forall o, o ∈ old -> exists o', o' ∈ new /\ chain_hash o' = chain_hash o) /\
  (exists o, o ∈ new /\ chain_hash o ∉ hashes old) /\
  (forall o, o ∈ new -> chain_hash o ∉ hashes old -> own_service p mem (recovery_registry old) o) /\
  forall s q, (s, q) ∈ pairs -> s ∉ mem /\ q ∈ mem.
Proof.
  intros Hv old new mem. unfold verify_member_self_service_update in Hv.
  destruct (_ || _) eqn:Ec in Hv; [done|]. bool_prop.
  fold old new in Hv. case_bool_decide as Esub; [|done]. cbn [negb] in Hv.
  set (l := List.filter _ new) in Hv. assert (Hl : forall o, o ∈ l <-> o ∈ new /\ chain_hash o ∉ hashes old).
  { intros o. unfold l. rewrite elem_of_List_filter, negb_true_iff, bool_decide_eq_false. done. }
  destruct l as [|o0 l0] eqn:El; [done|]. rewrite <- El in Hv, Hl.
  unfold mem. destruct (current_member_set st b now kb) as [st1 mem1]. cbn [snd]. injection Hv as <- Hv.
  destruct (self_service_ops_ok p mem1 _ l pairs Hv) as [Hos Hps]. split_and!; try done.
  - unfold transport_policy. congruence.
  - intros o Ho. assert (Hin : chain_hash o ∈ hashes new).
    { apply Esub. unfold hashes. apply elem_of_list_to_set, list_elem_of_fmap. eauto. }
    unfold hashes in Hin. apply elem_of_list_to_set, list_elem_of_fmap in Hin as (o' & -> & ?). eauto.
  - exists o0. apply Hl. rewrite El. by left.
  - intros o Ho Hn. apply Hos, Hl. done.
Qed.

End Access.

Module AccessWitnesses.
Export CacheWitnesses.
Import CollectionWitnesses.

(** A log and a roster as they are stored in the document. *)
Definition stored_log (log : gmap string (gmap string string)) : Out := OMap ((fun r : gmap string string => OMap (OStr <$> r)) <$> log).
Definition with_log (root : Root) (log : gmap string (gmap string string)) : Root := <["membership_oplog" := stored_log log]> root.
Definition joined_coll (sv : string) : Loaded :=
  mkLoaded (with_log (new_owned "kb" (fp "ow") "Ann") (toy_log_of "kb" sv)) sv.
Definition joined : KbState := set_kb_anchor (boot fresh_tables) "kb" (key "ow").

(** The editor at time 50, on both transports. *)
Lemma editor_decisions :
  let ask p o tr := (kb_access show_json joined (Some (joined_coll "v2")) 50 "kb" p o tr).2 in
  map (fun o => ask (Some (fp "ed")) o Hub) [Join; Read; Edit; Manage] = [Some Allow; Some Allow; Some Allow; Some (Deny (RoleMayNot Editor Manage))] /\
  ask (Some (fp "ed")) Read P2p = Some (Deny (NotShared P2p)) /\
  ask (Some (fp "ow")) Manage P2p = Some Allow /\ ask (Some (fp "xx")) Join Hub = Some Pending /\
  ask None Manage P2p = Some Allow.
Proof. by vm_compute. Qed.


(** The editor rotates its key. *)
Definition rotation : SignedMembershipOp :=
  mkSigned (mkOp "kb" Rebind (fp "e2") None false (fp "ed") 60 None 0 (Toy.h "adm1") None (Some (key "e2")) (Some (key "w2")) None Full None)
    (Toy.sign "ed" "reb1") (key "ed").
Definition log0 : gmap string (gmap string string) := logged [genesis; editor None].
Definition log1 : gmap string (gmap string string) := append_signed_op log0 (op rotation) (sig rotation) (author_pubkey rotation).
(** An owned collection with the editor and another member. *)
Definition members0 : list CollOp :=
  [CUpsert 5 (fp "ed") "Ed" Viewer; CSetRole 6 (fp "ed") Editor; CUpsert 7 (fp "vi") "Vic" Editor;
   CStoreWrapPubkey (fp "vi") (key "vw"); CAddNode "n1" "Title"].
Definition root0 : Root := with_log (coll_run show_json (new_owned "kb" (fp "ow") "Ann") members0) log0.
Definition gate (after : Root) : GateError + list (string * string) :=
  (verify_member_self_service_update show_json (boot fresh_tables) (Some (mkLoaded root0 "v")) (Some after) 60 "kb" (Some (fp "ed"))).2.

Lemma self_service_changes_only_own_identity_witness :
  let a := with_log root0 log1 in
  let b := mkLoaded root0 "v" in
  let st := boot fresh_tables in
  let old := oplog_ops (oplog_of show_json root0) in
  let new := oplog_ops (oplog_of show_json a) in
  let mem := (current_member_set show_json st b 60 "kb").2 in
  owner show_json a = owner show_json root0 /\ roster_of show_json a = roster_of show_json root0 /\
  join_policy show_json a = join_policy show_json root0 /\ encryption show_json a = encryption show_json root0 /\
  transport_policy show_json a = transport_policy show_json root0 /\
  (forall o, o ∈ old -> exists o', o' ∈ new /\ chain_hash o' = chain_hash o) /\
  (exists o, o ∈ new /\ chain_hash o ∉ hashes old) /\
  (forall o, o ∈ new -> chain_hash o ∉ hashes old -> own_service (fp "ed") mem (recovery_registry old) o) /\
  forall s q, (s, q) ∈ [(fp "e2", fp "ed")] -> s ∉ mem /\ q ∈ mem.
Proof.
  intros a b st. refine (self_service_changes_only_own_identity show_json st b a 60 "kb" (fp "ed") st [(fp "e2", fp "ed")] _).
  by vm_compute.
Defined.

(** The gate compares less than the collection holds: together with its own
    rotation, a plain editor can change another member's wrap key (to which the
    owner wraps the next content key), reset its own authorization epoch and
    remove nodes from the manifest, and the update is accepted. *)
Theorem self_service_admits_roster_tampering :
  let after := coll_exec show_json
                 (coll_exec show_json
                    (on_map (with_log root0 log1) "member_roles" (insert (fp "ed") (grant Editor "Ed" 0)))
                    (CStoreWrapPubkey (fp "vi") (key "ed")))
                 (CRemoveNode "n1") in
  gate after = inr [(fp "e2", fp "ed")] /\
  member_wrap_pubkey show_json root0 (fp "vi") = Some (key "vw") /\
  member_wrap_pubkey show_json after (fp "vi") = Some (key "ed") /\
  epoch_of show_json root0 (fp "ed") = 6%N /\ epoch_of show_json after (fp "ed") = 0%N /\
  has_node root0 "n1" = true /\ has_node after "n1" = false.
Proof. vm_compute. by split_and!. Qed.

(** Role and label changes, lost records and updates without a rotation are
    refused. *)
Lemma gate_refusals :
  gate (coll_exec show_json (with_log root0 log1) (CSetRole 9 (fp "ed") Owner)) = inl TouchesRoster /\
  gate (with_log root0 (delete (Toy.h "adm1") log1)) = inl RemovesOps /\ gate root0 = inl NoNewOp.
Proof. vm_compute. by split_and!. Qed.

End AccessWitnesses.
