(* ===== verification/Rotation.v ===== *)
(** * Rotation: authoring signed membership records

    Models the authoring half of [shared/sync/src/kb/collection_crypto.rs]: the
    genesis of an end-to-end encrypted knowledge base, admissions that carry the
    wrapped content key, key rotation when a member is removed, identity
    rotation, recovery keys and the re-wrap for a rotated member. A collection
    is its root map with its op-log; signing is an interface. *)
From S2P Require Import Prelude Membership OpLog Storage DeriveCache Collection.

(** [ed25519_dalek::SigningKey]: secrets, their public keys, signatures. *)
Class Signer := { sign : string -> string -> string; public_of : string -> string }.
Class SignerLaws `{Crypto} (S : Signer) : Prop := {
  sign_length k m : String.length (sign k m) = 64;
  public_valid k : vk_from_bytes (public_of k) = true;
  sign_verifies k m : ed25519_verify (public_of k) m (sign k m) = true;
}.

Notation Log := (gmap string (gmap string string)).

Section Authoring.
Context `{Crypto, Signer} (show : Out -> string).

(** The parts of [KbCollectionDoc] the authoring functions change. *)
Record Doc := mkDoc { d_root : Root; d_log : Log }.
Implicit Types (d : Doc) (kb_id : string).

(** Build, change, sign and append one record. *)
Definition author_op d (o : MembershipOp) (secret pubkey : string) : Doc :=
  mkDoc (d_root d) (append_signed_op (d_log d) o (sign secret (canonical_bytes o)) pubkey).
Definition set_wrapped (o : MembershipOp) (wk : string) : MembershipOp :=
  mkOp (kb_id o) (action o) (subject o) (role o) (can_invite o) (author o) (issued_at o) (expires_at o) (epoch o)
    (prev_hash o) (Some wk) (new_pubkey o) (new_wrap_pubkey o) (recovery_pubkey o) (replication o) (content_hash o).
Definition set_successor (o : MembershipOp) (pk wpk : string) : MembershipOp :=
  mkOp (kb_id o) (action o) (subject o) (role o) (can_invite o) (author o) (issued_at o) (expires_at o) (epoch o)
    (prev_hash o) (wrapped_key o) (Some pk) (Some wpk) (recovery_pubkey o) (replication o) (content_hash o).
Definition set_recovery (o : MembershipOp) (pk : string) : MembershipOp :=
  mkOp (kb_id o) (action o) (subject o) (role o) (can_invite o) (author o) (issued_at o) (expires_at o) (epoch o)
    (prev_hash o) (wrapped_key o) (new_pubkey o) (new_wrap_pubkey o) (Some pk) (replication o) (content_hash o).

Definition author_e2e_genesis d kb_id (owner_fp owner_secret owner_pubkey self_wrapped_key : string) (now : N) : Doc :=
  let d := match oplog_head (d_log d) with
           | None =>
               let g := build_membership_op (d_log d) kb_id Admit owner_fp (Some Owner) true owner_fp now None 0 in
               author_op d (set_wrapped g self_wrapped_key) owner_secret owner_pubkey
           | Some _ => d
           end in
  let se := build_membership_op (d_log d) kb_id SetEncryption "e2e" None false owner_fp now None 0 in
  let d := author_op d se owner_secret owner_pubkey in
  mkDoc (set_encryption (d_root d) E2e) (d_log d).

Definition author_member_admit (token : N) d kb_id (subject_fp subject_pubkey subject_wrap_pubkey : string) (r : Role)
    (label wrapped_key owner_fp owner_secret owner_pubkey : string) (now : N) : Doc :=
  let root := upsert_member show token (d_root d) subject_fp label r in
  let root := store_member_pubkey root subject_fp subject_pubkey in
  let root := store_member_wrap_pubkey root subject_fp subject_wrap_pubkey in
  let epoch := epoch_of show root subject_fp in
  let o := build_membership_op (d_log d) kb_id Admit subject_fp (Some r) false owner_fp now None epoch in
  author_op (mkDoc root (d_log d)) (set_wrapped o wrapped_key) owner_secret owner_pubkey.

(** The attributes a re-keying record re-asserts. *)
Definition attributes (mem : gmap string ValidMember) (root : Root) (fp : string) : Role * bool * N :=
  match mem !! fp with
  | Some m => (m_role m, m_can_invite m, m_epoch m)
  | None => (Editor, false, epoch_of show root fp)
  end.
Definition derived_now (log : Log) (anchor : string) (now : N) : gmap string ValidMember :=
  let ops := oplog_ops log in
  derive_valid_members_governed ops anchor now (derive_governance ops anchor) default_view.

Definition rekey_op d kb_id (mem : gmap string ValidMember) (owner_fp : string) (now : N) (fp wrapped : string) : MembershipOp :=
  let '(r, inv, ep) := attributes mem (d_root d) fp in
  set_wrapped (build_membership_op (d_log d) kb_id Admit fp (Some r) inv owner_fp now None ep) wrapped.
Fixpoint rekey d kb_id (mem : gmap string ValidMember) (removed_fp owner_fp owner_secret owner_pubkey : string) (now : N)
    (rewraps : list (string * string)) : Doc :=
  match rewraps with
  | [] => d
  | (fp, wrapped) :: rest =>
      let d := if bool_decide (fp = removed_fp) then d
               else author_op d (rekey_op d kb_id mem owner_fp now fp wrapped) owner_secret owner_pubkey in
      rekey d kb_id mem removed_fp owner_fp owner_secret owner_pubkey now rest
  end.
Definition author_rotate_on_remove d kb_id (removed_fp : string) (rewraps : list (string * string))
    (owner_fp owner_secret owner_pubkey : string) (now : N) : Doc :=
  let mem := derived_now (d_log d) owner_pubkey now in
  let rm := build_membership_op (d_log d) kb_id Remove removed_fp None false owner_fp now None 0 in
  let d := author_op d rm owner_secret owner_pubkey in
  let d := mkDoc (remove_principal show (d_root d) removed_fp) (d_log d) in
  rekey d kb_id mem removed_fp owner_fp owner_secret owner_pubkey now rewraps.

Definition author_rebind d kb_id (old_fp new_fp new_pubkey new_wrap_pubkey old_secret old_pubkey : string) (now : N) : Doc :=
  let o := build_membership_op (d_log d) kb_id Rebind new_fp None false old_fp now None 0 in
  author_op d (set_successor o new_pubkey new_wrap_pubkey) old_secret old_pubkey.
Definition author_register_recovery_key d kb_id (principal_fp recovery_pubkey primary_secret primary_pubkey : string) (now : N) : Doc :=
  let o := build_membership_op (d_log d) kb_id RegisterRecoveryKey principal_fp None false principal_fp now None 0 in
  author_op d (set_recovery o recovery_pubkey) primary_secret primary_pubkey.
Definition author_recovery_rebind d kb_id (old_fp new_fp new_pubkey new_wrap_pubkey recovery_secret recovery_pubkey : string) (now : N) : Doc :=
  let o := build_membership_op (d_log d) kb_id Rebind new_fp None false old_fp now None 0 in
  author_op d (set_successor o new_pubkey new_wrap_pubkey) recovery_secret recovery_pubkey.
Definition author_rebind_rewrap d kb_id (new_fp wrapped anchor_pubkey signer_fp signer_secret signer_pubkey : string) (now : N) : Doc :=
  let mem := derived_now (d_log d) anchor_pubkey now in
  author_op d (rekey_op d kb_id mem signer_fp now new_fp wrapped) signer_secret signer_pubkey.

(** ** Theorems *)

Context `{!SignerLaws _}.

(** A record that [owner_fp]'s key signed. *)
Definition signed_by (owner_fp secret : string) (h : string) (r : gmap string string) (o : MembershipOp) : Prop :=
  let so := mkSigned o (sign secret (canonical_bytes o)) (public_of secret) in
  h = chain_hash so /\ r = encode_op_record o (sig so) (author_pubkey so) /\ verify_signed so = true /\ author o = owner_fp.

Lemma authored_verifies secret o : author o = fingerprint_of (public_of secret) ->
  verify_signed (mkSigned o (sign secret (canonical_bytes o)) (public_of secret)) = true.
Proof.
  intros Ha. unfold verify_signed, fingerprint_matches, verify. cbn [op sig author_pubkey].
  by rewrite Ha, bool_decide_eq_true_2, public_valid, sign_length, sign_verifies.
Qed.

Lemma author_op_adds d o owner_fp secret h r :
  author o = owner_fp -> owner_fp = fingerprint_of (public_of secret) ->
  d_log (author_op d o secret (public_of secret)) !! h = Some r ->
  d_log d !! h = Some r \/ signed_by owner_fp secret h r o.
Proof.
  intros Ha Hf. unfold author_op, append_signed_op. cbn [d_log]. rewrite lookup_insert_Some.
  intros [[<- <-]|[_ ?]]; [right|by left]. split; [done|]. split; [done|]. split; [|done].
  apply authored_verifies. by rewrite Ha.
Qed.

(** The shape of a re-keying record. *)
Definition rekeys kb (mem : gmap string ValidMember) (removed_fp : string) (rewraps : list (string * string)) (o : MembershipOp) : Prop :=
  kb_id o = kb /\ action o = Admit /\ subject o <> removed_fp /\
  (exists w, (subject o, w) ∈ rewraps /\ wrapped_key o = Some w) /\
  forall m, mem !! subject o = Some m -> role o = Some (m_role m) /\ can_invite o = m_can_invite m /\ epoch o = m_epoch m.

Lemma rekey_op_shape d kb mem removed_fp owner_fp now fp wrapped rewraps :
  fp <> removed_fp -> (fp, wrapped) ∈ rewraps ->
  rekeys kb mem removed_fp rewraps (rekey_op d kb mem owner_fp now fp wrapped) /\
  author (rekey_op d kb mem owner_fp now fp wrapped) = owner_fp.
Proof.
  intros Hne Hin. unfold rekey_op, attributes, rekeys. destruct (mem !! fp) as [m|] eqn:Em.
  - split; [|done]. split_and!; try done; [by exists wrapped|]. cbn. intros m'. rewrite Em. by intros [= <-].
  - split; [|done]. split_and!; try done; [by exists wrapped|]. cbn. intros m'. by rewrite Em.
Qed.

Lemma rekey_adds kb mem removed_fp owner_fp secret now all rewraps : forall d,
  owner_fp = fingerprint_of (public_of secret) -> (forall x, x ∈ rewraps -> x ∈ all) ->
  let d' := rekey d kb mem removed_fp owner_fp secret (public_of secret) now rewraps in
  d_root d' = d_root d /\
  forall h r, d_log d' !! h = Some r ->
    d_log d !! h = Some r \/ exists o, signed_by owner_fp secret h r o /\ rekeys kb mem removed_fp all o.
Proof.
  induction rewraps as [|[fp w] rewraps IH]; intros d Hf Hall; cbn [rekey]; [by split; [|by left]|]. cbv zeta.
  set (d1 := if bool_decide (fp = removed_fp) then d else _).
  destruct (IH d1 Hf) as [Hr Hl]; [intros x Hx; apply Hall; by right|]. split.
  - rewrite Hr. unfold d1. by case_bool_decide.
  - intros h r Hh. destruct (Hl h r Hh) as [Hd|?]; [|by right]. unfold d1 in Hd. case_bool_decide as Efp; [by left|].
    destruct (rekey_op_shape d kb mem removed_fp owner_fp now fp w all Efp) as [Hs Ha]; [apply Hall; by left|].
    destruct (author_op_adds d _ owner_fp secret h r Ha Hf Hd) as [?|?]; [by left|]. right. eauto.
Qed.

(** Rotating the content key on a removal re-keys exactly the rest: besides
    the records that were there, the log holds only records that the owner's
    key signed and that verify: the removal, which carries no key, and one
    shape of re-admission, for a member of the list other than the removed
    one, with the key wrapped for that member and its derived role, invite
    right and epoch. The removed member is off the roster. *)
Theorem rotation_rekeys_only_the_rest d kb removed_fp rewraps owner_fp secret now :
  owner_fp = fingerprint_of (public_of secret) ->
  let d' := author_rotate_on_remove d kb removed_fp rewraps owner_fp secret (public_of secret) now in
  let mem := derived_now (d_log d) (public_of secret) now in
  role_of show (d_root d') removed_fp = None /\
  forall h r, d_log d' !! h = Some r ->
    d_log d !! h = Some r \/
    exists o, signed_by owner_fp secret h r o /\
      ((action o = Remove /\ subject o = removed_fp /\ wrapped_key o = None) \/ rekeys kb mem removed_fp rewraps o).
Proof.
  intros Hf d' mem. unfold author_rotate_on_remove in d'. fold mem in d'. cbv zeta in d'.
  set (rm := build_membership_op _ _ _ _ _ _ _ _ _ _) in d'. set (d1 := author_op d rm _ _) in d'.
  set (d2 := mkDoc _ _) in d'.
  destruct (rekey_adds kb mem removed_fp owner_fp secret now rewraps rewraps d2 Hf) as [Hr Hl]; [done|].
  fold d' in Hr, Hl. split.
  - rewrite Hr. cbn [d2 d_root]. unfold role_of, member_entry, remove_principal.
    destruct (get_map (d_root d1) "member_roles") as [m|] eqn:E; [|by rewrite E].
    assert (Hd : forall root, get_map root "member_roles" = Some (delete removed_fp m) ->
      (let? m := get_map root "member_roles" in let? o := m !! removed_fp in as_map o) = None).
    { intros root ->. cbn. by rewrite lookup_delete_eq. }
    rewrite Hd; [done|]. case_match.
    + rewrite get_map_insert_ne by done. by rewrite get_map_insert_eq.
    + by rewrite get_map_insert_eq.
  - intros h r Hh. destruct (Hl h r Hh) as [Hd|(o & Ho & Hs)]; [|right; eauto].
    destruct (author_op_adds d rm owner_fp secret h r eq_refl Hf Hd) as [?|?]; [by left|].
    right. exists rm. split; [done|]. by left.
Qed.

End Authoring.

Module RotationWitnesses.
Export CacheWitnesses.
Import CollectionWitnesses.

(** A secret is the two-byte name of its key; a signature carries a checksum of
    the message, which is what the toy hash reads. *)
#[export] Instance wide_signer : Signer := {|
  sign k m := String.substring 0 2 (key k) +:+ Toy.letters 4 (Toy.checksum 7 m) +:+ String.concat "" (replicate 58 "0");
  public_of := key;
|}.

Definition owner_doc : Doc :=
  author_e2e_genesis (mkDoc (new_owned "kb" (fp "ow") "Ann") ∅) "kb" (fp "ow") "ow" (key "ow") "wrap-ow" 10.
(** The owner admits an editor who may only query, until time 100, and a viewer. *)
Definition restricted : MembershipOp :=
  let o := build_membership_op (d_log owner_doc) "kb" Admit (fp "ed") (Some Editor) false (fp "ow") 20 (Some 100%N) 0 in
  mkOp (kb_id o) (action o) (subject o) (role o) (can_invite o) (author o) (issued_at o) (expires_at o) (epoch o)
    (prev_hash o) (Some "wrap-ed") None None None QueryOnly None.
Definition two_members : Doc :=
  author_member_admit show_json 5 (author_op owner_doc restricted "ow" (key "ow")) "kb" (fp "vi") (key "vi") (key "vw") Viewer
    "Vic" "wrap-vi" (fp "ow") "ow" (key "ow") 30.
Definition after_removal : Doc :=
  author_rotate_on_remove show_json two_members "kb" (fp "vi") [(fp "ow", "new-ow"); (fp "ed", "new-ed")] (fp "ow") "ow" (key "ow") 40.
Definition seen (d : Doc) (now : N) (who : string) : option (Role * ReplicationPolicy) :=
  (fun m => (m_role m, m_replication m)) <$> derived_now (d_log d) (key "ow") now !! fp who.

#[export] Instance wide_signer_laws : SignerLaws wide_signer.
Proof.
  split.
  - intros k m. destruct k as [|a [|b [|c k]]]; reflexivity.
  - done.
  - intros k m. apply bool_decide_eq_true_2. destruct k as [|a [|b [|c k]]]; reflexivity.
Qed.

Lemma rotation_rekeys_only_the_rest_witness :
  let rewraps := [(fp "ow", "new-ow"); (fp "ed", "new-ed")] in
  let mem := derived_now (d_log two_members) (key "ow") 40 in
  role_of show_json (d_root after_removal) (fp "vi") = None /\
  forall h r, d_log after_removal !! h = Some r ->
    d_log two_members !! h = Some r \/
    exists o, signed_by (fp "ow") "ow" h r o /\
      ((action o = Remove /\ subject o = fp "vi" /\ wrapped_key o = None) \/ rekeys "kb" mem (fp "vi") rewraps o).
Proof. exact (rotation_rekeys_only_the_rest show_json two_members "kb" (fp "vi") _ (fp "ow") "ow" 40 eq_refl). Defined.

(** Removing one member lifts the restrictions of the others: the re-keying
    record repeats role, invite right and epoch but neither the time limit nor
    the replication policy, so an editor who could only query, until time 100,
    may replicate after somebody else's removal and is still a member at 200. *)
Theorem rotation_lifts_restrictions :
  seen two_members 40 "ed" = Some (Editor, QueryOnly) /\ seen two_members 200 "ed" = None /\
  seen after_removal 40 "ed" = Some (Editor, Full) /\ seen after_removal 200 "ed" = Some (Editor, Full) /\
  seen two_members 40 "vi" = Some (Viewer, Full) /\ seen after_removal 40 "vi" = None.
Proof. vm_compute. repeat split. Qed.

End RotationWitnesses.
