(* ===== verification/Session.v ===== *)
(** * Session: the daemon's request handlers for documents

    Models [daemon/src/collab_handler/sync_methods.rs] and [docs_methods.rs],
    the gates they call in [collab_handler/mod.rs] ([load_collection],
    [enforce_epoch_fence], [deny_collection_smuggling], [deny_kb_doc_read]),
    the dispatch of a message ([run_session], [is_doc_method],
    [handle_doc_request_inner]) and the tool path of [mae_mcp::handle_request]
    with [handle_sync_tool]. The methods named [kb/*] are outside this model.

    JSON parsing, base64 and the CRDT are parameters; the environment of a
    request (time, storage outcomes, configuration) is a record. *)
From S2P Require Import Prelude Rope Buffer Membership OpLog CollabText DocAddress Storage.
From S2P Require Import DocStore DeriveCache Json ContentOps Collection Access Broadcast.

(** ** Parameters *)

(** Collection documents as the CRDT crate decodes them, the update of one
    transaction on them, and the clocks of node documents and updates. *)
Class CollCodec := {
  decode_coll : string -> option Loaded;
  commit_coll : Loaded -> Root -> Loaded * string;
  node_clocks : string -> option (gmap N N);
  merged_clocks : string -> string -> option (gmap N N);
  update_clocks : string -> option (gmap N N);
}.

(** What a request finds: the clocks, the client id of a freshly built document,
    the documents locked by others, storage outcomes, and the configuration. *)
Record Ctx := mkCtx {
  instant : N;
  unix : N;
  fresh_client : N;
  locked : gset string;
  outcome : Io;
  resolver : option (string -> option (string * string));
  signer : option (string * string);
  require_signed_flag : bool;
  max_update_size : nat;
}.

Record Session := mkSession {
  session_id : N;
  auth_principal : option string;
  auth_label : option string;
  transport : Transport;
}.

Inductive Fault := ParseError | InternalError | InvalidRequest | MethodNotFound | KbIdOwnedByAnother.
Inductive Response := Success (result : Json) | Failure (why : Fault).

(** ** Client ids of epochs *)

(** [u64::to_le_bytes]. *)
Fixpoint le_bytes (k : nat) (n : N) : string :=
  match k with
  | 0 => ""
  | S k' => String (Ascii.ascii_of_N (n mod 256)) (le_bytes k' (n / 256))
  end.
Definition derive_kb_client_id (fp : string) (epoch : N) : N :=
  fold_hash_to_yrs_client_id (fnv1a fnv_offset (fp +:+ le_bytes 8 epoch)).

Section Handlers.
Context {R : Type} `{Rope R, Yrs, Crypto, Base64, CollCodec} (show : Out -> string).

(** The store, the membership half of it, and the broadcaster; [touched] are the
    documents the session has interacted with, [subscriptions] the event types
    it asked for. *)
Record World := mkWorld {
  store : @DocStore R _;
  kbs : KbState;
  bcast : EventBroadcaster;
  touched : gset string;
  subscriptions : gset string;
}.
Implicit Types (w : World) (c : Ctx) (s : Session).

Definition with_kbs w (k : KbState) : World := mkWorld (store w) k (bcast w) (touched w) (subscriptions w).
Definition with_bcast w (b : EventBroadcaster) : World := mkWorld (store w) (kbs w) b (touched w) (subscriptions w).
Definition on_store {A} w (m : M A) : World * (StorageError + A) :=
  let '(st, r) := m (store w) in (mkWorld st (kbs w) (bcast w) (touched w) (subscriptions w), r).

(** ** Collections and gates *)

(** [load_collection]; [None] is its error. The second half decodes the state
    and migrates a collection of the first version; a failing write of the
    migrated collection is logged. *)
Definition open_collection c w (coll_doc state : string) : World * option Loaded :=
  match decode_coll state with
  | None => (w, None)
  | Some l =>
      match (let? rs := resolver c in migrate_if_legacy show (l_root l) rs) with
      | None => (w, Some l)
      | Some root' =>
          let '(l', update) := commit_coll l root' in
          let '(w, _) := on_store w (store_update (fresh_client c) (locked c) (outcome c) (instant c) coll_doc update None) in
          (w, Some l')
      end
  end.
Definition load_collection c w (kb_id : string) : World * option Loaded :=
  let coll_doc := "kbc:" +:+ kb_id in
  if negb (has_durable_doc (outcome c) (store w) coll_doc) then (w, None)
  else
    let '(w, r) := on_store w (encode_state_and_sv (fresh_client c) (locked c) (outcome c) (instant c) coll_doc) in
    match r with
    | inl _ => (w, None)
    | inr (state, _) => open_collection c w coll_doc state
    end.

(** [kb_access] with its own load of the collection. *)
Definition access c s w (kb_id : string) (o : KbOp) : World * option AccessDecision :=
  match auth_principal s with
  | None => (w, Some Allow)
  | Some _ =>
      let '(w, coll) := load_collection c w kb_id in
      let '(k, d) := kb_access show (kbs w) coll (unix c) kb_id (auth_principal s) o (transport s) in
      (with_kbs w k, d)
  end.
Definition allowed (d : option AccessDecision) : bool := bool_decide (d = Some Allow).

(** [true]: the gate lets the request pass. *)
Definition deny_collection_smuggling c s w (doc_name : string) : World * bool :=
  match parse doc_name with
  | Some (KbCollection kb_id) => let '(w, d) := access c s w kb_id Manage in (w, allowed d)
  | _ => (w, true)
  end.
Definition deny_kb_doc_read c s w (doc_name : string) : World * bool :=
  match parse doc_name with
  | Some (KbCollection kb_id) => let '(w, d) := access c s w kb_id Read in (w, allowed d)
  | Some (KbNode _ _) => (w, false)
  | _ => (w, true)
  end.
(** The collection at hand, or a load of it. *)
Definition with_coll c w (kb_id : string) (coll : option Loaded) : World * option Loaded :=
  match coll with Some l => (w, Some l) | None => load_collection c w kb_id end.

Definition require_node_in_kb c w (kb_id node_id : string) (coll : option Loaded) : World * bool :=
  let '(w, coll) := with_coll c w kb_id coll in
  (w, match coll with Some l => has_node (l_root l) node_id | None => false end).

(** [update_new_op_authors]: clients whose clock the update advances, by
    integration or by its own state vector. *)
Definition advanced (before after : gmap N N) : gset N :=
  dom (filter (fun kv : N * N => default 0 (before !! kv.1) < kv.2)%N after).
Definition update_new_op_authors (update base_state : string) : option (gset N) :=
  let? before := node_clocks base_state in
  let? after := merged_clocks base_state update in
  let? upd := update_clocks update in
  Some (advanced before after ∪ advanced before upd).

(** [enforce_epoch_fence_with_coll]; [true] passes. *)
Definition enforce_epoch_fence_with_coll c w (kb_id node_doc update principal : string) (coll : option Loaded) : World * bool :=
  let '(w, coll) := with_coll c w kb_id coll in
  match coll with
  | None => (w, false)
  | Some l =>
      let '(k, epoch_now) := kb_member_epoch show (kbs w) l (unix c) kb_id principal in
      let w := with_kbs w k in
      let c_now := derive_kb_client_id principal epoch_now in
      let '(w, r) := on_store w (encode_state_and_sv (fresh_client c) (locked c) (outcome c) (instant c) node_doc) in
      match r with
      | inl (DurableDocMissing _) => (w, true)
      | inl _ => (w, false)
      | inr (base_state, _) =>
          match update_new_op_authors update base_state with
          | None => (w, false)
          | Some authors => (w, bool_decide (authors ⊆ {[c_now]}))
          end
      end
  end.

Definition enforce_epoch_fence c w (kb_id node_doc update principal : string) : World * bool :=
  enforce_epoch_fence_with_coll c w kb_id node_doc update principal None.

Definition require_signed c (t : Transport) : bool := bool_decide (t = P2p) || require_signed_flag c.

(** What the relay check reads of a loaded collection. *)
Definition view_of (l : Loaded) : Collection :=
  mkColl (l_sv l) (oplog_of show (l_root l)) (owner show (l_root l)).
(** [verify_relayed_content_op]; the collection is loaded once, before the
    check. *)
Definition relay_check c s w (kb_id doc update : string) (header : option Json) : World * (RelayError + option Json) :=
  let '(w, coll) := match parse doc with Some (KbNode _ _) => load_collection c w kb_id | _ => (w, None) end in
  let '(k, r) := verify_relayed_content_op (kbs w) (signer c) (view_of <$> coll) (unix c) kb_id doc update header
                   (require_signed c (transport s)) in
  (with_kbs w k, r).

(** ** Handlers *)

Definition doc_or_default (params : Json) : string := default "default" (get_str params "doc").

(** The first interaction of a session with a document. *)
Definition touch c s w (doc_name : string) : World :=
  if bool_decide (doc_name ∈ touched w) then w
  else
    let '(w, _) := on_store w (track_client_connect (fresh_client c) (locked c) (outcome c) (instant c) doc_name) in
    mkWorld (store w) (kbs w) (subscribe_doc (bcast w) (session_id s) doc_name) ({[doc_name]} ∪ touched w) (subscriptions w).

(** A reader's answer. *)
Definition answer {A} (r : StorageError + A) (f : A -> list (string * Json)) : Response :=
  match r with inr x => Success (obj (f x)) | inl _ => Failure InternalError end.

Definition handle_sync_state_vector c s w (params : Json) : World * Response :=
  let doc_name := doc_or_default params in
  let '(w, ok) := deny_kb_doc_read c s w doc_name in
  if negb ok then (w, Failure InternalError)
  else
    let '(w, r) := on_store w (store_state_vector (fresh_client c) (locked c) (outcome c) (instant c) doc_name) in
    (w, answer r (fun sv => [("doc", JString doc_name); ("sv", JString (b64_encode sv))])).

(** [kb_access] and the fence of a write to a node document; [true] passes. *)
Definition authorize_node_write c s w (doc_name update : string) (kb_id : option string) (header : option Json)
    : World * bool :=
  match parse doc_name with
  | Some (KbNode _ _) =>
      match kb_id with
      | None => (w, false)
      | Some kb_id =>
          let '(w, d) := access c s w kb_id Edit in
          if negb (allowed d) then (w, false)
          else match (let? h := header in get_str h "author") with
               | Some author => enforce_epoch_fence c w kb_id doc_name update author
               | None => (w, true)
               end
      end
  | _ => (w, true)
  end.

Definition handle_sync_update c s w (params : Json) : World * Response :=
  match get_str params "doc" with
  | None => (w, Failure ParseError)
  | Some doc_name =>
      let '(w, ok) := deny_collection_smuggling c s w doc_name in
      if negb ok then (w, Failure InternalError)
      else
        let w := touch c s w doc_name in
        match get_str params "update" with
        | None => (w, Failure ParseError)
        | Some update_b64 =>
            match b64_decode update_b64 with
            | None => (w, Failure ParseError)
            | Some update =>
                if max_update_size c <? String.length update then (w, Failure ParseError)
                else
                  let kb_id := get_str params "kb_id" in
                  let '(w, relay) := match kb_id with
                                     | Some kb_id => relay_check c s w kb_id doc_name update (json_get params "content_header")
                                     | None => (w, inr None)
                                     end in
                  match relay with
                  | inl _ => (w, Failure InternalError)
                  | inr header =>
                      let '(w, ok) := authorize_node_write c s w doc_name update kb_id header in
                      if negb ok then (w, Failure InternalError)
                      else
                        let '(w, r) := on_store w (store_update (fresh_client c) (locked c) (outcome c) (instant c) doc_name
                                                     update (get_u64 params "client_id")) in
                        match r with
                        | inl _ => (w, Failure InternalError)
                        | inr res =>
                            (with_bcast w (broadcast_except (bcast w)
                               (SyncUpdate doc_name (b64_encode (ar_update res)) (ar_wal_seq res) header) (session_id s)),
                             Success (obj [("doc", JString doc_name); ("wal_seq", JPosInt (ar_wal_seq res))]))
                        end
                  end
            end
        end
  end.

(** The awareness relay of a request and of a notification. *)
Definition as_array (v : Json) : option (list Json) := match v with JArray l => Some l | _ => None end.
Definition selection_of (state : Json) : option (N * N * N * N) :=
  let? v := json_get state "selection" in
  let? arr := as_array v in
  match arr with
  | [a; b; d; e] =>
      let? a := as_u64 a in let? b := as_u64 b in let? d := as_u64 d in let? e := as_u64 e in Some (a, b, d, e)
  | _ => None
  end.
Definition relay_awareness s w (params : Json) : World :=
  let doc_name := doc_or_default params in
  let state := default JNull (json_get params "state") in
  let w := mkWorld (store w) (kbs w) (subscribe_doc (bcast w) (session_id s) doc_name) ({[doc_name]} ∪ touched w) (subscriptions w) in
  let user_name := match auth_label s with Some l => l | None => default "unknown" (get_str state "user_name") end in
  with_bcast w (broadcast_except (bcast w)
    (AwarenessUpdate doc_name (session_id s) user_name (default 0%N (get_u64 state "cursor_row"))
       (default 0%N (get_u64 state "cursor_col")) (selection_of state) (default "normal" (get_str state "mode")))
    (session_id s)).
Definition handle_sync_awareness s w (params : Json) : World * Response :=
  (relay_awareness s w params, Success (obj [("doc", JString (doc_or_default params))])).

Definition handle_sync_full_state c s w (params : Json) : World * Response :=
  let doc_name := doc_or_default params in
  let '(w, ok) := deny_kb_doc_read c s w doc_name in
  if negb ok then (w, Failure InternalError)
  else
    let w := touch c s w doc_name in
    let '(w, r) := on_store w (store_encode_state (fresh_client c) (locked c) (outcome c) (instant c) doc_name) in
    (w, answer r (fun state => [("doc", JString doc_name); ("state", JString (b64_encode state))])).

Definition handle_sync_diff c s w (params : Json) : World * Response :=
  let doc_name := doc_or_default params in
  let '(w, ok) := deny_kb_doc_read c s w doc_name in
  if negb ok then (w, Failure InternalError)
  else
    match get_str params "sv" with
    | None => (w, Failure ParseError)
    | Some sv_b64 =>
        match b64_decode sv_b64 with
        | None => (w, Failure ParseError)
        | Some sv =>
            let '(w, r) := on_store w (encode_diff_and_sv (fresh_client c) (locked c) (outcome c) (instant c) doc_name sv) in
            (w, answer r (fun '(diff, server_sv) =>
                  [("doc", JString doc_name); ("update", JString (b64_encode diff)); ("server_sv", JString (b64_encode server_sv))]))
        end
    end.

Definition handle_sync_resync c s w (params : Json) : World * Response :=
  let raw_name := doc_or_default params in
  let '(w, ok) := deny_kb_doc_read c s w raw_name in
  if negb ok then (w, Failure InternalError)
  else
    let doc_name := if has_doc (store w) raw_name then raw_name
                    else default raw_name (find_doc_by_suffix (store w) raw_name) in
    let '(w, ok) := if bool_decide (doc_name = raw_name) then (w, true) else deny_kb_doc_read c s w doc_name in
    if negb ok then (w, Failure InternalError)
    else
      let w := touch c s w doc_name in
      let '(w, r) := on_store w (encode_state_and_sv (fresh_client c) (locked c) (outcome c) (instant c) doc_name) in
      (w, answer r (fun '(state, sv) =>
            [("doc", JString doc_name); ("state", JString (b64_encode state)); ("sv", JString (b64_encode sv))])).

Definition handle_sync_share c s w (params : Json) : World * Response :=
  let doc_name := doc_or_default params in
  let w := mkWorld (store w) (kbs w) (subscribe_doc (bcast w) (session_id s) doc_name) ({[doc_name]} ∪ touched w) (subscriptions w) in
  match get_str params "update" with
  | None => (w, Failure ParseError)
  | Some update_b64 =>
      match b64_decode update_b64 with
      | None => (w, Failure ParseError)
      | Some update =>
          let '(w, r) := on_store w (share_doc (fresh_client c) (locked c) (outcome c) (instant c) doc_name update) in
          match r with
          | inl _ => (w, Failure InternalError)
          | inr res =>
              let '(w, _) := on_store w (set_sharer_session doc_name (session_id s)) in
              (with_bcast w (broadcast_except (bcast w)
                 (SyncUpdate doc_name (b64_encode (ar_update res)) (ar_wal_seq res) None) (session_id s)),
               Success (obj [("doc", JString doc_name); ("wal_seq", JPosInt (ar_wal_seq res))]))
          end
      end
  end.

(** [docs/*]. *)
Definition text_bytes (l : list N) : string := String.concat "" (map utf8 l).

Definition handle_docs_list w : World * Response :=
  (w, Success (obj [("documents", JArray (map JString (List.filter is_enumerable (document_names (store w)))))])).
Definition handle_docs_content c w (params : Json) : World * Response :=
  let doc_name := doc_or_default params in
  let '(w, r) := on_store w (store_content (fresh_client c) (locked c) (outcome c) (instant c) doc_name) in
  (w, answer r (fun text => [("doc", JString doc_name); ("content", JString (text_bytes text))])).

(** [doc_stats]. *)
Definition doc_stats c w (doc_name : string) : World * (StorageError + Json) :=
  let '(w, r) := on_store w (get_or_create (fresh_client c) (locked c) (outcome c) (instant c) doc_name) in
  (w, match r with
      | inl err => inl err
      | inr e => inr (obj [("wal_seq", JPosInt (wal_seq e)); ("update_count", JPosInt (update_count e));
                           ("content_length", JPosInt (N.of_nat (String.length (text_bytes (content (sync e))))));
                           ("idle_secs", JPosInt (instant c - last_activity e)%N);
                           ("connected_clients", JPosInt (connected_clients e)); ("save_epoch", JPosInt (save_epoch e));
                           ("last_saved_by", from_option JString JNull (last_saved_by e))])
      end).
Definition handle_docs_stats c w (params : Json) : World * Response :=
  let doc_name := doc_or_default params in
  let '(w, r) := doc_stats c w doc_name in (w, answer r (fun stats => [("doc", JString doc_name); ("stats", stats)])).
Definition handle_docs_metadata c w (params : Json) : World * Response :=
  let doc_name := doc_or_default params in
  let '(w, r) := doc_stats c w doc_name in
  (w, answer r (fun stats =>
        ("doc", JString doc_name) :: ("total_connections", JPosInt (N.of_nat (client_count (bcast w)))) ::
        map (fun k => (k, default JNull (json_get stats k)))
          ["connected_clients"; "save_epoch"; "last_saved_by"; "content_length"; "update_count"; "idle_secs"])).
Definition intent_json (r : SaveIntentResult) : Json :=
  match r with
  | IntentOk h e => obj [("status", JString "ok"); ("server_hash", JString h); ("save_epoch", JPosInt e)]
  | Conflict h => obj [("status", JString "conflict"); ("server_hash", JString h)]
  end.
Definition handle_docs_save_intent c w (params : Json) : World * Response :=
  let doc_name := doc_or_default params in
  match get_str params "expected_hash" with
  | None => (w, Failure ParseError)
  | Some expected =>
      let '(w, r) := on_store w (check_save_intent (fresh_client c) (locked c) text_bytes (outcome c) (instant c) doc_name expected) in
      (w, answer r (fun res => [("doc", JString doc_name); ("result", intent_json res)]))
  end.
Definition handle_docs_save_committed c s w (params : Json) : World * Response :=
  let doc_name := doc_or_default params in
  let saved_by := match auth_label s with Some l => l | None => default "unknown" (get_str params "saved_by") end in
  let '(w, _) := on_store w (record_save (fresh_client c) (locked c) (outcome c) (instant c) doc_name saved_by) in
  (with_bcast w (broadcast_except (bcast w)
     (SaveCommitted doc_name saved_by (default 0%N (get_u64 params "save_epoch")) (default "" (get_str params "content_hash")))
     (session_id s)),
   Success (obj [("doc", JString doc_name); ("committed", JBool true)])).
Definition handle_docs_delete c w (params : Json) : World * Response :=
  let doc_name := doc_or_default params in
  let '(w, r) := on_store w (delete_doc (outcome c) doc_name) in
  (w, answer r (fun _ => [("doc", JString doc_name); ("deleted", JBool true)])).
(** [$/debug]: version, build and uptime are left out of the answer. *)
Definition handle_debug_stats c w : World * Response :=
  let names := document_names (store w) in
  let '(w, stats) := foldl (fun '(w, acc) name =>
      let '(w, r) := doc_stats c w name in
      (w, match r with inr x => acc ++ [(name, x)] | inl _ => acc end)) (w, []) names in
  (w, Success (obj [("documents", JPosInt (N.of_nat (length names))); ("doc_stats", obj stats);
                    ("connection_count", JPosInt (N.of_nat (client_count (bcast w))))])).

(** ** Dispatch *)

(** The [sync/*] and [docs/*] arms of [handle_doc_request_inner]; [None] for the
    methods of the [kb/*] surface. *)
Definition handle_method c s w (m : Method) (params : Json) : option (World * Response) :=
  match m with
  | SyncStateVector => Some (handle_sync_state_vector c s w params)
  | SyncUpdateM => Some (handle_sync_update c s w params)
  | SyncAwareness => Some (handle_sync_awareness s w params)
  | SyncFullState => Some (handle_sync_full_state c s w params)
  | SyncDiff => Some (handle_sync_diff c s w params)
  | SyncResync => Some (handle_sync_resync c s w params)
  | SyncShare => Some (handle_sync_share c s w params)
  | DocsList => Some (handle_docs_list w)
  | DocsContent => Some (handle_docs_content c w params)
  | DocsStats => Some (handle_docs_stats c w params)
  | DocsMetadata => Some (handle_docs_metadata c w params)
  | DocsSaveIntent => Some (handle_docs_save_intent c w params)
  | DocsSaveCommitted => Some (handle_docs_save_committed c s w params)
  | DocsDelete => Some (handle_docs_delete c w params)
  | DebugStats => Some (handle_debug_stats c w)
  | _ => None
  end.
(** [handle_doc_request_inner] after the quota. *)
Definition handle_doc_request c s w (method : string) (params : Json) : option (World * Response) :=
  if refuse_unaddressable_kb_id params then Some (w, Failure InvalidRequest)
  else match method_parse method with
       | None => Some (w, Failure MethodNotFound)
       | Some m => if authorize_named_doc m params then Some (w, Failure InternalError)
                   else handle_method c s w m params
       end.

(** [handle_sync_tool]: the tools the MCP layer can call. *)
Definition handle_sync_tool c w (tool_name : string) (arguments : Json) : World * (unit + Json) :=
  if bool_decide (tool_name = "__mcp_sync_enable") then (w, inr (obj [("sync_enabled", JBool true)]))
  else if bool_decide (tool_name = "__mcp_sync_state_vector") then
    let doc := doc_or_default arguments in
    let '(w, r) := on_store w (store_state_vector (fresh_client c) (locked c) (outcome c) (instant c) doc) in
    (w, match r with inr sv => inr (obj [("doc", JString doc); ("sv", JString (b64_encode sv))]) | inl _ => inl tt end)
  else if bool_decide (tool_name = "__mcp_sync_update") then
    let doc := doc_or_default arguments in
    match b64_decode (default "" (get_str arguments "update")) with
    | None => (w, inl tt)
    | Some update =>
        let '(w, r) := on_store w (store_update (fresh_client c) (locked c) (outcome c) (instant c) doc update
                                     (get_u64 arguments "client_id")) in
        match r with
        | inl _ => (w, inl tt)
        | inr res =>
            (with_bcast w (broadcast (bcast w) (SyncUpdate doc (b64_encode (ar_update res)) (ar_wal_seq res) None)),
             inr (obj [("doc", JString doc); ("wal_seq", JPosInt (ar_wal_seq res))]))
        end
    end
  else if bool_decide (tool_name = "__mcp_sync_full_state") then
    let doc := doc_or_default arguments in
    let '(w, r) := on_store w (store_encode_state (fresh_client c) (locked c) (outcome c) (instant c) doc) in
    (w, match r with inr state => inr (obj [("doc", JString doc); ("state", JString (b64_encode state))]) | inl _ => inl tt end)
  else (w, inl tt).

(** The [tools/call], [sync/*] and [notifications/subscribe] arms of
    [mae_mcp::handle_request]; [None] for its other methods. The text of a tool
    result is kept as its JSON value. *)
Definition handle_request c s w (method : string) (params : Json) : option (World * Response) :=
  if bool_decide (method = "tools/call") then
    let '(w, r) := handle_sync_tool c w (default "" (get_str params "name")) (default (obj []) (json_get params "arguments")) in
    Some (w, Success (obj [("isError", JBool (match r with inr _ => false | inl _ => true end));
                           ("content", match r with inr out => out | inl _ => JNull end)]))
  else if bool_decide (method ∈ ["sync/enable"; "sync/state_vector"; "sync/update"; "sync/full_state"]) then
    let '(w, r) := handle_sync_tool c w ("__mcp_sync_" +:+ default "" (strip_prefix "sync/" method)) params in
    Some (w, match r with inr out => Success out | inl _ => Failure InternalError end)
  else if bool_decide (method = "notifications/subscribe") then
    match (let? v := json_get params "types" in as_array v) with
    | Some types =>
        let subs := list_to_set (omap as_str types) ∪ subscriptions w in
        Some (mkWorld (store w) (kbs w) (update_subscriptions (bcast w) (session_id s) (elements subs)) (touched w) subs,
              Success JNull)
    | None => Some (w, Success JNull)
    end
  else None.

(** The classification of a raw message. *)
Definition quoted (x : string) : string := String "034" (x +:+ String "034" "").
Fixpoint has_sub (p x : string) : bool :=
  bool_decide (is_Some (strip_prefix p x)) || match x with String _ r => has_sub p r | EmptyString => false end.
Definition is_doc_method (msg : string) : bool :=
  existsb (fun m => has_sub (quoted m) msg)
    ["sync/state_vector"; "sync/update"; "sync/full_state"; "sync/diff"; "sync/resync"; "sync/awareness"; "docs/list";
     "docs/content"; "docs/stats"; "docs/save_intent"; "docs/save_committed"; "docs/delete"; "docs/metadata"; "sync/share";
     "$/debug"] || has_sub (String "034" "kb/") msg.
Definition is_notification (msg : string) : bool := has_sub (quoted "method") msg && negb (has_sub (quoted "id") msg).

(** The message arm of [run_session], [from_str] being the JSON parser; [None]
    is outside the model. *)
Context (from_str : string -> option Json).
Definition handle_message c s w (msg : string) : option (World * option Response) :=
  match from_str msg with
  | None => Some (w, if is_doc_method msg && is_notification msg then None else Some (Failure ParseError))
  | Some v =>
      let params := default JNull (json_get v "params") in
      if is_doc_method msg && is_notification msg then
        match get_str v "method" with
        | Some m => Some (if bool_decide (m = "sync/awareness") then relay_awareness s w params else w, None)
        | None => Some (w, None)
        end
      else
        match get_str v "method" with
        | None => Some (w, Some (Failure ParseError))
        | Some m =>
            let? (w, r) := (if is_doc_method msg then handle_doc_request c s w m params else handle_request c s w m params) in
            Some (w, Some r)
        end
  end.

(** The end of [run_session]. *)
Definition disconnect c s w : World :=
  let docs := elements (touched w) in
  let w := foldl (fun w d =>
    (on_store w (track_client_disconnect (fresh_client c) (locked c) (outcome c) (instant c) d)).1) w docs in
  let remaining w := N.of_nat (client_count (bcast w) - 1) in
  let w := foldl (fun w d =>
    if is_sharer (store w) d (session_id s)
    then let '(w, _) := on_store w (clear_sharer d) in
         with_bcast w (broadcast_except (bcast w) (SharerLeft (session_id s) d (remaining w)) (session_id s))
    else w) w docs in
  with_bcast w (unsubscribe (broadcast_except (bcast w) (PeerLeft (session_id s) (remaining w)) (session_id s)) (session_id s)).

End Handlers.
