(* ===== verification/SessionSafety.v ===== *)
(** * SessionSafety: what the daemon lets a session read and write

    Properties of the handlers of [Session]: raw reads of knowledge-base
    documents need membership, writes need the right role, and the paths on
    which the implementation does not ask. *)
From S2P Require Import Prelude Rope Buffer Membership OpLog CollabText DocAddress Storage DocStore.
From S2P Require Import DocStoreSpec DeriveCache Json ContentOps Collection Access Broadcast Session.

Section Safety.
Context {R : Type} `{Rope R, Yrs, Crypto, Base64, CollCodec} (show : Out -> string).
Implicit Types (w : World (R := R)) (c : Ctx) (s : Session).

Lemma answer_doc {A} (r : StorageError + A) f j d name :
  answer r f = Success j -> (forall x, get_str (obj (f x)) "doc" = Some d) -> get_str j "doc" = Some name -> name = d.
Proof. unfold answer. destruct r; [done|]. intros [= <-] Hf. rewrite Hf. congruence. Qed.

(** A name that a raw read may answer for. *)
Definition readable c s w (name : string) : Prop :=
  (forall k n, parse name <> Some (KbNode k n)) /\
  forall kb, parse name = Some (KbCollection kb) -> (access show c s w kb Read).2 = Some Allow.

Lemma gate_readable c s w name : (deny_kb_doc_read show c s w name).2 = true -> readable c s w name.
Proof.
  unfold deny_kb_doc_read, readable. destruct (parse name) as [[]|]; try done; try (split; done).
  destruct (access show c s w kb_id Read) as [w' d] eqn:Ea. cbn [snd]. unfold allowed. rewrite bool_decide_eq_true. intros ->.
  split; [done|]. intros kb [= <-]. by rewrite Ea.
Qed.
Lemma not_kb_readable c s w name : is_kb_doc name = false -> readable c s w name.
Proof. unfold is_kb_doc, readable. destruct (parse name) as [[]|]; done. Qed.

(** The methods that answer with something of a named document. *)
Definition raw_readers : list Method :=
  [SyncStateVector; SyncFullState; SyncDiff; SyncResync; DocsContent; DocsStats; DocsMetadata; DocsSaveIntent;
   DocsSaveCommitted; DocsDelete].

Lemma resync_readable c s w params w' j name :
  handle_sync_resync show c s w params = (w', Success j) -> get_str j "doc" = Some name ->
  readable c s w name \/ readable c s (deny_kb_doc_read show c s w (doc_or_default params)).1 name.
Proof.
  unfold handle_sync_resync. pose proof (gate_readable c s w (doc_or_default params)) as Hg.
  destruct (deny_kb_doc_read show c s w (doc_or_default params)) as [w1 [|]]; [|done]. cbn [negb fst snd] in *.
  set (d := if has_doc _ _ then _ else _). pose proof (gate_readable c s w1 d) as Hg2.
  destruct (bool_decide (d = doc_or_default params)) eqn:Ed.
  - apply bool_decide_eq_true in Ed. cbn [negb]. destruct (on_store _ _) as [w2 r]. intros [= <- Ha] Hj. left.
    assert (name = d) as ->; [|rewrite Ed; by apply Hg]. eapply (answer_doc r _ j d); [done| |done]. by intros [??].
  - destruct (deny_kb_doc_read show c s w1 d) as [w2 [|]]; [|done]. cbn [negb snd] in *.
    destruct (on_store _ _) as [w3 r]. intros [= <- Ha] Hj. right.
    assert (name = d) as ->; [|by apply Hg2]. eapply (answer_doc r _ j d); [done| |done]. by intros [??].
Qed.

(** C3. Raw document reads respect membership: whatever a session sends to the
    read methods of the [sync/*] family or to the [docs/*] family, an answer
    about a document never concerns a knowledge-base node, and concerns a
    collection only if the access decision for the caller on that collection
    was to allow reading; suffix resolution does not get around it. *)
Theorem raw_reads_respect_membership c s w method m params w' j name :
  method_parse method = Some m -> m ∈ raw_readers ->
  handle_doc_request show c s w method params = Some (w', Success j) -> get_str j "doc" = Some name ->
  readable c s w name \/ readable c s (deny_kb_doc_read show c s w (doc_or_default params)).1 name.
Proof.
  intros Hm Hin. unfold handle_doc_request. destruct (refuse_unaddressable_kb_id params); [done|]. rewrite Hm.
  destruct (authorize_named_doc m params) eqn:Ea; [done|].
  assert (Hdocs : scope_of m = NonKbDocOnly -> is_kb_doc (doc_or_default params) = false).
  { intros Hs. unfold authorize_named_doc in Ea. rewrite Hs in Ea. cbn in Ea. unfold doc_or_default.
    by destruct (get_str params "doc"). }
  pose proof (gate_readable c s w (doc_or_default params)) as Hg.
  assert (Hans : forall A (r : StorageError + A) f, answer r f = Success j ->
    (forall x, get_str (obj (f x)) "doc" = Some (doc_or_default params)) -> get_str j "doc" = Some name ->
    name = doc_or_default params) by (intros A r f; apply answer_doc).
  unfold raw_readers in Hin.
  repeat (apply elem_of_cons in Hin as [->|Hin]); [..|by apply not_elem_of_nil in Hin]; cbn [handle_method].
  1: unfold handle_sync_state_vector. 2: unfold handle_sync_full_state. 3: unfold handle_sync_diff.
  4: { intros [= E]. by apply (resync_readable c s w params w' j name E). }
  1-3: destruct (deny_kb_doc_read _ _ _ _ _) as [w1 [|]]; [|done]; cbn [negb snd] in *.
  3: destruct (get_str params "sv"); [|done]; destruct (b64_decode _); [|done].
  1-3: destruct (on_store _ _) as [w2 r]; intros [= <- Ha] Hj; left; rewrite (Hans _ r _ Ha); try done; auto; by intros [??].
  all: intros Hr Hj; left; apply not_kb_readable; rewrite <- (Hdocs eq_refl); f_equal; revert Hr.
  - unfold handle_docs_content. destruct (on_store _ _) as [w2 r]. intros [= <- Ha]. by eapply Hans.
  - unfold handle_docs_stats. destruct (doc_stats _ _ _) as [w2 r]. intros [= <- Ha]. by eapply Hans.
  - unfold handle_docs_metadata. destruct (doc_stats _ _ _) as [w2 r]. intros [= <- Ha]. by eapply Hans.
  - unfold handle_docs_save_intent. destruct (get_str params "expected_hash"); [|done].
    destruct (on_store _ _) as [w2 r]. intros [= <- Ha]. by eapply Hans.
  - unfold handle_docs_save_committed. destruct (on_store _ _) as [w2 r]. intros [= <- <-]. by injection Hj as <-.
  - unfold handle_docs_delete. destruct (on_store _ _) as [w2 r]. intros [= <- Ha]. by eapply Hans.
Qed.

(** C11. Writes through [sync/update] are authorized: an accepted update of a
    collection comes from a caller that may manage it, and an accepted update
    of a node names a knowledge base in which the caller may edit; a node
    write that names none is refused. *)
Theorem sync_update_is_authorized c s w params w' j :
  handle_sync_update show c s w params = (w', Success j) ->
  exists doc, get_str params "doc" = Some doc /\
  (forall kb, parse doc = Some (KbCollection kb) -> (access show c s w kb Manage).2 = Some Allow) /\
  (forall k n, parse doc = Some (KbNode k n) ->
     exists kb update, get_str params "kb_id" = Some kb /\ (let? b := get_str params "update" in b64_decode b) = Some update /\
       let w1 := (relay_check show c s (touch c s w doc) kb doc update (json_get params "content_header")).1 in
       (access show c s w1 kb Edit).2 = Some Allow).
Proof.
  unfold handle_sync_update. destruct (get_str params "doc") as [doc|]; [|done]. intros Hr. exists doc. split; [done|].
  assert (Hg : (deny_collection_smuggling show c s w doc).2 = true).
  { by destruct (deny_collection_smuggling show c s w doc) as [w1 [|]]. }
  split.
  { intros kb Hp. unfold deny_collection_smuggling in Hg. rewrite Hp in Hg.
    destruct (access show c s w kb Manage) as [w1 d]. cbn [snd] in *. by apply bool_decide_eq_true in Hg. }
  intros k n Hp. unfold deny_collection_smuggling in Hr. rewrite Hp in Hr. cbn [negb] in Hr.
  destruct (get_str params "update") as [u|]; [|done]. destruct (b64_decode u) as [update|] eqn:Eu; [|done].
  destruct (_ <? _); [done|]. destruct (get_str params "kb_id") as [kb|] eqn:Ekb.
  - destruct (relay_check show c s (touch c s w doc) kb doc update (json_get params "content_header")) as [w2 [err|header]] eqn:Er;
      [done|].
    destruct (authorize_node_write show c s w2 doc update (Some kb) header) as [w3 [|]] eqn:Ea; [|done].
    exists kb, update. split_and!; [done|done|]. rewrite Er. cbn [fst].
    unfold authorize_node_write in Ea. rewrite Hp in Ea. destruct (access show c s w2 kb Edit) as [w4 d]. cbn [snd].
    destruct (allowed d) eqn:Ed; [|done]. by apply bool_decide_eq_true in Ed.
  - unfold authorize_node_write in Hr. by rewrite Hp in Hr.
Qed.

(** [sync/share] asks no one: it replaces the named document, a collection or
    node of any knowledge base included, and its outcome does not depend on
    who the caller is, on its role or on its transport. *)
Theorem share_ignores_the_caller c s s' w params :
  session_id s = session_id s' ->
  handle_doc_request show c s w "sync/share" params = handle_doc_request show c s' w "sync/share" params.
Proof.
  intros Hs. unfold handle_doc_request. case_match; [done|]. cbn [handle_method method_parse]. 
  change (method_parse "sync/share") with (Some SyncShare). cbv iota. case_match; [done|]. cbn [handle_method].
  unfold handle_sync_share. by rewrite Hs.
Qed.

(** The tool path reads any document: a message that calls the sync tools by
    name is answered with the full state of the document, a node or collection
    of any knowledge base included, whatever the caller's identity. *)
Theorem tool_call_reads_any_document from_str c s w msg v doc e :
  from_str msg = Some v -> is_doc_method msg = false ->
  get_str v "method" = Some "tools/call" ->
  (let? p := json_get v "params" in get_str p "name") = Some "__mcp_sync_full_state" ->
  (let? p := json_get v "params" in let? a := json_get p "arguments" in get_str a "doc") = Some doc ->
  docs (store w) !! doc = Some e ->
  handle_message show from_str c s w msg =
    Some (w, Some (Success (obj [("isError", JBool false);
      ("content", obj [("doc", JString doc); ("state", JString (b64_encode (encode_state (sync e))))])]))).
Proof.
  intros Hf Hd Hm Hn Ha He. unfold handle_message. rewrite Hf, Hd, Hm. cbn [andb].
  destruct (json_get v "params") as [p|]; [|done]. cbn [default from_option id].
  unfold handle_request. rewrite bool_decide_eq_true_2 by done. rewrite Hn.
  destruct (json_get p "arguments") as [a|]; [|done]. cbn [default from_option id].
  unfold handle_sync_tool. rewrite !bool_decide_eq_false_2, bool_decide_eq_true_2 by done.
  unfold doc_or_default. rewrite Ha. cbn [default from_option id].
  unfold on_store, store_encode_state, read_doc, get_or_create, get_or_create_with, sbind, get. rewrite He. cbn [ret].
  by destruct w.
Qed.

End Safety.

Module SessionWitnesses.
Import SetCrdt CollectionWitnesses ContentWitnesses.
#[local] Existing Instance ListRope.list_rope.

(** Collections of the toy CRDT: [T] is the team's, owned by Ann with Vic as
    editor; [M] is Mallory's own; [X] is one Mallory makes up for the team. *)
Definition team : Root := coll_run show_json (new_owned "team" "ann" "Ann") [CUpsert 5 "vic" "Vic" Editor; CAddNode "n1" "Plan"].
Definition decode_toy (state : string) : option Loaded :=
  if bool_decide (state = "=T") then Some (mkLoaded team "vT")
  else if bool_decide (state = "=M") then Some (mkLoaded (new_owned "mine" "mallory" "Mal") "vM")
  else if bool_decide (state = "=X") then Some (mkLoaded (new_owned "team" "mallory" "Mal") "vX")
  else None.
#[local] Instance toy_codec : CollCodec := {|
  decode_coll := decode_toy;
  commit_coll l root := (mkLoaded root (l_sv l), "=");
  node_clocks _ := Some ∅;
  merged_clocks _ _ := Some ∅;
  update_clocks _ := Some ∅;
|}.

Definition ctx : Ctx := mkCtx 10 100 1 ∅ (fun _ _ => true) None None false 1000.
Definition mallory : Session := mkSession 7 (Some "mallory") (Some "Mal") Hub.
Definition vic : Session := mkSession 8 (Some "vic") (Some "Vic") Hub.
Notation toy_world := (World (R := list N)).
Definition blank_world : toy_world :=
  mkWorld (mkStore ∅ fresh_tables 100 0 0 None) (boot fresh_tables) (bc_run [OpSubscribe 7 []; OpSubscribe 8 []]) ∅ ∅.
(** The daemon with both collections and one node of the team. *)
Definition hosting : toy_world :=
  foldl (fun w du => (on_store w (share_doc 1 ∅ (outcome ctx) 10 du.1 du.2)).1) blank_world
    [("kbc:team", "=T"); ("kbc:mine", "=M"); ("kbn:team:n1", "=p")].
Definition ask (s : Session) (w : toy_world) (method : string) (fields : list (string * string)) : toy_world * bool :=
  match handle_doc_request show_json ctx s w method (obj (map (fun kv => (kv.1, JString kv.2)) fields)) with
  | Some (w', Success _) => (w', true)
  | Some (w', Failure _) => (w', false)
  | None => (w, false)
  end.
Definition state_of (w : toy_world) (d : string) : option string := (fun e => encode_state (sync e)) <$> docs (store w) !! d.
Definition decision (s : Session) (w : toy_world) (kb : string) (o : KbOp) : option AccessDecision := (access show_json ctx s w kb o).2.

(** What the gates refuse and admit. *)
Lemma gates_example :
  (ask mallory hosting "sync/full_state" [("doc", "kbc:team")]).2 = false /\
  (ask vic hosting "sync/full_state" [("doc", "kbc:team")]).2 = true /\
  (ask vic hosting "sync/full_state" [("doc", "kbn:team:n1")]).2 = false /\
  (ask mallory hosting "docs/content" [("doc", "kbn:team:n1")]).2 = false /\
  (ask mallory hosting "sync/resync" [("doc", "n1")]).2 = false /\
  (ask mallory hosting "sync/update" [("doc", "kbc:team"); ("update", "=X")]).2 = false /\
  (ask mallory hosting "sync/update" [("doc", "kbn:team:n1"); ("kb_id", "team"); ("update", "=e")]).2 = false /\
  (ask mallory hosting "sync/update" [("doc", "kbn:team:n1"); ("update", "=e")]).2 = false /\
  (ask vic hosting "sync/update" [("doc", "kbn:team:n1"); ("kb_id", "team"); ("update", "=e")]).2 = true.
Proof. vm_compute. repeat split. Qed.

(** An editor of one knowledge base can write into another: the access check
    of a node write uses the knowledge base the request names, not the one in
    the document's address, so Mallory, who has no access to the team's
    knowledge base, edits the team's node by naming her own. *)
Theorem editor_of_one_kb_writes_another :
  let '(w, ok) := ask mallory hosting "sync/update" [("doc", "kbn:team:n1"); ("kb_id", "mine"); ("update", "=e")] in
  decision mallory hosting "team" Edit = Some (Deny NotMember) /\ ok = true /\
  state_of hosting "kbn:team:n1" = Some "=p" /\ state_of w "kbn:team:n1" = Some "=pe".
Proof. vm_compute. repeat split. Qed.

(** The takeover that [share_ignores_the_caller] allows: the collection is
    replaced, Mallory manages it and its editor is locked out. *)
Lemma share_takes_over_collection :
  let '(w, ok) := ask mallory hosting "sync/share" [("doc", "kbc:team"); ("update", "=X")] in
  ok = true /\ decision mallory w "team" Manage = Some Allow /\ decision vic w "team" Read = Some (Deny NotMember).
Proof. vm_compute. repeat split. Qed.

(** Naming a node in an awareness message is enough to be sent its edits: Mallory
    asks for update events and reports a cursor in the team's node, then
    receives Vic's edit of it. *)
Lemma awareness_subscribes_to_any_document :
  let w := with_bcast hosting (update_subscriptions (bcast hosting) 7 ["sync_update"]) in
  let w := (ask mallory w "sync/awareness" [("doc", "kbn:team:n1")]).1 in
  let w := (ask vic w "sync/update" [("doc", "kbn:team:n1"); ("kb_id", "team"); ("update", "=e")]).1 in
  (recv (bcast w) 0).2 = Some (SyncUpdate "kbn:team:n1" "=e" 4 None).
Proof. by vm_compute. Qed.

Definition request (s : Session) (method doc : string) : option (toy_world * Response) :=
  handle_doc_request show_json ctx s hosting method (obj [("doc", JString doc)]).

Lemma raw_reads_respect_membership_witness :
  exists w' j, request vic "sync/full_state" "kbc:team" = Some (w', Success j) /\
  (readable show_json ctx vic hosting "kbc:team" \/
   readable show_json ctx vic (deny_kb_doc_read show_json ctx vic hosting "kbc:team").1 "kbc:team").
Proof.
  assert (Hj : (match request vic "sync/full_state" "kbc:team" with Some (_, Success j) => get_str j "doc" | _ => None end)
    = Some "kbc:team") by (vm_compute; reflexivity).
  destruct (request vic "sync/full_state" "kbc:team") as [[w' [j|]]|] eqn:E; [|discriminate Hj|discriminate Hj].
  exists w', j. split; [reflexivity|].
  apply (raw_reads_respect_membership show_json ctx vic hosting "sync/full_state" SyncFullState
    (obj [("doc", JString "kbc:team")]) w' j "kbc:team"); [reflexivity|by right; left|exact E|exact Hj].
Defined.

Lemma sync_update_is_authorized_witness :
  let params := obj [("doc", JString "kbc:team"); ("update", JString "=T")] in
  let ann := mkSession 9 (Some "ann") None Hub in
  exists doc, get_str params "doc" = Some doc /\
  (forall kb, parse doc = Some (KbCollection kb) -> (access show_json ctx ann hosting kb Manage).2 = Some Allow) /\
  (forall k n, parse doc = Some (KbNode k n) ->
     exists kb update, get_str params "kb_id" = Some kb /\ (let? b := get_str params "update" in b64_decode b) = Some update /\
       let w1 := (relay_check show_json ctx ann (touch ctx ann hosting doc) kb doc update (json_get params "content_header")).1 in
       (access show_json ctx ann w1 kb Edit).2 = Some Allow).
Proof.
  intros params ann.
  assert (Hs : (match (handle_sync_update show_json ctx ann hosting params).2 with Success _ => true | _ => false end) = true)
    by (vm_compute; reflexivity).
  destruct (handle_sync_update show_json ctx ann hosting params) as [w' [j|]] eqn:E; [|discriminate Hs].
  exact (sync_update_is_authorized show_json ctx ann hosting params w' j E).
Defined.

Lemma share_ignores_the_caller_witness :
  let params := obj [("doc", JString "kbc:team"); ("update", JString "=X")] in
  let ann := mkSession 7 (Some "ann") None P2p in
  handle_doc_request show_json ctx mallory hosting "sync/share" params = handle_doc_request show_json ctx ann hosting "sync/share" params.
Proof. intros params ann. exact (share_ignores_the_caller show_json ctx mallory ann hosting params eq_refl). Defined.

(** The parser on one message. *)
Definition call_msg : string := "{" +:+ quoted "method" +:+ ":" +:+ quoted "tools/call" +:+ "}".
Definition call : Json :=
  obj [("method", JString "tools/call");
       ("params", obj [("name", JString "__mcp_sync_full_state"); ("arguments", obj [("doc", JString "kbn:team:n1")])])].
Definition parse_call (msg : string) : option Json := if bool_decide (msg = call_msg) then Some call else None.

Lemma tool_call_reads_any_document_witness :
  exists e, docs (store hosting) !! "kbn:team:n1" = Some e /\
  handle_message show_json parse_call ctx mallory hosting call_msg =
    Some (hosting, Some (Success (obj [("isError", JBool false);
      ("content", obj [("doc", JString "kbn:team:n1"); ("state", JString (b64_encode (encode_state (sync e))))])]))).
Proof.
  assert (Hs : (match docs (store hosting) !! "kbn:team:n1" with Some _ => true | None => false end) = true)
    by (vm_compute; reflexivity).
  destruct (docs (store hosting) !! "kbn:team:n1") as [e|] eqn:E; [|discriminate Hs]. exists e. split; [reflexivity|].
  apply (tool_call_reads_any_document show_json parse_call ctx mallory hosting call_msg call "kbn:team:n1" e);
    [vm_compute; reflexivity..|exact E].
Defined.

End SessionWitnesses.
