(* ===== verification/KbNode.v ===== *)
(** * KbNode: the document of one knowledge-base node

    Models [shared/sync/src/kb/node.rs]: the fields of a node in the root map of
    its CRDT document, their readers and setters, the content hashes, and the
    rebirth of a node as a fresh document. An operation is one transaction on
    the map of one replica. [reconcile_text_ref] leaves the target text
    ([CollabText]), so a text setter replaces the text. *)
From S2P Require Import Prelude Membership OpLog.

(** [yrs::Out] as a node uses it: a scalar by its text, a text, an array of
    scalars, a map of scalars. *)
Inductive Val := VStr (s : string) | VText (s : string) | VArr (l : list string) | VMap (m : gmap string string).
Notation Node := (gmap string Val).

Record MaterializedNode := mkMat {
  mat_id : string;
  mat_title : string;
  mat_body : string;
  mat_tags : list string;
  mat_links : list string;
  mat_kind : option string;
  mat_todo_state : option string;
  mat_priority : option string;
  mat_aliases : list string;
  mat_properties : gmap string string;
  mat_source_version : option N;
  mat_source : option string;
  mat_created_at : option Z;
}.

(** [str::parse::<i64>] and [str::parse::<u32>]. *)
Definition parse_i64 (s : string) : option Z :=
  match s with
  | String "-" r => match r with
                    | String "+" _ | String "-" _ => None
                    | _ => Z.opp ∘ Z.of_N <$> parse_uint (2 ^ 63) r
                    end
  | _ => Z.of_N <$> parse_uint (2 ^ 63 - 1) s
  end.
Lemma parse_i64_dec (n : N) : (n < 2 ^ 63)%N -> parse_i64 (to_dec n) = Some (Z.of_N n).
Proof.
  intros Hn. unfold parse_i64.
  assert (Hp : parse_uint (2 ^ 63 - 1) (to_dec n) = Some n) by (apply parse_to_dec; lia).
  assert (Hd : forall r, to_dec n <> String "-" r). { intros r E. by rewrite E in Hp. }
  destruct (to_dec n) as [|[[] [] [] [] [] [] [] []] s]; rewrite ?Hp; try done.
Qed.
Definition u32_max : N := 2 ^ 32 - 1.

Module KbNodeDoc.
Section Node.
Context `{Crypto} (show : Val -> string).
Implicit Types (d : Node).

(** [Out::to_string]; [show] prints arrays and maps. *)
Definition val_text (v : Val) : string := match v with VStr s | VText s => s | _ => show v end.

(** ** Readers *)

Definition get_text d (key : string) : string := match d !! key with Some (VText t) => t | _ => "" end.
Definition get_array d (key : string) : list string := match d !! key with Some (VArr l) => l | _ => [] end.
Definition node_id d : string := default "" (val_text <$> d !! "id").
Definition title d : string := get_text d "title".
Definition body d : string := get_text d "body".
Definition tags d : list string := get_array d "tags".
Definition links d : list string := get_array d "links".
Definition aliases d : list string := get_array d "aliases".
Definition properties d : gmap string string := match d !! "props" with Some (VMap m) => m | _ => ∅ end.
Definition node_schema_version d : Z := default 1%Z (let? v := d !! "schema_v" in parse_i64 (val_text v)).
Definition scalar d (key : string) : option string := non_empty (val_text <$> d !! key).
Definition kind d : option string := scalar d "kind".
Definition todo_state d : option string := scalar d "todo".
Definition priority d : option string := scalar d "prio".
Definition source d : option string := scalar d "source".
Definition source_version d : option N := let? s := scalar d "src_v" in parse_uint u32_max s.
Definition created_at d : option Z := let? s := scalar d "created" in parse_i64 s.
Definition get_meta d (key : string) : option string := match d !! "meta" with Some (VMap m) => m !! key | _ => None end.

Definition materialize d : MaterializedNode :=
  mkMat (node_id d) (title d) (body d) (tags d) (links d) (kind d) (todo_state d) (priority d) (aliases d) (properties d)
    (source_version d) (source d) (created_at d).

(** ** Construction and setters *)

Definition new_with_client_id (id title body : string) (tags : list string) : Node :=
  <["props" := VMap ∅]> (<["aliases" := VArr []]> (<["meta" := VMap ∅]> (<["links" := VArr []]>
    (<["tags" := VArr tags]> (<["body" := VText body]> (<["title" := VText title]> {["id" := VStr id]})))))).
(** Only [new] stamps the creation time; [now] is the clock in seconds. *)
Definition stamp_created_at d (now : N) : Node :=
  if bool_decide (d !! "created" = None) then <["created" := VStr (to_dec now)]> d else d.
Definition new_node (now : N) (id title body : string) (tags : list string) : Node :=
  stamp_created_at (new_with_client_id id title body tags) now.

Definition set_text d (key text : string) : Node :=
  match d !! key with Some (VText _) => <[key := VText text]> d | _ => d end.
Definition set_title d (text : string) : Node := set_text d "title" text.
Definition set_body d (text : string) : Node := set_text d "body" text.

Definition push_back d (key x : string) : Node :=
  match d !! key with Some (VArr l) => <[key := VArr (l ++ [x])]> d | _ => d end.
(** [arr.remove] at the first position of the value. *)
Fixpoint remove_once (x : string) (l : list string) : list string :=
  match l with [] => [] | y :: l' => if bool_decide (y = x) then l' else y :: remove_once x l' end.
Definition remove_value d (key x : string) : Node :=
  match d !! key with Some (VArr l) => <[key := VArr (remove_once x l)]> d | _ => d end.
Definition add_tag d (t : string) : Node := push_back d "tags" t.
Definition remove_tag d (t : string) : Node := remove_value d "tags" t.
Definition add_link d (t : string) : Node := push_back d "links" t.
Definition remove_link d (t : string) : Node := remove_value d "links" t.

(** The diff by value of [set_tags] and [set_aliases]: [retain] walks the array
    from its end and drops what is unwanted or already kept, [append_missing]
    adds the wanted values that are absent. The first component is the array
    (in reverse while walking), the second the values kept. *)
Fixpoint retain (wanted rev_current kept : list string) : list string * list string :=
  match rev_current with
  | [] => ([], kept)
  | x :: l => if bool_decide (x ∈ wanted) && negb (bool_decide (x ∈ kept))
              then let '(r, k) := retain wanted l (kept ++ [x]) in (r ++ [x], k)
              else retain wanted l kept
  end.
Fixpoint append_missing (wanted arr kept : list string) : list string :=
  match wanted with
  | [] => arr
  | x :: l => if bool_decide (x ∈ kept) then append_missing l arr kept
              else append_missing l (arr ++ [x]) (kept ++ [x])
  end.
Definition set_by_value (current wanted : list string) : list string :=
  let '(r, kept) := retain wanted (reverse current) [] in append_missing wanted r kept.

Definition set_tags d (ts : list string) : Node :=
  match d !! "tags" with Some (VArr l) => <["tags" := VArr (set_by_value l ts)]> d | _ => d end.

Definition stamp_schema_version d : Node :=
  if bool_decide ((let? v := d !! "schema_v" in parse_i64 (val_text v)) = Some 2%Z) then d
  else <["schema_v" := VStr "2"]> d.
Definition set_scalar d (key : string) (value : option string) : Node :=
  if bool_decide (scalar d key = value) then d
  else stamp_schema_version (match value with Some v => <[key := VStr v]> d | None => delete key d end).
Definition set_kind d (v : option string) : Node := set_scalar d "kind" v.
Definition set_todo_state d (v : option string) : Node := set_scalar d "todo" v.
Definition set_priority d (v : option string) : Node := set_scalar d "prio" v.
Definition set_source d (v : option string) : Node := set_scalar d "source" v.
Definition set_source_version d (v : option N) : Node := set_scalar d "src_v" (to_dec <$> v).

(** The [changed] flags: something was dropped or something was added. *)
Definition changes_by_value (current wanted : list string) : bool :=
  let '(r, kept) := retain wanted (reverse current) [] in
  negb (length r =? length current) || negb (length (append_missing wanted r kept) =? length r).
Definition set_aliases d (l : list string) : Node :=
  let current := aliases d in
  let d := <["aliases" := VArr (set_by_value current l)]> d in
  if changes_by_value current l then stamp_schema_version d else d.
Definition set_properties d (props : gmap string string) : Node :=
  let current := properties d in
  let gone := List.filter (fun k => negb (bool_decide (is_Some (props !! k)))) (map fst (map_to_list current)) in
  let fresh := List.filter (fun kv => negb (bool_decide (current !! kv.1 = Some kv.2))) (map_to_list props) in
  let m := foldl (fun m k => delete k m) current gone in
  let m := foldl (fun m kv => <[kv.1 := kv.2]> m) m fresh in
  let d := <["props" := VMap m]> d in
  if bool_decide (gone = []) && bool_decide (fresh = []) then d else stamp_schema_version d.
Definition set_meta d (key value : string) : Node :=
  match d !! "meta" with Some (VMap m) => <["meta" := VMap (<[key := value]> m)]> d | _ => d end.

(** ** Hashes and rebirth *)

Definition fields (l : list string) : string := String.concat "" (map field l).
Definition content_hash d : string :=
  let m := materialize d in hex_encode (sha256 (fields (mat_title m :: mat_body m :: mat_tags m))).

(** Sorting of strings and of properties by name. *)
Definition sorted (l : list string) : list string := merge_sort String.le l.
Definition key_le (a b : string * string) : Prop := String.le a.1 b.1.
#[local] Instance key_le_dec : RelDecision key_le.
Proof. intros a b. unfold key_le. apply _. Defined.
Definition sorted_props (m : gmap string string) : list (string * string) := merge_sort key_le (map_to_list m).

Definition rebirth_fields (m : MaterializedNode) : list string :=
  "maerebirth/v1" :: mat_id m :: mat_title m :: mat_body m :: mat_tags m ++
  "|links|" :: sorted (mat_links m) ++
  "|v2|" :: default "" (mat_kind m) :: default "" (mat_todo_state m) :: default "" (mat_priority m) ::
  default "" (mat_source m) :: default "" (to_dec <$> mat_source_version m) :: sorted (mat_aliases m) ++
  "|props|" :: concat (map (fun kv => [kv.1; kv.2]) (sorted_props (mat_properties m))).
Definition rebirth_hash d : string := hex_encode (sha256 (fields (rebirth_fields (materialize d)))).

Definition reborn d : Node :=
  let m := materialize d in
  let d := new_with_client_id (mat_id m) (mat_title m) (mat_body m) (mat_tags m) in
  let d := set_kind d (mat_kind m) in
  let d := set_todo_state d (mat_todo_state m) in
  let d := set_priority d (mat_priority m) in
  let d := set_source d (mat_source m) in
  let d := set_source_version d (mat_source_version m) in
  let d := set_aliases d (mat_aliases m) in
  let d := set_properties d (mat_properties m) in
  foldl add_link d (mat_links m).

(** ** Lemmas *)

Lemma retain_spec wanted l : forall kept,
  let '(r, k) := retain wanted l kept in
  k = kept ++ reverse r /\ NoDup r /\ (forall x, x ∈ r <-> x ∈ l /\ x ∈ wanted /\ x ∉ kept) /\ length r <= length l /\
  (length r = length l -> r = reverse l).
Proof.
  induction l as [|y l IH]; intros kept; cbn [retain].
  { split_and!; [by rewrite app_nil_r|constructor|set_solver|done|done]. }
  destruct (bool_decide (y ∈ wanted) && negb (bool_decide (y ∈ kept))) eqn:E.
  - apply andb_true_iff in E as [Ew%bool_decide_eq_true Ek%negb_true_iff%bool_decide_eq_false].
    specialize (IH (kept ++ [y])). destruct (retain wanted l (kept ++ [y])) as [r k]. destruct IH as (-> & Hn & Hr & Hl & Hf).
    split_and!.
    + by rewrite reverse_app, <- app_assoc.
    + apply NoDup_app. split_and!; [done| |apply NoDup_singleton]. intros x Hx%Hr. set_solver.
    + intros x. rewrite elem_of_app, list_elem_of_singleton, Hr, elem_of_cons, elem_of_app. destruct (decide (x = y)); set_solver.
    + rewrite length_app. simpl. lia.
    + rewrite length_app, reverse_cons. simpl. intros. by rewrite Hf by lia.
  - specialize (IH kept). destruct (retain wanted l kept) as [r k]. destruct IH as (-> & Hn & Hr & Hl & Hf).
    assert (Hy : ~ (y ∈ wanted /\ y ∉ kept)).
    { intros [??]. by rewrite bool_decide_eq_true_2, bool_decide_eq_false_2 in E. }
    split_and!; [done|done| |simpl; lia|simpl; lia]. intros x. rewrite Hr, elem_of_cons. naive_solver.
Qed.

Lemma append_missing_spec wanted : forall arr kept, NoDup arr -> (forall x, x ∈ kept <-> x ∈ arr) ->
  NoDup (append_missing wanted arr kept) /\ arr `prefix_of` append_missing wanted arr kept /\
  (forall x, x ∈ append_missing wanted arr kept <-> x ∈ arr \/ x ∈ wanted).
Proof.
  induction wanted as [|y l IH]; intros arr kept Hn Hk; cbn [append_missing]; [split_and!; [done|done|set_solver]|].
  case_bool_decide as Hy.
  - destruct (IH arr kept Hn Hk) as (H1 & H2 & H3). split_and!; [done|done|]. intros x. rewrite H3, elem_of_cons.
    apply Hk in Hy. naive_solver.
  - destruct (IH (arr ++ [y]) (kept ++ [y])) as (H1 & H2 & H3).
    + apply NoDup_app. split_and!; [done| |apply NoDup_singleton]. intros x Hx ->%list_elem_of_singleton. by apply Hy, Hk.
    + intros x. by rewrite !elem_of_app, Hk.
    + split_and!; [done|etrans; [|exact H2]; by apply prefix_app_r|]. intros x. rewrite H3. set_solver.
Qed.

Lemma append_missing_fresh wanted : forall arr kept, NoDup (arr ++ wanted) -> (forall x, x ∈ kept <-> x ∈ arr) ->
  append_missing wanted arr kept = arr ++ wanted.
Proof.
  induction wanted as [|y l IH]; intros arr kept Hn Hk; cbn [append_missing]; [by rewrite app_nil_r|].
  rewrite bool_decide_eq_false_2.
  - rewrite (cons_middle y arr l), app_assoc in Hn |- *. apply IH; [done|]. intros x. by rewrite !elem_of_app, Hk.
  - rewrite Hk. apply NoDup_app in Hn as (_ & Hd & _). intros Hy. apply (Hd y Hy). set_solver.
Qed.

(** The diff by value leaves each wanted value once, and reports a change
    exactly when the array differs. *)
Lemma set_by_value_spec current wanted :
  NoDup (set_by_value current wanted) /\ (forall x, x ∈ set_by_value current wanted <-> x ∈ wanted) /\
  (changes_by_value current wanted = false <-> set_by_value current wanted = current).
Proof.
  unfold set_by_value, changes_by_value. pose proof (retain_spec wanted (reverse current) []) as Hr.
  destruct (retain wanted (reverse current) []) as [r k]. destruct Hr as (-> & Hn & Hr & Hl & Hf).
  rewrite length_reverse in *. rewrite reverse_involutive in Hf.
  destruct (append_missing_spec wanted r (reverse r)) as (H1 & H2 & H3); [done|set_solver|].
  cbn [app] in *. split_and!; [done|intros x; rewrite H3, Hr; naive_solver|].
  rewrite orb_false_iff, !negb_false_iff, !Nat.eqb_eq. split.
  - intros [E1 E2]. rewrite (Hf E1) in *. symmetry. apply prefix_length_eq; [done|lia].
  - intros E. pose proof (prefix_length _ _ H2) as Hp. rewrite E in *.
    assert (Hs : length current <= length r); [|lia]. apply submseteq_length, NoDup_submseteq; [done|].
    intros x Hx. apply Hr. split_and!; [set_solver|apply H3 in Hx; naive_solver|set_solver].
Qed.
Lemma set_by_value_fresh wanted : NoDup wanted -> set_by_value [] wanted = wanted.
Proof. intros Hn. unfold set_by_value. cbn. by rewrite append_missing_fresh. Qed.

Lemma stamp_other d k : k <> "schema_v" -> stamp_schema_version d !! k = d !! k.
Proof. intros Hk. unfold stamp_schema_version. case_bool_decide; [done|]. by rewrite lookup_insert_ne. Qed.
Lemma scalar_ext d d' k : d !! k = d' !! k -> scalar d k = scalar d' k.
Proof. unfold scalar. by intros ->. Qed.
Lemma set_scalar_other d k v k' : k' <> k -> k' <> "schema_v" -> set_scalar d k v !! k' = d !! k'.
Proof.
  intros Hk Hs. unfold set_scalar. case_bool_decide; [done|]. rewrite stamp_other by done.
  destruct v; [by rewrite lookup_insert_ne|by rewrite lookup_delete_ne].
Qed.
Lemma set_scalar_same d k v : k <> "schema_v" -> v <> Some "" -> scalar (set_scalar d k v) k = v.
Proof.
  intros Hk Hv. unfold set_scalar. case_bool_decide as E; [done|]. unfold scalar. rewrite stamp_other by done.
  destruct v as [v|]; [|by rewrite lookup_delete_eq]. rewrite lookup_insert_eq. cbn. rewrite bool_decide_eq_false_2; [done|].
  by intros ->.
Qed.
Lemma scalar_nonempty d k : scalar d k <> Some "".
Proof. unfold scalar, non_empty. destruct (val_text <$> d !! k); [case_bool_decide; naive_solver|done]. Qed.

Lemma inserted_lookup (l : list (string * string)) : forall (m : gmap string string) k v, NoDup l.*1 ->
  foldl (fun m kv => <[kv.1 := kv.2]> m) m l !! k = Some v <-> (k, v) ∈ l \/ (k ∉ l.*1 /\ m !! k = Some v).
Proof.
  induction l as [|[y u] l IH]; intros m k v Hn; [set_solver|]. inversion Hn as [|?? Hy Hn']; subst. cbn [foldl fst snd].
  rewrite (IH _ _ _ Hn'), lookup_insert_Some, fmap_cons, !elem_of_cons. cbn [fst]. split.
  - intros [?|(? & [[<- <-]|[??]])]; [auto|auto|]. right. split; [|done]. intros [?|?]; congruence.
  - intros [[[= -> ->]|?]|[Hk Hm]]; [|by left|].
    + right. split; [done|]. left. done.
    + right. split; [naive_solver|]. right. split; [naive_solver|done].
Qed.
Lemma filtered_keys (m : gmap string string) (f : string * string -> bool) :
  NoDup (List.filter f (map_to_list m)).*1 /\
  forall k, k ∉ (List.filter f (map_to_list m)).*1 <-> forall u, m !! k = Some u -> f (k, u) = false.
Proof.
  split.
  - pose proof (NoDup_fst_map_to_list m) as Hn. induction (map_to_list m) as [|[k u] l IH]; [done|]. cbn in Hn |- *.
    inversion Hn as [|?? Hk Hl]; subst. destruct (f (k, u)); [|auto]. cbn. constructor; [|auto].
    rewrite list_elem_of_fmap. intros (x & -> & [Hx _]%elem_of_List_filter). apply Hk. apply list_elem_of_fmap. eauto.
  - intros k. rewrite list_elem_of_fmap. split.
    + intros Hno u Hu. destruct (f (k, u)) eqn:E; [|done]. destruct Hno. exists (k, u). split; [done|].
      apply elem_of_List_filter. by rewrite elem_of_map_to_list.
    + intros Hall ([k' u] & -> & [Hu%elem_of_map_to_list Hf]%elem_of_List_filter). cbn in Hall. by rewrite (Hall u Hu) in Hf.
Qed.

(** Setting the properties makes them exactly the given ones. *)
Lemma set_properties_eq d props : properties (set_properties d props) = props.
Proof.
  unfold set_properties, properties at 1. set (cur := properties d). set (gone := List.filter _ (map fst _)).
  set (fresh := List.filter _ (map_to_list props)). set (m := foldl _ (foldl _ cur gone) fresh).
  assert (Hm : m = props).
  { destruct (filtered_keys props (fun kv => negb (bool_decide (cur !! kv.1 = Some kv.2)))) as [Hn Hf].
    apply map_eq. intros k. apply option_eq. intros v. unfold m. rewrite inserted_lookup by done.
    rewrite deletes_lookup. unfold fresh, gone. rewrite (Hf k), !elem_of_List_filter, elem_of_map_to_list. cbn [fst snd].
    setoid_rewrite negb_true_iff. setoid_rewrite negb_false_iff. rewrite bool_decide_eq_false. setoid_rewrite bool_decide_eq_true.
    split.
    - intros [[? _]|[Hall Hc]]; [done|]. case_bool_decide as Hg; [done|].
      destruct (props !! k) as [u|] eqn:Eu; [rewrite (Hall u eq_refl) in Hc; congruence|]. destruct Hg.
      apply elem_of_List_filter. split; [apply list_elem_of_fmap; exists (k, v); by rewrite elem_of_map_to_list|].
      rewrite bool_decide_eq_false_2; [done|]. rewrite Eu. by intros [? ?].
    - intros Hv. destruct (decide (cur !! k = Some v)) as [Hc|Hc]; [right|left; auto].
      split; [intros u Hu; congruence|]. case_bool_decide as Hg; [|done]. apply elem_of_List_filter in Hg as [_ Hg].
      by rewrite bool_decide_eq_true_2 in Hg by (by eexists). }
  rewrite Hm. destruct (bool_decide (gone = []) && _); [|rewrite stamp_other by done]; by rewrite lookup_insert_eq.
Qed.

Lemma set_properties_other d props k : k <> "props" -> k <> "schema_v" -> set_properties d props !! k = d !! k.
Proof.
  intros Hp Hs. unfold set_properties. cbv zeta. case_match; [|rewrite stamp_other by done]; by rewrite lookup_insert_ne.
Qed.
Lemma set_aliases_other d l k : k <> "aliases" -> k <> "schema_v" -> set_aliases d l !! k = d !! k.
Proof.
  intros Hp Hs. unfold set_aliases. cbv zeta. case_match; [rewrite stamp_other by done|]; by rewrite lookup_insert_ne.
Qed.
Lemma set_aliases_eq d l : aliases (set_aliases d l) = set_by_value (aliases d) l.
Proof.
  unfold set_aliases, aliases at 1, get_array. cbv zeta.
  destruct (changes_by_value (aliases d) l); [rewrite stamp_other by done|]; by rewrite lookup_insert_eq.
Qed.
Lemma add_links d l0 l : d !! "links" = Some (VArr l0) -> foldl add_link d l = <["links" := VArr (l0 ++ l)]> d.
Proof.
  revert d l0. induction l as [|x l IH]; intros d l0 Hd; cbn [foldl].
  - rewrite app_nil_r. by rewrite insert_id.
  - rewrite (IH _ (l0 ++ [x])); unfold add_link, push_back; rewrite Hd; [|by rewrite lookup_insert_eq].
    by rewrite insert_insert_eq, <- app_assoc.
Qed.

(** The document under the links of a reborn node. *)
Definition reborn_base d : Node :=
  let m := materialize d in
  set_properties (set_aliases (set_source_version (set_source (set_priority (set_todo_state (set_kind
    (new_with_client_id (mat_id m) (mat_title m) (mat_body m) (mat_tags m)) (mat_kind m)) (mat_todo_state m))
    (mat_priority m)) (mat_source m)) (mat_source_version m)) (mat_aliases m)) (mat_properties m).
(** Looks a key up through the setters that leave it. *)
Local Ltac through :=
  unfold set_kind, set_todo_state, set_priority, set_source, set_source_version in *;
  repeat first [rewrite lookup_insert_ne by done|rewrite set_properties_other by done|rewrite set_aliases_other by done|
                rewrite set_scalar_other by done].
Lemma reborn_eq d : reborn d = <["links" := VArr (links d)]> (reborn_base d).
Proof. unfold reborn. cbv zeta. fold (reborn_base d). rewrite (add_links _ []); [done|]. unfold reborn_base. by through. Qed.
Lemma source_version_bound d n : source_version d = Some n -> (n <= u32_max)%N.
Proof.
  unfold source_version. destruct (scalar d "src_v") as [s|]; [|done]. apply parse_uint_le.
Qed.
Lemma reborn_scalar d d' k v : k <> "schema_v" -> v <> Some "" ->
  reborn d !! k = set_scalar d' k v !! k -> scalar (reborn d) k = v.
Proof. intros Hk Hv E. by rewrite (scalar_ext _ _ _ E), set_scalar_same. Qed.
Local Ltac reborn_field := rewrite reborn_eq; unfold reborn_base; by through.
Lemma reborn_source_version d : source_version (reborn d) = source_version d.
Proof.
  unfold source_version at 1.
  erewrite (reborn_scalar d _ "src_v" (to_dec <$> source_version d)); [|done| |reborn_field].
  - destruct (source_version d) as [n|] eqn:E; [|done]. cbn. by rewrite parse_to_dec by eauto using source_version_bound.
  - destruct (source_version d) as [n|]; [|done]. cbn. intros [= E]. by destruct (to_dec_nonempty n).
Qed.
Lemma reborn_aliases d : NoDup (aliases d) -> aliases (reborn d) = aliases d.
Proof.
  intros Hn. rewrite reborn_eq. unfold reborn_base, aliases at 1, get_array. rewrite lookup_insert_ne, set_properties_other by done.
  match goal with |- match set_aliases ?d' ?l !! _ with _ => _ end = _ =>
    change (aliases (set_aliases d' l) = aliases d); rewrite set_aliases_eq;
    replace (aliases d') with (@nil string); [by rewrite set_by_value_fresh|] end.
  unfold aliases, get_array. by through.
Qed.
Lemma reborn_properties d : properties (reborn d) = properties d.
Proof.
  rewrite reborn_eq. unfold reborn_base, properties at 1. rewrite lookup_insert_ne by done.
  match goal with |- match set_properties ?d' ?m !! _ with _ => _ end = _ => exact (set_properties_eq d' m) end.
Qed.
(** The scalar readers of a reborn node. *)
Lemma reborn_scalars d : kind (reborn d) = kind d /\ todo_state (reborn d) = todo_state d /\
  priority (reborn d) = priority d /\ source (reborn d) = source d /\ created_at (reborn d) = None.
Proof.
  split_and!; [eapply reborn_scalar; [done|apply scalar_nonempty|reborn_field]..|].
  unfold created_at, scalar. reborn_field.
Qed.

(** ** What the rebirth hash binds *)

(** The side conditions under which the hashed fields determine the node. *)
Definition plain (m : MaterializedNode) : bool :=
  forallb no_nul (rebirth_fields m) && negb (bool_decide ("|links|" ∈ mat_tags m)) &&
  negb (bool_decide ("|v2|" ∈ mat_links m)) && negb (bool_decide ("|props|" ∈ mat_aliases m)).
Definition same_node (m m' : MaterializedNode) : Prop :=
  mat_id m = mat_id m' /\ mat_title m = mat_title m' /\ mat_body m = mat_body m' /\ mat_tags m = mat_tags m' /\
  mat_links m ≡ₚ mat_links m' /\ mat_kind m = mat_kind m' /\ mat_todo_state m = mat_todo_state m' /\
  mat_priority m = mat_priority m' /\ mat_source m = mat_source m' /\ mat_source_version m = mat_source_version m' /\
  mat_aliases m ≡ₚ mat_aliases m' /\ mat_properties m = mat_properties m'.

Lemma fields_inj l : forall l', forallb no_nul l = true -> forallb no_nul l' = true -> fields l = fields l' -> l = l'.
Proof.
  assert (Hc : forall x k, fields (x :: k) = field x +:+ fields k).
  { intros x [|y k]; unfold fields; simpl; [by rewrite string_app_nil_r|done]. }
  induction l as [|x l IH]; intros [|y l']; rewrite ?Hc; cbn [forallb]; rewrite ?andb_true_iff; [done|..].
  - intros _ _ E. by destruct y.
  - intros _ _ E. by destruct x.
  - intros [Hx Hl] [Hy Hl'] E. apply field_app_inj in E as [-> E]; [|done..]. f_equal. by apply IH.
Qed.
Lemma marker_split {A} (x : A) l : forall l' r r', x ∉ l -> x ∉ l' -> l ++ x :: r = l' ++ x :: r' -> l = l' /\ r = r'.
Proof.
  induction l as [|y l IH]; intros [|z l'] r r' Hl Hl' E; cbn in E; simplify_eq; [done|set_solver|set_solver|].
  destruct (IH l' r r') as [-> ->]; [set_solver..|done|done].
Qed.
Lemma sorted_perm l : sorted l ≡ₚ l.
Proof. apply merge_sort_Permutation. Qed.
Lemma sorted_inj l l' : sorted l = sorted l' -> l ≡ₚ l'.
Proof. intros E. by rewrite <- (sorted_perm l), E, sorted_perm. Qed.
Lemma sorted_marker x l : x ∉ l -> x ∉ sorted l.
Proof. by rewrite sorted_perm. Qed.
Lemma pairs_inj (l : list (string * string)) : forall l',
  concat (map (fun kv => [kv.1; kv.2]) l) = concat (map (fun kv => [kv.1; kv.2]) l') -> l = l'.
Proof.
  induction l as [|[a b] l IH]; intros [|[a' b'] l'] E; cbn in E; simplify_eq; [done|]. f_equal. by apply IH.
Qed.
Lemma sorted_props_inj m m' : sorted_props m = sorted_props m' -> m = m'.
Proof.
  unfold sorted_props. intros E. apply map_to_list_inj.
  by rewrite <- (merge_sort_Permutation key_le (map_to_list m)), E, merge_sort_Permutation.
Qed.
Lemma default_empty_inj (u v : option string) : u <> Some "" -> v <> Some "" -> default "" u = default "" v -> u = v.
Proof. destruct u, v; cbn; intros; simplify_eq; congruence. Qed.
Lemma default_dec_inj u v : default "" (to_dec <$> u) = default "" (to_dec <$> v) -> u = v.
Proof.
  intros E. apply default_empty_inj in E.
  - by destruct u, v; simplify_eq/=.
  - destruct u as [n|]; [|done]. intros [= Hn]. by destruct (to_dec_nonempty n).
  - destruct v as [n|]; [|done]. intros [= Hn]. by destruct (to_dec_nonempty n).
Qed.
Lemma plain_spec m : plain m = true ->
  forallb no_nul (rebirth_fields m) = true /\ "|links|" ∉ mat_tags m /\ "|v2|" ∉ sorted (mat_links m) /\
  "|props|" ∉ sorted (mat_aliases m).
Proof.
  unfold plain. rewrite !andb_true_iff, !negb_true_iff, !bool_decide_eq_false. intros [[[? ?] ?] ?].
  split_and!; [done|done|by apply sorted_marker..].
Qed.


(** ** Theorems *)

(** Editing the tags sets them: whatever the array held, it then holds each
    wanted tag once and nothing else, and an edit that wants what is there
    leaves the array as it is. *)
Theorem tag_edit_sets_exactly d l ts : d !! "tags" = Some (VArr l) ->
  let after := tags (set_tags d ts) in
  NoDup after /\ (forall t, t ∈ after <-> t ∈ ts) /\
  (NoDup l -> (forall t, t ∈ l <-> t ∈ ts) -> after = l).
Proof.
  intros Hd. unfold set_tags, tags, get_array. rewrite Hd. cbv zeta. rewrite lookup_insert_eq.
  destruct (set_by_value_spec l ts) as (H1 & H2 & H3). split_and!; [done|done|]. intros Hn Hs. unfold set_by_value in *.
  pose proof (retain_spec ts (reverse l) []) as Hr. destruct (retain ts (reverse l) []) as [r k].
  destruct Hr as (-> & Hn' & Hr & Hl & Hf). rewrite length_reverse, reverse_involutive in *.
  assert (El : r = l).
  { apply Hf. apply Nat.le_antisymm; [done|]. apply submseteq_length, NoDup_submseteq; [done|]. intros x Hx. apply Hr.
    split_and!; [set_solver|by apply Hs|set_solver]. }
  subst r. symmetry. apply prefix_length_eq; [apply append_missing_spec; set_solver|].
  apply submseteq_length, NoDup_submseteq; [done|]. intros x Hx%H2. by apply Hs.
Qed.

(** Rebirth keeps the node: the fresh document reads as the old one in every
    field except the creation time, which it no longer has, so the content hash
    and the hash a rebirth signs are unchanged. Only the aliases must hold no
    value twice, which [set_aliases] establishes. *)
Theorem rebirth_preserves_node d : NoDup (aliases d) ->
  let m := materialize d in
  materialize (reborn d) =
    mkMat (mat_id m) (mat_title m) (mat_body m) (mat_tags m) (mat_links m) (mat_kind m) (mat_todo_state m) (mat_priority m)
      (mat_aliases m) (mat_properties m) (mat_source_version m) (mat_source m) None /\
  content_hash (reborn d) = content_hash d /\ rebirth_hash (reborn d) = rebirth_hash d.
Proof.
  intros Hn. cbv zeta.
  assert (E : materialize (reborn d) = mkMat (node_id d) (title d) (body d) (tags d) (links d) (kind d) (todo_state d)
    (priority d) (aliases d) (properties d) (source_version d) (source d) None).
  { destruct (reborn_scalars d) as (Ek & Et & Ep & Es & Ec). unfold materialize.
    rewrite Ek, Et, Ep, Es, Ec, reborn_source_version, reborn_aliases, reborn_properties by done.
    f_equal; [unfold node_id|unfold title, get_text|unfold body, get_text|unfold tags, get_array|unfold links, get_array];
      rewrite reborn_eq; [..|by rewrite lookup_insert_eq]; unfold reborn_base; by through. }
  split_and!; [exact E| |]; unfold content_hash, rebirth_hash; by rewrite E.
Qed.

(** A rebirth hash binds the node: two documents whose rebirth hashes agree
    hold the same identity, title, body, tags in order, kind, task state,
    priority, source, properties, and the same links and aliases up to order, or
    the hash function collides on the two strings that were hashed. The
    side conditions exclude the strings the encoding uses as separators. *)
Theorem rebirth_hash_binds_node `{!HexLaws _} d d' :
  plain (materialize d) = true -> plain (materialize d') = true -> rebirth_hash d = rebirth_hash d' ->
  let x := fields (rebirth_fields (materialize d)) in
  let y := fields (rebirth_fields (materialize d')) in
  same_node (materialize d) (materialize d') \/ (x <> y /\ sha256 x = sha256 y).
Proof.
  intros Hp Hp' E. apply plain_spec in Hp as (Hf & Ht & Hl & Ha). apply plain_spec in Hp' as (Hf' & Ht' & Hl' & Ha').
  unfold rebirth_hash in E. apply (f_equal hex_decode) in E. rewrite !hex_decode_encode in E. injection E as E. cbv zeta.
  destruct (decide (fields (rebirth_fields (materialize d)) = fields (rebirth_fields (materialize d')))) as [Eq|];
    [left|by right].
  apply fields_inj in Eq; [|done..]. unfold rebirth_fields in Eq. injection Eq as Ei Et Eb Eq.
  apply marker_split in Eq as [Etags Eq]; [|done..]. apply marker_split in Eq as [El Eq]; [|done..].
  injection Eq as Ek Eo Epr Es Ev Eq. apply marker_split in Eq as [Eal Eq]; [|done..].
  apply pairs_inj, sorted_props_inj in Eq. apply sorted_inj in El, Eal. apply default_dec_inj in Ev.
  apply default_empty_inj in Ek, Eo, Epr, Es; [|apply scalar_nonempty..].
  by split_and!.
Qed.
(** Without the side conditions it does not: a tag spelled as the links
    separator moves values between the tags and the links, and the hash stays
    the same whatever the hash function. *)
Theorem rebirth_hash_confuses_tags_and_links :
  let d := foldl add_link (new_with_client_id "n" "T" "B" ["a"]) ["b"; "|links|"] in
  let d' := new_with_client_id "n" "T" "B" ["a"; "|links|"; "b"] in
  rebirth_hash d = rebirth_hash d' /\ tags d <> tags d' /\ ~ links d ≡ₚ links d'.
Proof.
  split_and!; [unfold rebirth_hash; do 2 f_equal; vm_compute; reflexivity|by vm_compute|].
  intros E%Permutation_length. vm_compute in E. done.
Qed.
(** A new node knows when it was created; its rebirth does not. *)
Theorem rebirth_loses_creation_time now id t b ts : (now < 2 ^ 63)%N ->
  created_at (new_node now id t b ts) = Some (Z.of_N now) /\ created_at (reborn (new_node now id t b ts)) = None.
Proof.
  intros Hn. split; [|apply reborn_scalars]. unfold created_at, scalar, new_node, stamp_created_at.
  rewrite bool_decide_eq_true_2 by done. rewrite lookup_insert_eq. cbn [fmap option_fmap option_map val_text non_empty].
  rewrite bool_decide_eq_false_2 by apply to_dec_nonempty. by apply parse_i64_dec.
Qed.
End Node.
End KbNodeDoc.

Module KbNodeWitnesses.
Import KbNodeDoc Toy OpLogWitnesses.

Definition show0 (_ : Val) : string := "[]".
Definition base_node : Node := set_aliases show0 (set_kind show0 (new_node 1700000000 "n" "T" "B" ["a"; "b"]) (Some "task")) ["x"; "y"].
Definition one_way : Node := foldl add_link base_node ["p"; "q"].
Definition other_way : Node := foldl add_link base_node ["q"; "p"].

Lemma tag_edit_sets_exactly_witness :
  let after := tags (set_tags base_node ["b"; "c"; "b"]) in
  NoDup after /\ (forall t, t ∈ after <-> t ∈ ["b"; "c"; "b"]) /\
  (NoDup ["a"; "b"] -> (forall t, t ∈ ["a"; "b"] <-> t ∈ ["b"; "c"; "b"]) -> after = ["a"; "b"]).
Proof. apply (tag_edit_sets_exactly base_node ["a"; "b"] ["b"; "c"; "b"]). reflexivity. Defined.

Lemma rebirth_preserves_node_witness :
  content_hash show0 (reborn show0 one_way) = content_hash show0 one_way /\
  rebirth_hash show0 (reborn show0 one_way) = rebirth_hash show0 one_way.
Proof.
  apply (rebirth_preserves_node show0 one_way). change (NoDup ["x"; "y"]). apply (bool_decide_unpack _). vm_compute. exact I.
Defined.

Lemma rebirth_hash_binds_node_witness :
  let x := fields (rebirth_fields (materialize show0 one_way)) in
  let y := fields (rebirth_fields (materialize show0 other_way)) in
  same_node (materialize show0 one_way) (materialize show0 other_way) \/ (x <> y /\ sha256 x = sha256 y).
Proof. apply (rebirth_hash_binds_node show0 one_way other_way); reflexivity. Defined.

Lemma rebirth_loses_creation_time_witness :
  created_at show0 (new_node 5 "n" "T" "B" []) = Some 5%Z /\
  created_at show0 (reborn show0 (new_node 5 "n" "T" "B" [])) = None.
Proof. apply (rebirth_loses_creation_time show0 5 "n" "T" "B" []). reflexivity. Defined.
End KbNodeWitnesses.
