(* ===== verification/KbHandlers.v ===== *)
(** * KbHandlers: the daemon's request handlers for knowledge bases

    Models the [kb/*] handlers of [daemon/src/collab_handler]:
    [kb_membership.rs], [kb_content.rs], [kb_governance.rs],
    [kb_share_ownership.rs], [kb_lease.rs], the authoring helpers of [mod.rs]
    and the dispatch of [handle_doc_request_inner]. They compose the gates of
    [Access] and [Session], the collection operations of [Collection], the
    op-log and the document store. A request runs to its end before the next
    one starts. Texts of errors and warnings are left out; [kb/query.*] and
    [kb/fetch_artifact] are outside the model. *)
From S2P Require Import Prelude Rope Buffer Membership OpLog CollabText DocAddress Storage DocStore.
From S2P Require Import DeriveCache Lease Json ContentOps Collection Access Broadcast Rotation KbNode Session.

(** ** Parameters *)

(** The rest of the CRDT crate's view of collections and nodes: the state of a
    collection, a collection after an update, a node document. *)
Class KbCodec := {
  encode_coll : Loaded -> string;
  apply_coll : Loaded -> string -> option Loaded;
  decode_node : string -> option Node;
}.

(** What a request finds besides [Ctx]: the session's key, the daemon's signing
    secret, and the random tokens of the grants it makes. *)
Record KbCtx := mkKbCtx { base :> Ctx; auth_pubkey : option string; secret : string; token : nat -> N }.

Definition DEFAULT_LEASE_TTL_SECS : N := 120.
Definition get_bool (v : Json) (k : string) : bool :=
  match json_get v k with Some (JBool b) => b | _ => false end.
Definition get_list (v : Json) (k : string) : option (list Json) := let? x := json_get v k in as_array x.

Section Handlers.
Context {R : Type} `{Rope R, Yrs, Crypto, Base64, CollCodec, KbCodec, Signer}.
Context (show : Out -> string) (show_val : Val -> string).
Implicit Types (w : World (R := R)) (c : KbCtx) (s : Session) (params : Json).

Notation Answer := (World (R := R) * Response)%type.

(** [params[key].as_str()] or a parse error. *)
Definition require {A} w (o : option A) (k : A -> Answer) : Answer :=
  match o with Some x => k x | None => (w, Failure ParseError) end.
(** [kb_access], anything but [Allow] being an error. *)
Definition gated c s w (kb_id : string) (o : KbOp) (k : World -> Answer) : Answer :=
  let '(w, d) := access show c s w kb_id o in
  if allowed d then k w else (w, Failure InternalError).
Definition loaded_coll c w (kb_id : string) (k : World -> Loaded -> Answer) : Answer :=
  let '(w, coll) := load_collection show c w kb_id in
  match coll with Some l => k w l | None => (w, Failure InternalError) end.

Definition collection_doc (kb_id : string) : string := "kbc:" +:+ kb_id.
Definition read_state c w (doc : string) : World * (StorageError + (string * string)) :=
  on_store w (encode_state_and_sv (fresh_client c) (locked c) (outcome c) (instant c) doc).
Definition set_touched w (t : gset string) : World := mkWorld (store w) (kbs w) (bcast w) t (subscriptions w).

(** [persist_and_broadcast_collection]. *)
Definition persist_and_broadcast_collection c s w (kb_id update : string) : World * (StorageError + N) :=
  let doc := collection_doc kb_id in
  let '(w, r) := on_store w (store_update (fresh_client c) (locked c) (outcome c) (instant c) doc update None) in
  match r with
  | inl err => (w, inl err)
  | inr res =>
      (with_bcast w (broadcast_except (bcast w) (SyncUpdate doc (b64_encode update) (ar_wal_seq res) None) (session_id s)),
       inr (ar_wal_seq res))
  end.

Definition now_stamp c : string := to_dec (unix c).

(** One transaction on a loaded collection, stored and sent. *)
Definition commit c s w (kb_id : string) (l : Loaded) (root : Root) : World * Loaded * bool :=
  let '(l, update) := commit_coll l root in
  let '(w, r) := persist_and_broadcast_collection c s w kb_id update in
  (w, l, match r with inr _ => true | inl _ => false end).

(** ** The signed log *)

Inductive SignedAppend := Appended | NotOwned | AppendFailed.
Definition append_landed (a : SignedAppend) : bool := match a with AppendFailed => false | _ => true end.

(** [append_signed_op] on the collection: one record under its hash. *)
Definition append_record root (o : MembershipOp) (sg pubkey : string) : Root :=
  <["membership_oplog" := OMap (<[op_chain_hash o sg := OMap (OStr <$> encode_op_record o sg pubkey)]>
                                  (map_or_empty root "membership_oplog"))]> root.
Definition sign_and_append c root (o : MembershipOp) (pubkey : string) : Root :=
  append_record root o (sign (secret c) (canonical_bytes o)) pubkey.

Definition append_signed_membership c s w (kb_id : string) (l : Loaded) (act : MembershipAction) (subj : string)
    (r : option Role) (inv : bool) (exp : option N) : World * SignedAppend :=
  match signer c with
  | None => (w, NotOwned)
  | Some (fp, pubkey) =>
      let own := owner show (l_root l) in
      if bool_decide (own = "") || negb (bool_decide (fp = own)) then (w, NotOwned)
      else
        let now := unix c in
        let '(w, l, ok) :=
          match oplog_head (oplog_of show (l_root l)) with
          | None =>
              let g := build_membership_op (oplog_of show (l_root l)) kb_id Admit own (Some Owner) true own now None 0 in
              commit c s w kb_id l (sign_and_append c (l_root l) g pubkey)
          | Some _ => (w, l, true)
          end in
        if negb ok then (w, AppendFailed)
        else
          let o := build_membership_op (oplog_of show (l_root l)) kb_id act subj r inv own now exp
                     (epoch_of show (l_root l) subj) in
          let '(w, _, ok) := commit c s w kb_id l (sign_and_append c (l_root l) o pubkey) in
          (w, if ok then Appended else AppendFailed)
  end.

(** [append_signed_revoke]; [true] is [Ok]. *)
Definition append_signed_revoke c s w (kb_id : string) (l : Loaded) (subj : string) : World * bool :=
  match signer c with
  | None => (w, false)
  | Some (fp, pubkey) =>
      let log := oplog_of show (l_root l) in
      if bool_decide (oplog_head log = None) then (w, false)
      else
        let anchor := default pubkey (kb_anchor (kbs w) kb_id) in
        let '(k, dm) := derived_membership (kbs w) kb_id (l_sv l) log anchor (unix c) in
        let w := with_kbs w k in
        if negb (bool_decide (m_role <$> members dm !! fp = Some Owner)) then (w, false)
        else if bool_decide (members dm !! subj = None) then (w, false)
        else
          let o := build_membership_op log kb_id Revoke subj None false fp (unix c) None (epoch_of show (l_root l) subj) in
          let '(w, _, ok) := commit c s w kb_id l (sign_and_append c (l_root l) o pubkey) in
          (w, ok)
  end.

(** ** Membership and lifecycle *)

(** A session as a member of a document: it is recorded, counted and
    subscribed, each time. *)
Definition join_doc c s w (doc : string) : World :=
  let w := set_touched w ({[doc]} ∪ touched w) in
  let '(w, _) := on_store w (track_client_connect (fresh_client c) (locked c) (outcome c) (instant c) doc) in
  with_bcast w (subscribe_doc (bcast w) (session_id s) doc).

(** The registry of knowledge bases, [DocStore::kb_metas]. *)
Notation Metas := (gmap string Json).
Implicit Types (metas : Metas).
Definition set_kb_meta metas (kb_id : string) (meta : Json) : Metas := <[kb_id := meta]> metas.
Definition list_kb_metas metas : list Json := (map_to_list metas).*2.
Definition remove_kb_meta metas (kb_id : string) : Metas := delete kb_id metas.

Definition handle_kb_register s w metas params : Metas * Answer :=
  match get_str params "kb_id" with
  | None => (metas, (w, Failure ParseError))
  | Some kb_id =>
      let doc := collection_doc kb_id in
      let w := set_touched w ({[doc]} ∪ touched w) in
      let w := with_bcast w (subscribe_doc (bcast w) (session_id s) doc) in
      (set_kb_meta metas kb_id
         (obj [("kb_id", JString kb_id); ("name", JString (default "" (get_str params "name")));
               ("node_count", JPosInt (default 0%N (get_u64 params "node_count"))); ("registered_by", JPosInt (session_id s))]),
       (w, Success (obj [("kb_id", JString kb_id); ("registered", JBool true)])))
  end.

Definition list_step c s (acc : World * list Json) (meta : Json) : World * list Json :=
  let '(w, visible) := acc in
  match get_str meta "kb_id" with
  | None => (w, visible)
  | Some kb_id => let '(w, d) := access show c s w kb_id Read in (w, if allowed d then visible ++ [meta] else visible)
  end.
Definition handle_kb_list c s w metas : Answer :=
  let '(w, visible) := foldl (list_step c s) (w, []) (list_kb_metas metas) in
  (w, Success (obj [("kbs", JArray visible)])).

Definition handle_kb_unregister w metas params : Metas * Answer :=
  match get_str params "kb_id" with
  | None => (metas, (w, Failure ParseError))
  | Some kb_id =>
      (remove_kb_meta metas kb_id,
       (set_touched w (touched w ∖ {[collection_doc kb_id]}),
        Success (obj [("kb_id", JString kb_id); ("unregistered", JBool true)])))
  end.

(** A 32-byte key in hexadecimal. *)
Definition hex32 (v : Json) (k : string) : option string :=
  let? h := get_str v k in let? b := hex_decode h in array32 b.

(** The requests a relay forwards for its members, recorded before the gate. *)
Definition forward_step c s (kb_id : string) (known : gset string) (acc : World * Loaded) (pm : Json) : World * Loaded :=
  let '(w, l) := acc in
  match get_str pm "fp" with
  | None => (w, l)
  | Some fp =>
      if bool_decide (fp ∈ known) then (w, l)
      else
        let root := add_pending (l_root l) fp (default fp (get_str pm "label")) (now_stamp c) (hex32 pm "pubkey")
                      (hex32 pm "wrap_pubkey") in
        let '(w, l, _) := commit c s w kb_id l root in (w, l)
  end.
Definition forward_pending c s w (kb_id : string) params : World :=
  match get_list params "pending_members" with
  | None | Some [] => w
  | Some arr =>
      let '(w, coll) := load_collection show c w kb_id in
      match coll with
      | None => w
      | Some l =>
          let members := map fingerprint (member_roles show (l_root l)) in
          let keyed := map pd_fingerprint (List.filter (fun p => bool_decide (is_Some (pd_wrap p))) (pending show (l_root l))) in
          (foldl (forward_step c s kb_id (list_to_set (members ++ keyed))) (w, l) arr).1
      end
  end.

(** The state vectors the joiner sent, the last one of an id winning. *)
Definition member_svs params : gmap string string :=
  foldl (fun m e => match (let? i := get_str e "id" in let? sv := get_str e "sv" in let? b := b64_decode sv in Some (i, b)) with
                    | Some (i, b) => <[i := b]> m
                    | None => m
                    end) ∅ (default [] (get_list params "node_svs")).
Definition read_diff c w (doc sv : string) : World * (StorageError + (string * string)) :=
  on_store w (encode_diff_and_sv (fresh_client c) (locked c) (outcome c) (instant c) doc sv).
(** One node of the answer: a difference where the joiner sent a state vector,
    the state otherwise. *)
Definition join_step c s (kb_id : string) (svs : gmap string string) (acc : World * list Json) (node_id : string)
    : World * list Json :=
  let '(w, nodes) := acc in
  let doc := kb_node_doc_name kb_id node_id in
  let '(w, r, key) := match svs !! node_id with
                      | Some sv => (read_diff c w doc sv, "diff")
                      | None => (read_state c w doc, "state")
                      end in
  match r with
  | inl _ => (w, nodes)
  | inr (payload, sv) =>
      (join_doc c s w doc,
       nodes ++ [obj [("id", JString node_id); ("sv", JString (b64_encode sv)); (key, JString (b64_encode payload))]])
  end.

(** The answer of a join that was let in. *)
Definition join_reply c s w (kb_id : string) params : Answer :=
  let doc := collection_doc kb_id in
  let '(w, r) := read_state c w doc in
  match r with
  | inl _ => (w, Failure InternalError)
  | inr (state, _) =>
      let w := join_doc c s w doc in
      let w := with_bcast w (add_event_sub (bcast w) (session_id s) "sync_update") in
      let node_ids := match decode_coll state with Some l => map fst (list_nodes show (l_root l)) | None => [] end in
      let '(w, nodes) := foldl (join_step c s kb_id (member_svs params)) (w, []) node_ids in
      (w, Success (obj [("kb_id", JString kb_id); ("collection_state", JString (b64_encode state)); ("nodes", JArray nodes)]))
  end.

(** A change of the collection for the caller itself; [None] when there is no
    principal or no collection. *)
Definition for_caller c s w (kb_id : string) (f : string -> Root -> Root) : World * option bool :=
  let '(w, coll) := load_collection show c w kb_id in
  match auth_principal s, coll with
  | Some p, Some l => let '(w, _, ok) := commit c s w kb_id l (f p (l_root l)) in (w, Some ok)
  | _, _ => (w, None)
  end.
Definition label_or s (p : string) : string := default p (auth_label s).

Definition handle_kb_join c s w params : Answer :=
  require w (get_str params "kb_id") (fun kb_id =>
    let w := forward_pending c s w kb_id params in
    let '(w, d) := access show c s w kb_id Join in
    match d with
    | Some Allow => join_reply c s w kb_id params
    | Some AllowAutoJoin =>
        let '(w, _) := for_caller c s w kb_id (fun p root => upsert_member show (token c 0) root p (label_or s p) Viewer) in
        join_reply c s w kb_id params
    | Some Pending =>
        let '(w, r) := for_caller c s w kb_id (fun p root =>
          add_pending root p (label_or s p) (now_stamp c) (auth_pubkey c) (hex32 params "wrap_pubkey")) in
        (w, if bool_decide (r = Some false) then Failure InternalError
            else Success (obj [("kb_id", JString kb_id); ("status", JString "pending")]))
    | _ => (w, Failure InternalError)
    end).

Definition role_param params : Role := default Editor (let? r := get_str params "role" in Role_parse r).
(** The answer to a membership change, with the state of the signed log. *)
Definition report (fields : list (string * Json)) (a : SignedAppend) : Response :=
  Success (obj (("signed_oplog", JBool (append_landed a)) ::
                (if append_landed a then [] else [("warning", JString "signed op-log not updated")]) ++ fields)).

Definition handle_kb_add_remove_member c s w (add : bool) params : Answer :=
  require w (get_str params "kb_id") (fun kb_id =>
  require w (get_str params "member") (fun member =>
    let r := role_param params in
    gated c s w kb_id Manage (fun w =>
    loaded_coll c w kb_id (fun w l =>
      if negb add && bool_decide (owner show (l_root l) = member) then (w, Failure InternalError)
      else
        let root := if add then upsert_member show (token c 0) (l_root l) member (default "" (get_str params "label")) r
                    else remove_principal show (l_root l) member in
        let '(w, l, ok) := commit c s w kb_id l root in
        if negb ok then (w, Failure InternalError)
        else
          let '(act, sr) := if add then (Admit, Some r) else (Remove, None) in
          let '(w, a) := append_signed_membership c s w kb_id l act member sr false None in
          (w, report [("kb_id", JString kb_id); ("member", JString member); ("added", JBool add)] a))))).

Definition handle_kb_list_pending c s w params : Answer :=
  require w (get_str params "kb_id") (fun kb_id =>
    gated c s w kb_id Manage (fun w =>
    loaded_coll c w kb_id (fun w l =>
      (w, Success (obj [("kb_id", JString kb_id);
                        ("pending", JArray (map (fun p =>
                           obj [("fingerprint", JString (pd_fingerprint p)); ("label", JString (pd_label p));
                                ("requested_at", JString (requested_at p))]) (pending show (l_root l))))]))))).

Definition handle_kb_approve_member c s w params : Answer :=
  require w (get_str params "kb_id") (fun kb_id =>
  require w (get_str params "principal") (fun principal =>
    let r := role_param params in
    gated c s w kb_id Manage (fun w =>
    loaded_coll c w kb_id (fun w l =>
      let '(w, l, ok) := commit c s w kb_id l (approve show (token c 0) (l_root l) principal r) in
      if negb ok then (w, Failure InternalError)
      else
        let '(w, a) := append_signed_membership c s w kb_id l Admit principal (Some r) false None in
        (w, report [("kb_id", JString kb_id); ("principal", JString principal); ("role", JString (Role_as_str r))] a))))).

(** A node document left, when the session had it. *)
Definition leave_step s (kb_id : string) w (node_id : string) : World :=
  let doc := kb_node_doc_name kb_id node_id in
  if bool_decide (doc ∈ touched w)
  then with_bcast (set_touched w (touched w ∖ {[doc]})) (unsubscribe_doc (bcast w) (session_id s) doc)
  else w.
Definition handle_kb_leave c s w params : Answer :=
  require w (get_str params "kb_id") (fun kb_id =>
    let doc := collection_doc kb_id in
    let '(w, r) := read_state c w doc in
    let node_ids := match r with
                    | inr (state, _) => match decode_coll state with Some l => map fst (list_nodes show (l_root l)) | None => [] end
                    | inl _ => []
                    end in
    let w := set_touched w (touched w ∖ {[doc]}) in
    let w := with_bcast w (unsubscribe_doc (bcast w) (session_id s) doc) in
    (foldl (leave_step s kb_id) w node_ids, Success (obj [("kb_id", JString kb_id); ("left", JBool true)]))).

(** ** Content *)

(** The owner of a shared collection is the authenticated principal. *)
Definition bind_owner c s (bytes label : string) : string :=
  match auth_principal s with
  | None => bytes
  | Some p => match decode_coll bytes with
              | Some l => encode_coll (commit_coll l (set_owner show (token c 0) (l_root l) p label)).1
              | None => bytes
              end
  end.
(** [Some]: the request is refused. *)
Definition refuse_if_owned_by_another c s w (kb_id : string) : World * option Fault :=
  match auth_principal s with
  | None => (w, None)
  | Some p =>
      let '(w, coll) := load_collection show c w kb_id in
      (w, match coll with
          | Some l => let own := owner show (l_root l) in
                      if negb (bool_decide (own = "")) && negb (bool_decide (own = p)) then Some KbIdOwnedByAnother else None
          | None => Some InternalError
          end)
  end.
(** The collection document of a share: created, or kept for its owner. *)
Definition share_collection c s w (kb_id bytes : string) : World * option Fault :=
  let doc := collection_doc kb_id in
  if negb (has_doc (store w) doc)
  then let '(w, r) := on_store w (share_doc (fresh_client c) (locked c) (outcome c) (instant c) doc bytes) in
       (w, match r with inl _ => Some InternalError | inr _ => None end)
  else refuse_if_owned_by_another c s w kb_id.
(** The transport policy widened by the requested one. *)
Definition widen_transport c s w (kb_id : string) params : World :=
  let requested := default PolicyHub (let? t := get_str params "transport" in TransportPolicy_parse t) in
  let '(w, coll) := load_collection show c w kb_id in
  match coll with
  | None => w
  | Some l =>
      let raw := transport_policy_raw show (l_root l) in
      let new := match raw with Some p => union_policy p requested | None => requested end in
      if bool_decide (Some new = raw) then w
      else (commit c s w kb_id l (set_transport_policy (l_root l) new)).1.1
  end.
Definition node_state (node : Json) : option (string * string) :=
  let? i := get_str node "id" in let? st := get_str node "state" in let? b := b64_decode st in Some (i, b).
Definition share_step c s (kb_id : string) (acc : World * N) (node : Json) : World * N :=
  let '(w, count) := acc in
  match node_state node with
  | None => (w, count)
  | Some (node_id, bytes) =>
      let doc := kb_node_doc_name kb_id node_id in
      let '(w, r) := on_store w (if has_doc (store w) doc
                                 then store_update (fresh_client c) (locked c) (outcome c) (instant c) doc bytes None
                                 else share_doc (fresh_client c) (locked c) (outcome c) (instant c) doc bytes) in
      match r with
      | inl _ => (w, count)
      | inr _ => (join_doc c s w doc, (count + 1)%N)
      end
  end.
Definition handle_kb_share c s w metas params : Metas * Answer :=
  match get_str params "kb_id" with
  | None => (metas, (w, Failure ParseError))
  | Some kb_id =>
      let label := match auth_label s with Some l => l | None => default "" (get_str params "creator") end in
      match (let? b := get_str params "collection_state" in b64_decode b) with
      | None => (metas, (w, Failure ParseError))
      | Some bytes =>
          let '(w, refused) := share_collection c s w kb_id (bind_owner c s bytes label) in
          match refused with
          | Some err => (metas, (w, Failure err))
          | None =>
              let w := join_doc c s w (collection_doc kb_id) in
              let w := widen_transport c s w kb_id params in
              let '(w, count) := foldl (share_step c s kb_id) (w, 0%N) (default [] (get_list params "nodes")) in
              let metas := set_kb_meta metas kb_id
                (obj [("kb_id", JString kb_id); ("name", JString (default "" (get_str params "name")));
                      ("owner", JString (default "" (auth_principal s))); ("owner_label", JString label);
                      ("node_count", JPosInt count); ("shared_by", JPosInt (session_id s))]) in
              let '(w, r) := read_state c w (collection_doc kb_id) in
              (metas, (w, Success (obj
                [("kb_id", JString kb_id); ("shared", JBool true); ("node_count", JPosInt count);
                 ("collection_state", JString (match r with inr (state, _) => b64_encode state | inl _ => "" end))])))
          end
      end
  end.

Definition handle_kb_node_fetch c s w params : Answer :=
  require w (get_str params "kb_id") (fun kb_id =>
  require w (get_str params "node_id") (fun node_id =>
    let '(w, d) := access show c s w kb_id Read in
    if negb (bool_decide (d = Some Allow) || bool_decide (d = Some AllowAutoJoin)) then (w, Failure InternalError)
    else
      let '(w, ok) := require_node_in_kb show c w kb_id node_id None in
      if negb ok then (w, Failure InternalError)
      else
        let doc := kb_node_doc_name kb_id node_id in
        let '(w, r) := on_store w (encode_state_and_sv_authorized (fresh_client c) (locked c) (outcome c) (instant c) doc) in
        match r with
        | inl _ => (w, Failure InternalError)
        | inr (state, sv) =>
            (touch c s w doc,
             Success (obj [("kb_id", JString kb_id); ("node_id", JString node_id); ("state", JString (b64_encode state));
                           ("sv", JString (b64_encode sv))]))
        end)).

Record NodeUpdateParams := mkNodeUpdate {
  nu_kb_id : string; nu_node_id : string; nu_update : string; nu_reseal : bool; nu_rebirth : bool }.
Definition parse_node_update params (max_update : nat) : Fault + NodeUpdateParams :=
  match get_str params "kb_id", get_str params "node_id", (let? b := get_str params "update" in b64_decode b) with
  | Some kb_id, Some node_id, Some update =>
      if max_update <? String.length update then inl InternalError
      else inr (mkNodeUpdate kb_id node_id update (get_bool params "reseal") (get_bool params "rebirth"))
  | _, _, _ => inl ParseError
  end.

(** [kb_access_with_coll]. *)
Definition access_with_coll c s w (kb_id : string) (o : KbOp) (coll : option Loaded) : World * option AccessDecision :=
  match coll with
  | None => access show c s w kb_id o
  | Some l => let '(k, d) := kb_access show (kbs w) (Some l) (unix c) kb_id (auth_principal s) o (transport s) in
              (with_kbs w k, d)
  end.
Definition resolve_content_anchor_with_coll c w (kb_id : string) (coll : option Loaded) : World * option string :=
  match kb_anchor (kbs w) kb_id, signer c with
  | Some a, _ => (w, Some a)
  | None, None => (w, None)
  | None, Some _ => let '(w, coll) := with_coll show c w kb_id coll in
                    (w, resolve_content_anchor (kbs w) (signer c) (view_of show <$> coll) kb_id)
  end.
Definition verify_content_op_with_coll c w (kb_id anchor : string) (signed : SignedContentOp) (coll : option Loaded)
    : World * (RelayError + unit) :=
  let '(w, coll) := with_coll show c w kb_id coll in
  let '(k, r) := verify_content_op (kbs w) (view_of show <$> coll) (unix c) kb_id anchor signed in
  (with_kbs w k, r).
(** The header to relay; [None] is a refusal. On a joined knowledge base a
    signature that does not verify is refused, elsewhere it is dropped. *)
Definition check_header c w (kb_id update : string) params (coll : option Loaded) : World * option (option Json) :=
  let joined := bool_decide (is_Some (kb_anchor (kbs w) kb_id)) in
  let '(w, anchor) := resolve_content_anchor_with_coll c w kb_id coll in
  match anchor, from_params params update with
  | Some a, Some signed =>
      let '(w, r) := verify_content_op_with_coll c w kb_id a signed coll in
      (w, match r with
          | inr _ => Some (Some (header_params signed))
          | inl _ => if joined then None else Some None
          end)
  | _, _ => (w, Some None)
  end.
(** [verify_rebirth_binding]; [true] is [Ok]. *)
Definition verify_rebirth_binding c w (kb_id node_id state : string) (coll : option Loaded) : World * bool :=
  let '(w, anchor) := resolve_content_anchor_with_coll c w kb_id coll in
  match anchor with
  | None => (w, false)
  | Some a =>
      let '(w, coll) := with_coll show c w kb_id coll in
      (w, match coll with
          | None => false
          | Some l =>
              match derive_rebirths (oplog_ops (oplog_of show (l_root l))) a !! node_id, decode_node state with
              | Some (_, signed_hash), Some d => bool_decide (KbNodeDoc.rebirth_hash show_val d = signed_hash)
              | _, _ => false
              end
          end)
  end.
Definition gate_rebirth c w (requested : bool) (kb_id node_id state : string) (coll : option Loaded) : World * bool :=
  if requested then verify_rebirth_binding c w kb_id node_id state coll else (w, true).
(** The epoch fence of an update that is not a reseal. *)
Definition fence c s w (p : NodeUpdateParams) (doc : string) (coll : option Loaded) : World * bool :=
  match auth_principal s with
  | Some principal => if nu_reseal p then (w, true)
                      else enforce_epoch_fence_with_coll show c w (nu_kb_id p) doc (nu_update p) principal coll
  | None => (w, true)
  end.

Definition handle_kb_node_update c s w params : Answer :=
  match parse_node_update params (max_update_size c) with
  | inl err => (w, Failure err)
  | inr p =>
      let kb_id := nu_kb_id p in
      let replaces := nu_reseal p || nu_rebirth p in
      let '(w, pre) := load_collection show c w kb_id in
      let '(w, d) := access_with_coll c s w kb_id (if replaces then Manage else Edit) pre in
      if negb (allowed d) then (w, Failure InternalError)
      else
        let doc := kb_node_doc_name kb_id (nu_node_id p) in
        let '(w, header) := check_header c w kb_id (nu_update p) params pre in
        match header with
        | None => (w, Failure InternalError)
        | Some header =>
            let '(w, ok) := fence c s w p doc pre in
            if negb ok then (w, Failure InternalError)
            else
              let w := touch c s w doc in
              let '(w, ok) := gate_rebirth c w (nu_rebirth p) kb_id (nu_node_id p) (nu_update p) pre in
              if negb ok then (w, Failure InternalError)
              else
                let '(w, r) := on_store w (if replaces
                                           then share_doc (fresh_client c) (locked c) (outcome c) (instant c) doc (nu_update p)
                                           else store_update (fresh_client c) (locked c) (outcome c) (instant c) doc (nu_update p) None) in
                match r with
                | inl _ => (w, Failure InternalError)
                | inr res =>
                    (with_bcast w (broadcast_except (bcast w)
                       (SyncUpdate doc (b64_encode (ar_update res)) (ar_wal_seq res) header) (session_id s)),
                     Success (obj [("applied", JBool true)]))
                end
        end
  end.

(** The collection before and after an update, as the two gates read it. *)
Definition before_after c w (kb_id update : string) : World * (option Loaded * option Root) :=
  let '(w, r) := read_state c w (collection_doc kb_id) in
  (w, match r with
      | inl _ => (None, None)
      | inr (state, _) => let before := decode_coll state in
                          (before, let? l := before in let? a := apply_coll l update in Some (l_root a))
      end).
(** The rotations of an update that is let in; [None] refuses it. *)
Definition rebind_pairs c s w (kb_id update : string) (manage : bool) : World * option (list (string * string)) :=
  match auth_principal s with
  | None => (w, if manage then Some [] else None)
  | Some p =>
      if manage && bool_decide (p = "") then (w, Some [])
      else
        let '(w, (before, after)) := before_after c w kb_id update in
        if manage then (w, Some (owner_self_rebind_pairs show p (l_root <$> before) after))
        else let '(k, r) := verify_member_self_service_update show (kbs w) before after (unix c) kb_id (Some p) in
             (with_kbs w k, match r with inr pairs => Some pairs | inl _ => None end)
  end.
(** The successors of the rotations enter the roster with the role of their
    predecessors. *)
Definition mirror_step c s (kb_id : string) (acc : World * Loaded * nat) (pair : string * string) : World * Loaded * nat :=
  let '(w, l, i) := acc in
  let r := default Editor (role_of show (l_root l) pair.2) in
  let '(w, l, _) := commit c s w kb_id l (upsert_member show (token c i) (l_root l) pair.1 pair.1 r) in
  (w, l, S i).
Definition mirror_rotations c s w (kb_id : string) (pairs : list (string * string)) : World :=
  match pairs with
  | [] => w
  | _ => let '(w, coll) := load_collection show c w kb_id in
         match coll with
         | Some l => (foldl (mirror_step c s kb_id) (w, l, 0) pairs).1.1
         | None => w
         end
  end.
Definition handle_kb_collection_op c s w params : Answer :=
  require w (get_str params "kb_id") (fun kb_id =>
  require w (let? b := get_str params "update" in b64_decode b) (fun update =>
    if max_update_size c <? String.length update then (w, Failure InternalError)
    else
      let '(w, d) := access show c s w kb_id Manage in
      let '(w, pairs) := rebind_pairs c s w kb_id update (allowed d) in
      match pairs with
      | None => (w, Failure InternalError)
      | Some pairs =>
          let scrub := get_bool params "scrub" in
          let '(w, r) := persist_and_broadcast_collection c s w kb_id update in
          match r with
          | inl _ => (w, Failure InternalError)
          | inr seq =>
              let w := if scrub
                       then (on_store w (compact_doc (fresh_client c) (locked c) (outcome c) (instant c) (collection_doc kb_id))).1
                       else w in
              (mirror_rotations c s w kb_id pairs,
               Success (obj [("applied", JBool true); ("wal_seq", JPosInt seq); ("scrubbed", JBool scrub)]))
          end
      end)).

Definition handle_kb_collection_node_add_remove c s w (add : bool) params : Answer :=
  require w (get_str params "kb_id") (fun kb_id =>
  require w (get_str params "node_id") (fun node_id =>
    gated c s w kb_id Edit (fun w =>
    loaded_coll c w kb_id (fun w l =>
      let root := if add then add_node (l_root l) node_id (default "" (get_str params "title"))
                  else remove_node (l_root l) node_id in
      let '(w, _, ok) := commit c s w kb_id l root in
      (w, if ok then Success (obj [("kb_id", JString kb_id); ("node_id", JString node_id); ("added", JBool add)])
          else Failure InternalError))))).

(** ** Governance and leases *)

Definition handle_kb_set_policy c s w params : Answer :=
  require w (get_str params "kb_id") (fun kb_id =>
  require w (let? p := get_str params "policy" in JoinPolicy_parse p) (fun policy =>
    gated c s w kb_id Manage (fun w =>
    loaded_coll c w kb_id (fun w l =>
      let '(w, _, ok) := commit c s w kb_id l (set_join_policy (l_root l) policy) in
      (w, if ok then Success (obj [("kb_id", JString kb_id); ("policy", JString (JoinPolicy_as_str policy))])
          else Failure InternalError))))).

(** [block_ok] is the outcome of the storage statement. *)
Definition non_empty_str (o : option string) : option string := let? x := o in if bool_decide (x = "") then None else Some x.
Definition handle_kb_block_unblock_principal (block_ok : bool) w (block : bool) params : Answer :=
  require w (non_empty_str (get_str params "kb_id")) (fun kb_id =>
  require w (non_empty_str (match get_str params "fingerprint" with Some f => Some f | None => get_str params "principal" end))
  (fun principal =>
    let '(k, ok) := if block then add_kb_block block_ok (kbs w) kb_id principal
                    else remove_kb_block block_ok (kbs w) kb_id principal in
    (with_kbs w k,
     if ok then Success (obj [("kb_id", JString kb_id); ("fingerprint", JString principal); ("blocked", JBool block)])
     else Failure InternalError))).
Definition names_json (l : list string) : Json := JArray (map JString l).
Definition handle_kb_blocklist w params : Answer :=
  let all := all_kb_blocklists (kbs w) in
  (w, Success (obj [("blocklist", match get_str params "kb_id" with
                                  | Some kb_id => obj [(kb_id, names_json (default [] (all !! kb_id)))]
                                  | None => JObject (names_json <$> all)
                                  end)])).

Definition handle_kb_set_governance c s w params : Answer :=
  require w (get_str params "kb_id") (fun kb_id =>
  require w (let? g := get_str params "governance" in parse_spec g) (fun governance =>
    gated c s w kb_id Manage (fun w =>
    loaded_coll c w kb_id (fun w l =>
      let own := owner show (l_root l) in
      if bool_decide (own = "") || negb (bool_decide (fst <$> signer c = Some own)) then (w, Failure InternalError)
      else
        let '(w, a) := append_signed_membership c s w kb_id l SetGovernance (to_spec governance) None false None in
        (w, if append_landed a then Success (obj [("kb_id", JString kb_id); ("governance", JString (to_spec governance))])
            else Failure InternalError))))).

Definition handle_kb_revoke c s w params : Answer :=
  require w (get_str params "kb_id") (fun kb_id =>
  require w (get_str params "member") (fun member =>
    gated c s w kb_id Manage (fun w =>
    loaded_coll c w kb_id (fun w l =>
      let '(w, ok) := append_signed_revoke c s w kb_id l member in
      (w, if ok then Success (obj [("kb_id", JString kb_id); ("member", JString member); ("revoked", JBool true)])
          else Failure InternalError))))).

(** The lease map of a collection. *)
Definition leases_of root : gmap string (gmap string string) :=
  omap (fun o => (fun e : Root => to_string show <$> e) <$> as_map o) (map_or_empty root "leases").
Definition claim_in root (kind me : string) (ttl now : N) : option Root :=
  let? ls := claim_lease (leases_of root) kind me ttl now in
  let key := claim_key kind me now in
  let? rec := ls !! key in
  Some (<["leases" := OMap (<[key := OMap (OStr <$> rec)]> (map_or_empty root "leases"))]> root).
Definition claim_and_report c s w (kb_id kind me : string) (ttl : N) : World * option LeaseClaim :=
  let '(w, coll) := load_collection show c w kb_id in
  match coll with
  | None => (w, None)
  | Some l =>
      let now := unix c in
      let '(w, l, ok) := match claim_in (l_root l) kind me ttl now with
                         | Some root => commit c s w kb_id l root
                         | None => (w, l, true)
                         end in
      (w, if ok then current_lease (leases_of (l_root l)) kind now else None)
  end.
Definition handle_kb_claim_lease c s w params : Answer :=
  require w (get_str params "kb_id") (fun kb_id =>
  require w (get_str params "op_kind") (fun kind =>
    let ttl := default DEFAULT_LEASE_TTL_SECS (get_u64 params "ttl_secs") in
    gated c s w kb_id Edit (fun w =>
      let me := default "" (auth_principal s) in
      let '(w, r) := claim_and_report c s w kb_id kind me ttl in
      (w, match r with
          | Some lease => Success (obj [("kb_id", JString kb_id); ("op_kind", JString kind);
                                        ("held", JBool (bool_decide (holder_fp lease = me)));
                                        ("holder_fp", JString (holder_fp lease)); ("claimed_at", JPosInt (claimed_at lease));
                                        ("ttl_secs", JPosInt (lease_ttl_secs lease)); ("generation", JPosInt (generation lease))])
          | None => Failure InternalError
          end)))).

(** ** Dispatch *)

(** The [kb/*] arms of [handle_doc_request_inner]; [None] for the methods
    outside the model. *)
Definition handle_kb_method (block_ok : bool) c s w metas (m : Method) params : option (Metas * Answer) :=
  match m with
  | KbRegister => Some (handle_kb_register s w metas params)
  | KbList => Some (metas, handle_kb_list c s w metas)
  | KbUnregister => Some (handle_kb_unregister w metas params)
  | KbShare => Some (handle_kb_share c s w metas params)
  | KbJoin => Some (metas, handle_kb_join c s w params)
  | KbNodeFetch => Some (metas, handle_kb_node_fetch c s w params)
  | KbNodeUpdate => Some (metas, handle_kb_node_update c s w params)
  | KbCollectionOp => Some (metas, handle_kb_collection_op c s w params)
  | KbClaimLease => Some (metas, handle_kb_claim_lease c s w params)
  | KbAddMember => Some (metas, handle_kb_add_remove_member c s w true params)
  | KbRemoveMember => Some (metas, handle_kb_add_remove_member c s w false params)
  | KbCollectionNodeAdd => Some (metas, handle_kb_collection_node_add_remove c s w true params)
  | KbCollectionNodeRemove => Some (metas, handle_kb_collection_node_add_remove c s w false params)
  | KbSetPolicy => Some (metas, handle_kb_set_policy c s w params)
  | KbBlockPrincipal => Some (metas, handle_kb_block_unblock_principal block_ok w true params)
  | KbUnblockPrincipal => Some (metas, handle_kb_block_unblock_principal block_ok w false params)
  | KbBlocklist => Some (metas, handle_kb_blocklist w params)
  | KbSetGovernance => Some (metas, handle_kb_set_governance c s w params)
  | KbRevoke => Some (metas, handle_kb_revoke c s w params)
  | KbListPending => Some (metas, handle_kb_list_pending c s w params)
  | KbApproveMember => Some (metas, handle_kb_approve_member c s w params)
  | KbLeave => Some (metas, handle_kb_leave c s w params)
  | _ => None
  end.
(** [handle_doc_request_inner] after the quota. *)
Definition handle_kb_request (block_ok : bool) c s w metas (method : string) params : option (Metas * Answer) :=
  if refuse_unaddressable_kb_id params then Some (metas, (w, Failure InvalidRequest))
  else match method_parse method with
       | None => Some (metas, (w, Failure MethodNotFound))
       | Some m =>
           if authorize_named_doc m params then Some (metas, (w, Failure InternalError))
           else match handle_method show c s w m params with
                | Some a => Some (metas, a)
                | None => handle_kb_method block_ok c s w metas m params
                end
       end.
End Handlers.
