(* ===== verification/KbSafety.v ===== *)
(** * KbSafety: what a knowledge-base request can change

    Properties of the handlers of [KbHandlers]: a request reaches only the
    documents of the knowledge base it names, the gated methods need their
    role, node updates are bound to their authorization, and the paths on which
    the implementation does not ask. *)
From S2P Require Import Prelude Rope Buffer Membership OpLog CollabText DocAddress Storage DocStore DocStoreSpec.
From S2P Require Import DeriveCache Lease Json ContentOps Collection Access Broadcast Rotation KbNode Session.
From S2P Require Import SessionSafety KbHandlers.

(** ** The documents an operation of the store reaches *)

Section Frame.
Context {R : Type} `{Rope R, Yrs, Crypto} (K : string -> Prop).
Implicit Types (s : @DocStore R _) (d : string).

(** Outside [K] nothing changed on disk, and memory holds what it held unless
    the document was evicted. *)
Definition untouched s s' : Prop := forall d, ~ K d ->
  rows (storage s') d = rows (storage s) d /\ snapshots (storage s') !! d = snapshots (storage s) !! d /\
  (docs s' !! d = docs s !! d \/ docs s' !! d = None).
#[export] Instance untouched_preorder : PreOrder untouched.
Proof.
  split; [by intros s d _; auto|]. intros s1 s2 s3 H12 H23 d Hd.
  destruct (H12 d Hd) as (A1 & A2 & E1), (H23 d Hd) as (B1 & B2 & E2). rewrite B1, A1, B2, A2. split_and!; [done..|].
  destruct E2 as [->|?]; auto.
Qed.

Lemma untouched_docs s m : (forall d, ~ K d -> m !! d = docs s !! d \/ m !! d = None) -> untouched s (set_docs s m).
Proof. intros Hm d Hd. by split_and!; auto. Qed.
Lemma untouched_storage s t :
  (forall d, ~ K d -> rows t d = rows (storage s) d /\ snapshots t !! d = snapshots (storage s) !! d) ->
  untouched s (set_storage s t).
Proof. intros Hm d Hd. destruct (Hm d Hd). by split_and!; auto. Qed.
Lemma keeps_untouched {A} s0 (f : M A) : (forall s, untouched s (f s).1) -> keeps (untouched s0) f.
Proof. intros Hf s Hs. by etrans; [|apply Hf]. Qed.
Lemma keeps_step s0 f : (forall s, untouched s (f s)) -> keeps (untouched s0) (modify f).
Proof. intros Hf. apply keeps_untouched. apply Hf. Qed.

Lemma keeps_room s0 b : keeps (untouched s0) (make_room b).
Proof.
  apply keeps_step. intros s. repeat case_match; try done. apply untouched_docs. intros d _.
  destruct (decide (d = s1)) as [->|]; [right; apply lookup_delete_eq|left; by apply lookup_delete_ne].
Qed.
Lemma keeps_entry s0 x f : K x -> keeps (untouched s0) (update_entry x f).
Proof.
  intros Hx. apply keeps_step. intros s. apply untouched_docs. intros d Hd. left. apply lookup_alter_ne. by intros ->.
Qed.
Lemma keeps_drop s0 x : keeps (untouched s0) (modify (fun s => set_docs s (delete x (docs s)))).
Proof.
  apply keeps_step. intros s. apply untouched_docs. intros d Hd.
  destruct (decide (d = x)) as [->|]; [right; apply lookup_delete_eq|left; by apply lookup_delete_ne].
Qed.
Lemma keeps_put s0 x e : K x -> keeps (untouched s0) (modify (fun s => put s x e)).
Proof.
  intros Hx. apply keeps_step. intros s. apply untouched_docs. intros d Hd. left. apply lookup_insert_ne. by intros ->.
Qed.
Lemma keeps_emit s0 x : keeps (untouched s0) (emit_change x).
Proof. apply keeps_step. intros s d Hd. case_match; by split_and!; auto. Qed.
Lemma keeps_io s0 io o x : keeps (untouched s0) (run_io io o x).
Proof. unfold run_io. by case_match; intros ??. Qed.
Lemma keeps_validate s0 up : keeps (untouched s0) (validate_update up).
Proof. unfold validate_update. by case_match; intros ??. Qed.
#[local] Hint Resolve keeps_room keeps_entry keeps_drop keeps_put keeps_emit keeps_io keeps_validate : mae.

Lemma keeps_row s0 io x up k : K x -> keeps (untouched s0) (append_row io x up k).
Proof.
  intros Hx. unfold append_row. keep. apply keeps_untouched. intros s.
  change (untouched s (set_storage s (wal_append (storage s) x up k).1)). apply untouched_storage. intros d Hd.
  rewrite rows_append, bool_decide_eq_false_2, app_nil_r; [done|]. by intros ->.
Qed.
Lemma keeps_delete_stored s0 io x : K x -> keeps (untouched s0) (delete_stored io x).
Proof.
  intros Hx. unfold delete_stored. keep. apply keeps_step. intros s. apply untouched_storage. intros d Hd.
  assert (x <> d) by (by intros ->). rewrite rows_delete, bool_decide_eq_false_2 by done. split; [done|].
  cbn. by apply lookup_delete_ne.
Qed.
Lemma keeps_snapshot s0 io x snap : K x -> keeps (untouched s0) (write_snapshot io x snap).
Proof.
  intros Hx. unfold write_snapshot. keep. apply keeps_step. intros s. apply untouched_storage. intros d Hd.
  assert (x <> d) by (by intros ->). rewrite rows_compact, bool_decide_eq_false_2 by done. cbn. split.
  - induction (rows (storage s) d) as [|r l IH]; [done|]. cbn. by rewrite IH.
  - by apply lookup_insert_ne.
Qed.
#[local] Hint Resolve keeps_row keeps_delete_stored keeps_snapshot : mae.

Lemma keeps_get s0 c b io now x cr : K x -> keeps (untouched s0) (get_or_create_with c b io now x cr).
Proof. intros Hx. unfold get_or_create_with. keep. Qed.
#[local] Hint Resolve keeps_get : mae.
Lemma keeps_compact s0 c b io now x : K x -> keeps (untouched s0) (compact_doc c b io now x).
Proof. intros Hx. unfold compact_doc, capture, get_or_create. keep. Qed.
#[local] Hint Resolve keeps_compact : mae.
Lemma keeps_update s0 c b io now x up k : K x -> keeps (untouched s0) (store_update c b io now x up k).
Proof. intros Hx. unfold store_update, append_phase, apply_phase, get_or_create_allowing_durable. keep. Qed.
Lemma keeps_share s0 c b io now x up : K x -> keeps (untouched s0) (share_doc c b io now x up).
Proof.
  intros Hx. unfold share_doc, get_or_create_allowing_durable. keep.
  all: try (intros s Hs; exact (keeps_delete_stored s0 io x Hx s Hs)). all: keep.
Qed.
Lemma keeps_state s0 c b io now x : K x -> keeps (untouched s0) (encode_state_and_sv c b io now x).
Proof. intros Hx. unfold encode_state_and_sv, read_doc, get_or_create. keep. Qed.
Lemma keeps_state_authorized s0 c b io now x : K x -> keeps (untouched s0) (encode_state_and_sv_authorized c b io now x).
Proof. intros Hx. unfold encode_state_and_sv_authorized, get_or_create_allowing_durable. keep. Qed.
Lemma keeps_diff s0 c b io now x sv : K x -> keeps (untouched s0) (encode_diff_and_sv c b io now x sv).
Proof. intros Hx. unfold encode_diff_and_sv, get_or_create. keep. Qed.
Lemma keeps_connect s0 c b io now x : K x -> keeps (untouched s0) (track_client_connect c b io now x).
Proof. intros Hx. unfold track_client_connect, get_or_create. keep. Qed.
End Frame.

(** ** The documents a request reaches *)

(** The documents of a knowledge base. *)
Definition of_kb (kb_id doc : string) : Prop := doc = collection_doc kb_id \/ exists n, doc = kb_node_doc_name kb_id n.
Lemma of_kb_coll kb : of_kb kb (collection_doc kb).
Proof. by left. Qed.
Lemma of_kb_coll' kb : of_kb kb ("kbc:" +:+ kb).
Proof. by left. Qed.
Lemma of_kb_node kb n : of_kb kb (kb_node_doc_name kb n).
Proof. right. eauto. Qed.
#[local] Hint Resolve of_kb_coll of_kb_coll' of_kb_node : mae.
Lemma of_kb_disjoint k kb d : kb_id_is_addressable k = true -> kb_id_is_addressable kb = true ->
  of_kb k d -> of_kb kb d -> k = kb.
Proof.
  unfold kb_id_is_addressable, of_kb, collection_doc, kb_node_doc_name, to_doc_name. rewrite !andb_true_iff, !negb_true_iff.
  intros [_ Hk] [_ Hb] [->|[n ->]] [E|[n' E]].
  - apply (f_equal (strip_prefix "kbc:")) in E. rewrite !strip_prefix_app in E. by simplify_eq.
  - done.
  - done.
  - apply (f_equal (strip_prefix "kbn:")) in E. rewrite !strip_prefix_app in E. injection E as E.
    apply (f_equal (split_once ":")) in E. change (split_once ":" (k +:+ String ":" n) = split_once ":" (kb +:+ String ":" n')) in E.
    rewrite !split_once_app in E by done. by simplify_eq.
Qed.

Section Requests.
Context {R : Type} `{Rope R, Yrs, Crypto, Base64, CollCodec, KbCodec, Signer}.
Context (show : Out -> string) (show_val : Val -> string).
Implicit Types (w : World (R := R)) (c : KbCtx) (s : Session) (params : Json) (kb : string).

Definition framed kb w w' : Prop := untouched (of_kb kb) (store w) (store w').
#[local] Instance framed_preorder kb : PreOrder (framed kb).
Proof. split; [intros w; unfold framed; reflexivity|]. intros w1 w2 w3 H12 H23. unfold framed in *. by etrans. Qed.

Lemma framed_store {A} kb w (m : M A) : (forall st, keeps (untouched (of_kb kb) st) m) -> framed kb w (on_store w m).1.
Proof.
  intros Hm. unfold framed, on_store. specialize (Hm (store w) (store w)). destruct (m (store w)) as [st r]. by apply Hm.
Qed.
Lemma framed_same kb w w' : store w' = store w -> framed kb w w'.
Proof. unfold framed. intros ->. reflexivity. Qed.
#[local] Hint Resolve keeps_update keeps_share keeps_state keeps_state_authorized keeps_diff keeps_connect keeps_compact : mae.

#[local] Hint Resolve framed_store : mae.

(** One step of a handler: its world is framed, go on from there. *)
Ltac stage kb w e :=
  let Hf := fresh "Hf" in
  lazymatch type of e with
  | (World * _ * _)%type =>
      first [assert (Hf : framed kb _ e.1.1) by (eauto 5 with mae)|assert (Hf : framed kb w e.1.1) by walk];
      etrans; [exact Hf|]; destruct e as [[??] ?]
  | (World * _)%type =>
      first [assert (Hf : framed kb _ e.1) by (eauto 5 with mae)|assert (Hf : framed kb w e.1) by walk];
      etrans; [exact Hf|]; destruct e as [??]
  | _ => destruct e
  end; try clear Hf; cbn [fst snd]
with advance :=
  cbv zeta;
  lazymatch goal with
  | |- framed ?kb ?w (fst (fst (match ?e with _ => _ end))) => stage kb w e
  | |- framed ?kb ?w (fst (match ?e with _ => _ end)) => stage kb w e
  | |- framed ?kb ?w (match ?e with _ => _ end) => stage kb w e
  end
with walk := repeat first [done|by apply framed_same|by eauto 3 with mae|advance].

Lemma framed_load kb c w : framed kb w (load_collection show c w kb).1.
Proof. unfold load_collection, open_collection. walk. Qed.
#[local] Hint Resolve framed_load : mae.
Lemma framed_access kb c s w o : framed kb w (access show c s w kb o).1.
Proof. unfold access. walk. Qed.
Lemma framed_with_coll kb c w l : framed kb w (with_coll show c w kb l).1.
Proof. unfold with_coll. walk. Qed.
#[local] Hint Resolve framed_access framed_with_coll : mae.
Lemma framed_read kb c w d : of_kb kb d -> framed kb w (read_state c w d).1.
Proof. unfold read_state. eauto with mae. Qed.
Lemma framed_touch kb c s w d : of_kb kb d -> framed kb w (touch c s w d).
Proof. intros Hd. unfold touch. walk. Qed.
Lemma framed_join_doc kb c s w d : of_kb kb d -> framed kb w (join_doc c s w d).
Proof. intros Hd. unfold join_doc. etrans; [by apply (framed_same kb w (set_touched w ({[d]} ∪ touched w)))|]. walk. Qed.
Lemma framed_persist kb c s w u : framed kb w (persist_and_broadcast_collection c s w kb u).1.
Proof. unfold persist_and_broadcast_collection. walk. Qed.
#[local] Hint Resolve framed_read framed_touch framed_join_doc framed_persist : mae.
Lemma framed_commit kb c s w l root : framed kb w (commit c s w kb l root).1.1.
Proof. unfold commit. walk. Qed.
#[local] Hint Resolve framed_commit : mae.
Lemma framed_append kb c s w l act subj r inv exp : framed kb w (append_signed_membership show c s w kb l act subj r inv exp).1.
Proof. unfold append_signed_membership. walk. Qed.
Lemma framed_revoke kb c s w l subj : framed kb w (append_signed_revoke show c s w kb l subj).1.
Proof. unfold append_signed_revoke. walk. Qed.
#[local] Hint Resolve framed_append framed_revoke : mae.

Lemma framed_fold {A B} kb (proj : A -> World) (f : A -> B -> A) l : forall a,
  (forall a x, framed kb (proj a) (proj (f a x))) -> framed kb (proj a) (proj (foldl f a l)).
Proof. induction l as [|x l IH]; intros a Hf; [done|]. etrans; [apply (Hf a x)|]. by apply IH. Qed.
Lemma framed_fold_from {A B} kb w (proj : A -> World) (f : A -> B -> A) a l :
  w = proj a -> (forall a x, framed kb (proj a) (proj (f a x))) -> framed kb w (proj (foldl f a l)).
Proof. intros -> Hf. by apply framed_fold. Qed.

Lemma framed_forward kb c s w params : framed kb w (forward_pending show c s w kb params).
Proof.
  unfold forward_pending. walk. apply framed_fold_from; [done|]. intros [w1 l1] pm. cbn [fst]. unfold forward_step. walk.
Qed.
Lemma framed_join_nodes kb c s svs ids acc : framed kb acc.1 (foldl (join_step c s kb svs) acc ids).1.
Proof.
  apply framed_fold. intros [w nodes] n. cbn [fst]. unfold join_step, read_diff. walk.
Qed.
#[local] Hint Resolve framed_forward framed_join_nodes : mae.
(** A step that changes the world without a result. *)
Lemma framed_via kb w w1 w2 : framed kb w w1 -> framed kb w1 w2 -> framed kb w w2.
Proof. apply transitivity. Qed.
Lemma framed_join_reply kb c s w params : framed kb w (join_reply show c s w kb params).1.
Proof.
  unfold join_reply. advance. destruct s0 as [|[state sv]]; [done|].
  apply framed_via with (join_doc c s w0 (collection_doc kb)); [eauto with mae|]. walk.
Qed.
#[local] Hint Resolve framed_join_reply : mae.
Lemma framed_for_caller kb c s w f : framed kb w (for_caller show c s w kb f).1.
Proof. unfold for_caller. walk. Qed.
#[local] Hint Resolve framed_for_caller : mae.
Lemma framed_join kb c s w params : get_str params "kb_id" = Some kb -> framed kb w (handle_kb_join show c s w params).1.
Proof.
  intros Hk. unfold handle_kb_join. rewrite Hk. cbn [require].
  apply framed_via with (forward_pending show c s w kb params); [eauto with mae|]. walk.
Qed.

Lemma framed_gated kb c s w o k : (forall w1, framed kb w1 (k w1).1) -> framed kb w (gated show c s w kb o k).1.
Proof. intros Hk. unfold gated. advance. destruct (allowed _); [apply Hk|done]. Qed.
Lemma framed_loaded kb c w k : (forall w1 l, framed kb w1 (k w1 l).1) -> framed kb w (loaded_coll show c w kb k).1.
Proof. intros Hk. unfold loaded_coll. advance. case_match; [apply Hk|done]. Qed.
Lemma framed_require {A} kb w (o : option A) k : (forall x, framed kb w (k x).1) -> framed kb w (require w o k).1.
Proof. intros Hk. unfold require. case_match; [apply Hk|done]. Qed.

(** Through the gates of a handler. *)
Ltac gates Hk :=
  rewrite Hk; cbn [require];
  repeat first [apply framed_require; intros ?|apply framed_gated; intros ?|apply framed_loaded; intros ??]; walk.
Lemma framed_members kb c s w add params : get_str params "kb_id" = Some kb ->
  framed kb w (handle_kb_add_remove_member show c s w add params).1.
Proof. intros Hk. unfold handle_kb_add_remove_member. gates Hk. Qed.
Lemma framed_list_pending kb c s w params : get_str params "kb_id" = Some kb ->
  framed kb w (handle_kb_list_pending show c s w params).1.
Proof. intros Hk. unfold handle_kb_list_pending. gates Hk. Qed.
Lemma framed_approve kb c s w params : get_str params "kb_id" = Some kb ->
  framed kb w (handle_kb_approve_member show c s w params).1.
Proof. intros Hk. unfold handle_kb_approve_member. gates Hk. Qed.
Lemma framed_leave kb c s w params : get_str params "kb_id" = Some kb -> framed kb w (handle_kb_leave show c s w params).1.
Proof.
  intros Hk. unfold handle_kb_leave. rewrite Hk. cbn [require]. advance. cbn [fst].
  match goal with |- framed _ _ (foldl ?f ?a ?l) => apply framed_via with a; [by apply framed_same|] end.
  apply (framed_fold kb (fun w => w)). intros w1 n. unfold leave_step. walk.
Qed.

Lemma framed_share_collection kb c s w b : framed kb w (share_collection show c s w kb b).1.
Proof. unfold share_collection, refuse_if_owned_by_another. walk. Qed.
Lemma framed_widen kb c s w params : framed kb w (widen_transport show c s w kb params).
Proof. unfold widen_transport. walk. Qed.
Lemma framed_share_nodes kb c s l acc : framed kb acc.1 (foldl (share_step c s kb) acc l).1.
Proof.
  apply framed_fold. intros [w n] x. cbn [fst]. unfold share_step.
  destruct (node_state x) as [[i b]|]; [|done]. destruct (has_doc (store w) (kb_node_doc_name kb i)); walk.
Qed.
#[local] Hint Resolve framed_share_collection framed_widen framed_share_nodes : mae.
Lemma framed_share kb c s w metas params : get_str params "kb_id" = Some kb ->
  framed kb w (handle_kb_share show c s w metas params).2.1.
Proof.
  intros Hk. unfold handle_kb_share. rewrite Hk. case_match; [|done].
  match goal with |- context [share_collection ?a ?b ?c ?d ?e ?f] =>
    pose proof (framed_share_collection kb b c d f) as Hf; destruct (share_collection a b c d e f) as [w1 [err|]] end; [done|].
  etrans; [exact Hf|]. apply framed_via with (join_doc c s w1 (collection_doc kb)); [eauto with mae|].
  apply framed_via with (widen_transport show c s (join_doc c s w1 (collection_doc kb)) kb params); [eauto with mae|].
  match goal with |- context [foldl (share_step ?a ?b ?d) ?e ?f] =>
    pose proof (framed_share_nodes kb a b f e) as Hg; destruct (foldl (share_step a b d) e f) as [w2 n] end.
  etrans; [exact Hg|]. pose proof (framed_read kb c w2 (collection_doc kb) (of_kb_coll kb)) as Hr.
  by destruct (read_state c w2 (collection_doc kb)).
Qed.
Lemma framed_node_fetch kb c s w params : get_str params "kb_id" = Some kb ->
  framed kb w (handle_kb_node_fetch show c s w params).1.
Proof. intros Hk. unfold handle_kb_node_fetch, require_node_in_kb. gates Hk. Qed.

Lemma framed_access_with kb c s w o l : framed kb w (access_with_coll show c s w kb o l).1.
Proof. unfold access_with_coll. walk. Qed.
Lemma framed_resolve kb c w l : framed kb w (resolve_content_anchor_with_coll show c w kb l).1.
Proof. unfold resolve_content_anchor_with_coll. walk. Qed.
#[local] Hint Resolve framed_access_with framed_resolve : mae.
Lemma framed_verify kb c w a sg l : framed kb w (verify_content_op_with_coll show c w kb a sg l).1.
Proof. unfold verify_content_op_with_coll. walk. Qed.
#[local] Hint Resolve framed_verify : mae.
Lemma framed_header kb c w u params l : framed kb w (check_header show c w kb u params l).1.
Proof. unfold check_header. walk. Qed.
Lemma framed_rebirth kb c w b n st l : framed kb w (gate_rebirth show show_val c w b kb n st l).1.
Proof. unfold gate_rebirth, verify_rebirth_binding. walk. Qed.
Lemma framed_fence c s w p n l :
  framed (nu_kb_id p) w (fence show c s w p (kb_node_doc_name (nu_kb_id p) n) l).1.
Proof. unfold fence, enforce_epoch_fence_with_coll. walk. Qed.
#[local] Hint Resolve framed_header framed_rebirth framed_fence : mae.
Lemma framed_node_update kb c s w params : get_str params "kb_id" = Some kb ->
  framed kb w (handle_kb_node_update show show_val c s w params).1.
Proof.
  intros Hk. unfold handle_kb_node_update.
  destruct (parse_node_update params (max_update_size c)) as [err|p] eqn:Ep; [done|].
  assert (Ek : nu_kb_id p = kb) by (unfold parse_node_update in Ep; rewrite Hk in Ep; repeat case_match; by simplify_eq/=).
  rewrite <- Ek. clear Ep Ek Hk. do 2 advance. destruct (allowed _); cbn [negb]; [|done]. advance. case_match; [|done].
  advance. case_match; [done|].
  match goal with |- context [touch ?a ?b ?d ?e] => apply framed_via with (touch a b d e); [eauto with mae|] end.
  advance. case_match; [done|]. destruct (_ || _); walk.
Qed.

Lemma framed_pairs kb c s w u b : framed kb w (rebind_pairs show c s w kb u b).1.
Proof.
  unfold rebind_pairs. case_match; [|done]. case_match; [done|].
  assert (Hf : framed kb w (before_after c w kb u).1) by (unfold before_after; walk).
  destruct (before_after c w kb u) as [w1 [before after]]. etrans; [exact Hf|]. walk.
Qed.
Lemma framed_mirror kb c s w pairs : framed kb w (mirror_rotations show c s w kb pairs).
Proof.
  unfold mirror_rotations. case_match; [done|]. advance. case_match; [|done].
  apply (framed_fold_from kb _ (fun a => a.1.1)); [done|]. intros [[w1 l1] i] x. cbn [fst snd]. unfold mirror_step. walk.
Qed.
#[local] Hint Resolve framed_pairs framed_mirror : mae.
Lemma framed_collection_op kb c s w params : get_str params "kb_id" = Some kb ->
  framed kb w (handle_kb_collection_op show c s w params).1.
Proof.
  intros Hk. unfold handle_kb_collection_op. rewrite Hk. cbn [require]. apply framed_require. intros u.
  case_match; [done|]. do 2 advance. case_match; [|done]. advance. case_match; [done|]. cbn [fst].
  match goal with |- context [mirror_rotations ?a ?b ?d ?e ?f ?g] => apply framed_via with e; [|by eauto with mae] end. walk.
Qed.
Lemma framed_manifest kb c s w add params : get_str params "kb_id" = Some kb ->
  framed kb w (handle_kb_collection_node_add_remove show c s w add params).1.
Proof. intros Hk. unfold handle_kb_collection_node_add_remove. gates Hk. Qed.
Lemma framed_set_policy kb c s w params : get_str params "kb_id" = Some kb ->
  framed kb w (handle_kb_set_policy show c s w params).1.
Proof. intros Hk. unfold handle_kb_set_policy. gates Hk. Qed.
Lemma framed_governance kb c s w params : get_str params "kb_id" = Some kb ->
  framed kb w (handle_kb_set_governance show c s w params).1.
Proof. intros Hk. unfold handle_kb_set_governance. gates Hk. Qed.
Lemma framed_kb_revoke kb c s w params : get_str params "kb_id" = Some kb ->
  framed kb w (handle_kb_revoke show c s w params).1.
Proof. intros Hk. unfold handle_kb_revoke. gates Hk. Qed.
Lemma framed_claim kb c s w params : get_str params "kb_id" = Some kb ->
  framed kb w (handle_kb_claim_lease show c s w params).1.
Proof. intros Hk. unfold handle_kb_claim_lease, claim_and_report. gates Hk. Qed.
Lemma framed_block kb ok b w params : framed kb w (handle_kb_block_unblock_principal ok w b params).1.
Proof. unfold handle_kb_block_unblock_principal. do 2 (apply framed_require; intros ?). walk. Qed.
#[local] Hint Resolve framed_share framed_join framed_members framed_list_pending framed_approve framed_leave framed_node_fetch
  framed_node_update framed_collection_op framed_manifest framed_set_policy framed_governance framed_kb_revoke framed_claim
  framed_block : mae.

Lemma kb_method_framed ok c s w metas m params metas' a kb : m <> KbList -> get_str params "kb_id" = Some kb ->
  handle_kb_method show show_val ok c s w metas m params = Some (metas', a) ->
  framed kb w a.1 /\ forall k, k <> kb -> metas' !! k = metas !! k.
Proof.
  intros Hm Hk E.
  destruct m; try done; cbn [handle_kb_method] in E; apply (inj Some) in E;
    try (apply pair_equal_spec in E as [<- <-]; by split; [eauto with mae|]).
  - unfold handle_kb_register in E. rewrite Hk in E. injection E as <- <-. split; [by apply framed_same|].
    intros k Hne. by apply lookup_insert_ne.
  - unfold handle_kb_unregister in E. rewrite Hk in E. injection E as <- <-. split; [by apply framed_same|].
    intros k Hne. by apply lookup_delete_ne.
  - split; [replace a with (handle_kb_share show c s w metas params).2 by (by rewrite E); by apply framed_share|]. intros k Hne.
    unfold handle_kb_share in E. rewrite Hk in E. repeat case_match; simplify_eq; first [done|by apply lookup_insert_ne].
Qed.

(** ** Theorems *)

(** C4. A knowledge-base request reaches one knowledge base: whatever its
    method (listing apart), its parameters, the caller and the outcome of
    storage statements, a request that names one knowledge base leaves every
    document of every other one as it was, on disk and in memory (where it may
    only have been evicted), and every other entry of the registry. *)
Theorem kb_request_reaches_one_kb ok c s w metas method m params kb metas' w' r :
  method_parse method = Some m -> scope_of m = KbGated -> m <> KbList -> get_str params "kb_id" = Some kb ->
  handle_kb_request show show_val ok c s w metas method params = Some (metas', (w', r)) ->
  forall k, k <> kb -> kb_id_is_addressable k = true ->
  metas' !! k = metas !! k /\
  forall d, of_kb k d ->
    rows (storage (store w')) d = rows (storage (store w)) d /\
    snapshots (storage (store w')) !! d = snapshots (storage (store w)) !! d /\
    (docs (store w') !! d = docs (store w) !! d \/ docs (store w') !! d = None).
Proof.
  intros Hm Hg Hl Hk E k Hne Ha. unfold handle_kb_request in E.
  destruct (refuse_unaddressable_kb_id params) eqn:Er.
  { simplify_eq. split; [done|]. intros d _. auto. }
  unfold refuse_unaddressable_kb_id in Er. rewrite Hk in Er. apply negb_false_iff in Er.
  rewrite Hm in E. unfold authorize_named_doc in E. rewrite Hg, bool_decide_eq_false_2 in E by done. cbn [negb] in E.
  assert (En : handle_method show c s w m params = None) by (by destruct m). rewrite En in E.
  destruct (kb_method_framed _ _ _ _ _ _ _ _ _ kb Hl Hk E) as [Hf Hmeta]. split; [by apply Hmeta|].
  intros d Hd. apply Hf. intros Hb. by apply Hne, (of_kb_disjoint k kb d).
Qed.

(** What the gated methods need. *)
Definition needs (m : Method) : option KbOp :=
  match m with
  | KbAddMember | KbRemoveMember | KbApproveMember | KbListPending | KbSetPolicy | KbSetGovernance | KbRevoke => Some Manage
  | KbCollectionNodeAdd | KbCollectionNodeRemove | KbClaimLease => Some Edit
  | KbNodeFetch => Some Read
  | _ => None
  end.
(** A request that failed having done no more than ask. *)
Definition refused c s w kb (o : KbOp) (a : World * Response) : Prop :=
  exists err, a.2 = Failure err /\ (a.1 = w \/ a.1 = (access show c s w kb o).1).
Lemma refused_gated c s w kb o k : (access show c s w kb o).2 <> Some Allow -> refused c s w kb o (gated show c s w kb o k).
Proof.
  unfold refused, gated. destruct (access show c s w kb o) as [w1 d]. cbn [fst snd]. intros Hd. unfold allowed.
  rewrite bool_decide_eq_false_2 by done. eauto.
Qed.
Lemma refused_require {A} c s w kb o (x : option A) k :
  (forall y, refused c s w kb o (k y)) -> refused c s w kb o (require w x k).
Proof. intros Hk. unfold require. destruct x; [apply Hk|]. by exists ParseError; auto. Qed.
Lemma read_is_no_join c s w kb : (access show c s w kb Read).2 <> Some AllowAutoJoin.
Proof.
  unfold access, kb_access. destruct (auth_principal s) as [p|]; [|done]. destruct (load_collection show c w kb) as [w1 [l|]]; [|done].
  destruct (caller_role show (kbs w1) l (unix c) kb p) as [st [r repl]]. cbn [snd]. intros [= E]. unfold decide_access in E.
  by repeat case_match.
Qed.

(** C5. The gated requests need their role: unless the access decision on the
    named knowledge base is to allow managing (membership, policy, governance,
    revocation), editing (manifest, leases) or reading (fetching a node), the
    request fails, and the world is left as the decision left it: nothing is
    written, broadcast, subscribed or registered. *)
Theorem gated_requests_need_role ok c s w metas method m o params kb :
  method_parse method = Some m -> needs m = Some o -> get_str params "kb_id" = Some kb ->
  (access show c s w kb o).2 <> Some Allow ->
  exists w' err, handle_kb_request show show_val ok c s w metas method params = Some (metas, (w', Failure err)) /\
    (w' = w \/ w' = (access show c s w kb o).1).
Proof.
  intros Hm Hn Hk Hd. unfold handle_kb_request. destruct (refuse_unaddressable_kb_id params); [by eauto|]. rewrite Hm.
  assert (Ea : authorize_named_doc m params = false) by (by destruct m). rewrite Ea.
  assert (Hr : exists a, handle_method show c s w m params = None /\
    handle_kb_method show show_val ok c s w metas m params = Some (metas, a) /\ refused c s w kb o a).
  { destruct m; try done; injection Hn as <-; eexists; (split; [done|split; [reflexivity|]]).
    all: unfold handle_kb_node_fetch, handle_kb_claim_lease, handle_kb_add_remove_member, handle_kb_collection_node_add_remove,
           handle_kb_set_policy, handle_kb_set_governance, handle_kb_revoke, handle_kb_list_pending, handle_kb_approve_member;
         rewrite Hk; cbn [require]; try (apply refused_require; intros ?); try by apply refused_gated.
    unfold refused. pose proof (read_is_no_join c s w kb) as Hj. destruct (access show c s w kb Read) as [w1 d]. cbn [fst snd] in *.
    rewrite !bool_decide_eq_false_2 by done. cbn. eauto. }
  destruct Hr as ([w' r] & En & Eh & err & Er & Hw). cbn [fst snd] in *. subst r. rewrite En, Eh. eauto.
Qed.

(** Listing shows only readable knowledge bases: every entry [kb/list]
    answers with is an entry of the registry whose knowledge base the caller
    was allowed to read when the entry was reached; being able to join is not
    enough. *)
Theorem list_shows_only_readable c s w metas w' j l meta :
  handle_kb_list show c s w metas = (w', Success j) -> get_list j "kbs" = Some l -> meta ∈ l ->
  exists i kb, list_kb_metas metas !! i = Some meta /\ get_str meta "kb_id" = Some kb /\
    let before := (foldl (list_step show c s) (w, []) (take i (list_kb_metas metas))).1 in
    (access show c s before kb Read).2 = Some Allow.
Proof.
  unfold handle_kb_list. generalize (list_kb_metas metas). intros ms.
  destruct (foldl (list_step show c s) (w, []) ms) as [w1 vis] eqn:E. intros [= <- <-] Hl Hin.
  assert (vis = l) as -> by (by injection Hl). clear Hl. revert w1 l E Hin.
  induction ms as [|x ms IH] using rev_ind; intros w1 l E Hin; [injection E as <- <-; by apply not_elem_of_nil in Hin|].
  rewrite foldl_app in E. destruct (foldl (list_step show c s) (w, []) ms) as [w0 vis] eqn:E0. cbn [foldl] in E.
  assert (Hold : meta ∈ vis -> exists i kb, (ms ++ [x]) !! i = Some meta /\ get_str meta "kb_id" = Some kb /\
    let before := (foldl (list_step show c s) (w, []) (take i (ms ++ [x]))).1 in (access show c s before kb Read).2 = Some Allow).
  { intros Hv. destruct (IH w0 vis eq_refl Hv) as (i & kb & Hi & Hkb & Ha). exists i, kb.
    assert (i < length ms) by (by apply lookup_lt_Some in Hi). rewrite lookup_app_l, take_app_le by lia. done. }
  unfold list_step in E. destruct (get_str x "kb_id") as [kb|] eqn:Ekb; [|injection E as <- <-; by apply Hold].
  destruct (access show c s w0 kb Read) as [w2 d] eqn:Ea. injection E as <- <-.
  destruct (allowed d) eqn:Ed; [|by apply Hold]. apply elem_of_app in Hin as [Hin| ->%list_elem_of_singleton]; [by apply Hold|].
  exists (length ms), kb. rewrite lookup_app_r, Nat.sub_diag by lia. rewrite take_app_length, E0. cbn [fst]. rewrite Ea.
  split_and!; [done|done|]. by apply bool_decide_eq_true in Ed.
Qed.

(** ** Node updates *)

Lemma make_room_spec b (st : @DocStore R _) : exists st', make_room b st = (st', inr tt) /\ storage st' = storage st /\
  forall x, docs st !! x = None -> docs st' !! x = None.
Proof.
  unfold make_room, modify. eexists. split; [reflexivity|]. repeat case_match; (split; [done|]); [|auto..].
  intros x Hx. cbn. by rewrite lookup_delete_None; auto.
Qed.
(** Asking for a document a second time answers as the first time. *)
Lemma get_again i b io now x cr (st st1 : @DocStore R _) r :
  get_or_create_with i b io now x cr st = (st1, r) -> (get_or_create_with i b io now x cr st1).2 = r.
Proof.
  unfold get_or_create_with, sbind, get. destruct (docs st !! x) as [e|] eqn:Ex.
  { cbn. intros [= <- <-]. by rewrite Ex. }
  destruct (make_room_spec b st) as (st' & Em & Hst & Hx). specialize (Hx x Ex). rewrite Em. unfold run_io.
  destruct (make_room_spec b st') as (st2 & Em2 & Hst2 & _).
  destruct (io IoLoad x) eqn:Eio; cbn [ret fail]; [|intros [= <- <-]; by rewrite Hx, Em2].
  destruct (load_document (storage st') x) as [ds|] eqn:El.
  - destruct (rebuild i ds) as [[sy q]|] eqn:Er; cbn [ret fail modify fst snd]; intros [= <- <-].
    + cbn [put set_docs docs]. by rewrite lookup_insert_eq.
    + by rewrite Hx, Em2, Hst2, El, Er.
  - destruct (bool_decide (cr = Refused) && is_durable_doc x) eqn:Ec; cbn [ret fail modify fst snd]; intros [= <- <-].
    + by rewrite Hx, Em2, Hst2, El.
    + cbn [put set_docs docs]. by rewrite lookup_insert_eq.
Qed.
Lemma read_again c w d w1 r : read_state c w d = (w1, r) -> (read_state c w1 d).2 = r.
Proof.
  unfold read_state, on_store, encode_state_and_sv, read_doc, get_or_create, sbind. destruct (get_or_create_with _ _ _ _ _ _ (store w)) as [st x] eqn:E.
  apply get_again in E. destruct x as [err|e]; intros [= <- <-]; cbn [store];
    destruct (get_or_create_with _ _ _ _ _ _ st) as [st2 y]; cbn [snd] in *; by subst y.
Qed.
Lemma load_again c w kb w1 : load_collection show c w kb = (w1, None) -> (load_collection show c w1 kb).2 = None.
Proof.
  unfold load_collection. destruct (has_durable_doc (outcome c) (store w) ("kbc:" +:+ kb)) eqn:Eh; cbn [negb];
    [|intros [= <-]; by rewrite Eh].
  fold (read_state c w ("kbc:" +:+ kb)). destruct (read_state c w ("kbc:" +:+ kb)) as [w0 r] eqn:Er. intros E.
  assert (Hd : w1 = w0 /\ match r with inl _ => True | inr (st, _) => decode_coll st = None end).
  { destruct r as [err|[st sv]]; [by injection E|]. unfold open_collection in E.
    destruct (decode_coll st); [|by injection E]. destruct (let? rs := resolver c in _); [|done].
    destruct (commit_coll _ _). by destruct (on_store _ _). }
  destruct Hd as [-> Hd]. destruct (has_durable_doc (outcome c) (store w0) ("kbc:" +:+ kb)); [|done]. cbn [negb].
  fold (read_state c w0 ("kbc:" +:+ kb)). pose proof (read_again c w _ _ _ Er) as Hr.
  destruct (read_state c w0 ("kbc:" +:+ kb)) as [w2 r2]. cbn [snd] in Hr. subst r2.
  destruct r as [err|[st sv]]; [reflexivity|]. unfold open_collection. by rewrite Hd.
Qed.
Lemma access_with_unloaded c s w kb o w1 p : auth_principal s = Some p -> load_collection show c w kb = (w1, None) ->
  (access_with_coll show c s w1 kb o None).2 <> Some Allow.
Proof.
  intros Hp E. apply load_again in E. unfold access_with_coll, access, kb_access. rewrite Hp.
  by destruct (load_collection show c w1 kb) as [w2 [l|]].
Qed.

Lemma caller_allowed c s w kb l o pr : auth_principal s = Some pr ->
  (access_with_coll show c s w kb o (Some l)).2 = Some Allow ->
  exists r repl, (caller_role show (kbs w) l (unix c) kb pr).2 = (Some r, repl) /\
    (o = Edit -> includes r Editor = true) /\ (o = Manage -> r = Owner) /\
    (r = Owner \/ allows (transport_policy show (l_root l)) (transport s) = true).
Proof.
  intros Hp. unfold access_with_coll, kb_access. rewrite Hp.
  destruct (caller_role show (kbs w) l (unix c) kb pr) as [st [role repl]]. cbn [snd]. intros [= E].
  apply decide_access_allow in E as (r & -> & Ht & _ & He & Hm). exists r, repl. auto.
Qed.
Lemma header_admitted c w kb u params l w1 h a signed : check_header show c w kb u params (Some l) = (w1, Some h) ->
  kb_anchor (kbs w) kb = Some a -> from_params params u = Some signed ->
  admit_signed signed (members (derived_membership (kbs w) kb (l_sv l) (oplog_of show (l_root l)) a (unix c)).2) = inr tt.
Proof.
  unfold check_header, resolve_content_anchor_with_coll, verify_content_op_with_coll. intros E Ha Hs. rewrite Ha, Hs in E.
  cbn [with_coll fmap option_fmap option_map] in E. unfold verify_content_op, view_of in E. cbn [coll_sv coll_log] in E.
  rewrite bool_decide_eq_true_2 in E by eauto. destruct (derived_membership _ _ _ _ _ _) as [st dm]. cbn [snd].
  destruct (admit_signed signed (members dm)) as [|[]]; [by simplify_eq|done].
Qed.
Lemma fence_authors c s w p doc l pr base sv : auth_principal s = Some pr -> nu_reseal p = false ->
  (fence show c s w p doc (Some l)).2 = true -> (read_state c w doc).2 = inr (base, sv) ->
  exists authors, update_new_op_authors (nu_update p) base = Some authors /\
    authors ⊆ {[derive_kb_client_id pr (kb_member_epoch show (kbs w) l (unix c) (nu_kb_id p) pr).2]}.
Proof.
  intros Hp Hr. unfold fence, enforce_epoch_fence_with_coll, read_state, on_store. rewrite Hp, Hr. cbn [with_coll].
  destruct (kb_member_epoch show (kbs w) l (unix c) (nu_kb_id p) pr) as [k e]. cbn [snd with_kbs store].
  destruct (encode_state_and_sv _ _ _ _ _ (store w)) as [st r]. cbn [snd]. intros Hf ->.
  destruct (update_new_op_authors (nu_update p) base) as [authors|]; [|done]. exists authors. split; [done|].
  by apply bool_decide_eq_true in Hf.
Qed.
Lemma rebirth_bound c w kb n u l : (verify_rebirth_binding show show_val c w kb n u (Some l)).2 = true ->
  exists a e d, derive_rebirths (oplog_ops (oplog_of show (l_root l))) a !! n = Some (e, KbNodeDoc.rebirth_hash show_val d) /\
    decode_node u = Some d /\ (resolve_content_anchor_with_coll show c w kb (Some l)).2 = Some a.
Proof.
  unfold verify_rebirth_binding. destruct (resolve_content_anchor_with_coll show c w kb (Some l)) as [w1 [a|]]; [|done].
  cbn [with_coll snd]. destruct (derive_rebirths _ a !! n) as [[e h]|] eqn:Ed; [|done].
  destruct (decode_node u) as [d|]; [|done]. intros <-%bool_decide_eq_true. exists a, e, d. done.
Qed.

(** What a role must include for an update. *)
Definition needed (p : NodeUpdateParams) : Role := if nu_reseal p || nu_rebirth p then Owner else Editor.

(** C6. Node updates are authorized: an accepted [kb/node_update] of an
    authenticated caller passed every gate against one load of the collection.
    The caller's role includes editing, and ownership where the node is
    replaced (reseal or rebirth), over a transport the knowledge base is open
    to; a signature on a joined knowledge base is by a member of the derived
    membership; unless resealing, every new operation on an existing node is
    by the client id of the caller's present epoch; and a rebirth is a node
    document with exactly the hash an owner-signed record of the log names. *)
Theorem node_update_is_authorized c s w params w' j pr :
  auth_principal s = Some pr -> handle_kb_node_update show show_val c s w params = (w', Success j) ->
  exists p w1 l, parse_node_update params (max_update_size c) = inr p /\
  let kb := nu_kb_id p in
  let doc := kb_node_doc_name kb (nu_node_id p) in
  let log := oplog_of show (l_root l) in
  load_collection show c w kb = (w1, Some l) /\
  (exists r repl, (caller_role show (kbs w1) l (unix c) kb pr).2 = (Some r, repl) /\ includes r (needed p) = true /\
     (r = Owner \/ allows (transport_policy show (l_root l)) (transport s) = true)) /\
  let w2 := (access_with_coll show c s w1 kb (if nu_reseal p || nu_rebirth p then Manage else Edit) (Some l)).1 in
  (forall a signed, kb_anchor (kbs w2) kb = Some a -> from_params params (nu_update p) = Some signed ->
     admit_signed signed (members (derived_membership (kbs w2) kb (l_sv l) log a (unix c)).2) = inr tt) /\
  let w3 := (check_header show c w2 kb (nu_update p) params (Some l)).1 in
  (forall base sv, nu_reseal p = false -> (read_state c w3 doc).2 = inr (base, sv) ->
     exists authors, update_new_op_authors (nu_update p) base = Some authors /\
       authors ⊆ {[derive_kb_client_id pr (kb_member_epoch show (kbs w3) l (unix c) kb pr).2]}) /\
  (nu_rebirth p = true ->
     exists a e d, derive_rebirths (oplog_ops log) a !! nu_node_id p = Some (e, KbNodeDoc.rebirth_hash show_val d) /\
       decode_node (nu_update p) = Some d /\
       (resolve_content_anchor_with_coll show c (touch c s (fence show c s w3 p doc (Some l)).1 doc) kb (Some l)).2 = Some a).
Proof.
  intros Hpr. unfold handle_kb_node_update.
  destruct (parse_node_update params (max_update_size c)) as [err|p]; [done|]. intros Hr.
  destruct (load_collection show c w (nu_kb_id p)) as [w1 [l|]] eqn:El.
  2: { pose proof (access_with_unloaded c s w (nu_kb_id p) (if nu_reseal p || nu_rebirth p then Manage else Edit) w1 pr Hpr El) as Hn.
       destruct (access_with_coll show c s w1 (nu_kb_id p) _ None) as [w2 d]. cbn [snd] in Hn. unfold allowed in Hr.
       by rewrite bool_decide_eq_false_2 in Hr. }
  exists p, w1, l. split; [done|]. cbv zeta. split; [done|]. set (o := if nu_reseal p || nu_rebirth p then Manage else Edit) in *.
  pose proof (caller_allowed c s w1 (nu_kb_id p) l o pr Hpr) as Hc.
  destruct (access_with_coll show c s w1 (nu_kb_id p) o (Some l)) as [w2 d]. cbn [fst snd] in *.
  unfold allowed in Hr. destruct (bool_decide (d = Some Allow)) eqn:Ed; [|done]. apply bool_decide_eq_true in Ed.
  cbn [negb] in Hr. split.
  { destruct (Hc Ed) as (r & repl & Hrole & He & Hm & Ht). exists r, repl. split_and!; [done| |done]. unfold needed. unfold o in *.
    destruct (nu_reseal p || nu_rebirth p); [by rewrite Hm|by apply He]. }
  destruct (check_header show c w2 (nu_kb_id p) (nu_update p) params (Some l)) as [w3 [h|]] eqn:Eh; [|done].
  split; [intros a signed Ha Hs; exact (header_admitted c w2 _ _ params l w3 h a signed Eh Ha Hs)|]. cbn [fst].
  destruct (fence show c s w3 p (kb_node_doc_name (nu_kb_id p) (nu_node_id p)) (Some l)) as [w4 [|]] eqn:Ef; [|done].
  split; [intros base sv Hrs Hrd; eapply fence_authors; [done|done|by rewrite Ef|done]|]. cbn [fst].
  intros Hb. apply rebirth_bound. unfold gate_rebirth in Hr. rewrite Hb in Hr.
  by destruct (verify_rebirth_binding _ _ _ _ _ _ _ _) as [w5 [|]].
Qed.

(** ** What [kb/share] does to an evicted collection *)

Lemma get_storage t i b io now x cr : keeps (fun st : @DocStore R _ => storage st = t) (get_or_create_with i b io now x cr).
Proof. unfold get_or_create_with, make_room, run_io. keep. apply keeps_modify. intros st Hs. by repeat case_match. Qed.
(** The last part of [share_doc], after the row was written. *)
Lemma share_tail_storage t i b io now x up id : keeps (fun st : @DocStore R _ => storage st = t)
  (sbind (get_or_create_allowing_durable i b io now x) (fun e =>
     let '(sync', ok) := apply_update (sync e) up in
     sbind (update_entry x (fun e => if ok
              then mkEntry sync' id 1 now 1 (save_epoch e) (last_saved_by e) (sharer_session_id e)
              else mkEntry sync' (wal_seq e) (update_count e) (last_activity e) (connected_clients e)
                     (save_epoch e) (last_saved_by e) (sharer_session_id e))) (fun _ =>
     if negb ok then fail (Sqlite "apply failed")
     else sbind (emit_change x) (fun _ => ret (mkApplyResult up id))))).
Proof.
  unfold get_or_create_allowing_durable, update_entry, emit_change. apply keeps_bind; [apply get_storage|]. intros e.
  destruct (apply_update (sync e) up). keep. apply keeps_modify. intros st Hs. by case_match.
Qed.

(** Sharing an id whose collection was evicted from memory takes it over:
    the guard of [kb/share] asks whether the collection is in memory, so once
    it was evicted any caller's share passes it without an ownership check and
    replaces everything stored for the collection (membership, policy,
    manifest and signed log) by the caller's bytes. *)
Theorem share_takes_over_evicted_collection c s w kb bytes w1 :
  has_doc (store w) (collection_doc kb) = false -> outcome c IoDelete (collection_doc kb) = true ->
  share_collection show c s w kb bytes = (w1, None) ->
  snapshots (storage (store w1)) !! collection_doc kb = None /\
  exists id, rows (storage (store w1)) (collection_doc kb) = [mkWal id (collection_doc kb) bytes None].
Proof.
  intros Hd Hio. unfold share_collection. rewrite Hd. cbn [negb]. unfold on_store, share_doc, sbind, validate_update.
  destruct (decode_v1 bytes); [|done]. cbn [ret]. unfold attempt, delete_stored, sbind, run_io. rewrite Hio. cbn [ret modify fst].
  unfold append_row, sbind, run_io. destruct (outcome c IoAppend (collection_doc kb)); [|done]. cbn [ret].
  set (doc := collection_doc kb). set (t := delete_document (storage (store w)) doc).
  cbn [set_docs set_storage storage docs]. fold doc t.
  assert (Hs : snapshots (wal_append t doc bytes None).1 !! doc = None) by (cbn; apply lookup_delete_eq).
  assert (Hr : exists id, rows (wal_append t doc bytes None).1 doc = [mkWal id doc bytes None]).
  { exists (next_id t). rewrite rows_append, bool_decide_eq_true_2 by done. unfold t. by rewrite rows_delete, bool_decide_eq_true_2. }
  destruct (wal_append t doc bytes None) as [t1 id]. cbn [fst] in Hs, Hr.
  match goal with |- (let '(_, _) := let '(_, _) := ?e in _ in _) = _ -> _ =>
    assert (Ht : storage e.1 = t1); [|destruct e as [st r]] end.
  { by apply (share_tail_storage t1 (fresh_client c) (locked c) (outcome c) (instant c) doc bytes id). }
  intros [= <- _]. cbn [store fst] in *. by rewrite Ht.
Qed.
End Requests.

Module KbWitnesses.
Import SetCrdt CollectionWitnesses ContentWitnesses.
#[local] Existing Instance ListRope.list_rope.

(** Collections of the toy CRDT: the letter [T] is the team's, owned by Ann with
    Vic as editor, [X] one that Mallory owns; each further letter is one
    change, which a commit recognizes by what it made true. *)
Definition team : Root := SessionWitnesses.team.
Definition theirs : Root := new_owned "team" "mallory" "Mal".
Definition changes_seen : list (Ascii.ascii * (Root -> bool) * (Root -> Root)) :=
  [("p"%char, fun r => bool_decide ("eve" ∈ map pd_fingerprint (pending show_json r)),
         fun r => add_pending r "eve" "Eve" "100" None None);
   ("d"%char, fun r => bool_decide (role_of show_json r "ann" = Some Viewer),
         fun r => upsert_member show_json 6 r "ann" "" Viewer);
   ("n"%char, fun r => has_node r "n2", fun r => add_node r "n2" "More");
   ("h"%char, fun r => bool_decide (transport_policy_raw show_json r = Some PolicyHub),
         fun r => set_transport_policy r PolicyHub)].
Definition has_letter (s : string) (a : Ascii.ascii) : bool := bool_decide (a ∈ String.list_ascii_of_string s).
Definition decode_kb (state : string) : option Loaded :=
  let? root := (if has_letter state "T" then Some team else if has_letter state "X" then Some theirs else None) in
  Some (mkLoaded (foldl (fun r ch => if has_letter state ch.1.1 then ch.2 r else r) root changes_seen) state).
#[local] Instance kb_coll_codec : CollCodec := {|
  decode_coll := decode_kb;
  commit_coll l root :=
    (mkLoaded root (l_sv l),
     String "=" (String.string_of_list_ascii (map (fun ch => ch.1.1)
       (List.filter (fun ch => ch.1.2 root && negb (ch.1.2 (l_root l))) changes_seen))));
  node_clocks _ := Some ∅;
  merged_clocks _ _ := Some ∅;
  update_clocks _ := Some ∅;
|}.
#[local] Instance kb_codec : KbCodec := {|
  encode_coll l := if bool_decide (owner show_json (l_root l) = "mallory") then "=X" else "=T";
  apply_coll l _ := Some l;
  decode_node _ := None;
|}.
#[local] Instance no_signer : Signer := {| sign _ _ := ""; public_of s := s |}.

Definition kctx : KbCtx := mkKbCtx SessionWitnesses.ctx None "" (fun _ => 6%N).
Definition ann : Session := mkSession 6 (Some "ann") (Some "Ann") Hub.
Definition vic : Session := SessionWitnesses.vic.
Definition mallory : Session := SessionWitnesses.mallory.
Notation toy_world := (World (R := list N)).
Definition hosting : toy_world :=
  foldl (fun w du => (on_store w (share_doc 1 ∅ (outcome kctx) 10 du.1 du.2)).1) SessionWitnesses.blank_world
    [("kbc:team", "=T"); ("kbn:team:n1", "=p")].
Definition registry : gmap string Json := {["team" := obj [("kb_id", JString "team")]]}.
Definition no_show (_ : Val) : string := "".
Definition ask_with (s : Session) (w : toy_world) metas (method : string) (params : Json) : gmap string Json * (toy_world * Response) :=
  default (metas, (w, Failure InternalError)) (handle_kb_request show_json no_show true kctx s w metas method params).
Definition params_of (fields : list (string * string)) : Json := obj (map (fun kv => (kv.1, JString kv.2)) fields).
Definition ask (s : Session) (w : toy_world) (method : string) (fields : list (string * string)) : toy_world * bool :=
  let '(_, (w, r)) := ask_with s w registry method (params_of fields) in (w, match r with Success _ => true | _ => false end).
Definition decision (s : Session) (w : toy_world) (o : KbOp) : option AccessDecision := (access show_json kctx s w "team" o).2.
(** Every document leaves memory, as after idle eviction or a restart. *)
Definition evicted (w : toy_world) : toy_world :=
  mkWorld (set_docs (store w) ∅) (kbs w) (bcast w) (touched w) (subscriptions w).

(** What the gates refuse and admit. *)
Lemma kb_gates_example :
  (ask mallory hosting "kb/add_member" [("kb_id", "team"); ("member", "mallory")]).2 = false /\
  (ask vic hosting "kb/add_member" [("kb_id", "team"); ("member", "mallory")]).2 = false /\
  (ask ann hosting "kb/add_member" [("kb_id", "team"); ("member", "bob")]).2 = true /\
  (ask mallory hosting "kb/node_fetch" [("kb_id", "team"); ("node_id", "n1")]).2 = false /\
  (ask vic hosting "kb/node_fetch" [("kb_id", "team"); ("node_id", "n1")]).2 = true /\
  (ask vic hosting "kb/node_fetch" [("kb_id", "team"); ("node_id", "n9")]).2 = false /\
  (ask mallory hosting "kb/node_update" [("kb_id", "team"); ("node_id", "n1"); ("update", "=e")]).2 = false /\
  (ask vic hosting "kb/node_update" [("kb_id", "team"); ("node_id", "n1"); ("update", "=e")]).2 = true /\
  (ask mallory hosting "kb/share" [("kb_id", "team"); ("collection_state", "=X")]).2 = false.
Proof. vm_compute. repeat split. Qed.

(** The takeover end to end: refused while the collection is in memory, the
    same request succeeds once it is not, Mallory manages the team's knowledge
    base and its owner and editor are locked out. *)
Lemma takeover_after_eviction :
  let share := [("kb_id", "team"); ("collection_state", "=X")] in
  let '(w, ok) := ask mallory (evicted hosting) "kb/share" share in
  (ask mallory hosting "kb/share" share).2 = false /\ decision mallory (evicted hosting) Manage = Some (Deny NotMember) /\
  ok = true /\ decision mallory w Manage = Some Allow /\ decision ann w Manage = Some (Deny NotMember) /\
  decision vic w Read = Some (Deny NotMember).
Proof. vm_compute. repeat split. Qed.

(** A join that is refused has already written: over a transport the knowledge
    base is not shared on, Mallory's request fails, and the request she
    forwarded for Eve is in the collection. *)
Definition forwarding : Json :=
  obj [("kb_id", JString "team"); ("pending_members", JArray [obj [("fp", JString "eve"); ("label", JString "Eve")]])].
Definition waiting (w : toy_world) : list string :=
  from_option (fun l => map pd_fingerprint (pending show_json (l_root l))) [] (load_collection show_json kctx w "team").2.
Lemma refused_join_records_requests :
  let mesh := mkSession 7 (Some "mallory") (Some "Mal") P2p in
  let '(_, (w, r)) := ask_with mesh hosting registry "kb/join" forwarding in
  r = Failure InternalError /\ waiting hosting = [] /\ waiting w = ["eve"].
Proof. vm_compute. repeat split. Qed.

(** Registering is open to anyone, and subscribes: Mallory registers the team's
    id and is sent the next change of its collection. *)
Lemma register_subscribes_to_any_collection :
  let w := with_bcast hosting (update_subscriptions (bcast hosting) 7 ["sync_update"]) in
  let '(w, ok) := ask mallory w "kb/register" [("kb_id", "team"); ("name", "mine now")] in
  let w := (ask vic w "kb/collection_node_add" [("kb_id", "team"); ("node_id", "n2"); ("title", "More")]).1 in
  ok = true /\ (recv (bcast w) 0).2 = Some (SyncUpdate "kbc:team" "=n" 3 None).
Proof. vm_compute. repeat split. Qed.

(** So is removing an entry from the registry: the caller plays no part. *)
Lemma unregister_ignores_the_caller s s' w metas params :
  handle_kb_method show_json no_show true kctx s w metas KbUnregister params =
  handle_kb_method show_json no_show true kctx s' w metas KbUnregister params.
Proof. done. Qed.

(** The owner, which cannot be removed, can be admitted with a lower role and
    then manages nothing. *)
Lemma owner_locks_itself_out :
  let '(w, ok) := ask ann hosting "kb/add_member" [("kb_id", "team"); ("member", "ann"); ("role", "viewer")] in
  (ask ann hosting "kb/remove_member" [("kb_id", "team"); ("member", "ann")]).2 = false /\
  ok = true /\ decision ann w Manage = Some (Deny (RoleMayNot Viewer Manage)).
Proof. vm_compute. repeat split. Qed.

(** One session counts as two clients of what it shares, and leaves one behind
    when it disconnects, so an idle collection is never evicted. *)
Definition clients_of (w : toy_world) (d : string) : option N := connected_clients <$> docs (store w) !! d.
Lemma sharer_is_counted_twice :
  let w := (ask ann SessionWitnesses.blank_world "kb/share" [("kb_id", "team"); ("collection_state", "=T")]).1 in
  clients_of w "kbc:team" = Some 2%N /\ clients_of (disconnect kctx ann w) "kbc:team" = Some 1%N.
Proof. vm_compute. repeat split. Qed.

(** ** Witnesses *)

Definition update_n1 : Json := params_of [("kb_id", "team"); ("node_id", "n1"); ("update", "=e")].

Lemma kb_request_reaches_one_kb_witness :
  exists metas' w' r, handle_kb_request show_json no_show true kctx vic hosting registry "kb/node_update" update_n1 = Some (metas', (w', r)) /\
  (metas' !! "other" = registry !! "other" /\
  forall d, of_kb "other" d ->
    rows (storage (store w')) d = rows (storage (store hosting)) d /\
    snapshots (storage (store w')) !! d = snapshots (storage (store hosting)) !! d /\
    (docs (store w') !! d = docs (store hosting) !! d \/ docs (store w') !! d = None)).
Proof.
  assert (Hs : (match handle_kb_request show_json no_show true kctx vic hosting registry "kb/node_update" update_n1 with
                | Some _ => true | None => false end) = true) by (vm_compute; reflexivity).
  destruct (handle_kb_request show_json no_show true kctx vic hosting registry "kb/node_update" update_n1) as [[metas' [w' r]]|] eqn:E;
    [|discriminate Hs].
  exists metas', w', r. split; [reflexivity|].
  refine (kb_request_reaches_one_kb show_json no_show true kctx vic hosting registry "kb/node_update" KbNodeUpdate update_n1
    "team" metas' w' r eq_refl eq_refl _ eq_refl E "other" _ eq_refl); discriminate.
Defined.

Lemma gated_requests_need_role_witness :
  let params := params_of [("kb_id", "team"); ("member", "mallory")] in
  exists w' err, handle_kb_request show_json no_show true kctx mallory hosting registry "kb/add_member" params
    = Some (registry, (w', Failure err)) /\
    (w' = hosting \/ w' = (access show_json kctx mallory hosting "team" Manage).1).
Proof.
  intros params.
  refine (gated_requests_need_role show_json no_show true kctx mallory hosting registry "kb/add_member" KbAddMember Manage params "team"
    eq_refl eq_refl eq_refl _).
  assert (E : decision mallory hosting Manage = Some (Deny NotMember)) by (vm_compute; reflexivity).
  unfold decision in E. rewrite E. discriminate.
Defined.

Lemma list_shows_only_readable_witness :
  exists w' l meta, handle_kb_list show_json kctx vic hosting registry = (w', Success (obj [("kbs", JArray l)])) /\ meta ∈ l /\
  exists i kb, list_kb_metas registry !! i = Some meta /\ get_str meta "kb_id" = Some kb /\
    let before := (foldl (list_step show_json kctx vic) (hosting, []) (take i (list_kb_metas registry))).1 in
    (access show_json kctx vic before kb Read).2 = Some Allow.
Proof.
  set (f := foldl (list_step show_json kctx vic) (hosting, []) (list_kb_metas registry)).
  assert (Hl : f.2 = [obj [("kb_id", JString "team")]]) by (vm_compute; reflexivity).
  assert (E : handle_kb_list show_json kctx vic hosting registry = (f.1, Success (obj [("kbs", JArray f.2)]))).
  { unfold handle_kb_list. fold f. destruct f. reflexivity. }
  exists f.1, f.2, (obj [("kb_id", JString "team")]). split; [exact E|]. split; [rewrite Hl; by left|].
  refine (list_shows_only_readable show_json kctx vic hosting registry f.1 (obj [("kbs", JArray f.2)]) f.2 (obj [("kb_id", JString "team")]) E eq_refl _).
  rewrite Hl. by left.
Defined.

Lemma share_takes_over_evicted_collection_witness :
  exists w1, share_collection show_json kctx mallory (evicted hosting) "team" "=X" = (w1, None) /\
  (snapshots (storage (store w1)) !! collection_doc "team" = None /\
   exists id, rows (storage (store w1)) (collection_doc "team") = [mkWal id (collection_doc "team") "=X" None]).
Proof.
  assert (Hs : (share_collection show_json kctx mallory (evicted hosting) "team" "=X").2 = None) by (vm_compute; reflexivity).
  destruct (share_collection show_json kctx mallory (evicted hosting) "team" "=X") as [w1 r] eqn:E. cbn in Hs. subst r.
  exists w1. split; [reflexivity|].
  exact (share_takes_over_evicted_collection show_json kctx mallory (evicted hosting) "team" "=X" w1 eq_refl eq_refl E).
Defined.

Lemma node_update_is_authorized_witness :
  exists w' j, handle_kb_node_update show_json no_show kctx vic hosting update_n1 = (w', Success j) /\
  exists p w1 l, parse_node_update update_n1 1000 = inr p /\ load_collection show_json kctx hosting (nu_kb_id p) = (w1, Some l).
Proof.
  assert (Hs : (match (handle_kb_node_update show_json no_show kctx vic hosting update_n1).2 with Success _ => true | _ => false end) = true)
    by (vm_compute; reflexivity).
  destruct (handle_kb_node_update show_json no_show kctx vic hosting update_n1) as [w' [j|]] eqn:E; [|discriminate Hs].
  exists w', j. split; [reflexivity|].
  destruct (node_update_is_authorized show_json no_show kctx vic hosting update_n1 w' j "vic" eq_refl E) as (p & w1 & l & Hp & Hl & _).
  exists p, w1, l. split; [exact Hp|exact Hl].
Defined.
End KbWitnesses.
