(* ===== verification/ContentCrypto.v ===== *)
(** * ContentCrypto: encryption of content and wrapping of content keys

    Models [shared/sync/src/content_crypto.rs]: the authenticated encryption of
    content under the key of a knowledge base, and the sealed box that hands
    this key to a member. The cipher, the Diffie-Hellman function and SHA-512
    come from other crates and are parameters; the random nonces and ephemeral
    secrets are arguments. Wiping memory is not modelled. *)
From S2P Require Import Prelude Membership DocAddress.

(** ** The cryptographic interface *)

(** [XChaCha20Poly1305] at a key and a nonce. *)
Class Aead := {
  aead_seal : string -> string -> string -> string;
  aead_open : string -> string -> string -> option string;
}.
(** The cipher is deterministic: a ciphertext opens when, and only when, it is
    the one sealing produces, tag included. *)
Class AeadLaws (A : Aead) : Prop := {
  open_seal k n p : String.length k = 32 -> String.length n = 24 -> aead_open k n (aead_seal k n p) = Some p;
  open_only k n c p : aead_open k n c = Some p -> c = aead_seal k n p;
}.

(** [x25519_dalek]: the public key of a secret, the shared secret, and
    [was_contributory]; and the SHA-512 of [sha2]. *)
Class KeyExchange := {
  x_public : string -> string;
  diffie_hellman : string -> string -> string;
  was_contributory : string -> bool;
  sha512 : string -> string;
}.
Class KeyExchangeLaws (X : KeyExchange) : Prop := {
  x_public_length a : String.length (x_public a) = 32;
  dh_comm a b : diffie_hellman a (x_public b) = diffie_hellman b (x_public a);
}.
Class ShaLaws (C : Crypto) : Prop := { sha256_length m : String.length (sha256 m) = 32 }.

Definition NONCE_LEN : nat := 24.
Definition X25519_LEN : nat := 32.

(** [ContentKey], by its bytes. *)
Notation ContentKey := string (only parsing).
Inductive CryptoError := Decrypt | Malformed | BadKey.
#[export] Instance CryptoError_eq_dec : EqDecision CryptoError.
Proof. solve_decision. Defined.

(** [split_at] of a slice. *)
Fixpoint split_at (n : nat) (s : string) : string * string :=
  match n, s with
  | S n', String c r => let '(a, b) := split_at n' r in (String c a, b)
  | _, _ => ("", s)
  end.

(** ** Operations *)

Section Crypto.
Context `{Crypto, Aead, KeyExchange}.

Definition encrypt (nonce : string) (key : ContentKey) (plaintext : string) : string :=
  nonce +:+ aead_seal key nonce plaintext.
Definition decrypt (key : ContentKey) (blob : string) : CryptoError + string :=
  if String.length blob <? NONCE_LEN then inl Malformed
  else
    let '(nonce, ciphertext) := split_at NONCE_LEN blob in
    match aead_open key nonce ciphertext with
    | Some p => inr p
    | None => inl Decrypt
    end.

Definition derive_wrap_key (shared ephemeral_pub recipient_pub : string) : ContentKey :=
  sha256 ("mae-content-key-wrap/v1" +:+ shared +:+ ephemeral_pub +:+ recipient_pub).
Definition derive_x25519_wrap_secret (seed : string) : string :=
  (split_at 32 (sha512 ("mae-x25519-wrap/v1" +:+ seed))).1.
Definition wrap_public_for (seed : string) : string := x_public (derive_x25519_wrap_secret seed).

Definition wrap_to_member (ephemeral nonce : string) (k : ContentKey) (recipient_wrap_pub : string)
    : CryptoError + string :=
  let ephemeral_pub := x_public ephemeral in
  let shared := diffie_hellman ephemeral recipient_wrap_pub in
  if negb (was_contributory shared) then inl Malformed
  else inr (ephemeral_pub +:+ encrypt nonce (derive_wrap_key shared ephemeral_pub recipient_wrap_pub) k).

Definition unwrap_as_member (blob seed : string) : CryptoError + ContentKey :=
  if String.length blob <? X25519_LEN then inl Malformed
  else
    let '(ephemeral_pub, sealed) := split_at X25519_LEN blob in
    let my_x := derive_x25519_wrap_secret seed in
    let shared := diffie_hellman my_x ephemeral_pub in
    if negb (was_contributory shared) then inl Malformed
    else match decrypt (derive_wrap_key shared ephemeral_pub (x_public my_x)) sealed with
         | inl e => inl e
         | inr k => if String.length k =? 32 then inr k else inl Malformed
         end.

(** ** Lemmas *)

Lemma split_at_app n a b : String.length a = n -> split_at n (a +:+ b) = (a, b).
Proof.
  revert n. induction a as [|c a IH]; intros [|n] Hn; try discriminate Hn; [by destruct b|].
  change (String c a +:+ b) with (String c (a +:+ b)). cbn in Hn. cbn [split_at]. by rewrite (IH n) by lia.
Qed.
Lemma split_at_spec n s : n <= String.length s ->
  s = (split_at n s).1 +:+ (split_at n s).2 /\ String.length (split_at n s).1 = n.
Proof.
  revert s. induction n as [|n IH]; intros [|c s] Hn; cbn in Hn |- *; try (done || lia).
  destruct (IH s ltac:(lia)) as [Hs Hl]. destruct (split_at n s) as [a b]. cbn in *. by rewrite Hs at 1; rewrite Hl.
Qed.

Context `{!AeadLaws _, !KeyExchangeLaws _, !ShaLaws _}.

Lemma decrypt_encrypt n k p : String.length k = 32 -> String.length n = NONCE_LEN -> decrypt k (encrypt n k p) = inr p.
Proof.
  intros Hk Hn. unfold decrypt, encrypt. rewrite string_length_app, Hn.
  rewrite (proj2 (Nat.ltb_ge _ _)) by lia. rewrite split_at_app by done. by rewrite open_seal.
Qed.
Lemma decrypt_inv k blob p : decrypt k blob = inr p ->
  exists n, String.length n = NONCE_LEN /\ blob = encrypt n k p.
Proof.
  unfold decrypt. destruct (Nat.ltb_spec (String.length blob) NONCE_LEN) as [|Hl]; [done|].
  destruct (split_at_spec NONCE_LEN blob Hl) as [Hs Hn]. destruct (split_at NONCE_LEN blob) as [n c]. cbn in Hs, Hn.
  destruct (aead_open k n c) eqn:E; intros ?; simplify_eq. exists n. split; [done|].
  unfold encrypt. by rewrite (open_only _ _ _ _ E).
Qed.
Lemma wrap_key_length a b c : String.length (derive_wrap_key a b c) = 32.
Proof. apply sha256_length. Qed.

(** Decryption under a 32-byte key accepts exactly the blobs that encryption
    produces under that key with a 24-byte nonce, and returns their plaintext:
    any other blob, of whatever length, is an error. *)
Theorem decrypt_exactly_encryptions k blob p : String.length k = 32 ->
  decrypt k blob = inr p <-> exists n, String.length n = NONCE_LEN /\ blob = encrypt n k p.
Proof.
  intros Hk. split; [apply decrypt_inv|]. intros (n & Hn & ->). by apply decrypt_encrypt.
Qed.

(** The identity whose wrap key was used recovers the wrapped key. *)
Lemma unwrap_wrap seed e n k blob : String.length k = 32 -> String.length n = NONCE_LEN ->
  wrap_to_member e n k (wrap_public_for seed) = inr blob -> unwrap_as_member blob seed = inr k.
Proof.
  intros Hk Hn. unfold wrap_to_member, unwrap_as_member, wrap_public_for. set (x := derive_x25519_wrap_secret seed).
  destruct (was_contributory (diffie_hellman e (x_public x))) eqn:Hc; [|done]. intros [= <-].
  rewrite string_length_app, x_public_length. rewrite (proj2 (Nat.ltb_ge _ _)) by (unfold X25519_LEN; lia).
  rewrite split_at_app by apply x_public_length. rewrite dh_comm, Hc. cbn [negb].
  rewrite (dh_comm e x), decrypt_encrypt by (done || apply wrap_key_length). by rewrite Hk.
Qed.

(** A content key wrapped to the published wrap key of an identity is
    recovered by that identity, whatever the ephemeral secret and the nonce;
    and whatever an identity unwraps was sealed to its own wrap key: the blob
    is an ephemeral public key and an encryption of the content key under the
    key derived from the two shared secrets. *)
Theorem unwrap_exactly_wraps seed blob k : String.length k = 32 ->
  (forall e n, String.length n = NONCE_LEN ->
     wrap_to_member e n k (wrap_public_for seed) = inr blob -> unwrap_as_member blob seed = inr k) /\
  (unwrap_as_member blob seed = inr k ->
     exists pub n shared, blob = pub +:+ encrypt n (derive_wrap_key shared pub (wrap_public_for seed)) k /\
       String.length pub = X25519_LEN /\ String.length n = NONCE_LEN /\
       shared = diffie_hellman (derive_x25519_wrap_secret seed) pub /\ was_contributory shared = true).
Proof.
  intros Hk. split.
  - intros e n Hn. by apply unwrap_wrap.
  - unfold unwrap_as_member. destruct (Nat.ltb_spec (String.length blob) X25519_LEN) as [|Hl]; [done|].
    destruct (split_at_spec X25519_LEN blob Hl) as [Hs Hp]. destruct (split_at X25519_LEN blob) as [pub sealed].
    cbn in Hs, Hp. destruct (was_contributory _) eqn:Hc; [|done]. cbn [negb].
    destruct (decrypt _ sealed) as [|k'] eqn:Hd; [done|]. case_match; [|done]. intros [= ->].
    apply decrypt_inv in Hd as (n & Hn & ->). eauto 10.
Qed.

End Crypto.

(** ** A concrete cipher *)

Module ToyCipher.

(** The zero byte and the first 32 bytes of a padded text. *)
Definition zeros : string := String.string_of_list_ascii (replicate 32 "0"%char).
Definition pad32 (s : string) : string := (split_at 32 (s +:+ zeros)).1.

(** [Toy] with 32-byte hashes; keys are named by two bytes. *)
#[export] Instance demo : Crypto := {|
  vk_from_bytes _ := true;
  ed25519_verify pk _ sg := bool_decide (String.substring 0 2 sg = String.substring 0 2 pk);
  sha256 m := pad32 (Toy.letters 8 (Toy.checksum 7 m));
  hex_encode := Toy.hex;
  hex_decode := Toy.unhex;
  base64_nopad s := s;
|}.
(** A ciphertext names its key and nonce. *)
#[export] Instance demo_aead : Aead := {|
  aead_seal k n p := (k +:+ n) +:+ p;
  aead_open k n c := strip_prefix (k +:+ n) c;
|}.
#[export] Instance demo_exchange : KeyExchange := {|
  x_public a := pad32 a;
  diffie_hellman a b := if String.ltb (pad32 a) b then pad32 a +:+ b else b +:+ pad32 a;
  was_contributory s := negb (bool_decide (s = zeros +:+ zeros));
  sha512 m := Toy.letters 8 (Toy.checksum 7 m) +:+ zeros;
|}.

Lemma pad32_length s : String.length (pad32 s) = 32.
Proof. unfold pad32. apply split_at_spec. rewrite string_length_app. change (String.length zeros) with 32. lia. Qed.
#[export] Instance demo_aead_laws : AeadLaws demo_aead.
Proof.
  split; cbn; intros.
  - by rewrite strip_prefix_app.
  - by apply strip_prefix_inv.
Qed.
#[export] Instance demo_exchange_laws : KeyExchangeLaws demo_exchange.
Proof.
  split; cbn; [apply pad32_length|]. intros a b.
  destruct (String.ltb (pad32 a) (pad32 b)) eqn:E1, (String.ltb (pad32 b) (pad32 a)) eqn:E2; try done.
  - apply ltb_iff in E1 as [E1 Hn], E2 as [E2 _]. destruct Hn. by apply (anti_symm String.le).
  - apply ltb_false_iff in E1, E2. by rewrite (anti_symm String.le _ _ E1 E2).
Qed.
#[export] Instance demo_sha_laws : ShaLaws demo.
Proof. split. intros m. apply pad32_length. Qed.

End ToyCipher.

Module CryptoWitnesses.
Import ToyCipher.

Definition content_key : string := pad32 "key".
Definition nonce : string := "nonce-nonce-nonce-nonce-".
Definition blob : string := encrypt nonce content_key "secret".

Lemma decrypt_exactly_encryptions_witness :
  decrypt content_key blob = inr "secret" <->
  exists n, String.length n = NONCE_LEN /\ blob = encrypt n content_key "secret".
Proof. exact (decrypt_exactly_encryptions content_key blob "secret" eq_refl). Defined.

Definition wrapped : string :=
  match wrap_to_member "ephemeral" nonce content_key (wrap_public_for "seed") with inr b => b | inl _ => "" end.
Lemma unwrap_exactly_wraps_witness :
  unwrap_as_member wrapped "seed" = inr content_key /\
  exists pub n shared, wrapped = pub +:+ encrypt n (derive_wrap_key shared pub (wrap_public_for "seed")) content_key /\
    String.length pub = X25519_LEN /\ String.length n = NONCE_LEN /\
    shared = diffie_hellman (derive_x25519_wrap_secret "seed") pub /\ was_contributory shared = true.
Proof.
  destruct (unwrap_exactly_wraps "seed" wrapped content_key eq_refl) as [Hw Hu].
  assert (E : unwrap_as_member wrapped "seed" = inr content_key).
  { apply (Hw "ephemeral" nonce); reflexivity. }
  split; [exact E|exact (Hu E)].
Defined.

(** What does not open: another key, a changed byte, a truncated blob, a wrap
    for somebody else, a blob that is no wrap. *)
Lemma closed_boxes :
  decrypt (pad32 "kex") blob = inl Decrypt /\ decrypt content_key (String "N" (split_at 1 blob).2) = inl Decrypt /\
  decrypt content_key "short" = inl Malformed /\ unwrap_as_member wrapped "other" = inl Decrypt /\
  unwrap_as_member (zeros +:+ blob) "seed" = inl Decrypt /\ unwrap_as_member "short" "seed" = inl Malformed.
Proof. vm_compute. by repeat split. Qed.

End CryptoWitnesses.
