(* ===== verification/OpSet.v ===== *)
(** * OpSet: the encrypted form of a node

    Models [shared/sync/src/op_set.rs]: a node of an encrypted knowledge base is
    a CRDT map from the hash of a ciphertext to the ciphertext. Sealing an
    update adds an entry, merging unites two sets, opening decrypts the entries
    not seen yet and puts them in a fixed order. The CRDT is the interface [Yrs]
    of [CollabText] with its maps ([YrsMap]). *)
From S2P Require Import Prelude Membership Rope Buffer CollabText Storage DocStore DocStoreSpec ContentOps ContentCrypto.

(** ** Maps of the CRDT

    [map_insert t name k v] writes an entry of the root map [name];
    [map_iter d name] lists the entries in the map's own order, values by their
    text; [sv_clocks u] are the clocks of [u.state_vector()]; [merge_updates] is
    the encoding of [Update::merge_updates]. *)
Class YrsMap `{Yrs} := {
  map_insert : YTxn -> string -> string -> string -> YTxn;
  map_iter : YDoc -> string -> list (string * string);
  sv_clocks : YUpdate -> list N;
  merge_updates : list YUpdate -> string;
}.
(** The state of an open transaction, the entries of a root map in a state, and
    the keys that ever had an entry there. *)
Class YrsMapState `{YrsMerge} := {
  txn_state : YTxn -> YState;
  root_map : YState -> string -> gmap string string;
  map_keys : YState -> string -> gset string;
}.
(** Documented behaviour: transactions start at and end in the document's state;
    applying an update merges it; a local insertion sets its entry and only adds
    to the state; the diff to an earlier state vector carries what is missing
    and every document accepts it; and an entry under a key that the other side
    never used survives a merge. *)
Class YrsMapLaws `{YrsMap, !YrsMerge, !YrsMapState} : Prop := {
  ts_open o d : txn_state (transact_mut o d) = doc_state d;
  ts_commit c t : doc_state (commit c t).1 = txn_state t;
  ts_apply t u : (txn_apply_update t u).2 = true -> txn_state (txn_apply_update t u).1 = y_join (txn_state t) (up_state u);
  ts_insert t name k v : root_map (txn_state (map_insert t name k v)) name = <[k := v]> (root_map (txn_state t) name) /\
    y_join (txn_state t) (txn_state (map_insert t name k v)) = txn_state (map_insert t name k v);
  st_diff d d0 : y_join (doc_state d0) (doc_state d) = doc_state d ->
    exists u, decode_v1 (encode_state_as_update d (doc_state_vector d0)) = Some u /\
      y_join (doc_state d0) (up_state u) = doc_state d /\ forall t, (txn_apply_update t u).2 = true;
  st_full d : exists u, decode_v1 (encode_state_as_update d empty_state_vector) = Some u /\
    up_state u = doc_state d /\ forall t, (txn_apply_update t u).2 = true;
  st_full_nonempty d : encode_state_as_update d empty_state_vector <> "";
  iter_perm d name : map_iter d name ≡ₚ map_to_list (root_map (doc_state d) name);
  insert_survives x t name k v : k ∉ map_keys (txn_state t) name -> k ∉ map_keys x name ->
    root_map (y_join x (txn_state (map_insert t name k v))) name !! k = Some v;
}.

Inductive OpSetError := YrsError.

(** Decrypted ops and the count of entries that do not open. *)
Record OpenedOps := mkOpened { opened : list (string * string); undecryptable : nat }.

Section OpSet.
Context `{Crypto, Base64, Aead, Yrs, !YrsMap}.

Definition OPS_MAP : string := "ops".
Definition op_id_of (blob : string) : string := hex_encode (sha256 blob).
Definition new_doc_with_client_id (client : N) : YDoc := doc_with_id (clamp_client_id_to_yrs client).

(** [Update::decode_v1] and [apply_update] on an open transaction. *)
Definition apply_bytes (t : YTxn) (bytes : string) : option YTxn :=
  let? u := decode_v1 bytes in
  let '(t, ok) := txn_apply_update t u in
  if ok then Some t else None.
(** The same when the state may be empty. *)
Definition apply_state (t : YTxn) (state : string) : option YTxn :=
  if bool_decide (state = "") then Some t else apply_bytes t state.

Definition seal_op (nonce op_set_state : string) (key : ContentKey) (plaintext_update : string) (client : N)
    : OpSetError + string * string :=
  let blob := encrypt nonce key plaintext_update in
  let op_id := op_id_of blob in
  let doc := new_doc_with_client_id client in
  match apply_state (transact_mut None doc) op_set_state with
  | None => inl YrsError
  | Some t =>
      let doc := (commit 0 t).1 in
      let before := doc_state_vector doc in
      let doc := (commit 0 (map_insert (transact_mut None doc) OPS_MAP op_id (b64_encode blob))).1 in
      inr (op_id, encode_state_as_update doc before)
  end.

Definition merge (op_set_state update : string) : OpSetError + string :=
  let doc := new_doc_with_client_id 1 in
  match apply_state (transact_mut None doc) op_set_state with
  | None => inl YrsError
  | Some t =>
      match apply_bytes t update with
      | None => inl YrsError
      | Some t => inr (encode_state_as_update (commit 0 t).1 empty_state_vector)
      end
  end.

(** The document of a state, errors ignored. *)
Definition load_ops (op_set_state : string) : YDoc :=
  let doc := new_doc_with_client_id 1 in
  if bool_decide (op_set_state = "") then doc
  else match decode_v1 op_set_state with
       | Some u => (commit 0 (txn_apply_update (transact_mut None doc) u).1).1
       | None => doc
       end.
Definition op_ids (op_set_state : string) : gset string :=
  list_to_set (map fst (map_iter (load_ops op_set_state) OPS_MAP)).

(** An opened op with the total of its update's clocks; an update that does not
    decode has rank 0. *)
Definition Ranked : Type := string * string * N.
Definition rank_of (plaintext : string) : N :=
  match decode_v1 plaintext with
  | Some u => foldr N.add 0%N (sv_clocks u)
  | None => 0%N
  end.
(** One round of the loop over the entries. *)
Definition open_entry (key : ContentKey) (seen : gset string) (acc : list Ranked * nat) (e : string * string)
    : list Ranked * nat :=
  let '(out, bad) := acc in
  let '(op_id, v) := e in
  if bool_decide (op_id ∈ seen) then (out, bad)
  else match b64_decode v with
       | None => (out, S bad)
       | Some blob =>
           match decrypt key blob with
           | inr plaintext => (out ++ [(op_id, plaintext, rank_of plaintext)], bad)
           | inl _ => (out, S bad)
           end
       end.
(** The comparison of [sort_by]: roots first, then rank, then id. *)
Definition ranked_le (a b : Ranked) : Prop :=
  let root r := if (0 <? r)%N then 0%N else 1%N in
  let '(ida, _, ra) := a in
  let '(idb, _, rb) := b in
  match (root ra ?= root rb)%N with
  | Lt => True
  | Gt => False
  | Eq => match (ra ?= rb)%N with
          | Lt => True
          | Gt => False
          | Eq => String.le ida idb
          end
  end.
#[export] Instance ranked_le_dec : RelDecision ranked_le.
Proof. intros [[??]?] [[??]?]. unfold ranked_le. repeat case_match; apply _. Defined.

Definition open_new_ops (op_set_state : string) (key : ContentKey) (seen : gset string) : OpenedOps :=
  let '(out, bad) := foldl (open_entry key seen) ([], 0) (map_iter (load_ops op_set_state) OPS_MAP) in
  mkOpened (map fst (merge_sort ranked_le out)) bad.

(** [materialize]: [node_from_bytes] is [KbNodeDoc::from_bytes] and [empty] the
    empty node. *)
Definition materialize {Node : Type} (node_from_bytes : string -> option Node) (empty : Node)
    (op_set_state : string) (key : ContentKey) : Node :=
  let updates := omap (fun p => decode_v1 p.2) (opened (open_new_ops op_set_state key ∅)) in
  match updates with
  | [] => empty
  | _ => default empty (node_from_bytes (merge_updates updates))
  end.

(** ** The order of opening *)

#[export] Instance ranked_le_total : Total ranked_le.
Proof.
  intros [[i p] r] [[j q] s]. unfold ranked_le.
  destruct (N.ltb_spec 0 r), (N.ltb_spec 0 s); cbn; try (by left); try (by right);
    destruct (N.compare_spec r s), (N.compare_spec s r); try lia; auto; apply (total String.le).
Qed.
#[export] Instance ranked_le_trans : Transitive ranked_le.
Proof.
  intros [[i p] r] [[j q] s] [[k o] t]. unfold ranked_le.
  destruct (N.ltb_spec 0 r), (N.ltb_spec 0 s), (N.ltb_spec 0 t); cbn; try done;
    destruct (N.compare_spec r s), (N.compare_spec s t), (N.compare_spec r t); try done; try lia; by intros; etrans.
Qed.
(** Two ops that come before each other have the same id. *)
Lemma ranked_le_anti a b : ranked_le a b -> ranked_le b a -> a.1.1 = b.1.1.
Proof.
  destruct a as [[i p] r], b as [[j q] s]. unfold ranked_le.
  destruct (N.ltb_spec 0 r), (N.ltb_spec 0 s); cbn; try done;
    destruct (N.compare_spec r s), (N.compare_spec s r); try done; try lia; intros; by apply (anti_symm String.le).
Qed.

(** What the loop makes of one entry. *)
Definition open1 (key : ContentKey) (seen : gset string) (e : string * string) : option Ranked :=
  if bool_decide (e.1 ∈ seen) then None
  else let? blob := b64_decode e.2 in
       match decrypt key blob with
       | inr p => Some (e.1, p, rank_of p)
       | inl _ => None
       end.
Definition unopened (key : ContentKey) (seen : gset string) (e : string * string) : bool :=
  negb (bool_decide (e.1 ∈ seen)) && bool_decide (open1 key seen e = None).

Lemma open_entries key seen l : forall out bad,
  foldl (open_entry key seen) (out, bad) l =
  (out ++ omap (open1 key seen) l, bad + length (List.filter (unopened key seen) l)).
Proof.
  induction l as [|[id v] l IH]; intros out bad; cbn [foldl].
  { cbn. by rewrite app_nil_r, Nat.add_0_r. }
  assert (Hstep : open_entry key seen (out, bad) (id, v) =
    (out ++ from_option (fun r => [r]) [] (open1 key seen (id, v)), bad + Nat.b2n (unopened key seen (id, v)))).
  { unfold open_entry, unopened, open1. cbn [fst snd]. case_bool_decide; cbn; [by rewrite app_nil_r, Nat.add_0_r|].
    destruct (b64_decode v) as [blob|]; cbn; [|by rewrite app_nil_r, Nat.add_1_r].
    destruct (decrypt key blob); cbn; [by rewrite app_nil_r, Nat.add_1_r|by rewrite Nat.add_0_r]. }
  rewrite Hstep, IH. cbn [omap list_omap List.filter]. f_equal.
  - destruct (open1 key seen (id, v)); cbn; by rewrite <- app_assoc.
  - destruct (unopened key seen (id, v)); cbn; lia.
Qed.
Lemma open_new_ops_eq s key seen :
  let l := map_iter (load_ops s) OPS_MAP in
  open_new_ops s key seen =
  mkOpened (map fst (merge_sort ranked_le (omap (open1 key seen) l))) (length (List.filter (unopened key seen) l)).
Proof. intros l. unfold open_new_ops. fold l. by rewrite open_entries. Qed.
Lemma open1_id key seen e r : open1 key seen e = Some r -> r.1.1 = e.1.
Proof. unfold open1. intros E. repeat case_match; by simplify_eq. Qed.

(** Sorting entries of one map does not depend on how they are listed. *)
Lemma sort_opened_perm key seen (m : gmap string string) l1 l2 :
  l1 ≡ₚ map_to_list m -> l2 ≡ₚ map_to_list m ->
  merge_sort ranked_le (omap (open1 key seen) l1) = merge_sort ranked_le (omap (open1 key seen) l2).
Proof.
  intros Hl1 Hl2.
  assert (Hp : omap (open1 key seen) l1 ≡ₚ omap (open1 key seen) l2) by (by rewrite Hl1, Hl2).
  apply (StronglySorted_unique_strong ranked_le); [|by apply StronglySorted_merge_sort; apply _..|by rewrite !merge_sort_Permutation].
  intros x y Hx Hy Hxy Hyx. rewrite merge_sort_Permutation in Hx, Hy. rewrite <- Hp in Hy.
  apply list_elem_of_omap in Hx as (ex & Hex & Ex), Hy as (ey & Hey & Ey).
  rewrite Hl1 in Hex, Hey. destruct ex as [i v], ey as [j w].
  apply elem_of_map_to_list in Hex, Hey. pose proof (ranked_le_anti _ _ Hxy Hyx) as Hid.
  rewrite (open1_id _ _ _ _ Ex), (open1_id _ _ _ _ Ey) in Hid. cbn in Hid. subst j. congruence.
Qed.

(** ** Theorems *)

Context `{!YrsMerge, !YrsMergeLaws, !YrsMapState, !YrsMapLaws, !AeadLaws _, !Base64Laws _}.

Definition state_of (s : string) : YState := doc_state (load_ops s).
Definition ops_of (s : string) : gmap string string := root_map (state_of s) OPS_MAP.
(** A state that documents accept, as the op-set functions produce it. *)
Definition loadable (s : string) : Prop :=
  s = "" \/ exists u, decode_v1 s = Some u /\ forall t, (txn_apply_update t u).2 = true.

Lemma opened_listing s key seen :
  open_new_ops s key seen =
  mkOpened (map fst (merge_sort ranked_le (omap (open1 key seen) (map_to_list (ops_of s)))))
    (length (List.filter (unopened key seen) (map_to_list (ops_of s)))).
Proof.
  rewrite open_new_ops_eq. f_equal.
  - f_equal. by apply (sort_opened_perm _ _ (ops_of s)); [apply iter_perm|].
  - apply Permutation_length, List_filter_perm, iter_perm.
Qed.

(** Every peer that holds the same entries opens the same ops in the same
    order and counts the same failures, whatever order its map lists them in
    and however its state was put together. *)
Theorem opening_ignores_map_order s s' key seen :
  ops_of s = ops_of s' -> open_new_ops s key seen = open_new_ops s' key seen.
Proof. intros E. by rewrite !opened_listing, E. Qed.

Lemma apply_state_load s t : apply_state (transact_mut None (new_doc_with_client_id 1)) s = Some t ->
  txn_state t = state_of s.
Proof.
  unfold apply_state, apply_bytes, state_of, load_ops. case_bool_decide; intros E.
  { simplify_eq. by rewrite ts_open. }
  destruct (decode_v1 s) as [u|]; [|done].
  pose proof (ts_apply (transact_mut None (new_doc_with_client_id 1)) u) as Ha.
  destruct (txn_apply_update _ u) as [t' [|]] eqn:Eu; simplify_eq/=. by rewrite ts_commit.
Qed.
(** Whichever client loads a loadable state ends up in the same state. *)
Lemma load_any s d : loadable s -> doc_state d = y_bot ->
  exists t, apply_state (transact_mut None d) s = Some t /\ txn_state t = state_of s.
Proof.
  unfold apply_state, apply_bytes, state_of, load_ops. intros Hs Hd. case_bool_decide.
  { eexists. split; [done|]. rewrite ts_open, Hd. unfold new_doc_with_client_id. by rewrite st_new. }
  destruct Hs as [|(u & Eu & Ha)]; [done|]. rewrite Eu.
  pose proof (ts_apply (transact_mut None d) u (Ha _)) as Hj.
  pose proof (ts_apply (transact_mut None (new_doc_with_client_id 1)) u (Ha _)) as Hk.
  specialize (Ha (transact_mut None d)). destruct (txn_apply_update (transact_mut None d) u) as [t b]. cbn in Ha, Hj. subst b.
  eexists. split; [done|]. rewrite ts_commit, Hk, Hj, !ts_open, Hd. unfold new_doc_with_client_id. by rewrite st_new.
Qed.
Lemma state_of_full d : state_of (encode_state_as_update d empty_state_vector) = doc_state d /\
  loadable (encode_state_as_update d empty_state_vector).
Proof.
  destruct (st_full d) as (u & Eu & Hu & Ha). split; [|right; eauto].
  unfold state_of, load_ops. rewrite bool_decide_eq_false_2 by apply st_full_nonempty. rewrite Eu, ts_commit.
  rewrite ts_apply, ts_open, Hu by done. unfold new_doc_with_client_id. by rewrite st_new, join_bot.
Qed.

(** Merging unites the states. *)
Lemma merge_joins s up u : loadable s -> decode_v1 up = Some u -> (forall t, (txn_apply_update t u).2 = true) ->
  exists s', merge s up = inr s' /\ loadable s' /\ state_of s' = y_join (state_of s) (up_state u).
Proof.
  intros Hs Eu Ha. destruct (load_any s (new_doc_with_client_id 1) Hs) as (t & Et & Hst); [apply st_new|].
  unfold merge. rewrite Et. unfold apply_bytes. rewrite Eu. pose proof (ts_apply t u (Ha t)) as Hj. specialize (Ha t).
  destruct (txn_apply_update t u) as [t' b]. cbn in Ha, Hj. subst b.
  destruct (state_of_full (commit 0 t').1) as [Hf Hl]. eexists. split; [done|]. split; [done|].
  by rewrite Hf, ts_commit, Hj, Hst.
Qed.

(** Sealing yields an update that adds one entry: merged into a state that has
    all the author had, it makes the op readable. *)
Lemma seal_adds nonce s key pt client : loadable s ->
  let blob := encrypt nonce key pt in
  op_id_of blob ∉ map_keys (state_of s) OPS_MAP ->
  exists outer u, seal_op nonce s key pt client = inr (op_id_of blob, outer) /\
    decode_v1 outer = Some u /\ (forall t, (txn_apply_update t u).2 = true) /\
    root_map (y_join (state_of s) (up_state u)) OPS_MAP = <[op_id_of blob := b64_encode blob]> (ops_of s) /\
    forall x, y_join x (state_of s) = x -> op_id_of blob ∉ map_keys x OPS_MAP ->
      root_map (y_join x (up_state u)) OPS_MAP !! op_id_of blob = Some (b64_encode blob).
Proof.
  intros Hs blob Hk. destruct (load_any s (new_doc_with_client_id client) Hs) as (t & Et & Hst); [apply st_new|].
  unfold seal_op. fold blob. rewrite Et.
  set (d0 := (commit 0 t).1). assert (Hd0 : doc_state d0 = state_of s) by (unfold d0; by rewrite ts_commit).
  set (t1 := map_insert (transact_mut None d0) OPS_MAP (op_id_of blob) (b64_encode blob)).
  destruct (ts_insert (transact_mut None d0) OPS_MAP (op_id_of blob) (b64_encode blob)) as [Hm Hg].
  fold t1 in Hm, Hg. rewrite ts_open in Hm, Hg.
  destruct (st_diff (commit 0 t1).1 d0) as (u & Eu & Hj & Ha); [by rewrite ts_commit|].
  exists (encode_state_as_update (commit 0 t1).1 (doc_state_vector d0)), u. split_and!; [done|done|done|..].
  - rewrite <- Hd0, Hj, ts_commit, Hm. unfold ops_of. by rewrite Hd0.
  - intros x Hx Hkx. assert (Hy : y_join x (up_state u) = y_join x (txn_state t1)).
    { rewrite <- Hx at 1. by rewrite <- join_assoc, <- Hd0, Hj, ts_commit. }
    rewrite Hy. unfold t1. apply insert_survives; [|done]. by rewrite ts_open, Hd0.
Qed.

Lemma elem_of_opened s key seen id p : (id, p) ∈ opened (open_new_ops s key seen) <->
  exists v, ops_of s !! id = Some v /\ open1 key seen (id, v) = Some (id, p, rank_of p).
Proof.
  rewrite opened_listing. cbn [opened]. rewrite list_elem_of_fmap. setoid_rewrite merge_sort_Permutation.
  setoid_rewrite list_elem_of_omap. split.
  - intros ([[j q] r] & E & [j' v] & Hm & Ho). cbn in E. simplify_eq. apply elem_of_map_to_list in Hm.
    pose proof (open1_id _ _ _ _ Ho) as Hi. cbn in Hi. subst j'. exists v. split; [done|]. rewrite Ho.
    unfold open1 in Ho. repeat case_match; by simplify_eq.
  - intros (v & Hv & Ho). exists (id, p, rank_of p). split; [done|]. exists (id, v).
    split; [by apply elem_of_map_to_list|done].
Qed.
Lemma open1_Some key seen id v p : String.length key = 32 ->
  open1 key seen (id, v) = Some (id, p, rank_of p) <->
  id ∉ seen /\ exists n, String.length n = NONCE_LEN /\ b64_decode v = Some (encrypt n key p).
Proof.
  intros Hk. unfold open1. cbn [fst snd]. case_bool_decide as Hs.
  { split; [done|]. by intros [? _]. }
  destruct (b64_decode v) as [blob|]; [|split; [done|naive_solver]].
  destruct (decrypt key blob) as [e|q] eqn:Ed.
  - split; [done|]. intros (_ & n & Hn & [= ->]). by rewrite decrypt_encrypt in Ed.
  - apply decrypt_inv in Ed as (n & Hn & ->). split.
    + intros [= ->]. eauto.
    + intros (_ & n' & Hn' & [= E]). assert (Hq : inr (A := CryptoError) q = inr p).
      { by rewrite <- (decrypt_encrypt n key q), E, decrypt_encrypt. }
      by simplify_eq.
Qed.

(** Entries are either opened or counted, each once. *)
Lemma opened_count s key seen :
  length (opened (open_new_ops s key seen)) + undecryptable (open_new_ops s key seen) =
  length (List.filter (fun e => negb (bool_decide (e.1 ∈ seen))) (map_to_list (ops_of s))).
Proof.
  rewrite opened_listing. cbn [opened undecryptable]. rewrite length_map, (Permutation_length (merge_sort_Permutation _ _)).
  induction (map_to_list (ops_of s)) as [|e l IH]; [done|]. cbn [omap list_omap List.filter].
  unfold unopened at 1. case_bool_decide as Hs; cbn [negb andb].
  - unfold open1 at 1. rewrite bool_decide_eq_true_2 by done. done.
  - case_bool_decide as Ho; [rewrite Ho|destruct (open1 key seen e); [|done]]; cbn [length]; lia.
Qed.

(** The first of two opened ops is a root when the second is. *)
Definition roots_first (l : list (string * string)) : Prop :=
  StronglySorted (fun a b => (0 < rank_of b.2)%N -> (0 < rank_of a.2)%N) l.
Lemma opened_roots_first s key seen : roots_first (opened (open_new_ops s key seen)).
Proof.
  rewrite opened_listing. cbn [opened].
  set (l := omap _ _). assert (Hl : Forall (fun r : Ranked => r.2 = rank_of r.1.2) (merge_sort ranked_le l)).
  { rewrite merge_sort_Permutation. apply Forall_forall. intros r Hr. apply list_elem_of_omap in Hr as (e & _ & E).
    unfold open1 in E. repeat case_match; by simplify_eq. }
  pose proof (StronglySorted_merge_sort ranked_le l) as Hs. revert Hl Hs. generalize (merge_sort ranked_le l). clear l.
  intros l Hl Hs. unfold roots_first. induction Hs as [|a l Hs IH Ha]; [constructor|].
  apply Forall_cons in Hl as [Hra Hl]. constructor; [by apply IH|]. apply Forall_map.
  eapply Forall_impl; [apply Forall_and; exact (conj Ha Hl)|]. intros [[j q] s'] [Hle Hrb].
  destruct a as [[i p] r]. cbn in *. subst. revert Hle. destruct (N.ltb_spec 0 (rank_of p)), (N.ltb_spec 0 (rank_of q)); try done.
  lia.
Qed.

(** C9. Opening returns exactly the entries not seen yet that are encryptions
    under the given key, each with its plaintext; every other unseen entry is
    counted as undecryptable; and self-contained ops come before the deltas
    that need them. *)
Theorem opened_ops_exactly s key seen : String.length key = 32 ->
  let o := open_new_ops s key seen in
  (forall id p, (id, p) ∈ opened o <->
     id ∉ seen /\ exists v n, ops_of s !! id = Some v /\ String.length n = NONCE_LEN /\ b64_decode v = Some (encrypt n key p)) /\
  length (opened o) + undecryptable o = length (List.filter (fun e => negb (bool_decide (e.1 ∈ seen))) (map_to_list (ops_of s))) /\
  roots_first (opened o).
Proof.
  intros Hk o. split; [|split; [apply opened_count|apply opened_roots_first]].
  intros id p. unfold o. rewrite elem_of_opened. setoid_rewrite (open1_Some key seen id _ p Hk). naive_solver.
Qed.

Lemma seal_then_open nonce s_author s_reader key pt client seen :
  String.length key = 32 -> String.length nonce = NONCE_LEN -> loadable s_author -> loadable s_reader ->
  y_join (state_of s_reader) (state_of s_author) = state_of s_reader ->
  let id := op_id_of (encrypt nonce key pt) in
  id ∉ map_keys (state_of s_author) OPS_MAP -> id ∉ map_keys (state_of s_reader) OPS_MAP -> id ∉ seen ->
  exists outer s', seal_op nonce s_author key pt client = inr (id, outer) /\ merge s_reader outer = inr s' /\ loadable s' /\
    (id, pt) ∈ opened (open_new_ops s' key seen).
Proof.
  intros Hk Hn Ha Hr Hj id Hia Hir Hs.
  destruct (seal_adds nonce s_author key pt client Ha Hia) as (outer & u & Hseal & Eu & Hacc & _ & Hx).
  destruct (merge_joins s_reader outer u Hr Eu Hacc) as (s' & Hm & Hl & Hst).
  exists outer, s'. split_and!; [done|done|done|]. apply elem_of_opened. exists (b64_encode (encrypt nonce key pt)).
  split; [unfold ops_of; rewrite Hst; by apply Hx|]. apply open1_Some; [done|]. split; [done|].
  exists nonce. by rewrite b64_decode_encode.
Qed.

End OpSet.

(** ** A concrete CRDT of one map *)

Module MapCrdt.

(** An entry has a version; merging keeps the later one, and the greater text
    of two entries of the same version. *)
Definition entry_le (a b : N * string) : bool :=
  (a.1 <? b.1)%N || (bool_decide (a.1 = b.1) && negb (String.ltb b.2 a.2)).
Definition later (a b : N * string) : N * string := if entry_le a b then b else a.
Notation state := (gmap string (N * string)).
Definition join (x y : state) : state := union_with (fun a b => Some (later a b)) x y.
Definition put (x : state) (k v : string) : state := <[k := (from_option (N.succ ∘ fst) 0%N (x !! k), v)]> x.

#[export] Instance map_yrs : Yrs := {|
  YDoc := state;
  YTxn := state;
  YUpdate := state;
  doc_with_id _ := ∅;
  client_id _ := 0%N;
  get_string _ := [];
  transact_mut _ d := d;
  text_insert t _ _ := Some t;
  remove_range t _ _ := Some t;
  txn_apply_update t u := (join t u, true);
  txn_text _ := [];
  txn_base _ := [];
  txn_delta _ := [];
  encode_update_v1 t := String "=" (bits (encode t));
  commit _ t := (t, []);
  decode_v1 s := match s with String "=" r => decode (unbits r) | _ => None end;
  doc_state_vector _ := "";
  decode_state_vector _ := None;
  empty_state_vector := "";
  encode_state_as_update d _ := String "=" (bits (encode d));
  undo_manager d := d;
  undo_blocking d := (d, false, [], None);
  redo_blocking d := (d, false, [], None);
  mgr_can_undo _ := false;
  mgr_can_redo _ := false;
  mgr_reset d := d;
  mgr_clear_all d := d;
|}.
#[export] Instance map_map : YrsMap := {|
  map_insert t _ k v := put t k v;
  map_iter d _ := map_to_list (snd <$> d);
  sv_clocks u := map (fun e => N.succ (e.2).1) (map_to_list u);
  merge_updates l := String "=" (bits (encode (foldr join ∅ l)));
|}.
#[export] Instance map_merge : YrsMerge := {| YState := state; y_join := join; y_bot := ∅; doc_state d := d; up_state u := u |}.
#[export] Instance map_state : YrsMapState := {| txn_state t := t; root_map x _ := snd <$> x; map_keys x _ := dom x |}.

Lemma entry_le_spec a b : entry_le a b = true <-> (a.1 < b.1)%N \/ (a.1 = b.1 /\ String.le a.2 b.2).
Proof.
  unfold entry_le. rewrite orb_true_iff, andb_true_iff, N.ltb_lt, bool_decide_eq_true, negb_true_iff, ltb_false_iff. done.
Qed.
Lemma entry_le_false a b : entry_le a b = false <-> (b.1 < a.1)%N \/ (a.1 = b.1 /\ String.le b.2 a.2 /\ a.2 <> b.2).
Proof.
  rewrite <- not_true_iff_false, entry_le_spec. split.
  - intros Hn. destruct (N.lt_trichotomy a.1 b.1) as [|[E|]]; [naive_solver| |naive_solver]. right. split; [done|].
    destruct (total String.le b.2 a.2) as [Hl|Hl]; [|naive_solver]. split; [done|]. intros E2. destruct Hn. right. by rewrite E2.
  - intros [Hl|(E & Hl & Hn)] [Hl'|[E' Hl']]; try lia. destruct Hn. by apply (anti_symm String.le).
Qed.
Lemma later_spec a b : later a b = b /\ entry_le a b = true \/ later a b = a /\ entry_le b a = true.
Proof.
  unfold later. destruct (entry_le a b) eqn:E; [by left|right]. split; [done|]. apply entry_le_false in E.
  apply entry_le_spec. naive_solver.
Qed.
Lemma entry_le_anti a b : entry_le a b = true -> entry_le b a = true -> a = b.
Proof.
  rewrite !entry_le_spec. destruct a as [n s], b as [m t]. cbn. intros [?|[-> Hl]] [?|[? Hl']]; try lia.
  f_equal. by apply (anti_symm String.le).
Qed.
Lemma entry_le_trans a b c : entry_le a b = true -> entry_le b c = true -> entry_le a c = true.
Proof.
  rewrite !entry_le_spec. intros [Hl|[E Hl]] [Hl'|[E' Hl']]; try (left; lia). right. split; [lia|by etrans].
Qed.
Lemma later_comm a b : later a b = later b a.
Proof.
  destruct (later_spec a b) as [[-> H1]|[-> H1]], (later_spec b a) as [[-> H2]|[-> H2]]; auto using entry_le_anti.
Qed.
Lemma later_assoc a b c : later a (later b c) = later (later a b) c.
Proof.
  repeat match goal with |- context [later ?x ?y] => is_var x; is_var y; destruct (later_spec x y) as [[-> ?]|[-> ?]] end;
    eauto using entry_le_anti, entry_le_trans.
Qed.
Lemma later_idem a : later a a = a.
Proof. by destruct (later_spec a a) as [[-> _]|[-> _]]. Qed.

Lemma lookup_join x y k : join x y !! k =
  match x !! k, y !! k with Some a, Some b => Some (later a b) | Some a, None => Some a | None, o => o end.
Proof. unfold join. rewrite lookup_union_with. by destruct (x !! k), (y !! k). Qed.

#[export] Instance map_merge_laws : YrsMergeLaws.
Proof.
  split; cbn; intros.
  - apply map_eq. intros k. rewrite !lookup_join. destruct (x !! k), (y !! k); try done. by rewrite later_comm.
  - apply map_eq. intros k. rewrite !lookup_join. destruct (x !! k), (y !! k), (z !! k); try done. by rewrite later_assoc.
  - apply map_eq. intros k. rewrite lookup_join. destruct (x !! k); [|done]. by rewrite later_idem.
  - apply map_eq. intros k. by rewrite lookup_join, lookup_empty.
  - done.
  - by simplify_eq.
  - exists d. rewrite unbits_bits, decode_encode. done.
Qed.
Lemma join_put t k v : join t (put t k v) = put t k v.
Proof.
  apply map_eq. intros j. rewrite lookup_join. unfold put. destruct (decide (j = k)) as [->|Hn].
  - rewrite lookup_insert_eq. destruct (t !! k) as [[n s]|]; [|done]. cbn.
    destruct (later_spec (n, s) (N.succ n, v)) as [[-> _]|[-> Hl]]; [done|]. apply entry_le_spec in Hl. cbn in Hl. lia.
  - rewrite lookup_insert_ne by done. destruct (t !! j); [|done]. by rewrite later_idem.
Qed.
#[export] Instance map_laws : YrsMapLaws.
Proof.
  split; cbn.
  - done.
  - done.
  - done.
  - intros t _ k v. split; [unfold put; by rewrite fmap_insert|apply join_put].
  - intros d d0 Hj. exists d. by rewrite unbits_bits, decode_encode.
  - intros d. exists d. by rewrite unbits_bits, decode_encode.
  - done.
  - done.
  - intros x t _ k v _ Hk. rewrite lookup_fmap, lookup_join. apply not_elem_of_dom in Hk. rewrite Hk.
    unfold put. by rewrite lookup_insert_eq.
Qed.

End MapCrdt.

Module OpSetWitnesses.
Import ToyCipher CryptoWitnesses MapCrdt.
#[local] Existing Instances ContentWitnesses.plain64 ContentWitnesses.plain64_laws.

Definition nonce2 : string := "second-nonce-of-24-bytes".
(** Seal and merge one update. *)
Definition sealed (n s pt : string) : string :=
  match seal_op n s content_key pt 7 with
  | inr (_, outer) => match merge s outer with inr s' => s' | inl _ => "" end
  | inl _ => ""
  end.
(** A full state of one entry, an edit, and an entry under another key, put
    together in two ways. *)
Definition root_update : string := String "=" (bits (encode ({["title" := (3%N, "x")]} : gmap string (N * string)))).
Definition foreign (s : string) : string :=
  match seal_op nonce s (pad32 "kex") "hidden" 9 with
  | inr (_, outer) => match merge s outer with inr s' => s' | inl _ => "" end
  | inl _ => ""
  end.
Definition one : string := foreign (sealed nonce (sealed nonce2 "" "edit") root_update).
Definition two : string := sealed nonce2 (sealed nonce (foreign (sealed nonce2 "" "edit")) root_update) "edit".

Lemma opening_ignores_map_order_witness :
  one <> two /\ open_new_ops one content_key ∅ = open_new_ops two content_key ∅.
Proof.
  split; [apply (bool_decide_eq_false_1 (one = two)); vm_compute; reflexivity|].
  apply (opening_ignores_map_order one two). apply (bool_decide_eq_true_1 (ops_of one = ops_of two)). vm_compute. reflexivity.
Defined.

Lemma opened_ops_exactly_witness :
  let o := open_new_ops one content_key ∅ in
  length (opened o) = 2 /\ undecryptable o = 1 /\ head (opened o) = Some (op_id_of (encrypt nonce content_key root_update), root_update) /\
  (forall id p, (id, p) ∈ opened o <->
     id ∉ (∅ : gset string) /\ exists v n, ops_of one !! id = Some v /\ String.length n = NONCE_LEN /\
       b64_decode v = Some (encrypt n content_key p)) /\
  roots_first (opened o).
Proof.
  destruct (opened_ops_exactly one content_key ∅ eq_refl) as (Hin & _ & Hr).
  split; [vm_compute; reflexivity|]. split; [vm_compute; reflexivity|]. split; [vm_compute; reflexivity|].
  split; [exact Hin|exact Hr].
Defined.

(** A reader without the key opens nothing and is told so; the ids are listed
    without it. *)
Lemma keyless_reader_opens_nothing :
  open_new_ops one (pad32 "none") ∅ = mkOpened [] 3 /\ size (op_ids one) = 3 /\
  open_new_ops one content_key (op_ids one) = mkOpened [] 0.
Proof. vm_compute. by repeat split. Qed.

End OpSetWitnesses.
