(* ===== verification/E2eClient.v ===== *)
(** * E2eClient: the editor's network task on encrypted knowledge bases

    Models the content-encryption part of
    [crates/mae/src/collab_bridge/mod.rs]: what the task keeps per knowledge
    base and node, how it seals and sends an edit, opens what the daemon
    relays, follows the collection to the current content key, and plans the
    records of identity rotations. A step of the task is a function on the
    state [KbCryptoCtx] and the bounded channel to the editor. Collections and
    nodes are read through the CRDT crate ([ReplicaCodec], [NodeCodec]); random
    bytes, the clock, the key store and the outcome of a socket write are
    arguments; writing replicas to disk is not modelled. *)
From S2P Require Import Prelude Rope Buffer CollabText DocAddress Storage DocStore DocStoreSpec.
From S2P Require Import Membership OpLog DeriveCache Json ContentOps Collection Rotation Session ContentCrypto OpSet.

(** [KbCollectionDoc]: decoding, encoding, applying an update, and the update
    that leads from one state to a later one. *)
Class ReplicaCodec := {
  decode_replica : string -> option Doc;
  encode_replica : Doc -> string;
  apply_replica : Doc -> string -> option Doc;
  delta_replica : Doc -> Doc -> string;
}.
(** [KbNodeDoc::from_bytes], [apply_update] with its error ignored, and
    [encode_state]. *)
Class NodeCodec := {
  NodeDoc : Type;
  node_from_bytes : string -> option NodeDoc;
  node_apply_update : NodeDoc -> string -> NodeDoc;
  node_encode_state : NodeDoc -> string;
}.

(** ** State and events *)

Inductive CollabEvent :=
  | KbNodeUpdate (kb_id node_id update_bytes : string)
  | KbOpsUndecryptable (kb_id node_id : string) (count : nat)
  | KbUpdateRequeue (kb_id node_id update : string)
  | RemoteUpdate (doc_id update_bytes : string) (wal_seq : N)
  | GapDetected (doc_id : string) (expected got : N).
#[export] Instance CollabEvent_eq_dec : EqDecision CollabEvent.
Proof. solve_decision. Defined.

(** The channel to the editor thread: what is queued and how many more events
    fit (none when the receiver is gone). *)
Record EvtChannel := mkEvt { evt_queue : list CollabEvent; evt_room : nat }.
Definition try_send_evt (tx : EvtChannel) (event : CollabEvent) : EvtChannel :=
  match evt_room tx with
  | 0 => tx
  | S n => mkEvt (evt_queue tx ++ [event]) n
  end.

Record KbCryptoCtx := mkKb {
  content_keys : gmap string ContentKey;
  op_sets : gmap string string;
  node_to_kb : gmap string string;
  seen_ops : gmap string (gset string);
  kb_collections : gmap string string;
  signing_identity : option string;
  pending_collection_ops : list (string * string);
}.
Definition set_keys (s : KbCryptoCtx) (k : gmap string ContentKey) : KbCryptoCtx :=
  mkKb k (op_sets s) (node_to_kb s) (seen_ops s) (kb_collections s) (signing_identity s) (pending_collection_ops s).
Definition set_node (s : KbCryptoCtx) (node op_set : string) (ids : gset string) : KbCryptoCtx :=
  mkKb (content_keys s) (<[node := op_set]> (op_sets s)) (node_to_kb s) (<[node := ids]> (seen_ops s))
    (kb_collections s) (signing_identity s) (pending_collection_ops s).
Definition set_route (s : KbCryptoCtx) (r : gmap string string) : KbCryptoCtx :=
  mkKb (content_keys s) (op_sets s) r (seen_ops s) (kb_collections s) (signing_identity s) (pending_collection_ops s).
Definition set_collection (s : KbCryptoCtx) (kb state : string) (ops : list (string * string)) : KbCryptoCtx :=
  mkKb (content_keys s) (op_sets s) (node_to_kb s) (seen_ops s) (<[kb := state]> (kb_collections s))
    (signing_identity s) (pending_collection_ops s ++ ops).
(** [op_sets.get(node)] and [seen_ops.entry(node).or_default()]. *)
Definition op_set_of (s : KbCryptoCtx) (node : string) : string := default "" (op_sets s !! node).
Definition seen_of (s : KbCryptoCtx) (node : string) : gset string := default ∅ (seen_ops s !! node).

Section Client.
Context `{Crypto, Signer, Base64, Aead, KeyExchange, Yrs, !YrsMap, ReplicaCodec, NodeCodec} (show : Out -> string).
Implicit Types (s : KbCryptoCtx) (tx : EvtChannel) (kb_id node_id : string).

(** An identity is its secret. *)
Definition fingerprint (id : string) : string := fingerprint_of (public_of id).

(** ** Sending *)

Definition sign_request (now req_id : N) kb_id node_id (epoch : N) (id payload : string) : Json :=
  let op := mkContent kb_id node_id "" (fingerprint id) epoch now in
  let signed := mkSignedContent op payload (sign id (content_bytes op payload)) (public_of id) in
  kb_node_update_request_signed req_id kb_id node_id (b64_encode payload) (header_params signed).

Definition build_kb_node_update_request (nonce : string) (now req_id : N) kb_id node_id (update : string) (epoch : N)
    (id : option string) (content_key : option ContentKey) (e2e : bool) (op_set_state : string)
    : option (Json * string * option string) :=
  let plain := if e2e then None else Some (update, op_set_state, None) in
  let built := match content_key, id with
               | Some key, Some i =>
                   match seal_op nonce op_set_state key update (derive_kb_client_id (fingerprint i) epoch) with
                   | inr (op_id, outer) =>
                       Some (outer, match merge op_set_state outer with inr m => m | inl _ => op_set_state end, Some op_id)
                   | inl _ => plain
                   end
               | _, _ => plain
               end in
  let? (payload, new_op_set_state, sealed_op_id) := built in
  let request := match id with
                 | Some i => sign_request now req_id kb_id node_id epoch i payload
                 | None => kb_node_update_request req_id kb_id node_id (b64_encode payload)
                 end in
  Some (request, new_op_set_state, sealed_op_id).

(** The arm of [CollabCommand::KbNodeUpdate]: [stored] is the key store's entry,
    [writer] the outcome of the write, [None] when there is no connection. The
    result has the request that went out. *)
Definition send_node_update (nonce : string) (now req_id : N) s tx kb_id node_id (update : string) (epoch : N) (e2e : bool)
    (stored : option ContentKey) (writer : option bool) : KbCryptoCtx * EvtChannel * option Json :=
  let requeue := try_send_evt tx (KbUpdateRequeue kb_id node_id update) in
  match writer with
  | None => (s, requeue, None)
  | Some written =>
      let s := match node_to_kb s !! node_id with
               | Some _ => s
               | None => set_route s (<[node_id := kb_id]> (node_to_kb s))
               end in
      let s := match e2e, content_keys s !! kb_id, stored with
               | true, None, Some k => set_keys s (<[kb_id := k]> (content_keys s))
               | _, _, _ => s
               end in
      match build_kb_node_update_request nonce now req_id kb_id node_id update epoch (signing_identity s)
              (content_keys s !! kb_id) e2e (op_set_of s node_id) with
      | None => (s, requeue, None)
      | Some (req, new_op_set, sealed_op_id) =>
          if written then
            (match sealed_op_id with
             | Some op_id => set_node s node_id new_op_set ({[op_id]} ∪ seen_of s node_id)
             | None => s
             end, tx, Some req)
          else (s, requeue, None)
      end
  end.

Definition select_share_node_states (e2e : bool) (node_states : list (string * string)) (sets : gmap string string)
    : list (string * string) :=
  omap (fun '(id, state) =>
          if e2e then match sets !! id with
                      | Some sealed => if bool_decide (sealed = "") then None else Some (id, b64_encode sealed)
                      | None => None
                      end
          else Some (id, b64_encode state)) node_states.

(** ** The content key *)

Definition kb_collection_is_e2e (collection_state : string) : bool :=
  match decode_replica collection_state with
  | None => false
  | Some coll =>
      let ops := oplog_ops (d_log coll) in
      match owner_anchor_pubkey ops (owner show (d_root coll)) with
      | None => false
      | Some anchor => bool_decide (derive_encryption ops anchor = E2e)
      end
  end.

(** The first record that looks like a genesis. *)
Definition genesis_shaped (o : SignedMembershipOp) : bool :=
  bool_decide (prev_hash (op o) = "") && bool_decide (action (op o) = Admit) && bool_decide (subject (op o) = author (op o)).
Definition first_genesis (ops : list SignedMembershipOp) : option string := author_pubkey <$> List.find genesis_shaped ops.

Definition unwrap_key (wrapped secret : string) : option ContentKey :=
  match unwrap_as_member wrapped secret with inr k => Some k | inl _ => None end.

Definition derive_kb_content_key (collection_state identity : string) : option ContentKey :=
  let? coll := decode_replica collection_state in
  let ops := oplog_ops (d_log coll) in
  let? anchor := first_genesis ops in
  if negb (bool_decide (fingerprint_of anchor = owner show (d_root coll))) then None
  else if negb (bool_decide (derive_encryption ops anchor = E2e)) then None
  else derive_content_key unwrap_key ops anchor (fingerprint identity) identity.

(** ** Receiving *)

Definition deliver_op kb_id node_id (acc : gset string * EvtChannel) (o : string * string) : gset string * EvtChannel :=
  ({[o.1]} ∪ acc.1, try_send_evt acc.2 (KbNodeUpdate kb_id node_id o.2)).
Definition report_undecryptable tx kb_id node_id (count : nat) : EvtChannel :=
  if 0 <? count then try_send_evt tx (KbOpsUndecryptable kb_id node_id count) else tx.

Definition route_kb_node_update s tx node_id (bytes : string) : KbCryptoCtx * EvtChannel :=
  let kb_id := default "" (node_to_kb s !! node_id) in
  match (let? kb := node_to_kb s !! node_id in content_keys s !! kb) with
  | None => (s, try_send_evt tx (KbNodeUpdate kb_id node_id bytes))
  | Some key =>
      let merged := match merge (op_set_of s node_id) bytes with inr m => m | inl _ => bytes end in
      let o := open_new_ops merged key (seen_of s node_id) in
      let '(seen, tx) := foldl (deliver_op kb_id node_id) (seen_of s node_id, tx) (opened o) in
      (set_node s node_id merged seen, report_undecryptable tx kb_id node_id (undecryptable o))
  end.

(** One node of a join response on an encrypted knowledge base: the state the
    editor gets, and the task's state. *)
Definition open_join_snapshot s tx kb_id (key : ContentKey) node_id (bytes : string) : KbCryptoCtx * EvtChannel * string :=
  let s := set_route s (<[node_id := kb_id]> (node_to_kb s)) in
  let merged := match merge (op_set_of s node_id) bytes with inr m => m | inl _ => bytes end in
  let o := open_new_ops merged key ∅ in
  let '(s, bytes) :=
    match opened o with
    | [] => (s, bytes)
    | (_, base) :: rest =>
        let bytes := match node_from_bytes base with
                     | Some reader => node_encode_state (foldl (fun r p => node_apply_update r p.2) reader rest)
                     | None => bytes
                     end in
        (set_node s node_id merged (list_to_set (map fst (opened o)) ∪ seen_of s node_id), bytes)
    end in
  (s, report_undecryptable tx kb_id node_id (undecryptable o), bytes).

(** The state part of [CollabCommand::LeaveKb]. *)
Definition leave_kb s kb_id : KbCryptoCtx :=
  let gone := filter (fun p : string * string => p.2 = kb_id) (node_to_kb s) in
  mkKb (delete kb_id (content_keys s)) (op_sets s ∖ gone)
    (node_to_kb s ∖ gone) (seen_ops s ∖ ((fun _ => ∅) <$> gone)) (kb_collections s) (signing_identity s)
    (pending_collection_ops s).

(** ** Planning records *)

Record RotationPlan := mkPlan { plan_kb : string; deltas : list string; new_replica : string }.

(** [plan_owner_rotation] for one replica; [rand] has the ephemeral secret and
    the nonce of a wrap. *)
Definition plan_owner (rand : string * string) (keys : gmap string ContentKey) (old_id new_id : string) (now : N)
    (kb_id state : string) : option RotationPlan :=
  let? coll := decode_replica state in
  if negb (bool_decide (owner show (d_root coll) = fingerprint old_id)) then None
  else
    let new_wrap_pk := wrap_public_for new_id in
    let d1 := author_rebind coll kb_id (fingerprint old_id) (fingerprint new_id) (public_of new_id) new_wrap_pk old_id
                (public_of old_id) now in
    let rewrapped := match encryption show (d_root d1), keys !! kb_id with
                     | E2e, Some key =>
                         match wrap_to_member rand.1 rand.2 key new_wrap_pk with
                         | inr wrapped => Some (author_rebind_rewrap show d1 kb_id (fingerprint new_id) wrapped (public_of old_id)
                                                  (fingerprint new_id) new_id (public_of new_id) now)
                         | inl _ => None
                         end
                     | _, _ => None
                     end in
    Some (match rewrapped with
          | Some d2 => mkPlan kb_id [delta_replica coll d1; delta_replica d1 d2] (encode_replica d2)
          | None => mkPlan kb_id [delta_replica coll d1] (encode_replica d1)
          end).
Definition plan_owner_rotation (rand : string -> string * string) (collections : gmap string string)
    (keys : gmap string ContentKey) (old_id new_id : string) (now : N) : list RotationPlan :=
  omap (fun '(kb_id, state) => plan_owner (rand kb_id) keys old_id new_id now kb_id state) (map_to_list collections).

(** A plan of one authored record for the replicas that [wanted] selects. *)
Definition plan_one (wanted : Doc -> bool) (author : string -> Doc -> Doc) (collections : gmap string string)
    : list RotationPlan :=
  omap (fun '(kb_id, state) =>
          let? coll := decode_replica state in
          if wanted coll then let d := author kb_id coll in Some (mkPlan kb_id [delta_replica coll d] (encode_replica d))
          else None) (map_to_list collections).
Definition has_role (fp : string) (d : Doc) : bool := bool_decide (is_Some (role_of show (d_root d) fp)).
Definition plan_member_rotation (collections : gmap string string) (old_id new_id : string) (now : N) : list RotationPlan :=
  plan_one (fun d => negb (bool_decide (owner show (d_root d) = fingerprint old_id)) && has_role (fingerprint old_id) d)
    (fun kb_id d => author_rebind d kb_id (fingerprint old_id) (fingerprint new_id) (public_of new_id) (wrap_public_for new_id)
                      old_id (public_of old_id) now) collections.
Definition plan_register_recovery_key (collections : gmap string string) (principal recovery_pubkey : string) (now : N)
    : list RotationPlan :=
  plan_one (has_role (fingerprint principal))
    (fun kb_id d => author_register_recovery_key d kb_id (fingerprint principal) recovery_pubkey principal (public_of principal) now)
    collections.
Definition plan_recovery_rotation (collections : gmap string string) (old_fp new_id recovery : string) (now : N)
    : list RotationPlan :=
  plan_one (has_role old_fp)
    (fun kb_id d => author_recovery_rebind d kb_id old_fp (fingerprint new_id) (public_of new_id) (wrap_public_for new_id)
                      recovery (public_of recovery) now) collections.

(** The successor and wrap key of a new rotation record of somebody else. *)
Definition rebind_target (owner_fp : string) (base_hashes : list string) (o : SignedMembershipOp) : option (string * string) :=
  if bool_decide (chain_hash o ∈ base_hashes) || negb (bool_decide (action (op o) = Rebind))
     || bool_decide (subject (op o) = owner_fp) || bool_decide (author (op o) = owner_fp) then None
  else
    let? new_pk := new_pubkey (op o) in
    let? new_wrap_pk := new_wrap_pubkey (op o) in
    if bool_decide (fingerprint_of new_pk = subject (op o)) then Some (subject (op o), new_wrap_pk) else None.
(** The last loop: each re-wrap is authored on top of the previous one. *)
Fixpoint rewrap_targets (rand : nat -> string * string) (i : nat) (d : Doc) kb_id (key : ContentKey) (anchor me : string) (now : N)
    (targets : list (string * string)) : list string :=
  match targets with
  | [] => []
  | (new_fp, new_wrap_pk) :: rest =>
      match wrap_to_member (rand i).1 (rand i).2 key new_wrap_pk with
      | inl _ => rewrap_targets rand (S i) d kb_id key anchor me now rest
      | inr wrapped =>
          let d' := author_rebind_rewrap show d kb_id new_fp wrapped anchor (fingerprint me) me (public_of me) now in
          delta_replica d d' :: rewrap_targets rand (S i) d' kb_id key anchor me now rest
      end
  end.
Definition plan_reactive_member_rewraps (rand : nat -> string * string) kb_id (base delta : string) (key : ContentKey)
    (me : string) (now : N) : list string :=
  match (let? b := decode_replica base in let? m := apply_replica b delta in Some (b, m)) with
  | None => []
  | Some (b, merged) =>
      let ops := oplog_ops (d_log merged) in
      let anchor := default (public_of me) (first_genesis ops) in
      if negb (bool_decide (encryption show (d_root merged) = E2e)) then []
      else if negb (is_owner_principal ops anchor (fingerprint me)) && negb (bool_decide (owner show (d_root merged) = fingerprint me))
      then []
      else
        let base_hashes := map chain_hash (oplog_ops (d_log b)) in
        rewrap_targets rand 0 merged kb_id key anchor me now (omap (rebind_target (fingerprint me) base_hashes) ops)
  end.

(** ** Updates of collections *)

Definition refresh_kb_content_key_on_collection_delta (rand : nat -> string * string) (now : N) s (doc_id delta : string)
    : KbCryptoCtx :=
  match parse doc_id, signing_identity s with
  | Some (KbCollection kb_id), Some id =>
      match (let? base := kb_collections s !! kb_id in
             let? coll := decode_replica base in
             let? m := apply_replica coll delta in Some (base, encode_replica m)) with
      | None => s
      | Some (base, merged) =>
          let rewraps := match content_keys s !! kb_id with
                         | Some key => plan_reactive_member_rewraps rand kb_id base delta key id now
                         | None => []
                         end in
          let s := set_collection s kb_id merged (map (pair kb_id) rewraps) in
          match derive_kb_content_key merged id with
          | Some new_key => set_keys s (<[kb_id := new_key]> (content_keys s))
          | None => s
          end
      end
  | _, _ => s
  end.

(** [check_seq_gap]; the tracker has the last number per document. *)
Definition check_seq_gap (tracker : gmap string N) tx (doc_id : string) (wal_seq : N) : gmap string N * EvtChannel :=
  let expected := from_option N.succ wal_seq (tracker !! doc_id) in
  (<[doc_id := wal_seq]> tracker,
   if (expected <? wal_seq)%N then try_send_evt tx (GapDetected doc_id expected wal_seq) else tx).

(** The arm of [notifications/sync_update] once the fields are read. *)
Definition on_sync_update (rand : nat -> string * string) (now : N) s (tracker : gmap string N) tx (shared_docs : list string)
    (buffer_name update_b64 : string) (wal_seq : N) : KbCryptoCtx * gmap string N * EvtChannel :=
  if negb (bool_decide (buffer_name ∈ shared_docs)) then (s, tracker, tx)
  else
    let '(tracker, tx) := if (0 <? wal_seq)%N then check_seq_gap tracker tx buffer_name wal_seq else (tracker, tx) in
    match b64_decode update_b64 with
    | None => (s, tracker, tx)
    | Some bytes =>
        match parse buffer_name with
        | Some (KbNode _ node_id) => let '(s, tx) := route_kb_node_update s tx node_id bytes in (s, tracker, tx)
        | _ => (refresh_kb_content_key_on_collection_delta rand now s buffer_name bytes, tracker,
                try_send_evt tx (RemoteUpdate buffer_name bytes wal_seq))
        end
    end.

(** [compute_backoff], saturating at 64 bits. *)
Definition compute_backoff (base_secs factor : N) (attempt : N) : N :=
  N.min (N.min (base_secs * N.min (factor ^ N.min attempt 5) u64_max) u64_max) 300.

(** ** Theorems *)

(** The [update] field of a request. *)
Definition sent_update (req : Json) : option string := let? p := json_get req "params" in get_str p "update".
Lemma envelope_params id p : json_get (node_update_envelope id p) "params" = Some p.
Proof. reflexivity. Qed.
Lemma sent_signed now req_id kb_id node_id epoch id payload :
  sent_update (sign_request now req_id kb_id node_id epoch id payload) = Some (b64_encode payload).
Proof.
  unfold sent_update, sign_request, kb_node_update_request_signed. set (h := header_params _).
  assert (E : exists m, h = JObject m /\ m !! "update" = None) by (eexists; split; reflexivity). destruct E as (m & -> & Hm).
  rewrite envelope_params. unfold get_str, merge_members. cbn [json_get]. by rewrite lookup_union_r.
Qed.

(** C7. On an encrypted knowledge base the task never puts plaintext on the wire: a
    request is built only with a content key and an identity at hand, its
    payload is the op-set update that seals the edit under that key, and a
    share sends only states of sealed op-sets; without a key or when sealing
    fails nothing is sent, and the edit goes back to the editor's queue. *)
Theorem encrypted_kb_sends_only_ciphertext nonce now req_id kb_id node_id update epoch id key op_set_state :
  let built := build_kb_node_update_request nonce now req_id kb_id node_id update epoch id key true op_set_state in
  (forall req st' oid, built = Some (req, st', oid) ->
     exists k i op_id outer, key = Some k /\ id = Some i /\
       seal_op nonce op_set_state k update (derive_kb_client_id (fingerprint i) epoch) = inr (op_id, outer) /\
       sent_update req = Some (b64_encode outer) /\ oid = Some op_id) /\
  (forall s tx stored w, content_keys s !! kb_id = None -> stored = None ->
     exists s', send_node_update nonce now req_id s tx kb_id node_id update epoch true stored w =
       (s', try_send_evt tx (KbUpdateRequeue kb_id node_id update), None)) /\
  (forall states sets n b, (n, b) ∈ select_share_node_states true states sets ->
     exists sealed, sets !! n = Some sealed /\ sealed <> "" /\ b = b64_encode sealed).
Proof.
  intros built. split_and!.
  - intros req st' oid E. unfold built, build_kb_node_update_request in E.
    destruct key as [k|], id as [i|]; try done. destruct (seal_op _ _ _ _ _) as [|[op_id outer]] eqn:Es; [done|].
    simplify_eq. exists k, i, op_id, outer. by rewrite sent_signed.
  - intros s tx stored w Hk ->. unfold send_node_update. destruct w as [w|]; [|eauto].
    set (s1 := match node_to_kb s !! node_id with Some _ => s | None => _ end).
    assert (Hk1 : content_keys s1 !! kb_id = None) by (unfold s1; by case_match).
    rewrite Hk1. cbn. rewrite Hk1. eauto.
  - intros states sets n b Hin. apply list_elem_of_omap in Hin as ([n' st'] & _ & E).
    destruct (sets !! n') as [sealed|] eqn:Es; [|done]. case_bool_decide; [done|]. simplify_eq. eauto.
Qed.

(** Events that fit in the channel are queued in order. *)
Lemma deliver_all kb_id node_id l : forall ids tx, length l <= evt_room tx ->
  foldl (deliver_op kb_id node_id) (ids, tx) l =
  (list_to_set (map fst l) ∪ ids,
   mkEvt (evt_queue tx ++ map (fun o => KbNodeUpdate kb_id node_id o.2) l) (evt_room tx - length l)).
Proof.
  induction l as [|o l IH]; intros ids tx Hr; cbn [foldl].
  { destruct tx. cbn. by rewrite app_nil_r, Nat.sub_0_r, union_empty_l_L. }
  cbn in Hr. unfold deliver_op at 2, try_send_evt. cbn [fst snd]. destruct (evt_room tx) as [|n] eqn:E; [lia|].
  rewrite IH by (cbn; lia). cbn. f_equal; [set_solver|]. rewrite <- app_assoc. by replace (n - length l) with (S n - S (length l)) by lia.
Qed.

Context `{!YrsMerge, !YrsMergeLaws, !YrsMapState, !YrsMapLaws, !AeadLaws _, !Base64Laws _}.

Definition accepted_update (bytes : string) (u : YUpdate) : Prop :=
  decode_v1 bytes = Some u /\ forall t, (txn_apply_update t u).2 = true.
Definition reported kb_id node_id (count : nat) : list CollabEvent :=
  if 0 <? count then [KbOpsUndecryptable kb_id node_id count] else [].

Lemma open1_seen key seen seen' (e : string * string) : (e.1 ∈ seen <-> e.1 ∈ seen') -> open1 key seen e = open1 key seen' e.
Proof. intros E. unfold open1. by rewrite (bool_decide_ext _ _ E). Qed.
(** Once the opened ids are marked, the same entries open to nothing and the
    same number of them is reported. *)
Lemma reopen m m' key seen : ops_of m' = ops_of m ->
  let o := open_new_ops m key seen in
  open_new_ops m' key (list_to_set (map fst (opened o)) ∪ seen) = mkOpened [] (undecryptable o).
Proof.
  intros E o. set (seen' := _ ∪ seen).
  assert (Hin : forall e, e ∈ map_to_list (ops_of m) -> e.1 ∈ seen' <-> e.1 ∈ seen \/ is_Some (open1 key seen e)).
  { intros [id v] He. apply elem_of_map_to_list in He. unfold seen'. rewrite elem_of_union, elem_of_list_to_set.
    cbn [fst]. rewrite list_elem_of_fmap. split.
    - intros [([id' p] & -> & Hp)|?]; [right|by left]. apply elem_of_opened in Hp as (v' & Hv & Ho). cbn in He. simplify_eq. eauto.
    - intros [?|[[[id' p] r] Ho]]; [by right|]. left. pose proof (open1_id _ _ _ _ Ho) as Hid. cbn in Hid. subst id'.
      exists (id, p). split; [done|]. apply elem_of_opened. exists v. split; [done|]. rewrite Ho.
      unfold open1 in Ho. repeat case_match; by simplify_eq. }
  rewrite opened_listing, E. unfold o. rewrite opened_listing. cbn [undecryptable].
  assert (Hn : omap (open1 key seen') (map_to_list (ops_of m)) = []).
  { destruct (omap _ _) as [|x l] eqn:Ex; [done|]. exfalso.
    assert (Hx : x ∈ omap (open1 key seen') (map_to_list (ops_of m))) by (rewrite Ex; left).
    apply list_elem_of_omap in Hx as (e & He & Hx). pose proof (Hin e He) as Hi.
    assert (Hs : e.1 ∉ seen') by (unfold open1 in Hx; by case_bool_decide).
    rewrite (open1_seen key seen' seen) in Hx by tauto. destruct Hs. apply Hi. right. eauto. }
  rewrite Hn. f_equal. f_equal. apply List_filter_ext. intros e He. unfold unopened. specialize (Hin e He).
  destruct (decide (e.1 ∈ seen)) as [Hs|Hs].
  { by rewrite (bool_decide_eq_true_2 (e.1 ∈ seen')), (bool_decide_eq_true_2 (e.1 ∈ seen)) by tauto. }
  rewrite (bool_decide_eq_false_2 (e.1 ∈ seen)) by done. destruct (decide (e.1 ∈ seen')) as [Hs'|Hs'].
  - rewrite (bool_decide_eq_true_2 (e.1 ∈ seen')) by done. cbn. symmetry. apply bool_decide_eq_false_2. intros Ho.
    apply Hin in Hs' as [?|[? E']]; [done|congruence].
  - rewrite (bool_decide_eq_false_2 (e.1 ∈ seen')) by done. cbn. by rewrite (open1_seen key seen' seen) by tauto.
Qed.

Lemma route_keyed s tx node_id kb_id key bytes m :
  node_to_kb s !! node_id = Some kb_id -> content_keys s !! kb_id = Some key -> merge (op_set_of s node_id) bytes = inr m ->
  let o := open_new_ops m key (seen_of s node_id) in
  length (opened o) < evt_room tx ->
  route_kb_node_update s tx node_id bytes =
  (set_node s node_id m (list_to_set (map fst (opened o)) ∪ seen_of s node_id),
   report_undecryptable (mkEvt (evt_queue tx ++ map (fun p => KbNodeUpdate kb_id node_id p.2) (opened o))
     (evt_room tx - length (opened o))) kb_id node_id (undecryptable o)).
Proof.
  intros Hn Hk Hm o Hr. unfold route_kb_node_update. rewrite Hn. cbn. rewrite Hk, Hm. fold o.
  rewrite deliver_all by lia. done.
Qed.
Lemma report_queue tx kb_id node_id c : 0 < evt_room tx ->
  evt_queue (report_undecryptable tx kb_id node_id c) = evt_queue tx ++ reported kb_id node_id c.
Proof.
  intros Hr. unfold report_undecryptable, reported, try_send_evt. destruct (0 <? c); [|by rewrite app_nil_r].
  destruct (evt_room tx); [lia|done].
Qed.

(** A relayed update of an encrypted node is merged into the op-set; the
    editor gets exactly the edits that were not delivered before, in the fixed
    order, and a count of what does not open. The same update arriving again
    delivers no edit. *)
Theorem routing_delivers_unseen_once s tx tx2 node_id kb_id key bytes u :
  node_to_kb s !! node_id = Some kb_id -> content_keys s !! kb_id = Some key ->
  loadable (op_set_of s node_id) -> accepted_update bytes u ->
  exists m, merge (op_set_of s node_id) bytes = inr m /\ state_of m = y_join (state_of (op_set_of s node_id)) (up_state u) /\
    let o := open_new_ops m key (seen_of s node_id) in
    (length (opened o) < evt_room tx -> 0 < evt_room tx2 ->
     let r := route_kb_node_update s tx node_id bytes in
     evt_queue r.2 = evt_queue tx ++ map (fun p => KbNodeUpdate kb_id node_id p.2) (opened o) ++ reported kb_id node_id (undecryptable o) /\
     evt_queue (route_kb_node_update r.1 tx2 node_id bytes).2 = evt_queue tx2 ++ reported kb_id node_id (undecryptable o)).
Proof.
  intros Hn Hk Hl [Eu Ha]. destruct (merge_joins _ _ u Hl Eu Ha) as (m & Hm & Hlm & Hst).
  exists m. split; [done|]. split; [done|]. intros o Hr Hr2 r. unfold r.
  rewrite (route_keyed s tx node_id kb_id key bytes m) by done. fold o. cbn [fst snd].
  split; [rewrite report_queue by (cbn; lia); cbn; by rewrite <- app_assoc|].
  set (s' := set_node _ _ _ _).
  assert (Hs' : op_set_of s' node_id = m) by (unfold op_set_of, s'; cbn; by rewrite lookup_insert_eq).
  destruct (merge_joins m _ u Hlm Eu Ha) as (m2 & Hm2 & _ & Hst2).
  assert (Hops : ops_of m2 = ops_of m). { unfold ops_of. by rewrite Hst2, Hst, <- join_assoc, join_idem. }
  assert (Hseen : seen_of s' node_id = list_to_set (map fst (opened o)) ∪ seen_of s node_id).
  { unfold seen_of at 1, s'. cbn. by rewrite lookup_insert_eq. }
  assert (Ho : open_new_ops m2 key (seen_of s' node_id) = mkOpened [] (undecryptable o)).
  { rewrite Hseen. by apply reopen. }
  rewrite (route_keyed s' tx2 node_id kb_id key bytes m2); [|done|done|by rewrite Hs'|by rewrite Ho].
  rewrite Ho. cbn [opened undecryptable map length snd]. rewrite report_queue by (cbn; lia). cbn. by rewrite app_nil_r.
Qed.


Context `{!KeyExchangeLaws _, !ShaLaws _}.

(** A record handing [key] to the holder of [seed], signed by [me]. *)
Definition hands_over (me seed subject_fp : string) (key : ContentKey) (d d' : Doc) : Prop :=
  exists o w, d' = author_op d o me (public_of me) /\ author o = fingerprint me /\ action o = Admit /\ subject o = subject_fp /\
    wrapped_key o = Some w /\ unwrap_as_member w seed = inr key.
Lemma rewrap_hands_over d kb_id new_fp e n key anchor me seed now w :
  String.length key = 32 -> String.length n = NONCE_LEN -> wrap_to_member e n key (wrap_public_for seed) = inr w ->
  hands_over me seed new_fp key d (author_rebind_rewrap show d kb_id new_fp w anchor (fingerprint me) me (public_of me) now).
Proof.
  intros Hk Hn Hw. unfold author_rebind_rewrap. set (mem := derived_now _ _ _).
  exists (rekey_op show d kb_id mem (fingerprint me) now new_fp w), w.
  unfold rekey_op. destruct (attributes show mem (d_root d) new_fp) as [[r inv] ep].
  split_and!; try done. by apply (unwrap_wrap seed e n).
Qed.
Lemma rewrap_targets_reach rand kb_id key anchor me seed now new_fp targets :
  String.length key = 32 -> (forall i, String.length (rand i).2 = NONCE_LEN) ->
  (forall i, was_contributory (diffie_hellman (rand i).1 (wrap_public_for seed)) = true) ->
  (new_fp, wrap_public_for seed) ∈ targets ->
  forall i d, exists d1 d2, delta_replica d1 d2 ∈ rewrap_targets rand i d kb_id key anchor me now targets /\
    hands_over me seed new_fp key d1 d2.
Proof.
  intros Hk Hn Hc. induction targets as [|[fp wpk] rest IH]; intros Hin i d; [by apply not_elem_of_nil in Hin|].
  cbn [rewrap_targets]. apply elem_of_cons in Hin as [[= <- <-]|Hin].
  - destruct (wrap_to_member _ _ _ _) as [|w] eqn:Ew.
    { unfold wrap_to_member in Ew. by rewrite Hc in Ew. }
    eexists d, _. split; [left|]. by eapply rewrap_hands_over.
  - destruct (wrap_to_member _ _ key wpk) as [|w]; [by apply IH|].
    destruct (IH Hin (S i) (author_rebind_rewrap show d kb_id fp w anchor (fingerprint me) me (public_of me) now)) as (d1 & d2 & Hd & Hh).
    exists d1, d2. split; [by right|done].
Qed.

(** The owner's automatic re-wrap trusts unsigned records: whatever a
    relayed update adds to the log as a rotation of somebody else, with a wrap
    key and a matching fingerprint, the owner answers with a signed record that
    hands the content key to the holder of that wrap key. Neither the
    signature of the rotation nor the membership of its author is among the
    conditions. *)
Theorem rewrap_trusts_unsigned_rebinds rand kb_id base delta key me now b merged o pk seed :
  decode_replica base = Some b -> apply_replica b delta = Some merged ->
  encryption show (d_root merged) = E2e -> owner show (d_root merged) = fingerprint me ->
  o ∈ oplog_ops (d_log merged) -> chain_hash o ∉ map chain_hash (oplog_ops (d_log b)) ->
  action (op o) = Rebind -> subject (op o) <> fingerprint me -> author (op o) <> fingerprint me ->
  new_pubkey (op o) = Some pk -> fingerprint_of pk = subject (op o) -> new_wrap_pubkey (op o) = Some (wrap_public_for seed) ->
  String.length key = 32 -> (forall i, String.length (rand i).2 = NONCE_LEN) ->
  (forall i, was_contributory (diffie_hellman (rand i).1 (wrap_public_for seed)) = true) ->
  exists d d', delta_replica d d' ∈ plan_reactive_member_rewraps rand kb_id base delta key me now /\
    hands_over me seed (subject (op o)) key d d'.
Proof.
  intros Hb Hm He Ho Hin Hnew Ha Hs Hau Hpk Hfp Hw Hk Hn Hc. unfold plan_reactive_member_rewraps. rewrite Hb. cbn. rewrite Hm.
  rewrite bool_decide_eq_true_2 by done. rewrite (bool_decide_eq_true_2 (owner _ _ = _)) by done. rewrite andb_false_r. cbn [negb].
  apply rewrap_targets_reach; [done..|]. apply list_elem_of_omap. exists o. split; [done|]. unfold rebind_target.
  rewrite bool_decide_eq_false_2, !(bool_decide_eq_false_2 (_ = fingerprint me)), (bool_decide_eq_true_2 (action _ = _)) by done.
  cbn. rewrite Hpk, Hw. cbn. by rewrite bool_decide_eq_true_2.
Qed.

(** An owner who rotates its identity keeps its knowledge bases: for each
    one it owns, the plan first binds the new key with a record signed by the
    old one, and, when the knowledge base is encrypted, then hands the current
    content key to the new identity in a record signed by the new one. *)
Theorem owner_rotation_keeps_content_key rand collections keys old_id new_id now kb_id state coll :
  collections !! kb_id = Some state -> decode_replica state = Some coll -> owner show (d_root coll) = fingerprint old_id ->
  exists plan d1 o1, plan ∈ plan_owner_rotation rand collections keys old_id new_id now /\ plan_kb plan = kb_id /\
    d1 = author_op coll o1 old_id (public_of old_id) /\ action o1 = Rebind /\ author o1 = fingerprint old_id /\
    subject o1 = fingerprint new_id /\ new_pubkey o1 = Some (public_of new_id) /\
    new_wrap_pubkey o1 = Some (wrap_public_for new_id) /\ head (deltas plan) = Some (delta_replica coll d1) /\
    (forall key, encryption show (d_root coll) = E2e -> keys !! kb_id = Some key -> String.length key = 32 ->
       String.length (rand kb_id).2 = NONCE_LEN ->
       was_contributory (diffie_hellman (rand kb_id).1 (wrap_public_for new_id)) = true ->
       exists d2, hands_over new_id new_id (fingerprint new_id) key d1 d2 /\
         deltas plan = [delta_replica coll d1; delta_replica d1 d2] /\ new_replica plan = encode_replica d2).
Proof.
  intros Hc Hd Ho.
  set (o1 := set_successor (build_membership_op (d_log coll) kb_id Rebind (fingerprint new_id) None false (fingerprint old_id) now None 0)
               (public_of new_id) (wrap_public_for new_id)).
  set (d1 := author_op coll o1 old_id (public_of old_id)).
  assert (Hp : exists plan, plan_owner (rand kb_id) keys old_id new_id now kb_id state = Some plan /\ plan_kb plan = kb_id /\
    head (deltas plan) = Some (delta_replica coll d1)).
  { unfold plan_owner. rewrite Hd. rewrite bool_decide_eq_true_2 by done. cbn [negb]. eexists. split; [reflexivity|].
    case_match; done. }
  destruct Hp as (plan & Hp & Hkb & Hhd). exists plan, d1, o1. split_and!; try done.
  - apply list_elem_of_omap. exists (kb_id, state). split; [by apply elem_of_map_to_list|done].
  - intros key He Hk Hl Hn Hw. unfold plan_owner in Hp. rewrite Hd in Hp. rewrite bool_decide_eq_true_2 in Hp by done.
    cbn [negb] in Hp. unfold author_rebind in Hp. fold o1 in Hp. fold d1 in Hp.
    change (encryption show (d_root d1)) with (encryption show (d_root coll)) in Hp. rewrite He, Hk in Hp.
    destruct (wrap_to_member _ _ _ _) as [|w] eqn:Ew.
    { unfold wrap_to_member in Ew. by rewrite Hw in Ew. }
    injection Hp as <-. eexists. split; cycle 1; [split; reflexivity|]. by eapply rewrap_hands_over.
Qed.
End Client.

Module E2eWitnesses.
Import ToyCipher CryptoWitnesses MapCrdt.
#[local] Existing Instances ContentWitnesses.plain64 ContentWitnesses.plain64_laws RotationWitnesses.wide_signer.
Import CollectionWitnesses.

Definition pk (k : string) : string := CacheWitnesses.key k.
Definition who (k : string) : string := fingerprint k.
(** An encrypted knowledge base just set up by its owner. *)
Definition base_doc : Doc :=
  author_e2e_genesis (mkDoc (new_owned "kb" (who "ow") "Ann") ∅) "kb" (who "ow") "ow" (pk "ow")
    (match wrap_to_member "ephemeral" nonce content_key (wrap_public_for "ow") with inr w => w | inl _ => "" end) 10.
(** A rotation nobody signed, to the key of an outsider, and a genesis-shaped
    record of an outsider. *)
Definition forged : SignedMembershipOp :=
  mkSigned (mkOp "kb" Rebind (who "xx") None false "nobody" 20 None 0 "p" None (Some (pk "xx")) (Some (wrap_public_for "xx")) None Full None)
    "" (pk "zz").
Definition outsider : SignedMembershipOp :=
  mkSigned (mkOp "kb" Admit "e" (Some Owner) true "e" 5 None 0 "" None None None None Full None) "" (pk "zz").
Definition with_record (d : Doc) (o : SignedMembershipOp) : Doc :=
  mkDoc (d_root d) (append_signed_op (d_log d) (op o) (sig o) (author_pubkey o)).

(** The collections of the examples by name. *)
#[local] Instance replicas : ReplicaCodec := {|
  decode_replica s := if bool_decide (s = "base") then Some base_doc
                      else if bool_decide (s = "forged") then Some (with_record base_doc forged)
                      else if bool_decide (s = "outsider") then Some (with_record base_doc outsider) else None;
  encode_replica _ := "forged";
  apply_replica d u := if bool_decide (u = "forge") then Some (with_record d forged) else None;
  delta_replica _ _ := "delta";
|}.
#[local] Instance nodes : NodeCodec := {|
  NodeDoc := string; node_from_bytes := Some; node_apply_update d u := d +:+ u; node_encode_state d := d |}.

Lemma decode_base : decode_replica "base" = Some base_doc.
Proof. cbn [decode_replica replicas]. by rewrite bool_decide_eq_true_2. Qed.

Definition rand : nat -> string * string := fun _ => ("ephemeral", nonce).
Definition owner_state : KbCryptoCtx := mkKb {["kb" := content_key]} ∅ {["n1" := "kb"]} ∅ {["kb" := "base"]} (Some "ow") [].
Definition roomy : EvtChannel := mkEvt [] 9.
Definition full : EvtChannel := mkEvt [] 0.

Lemma e2e_setup :
  kb_collection_is_e2e show_json "base" = true /\ derive_kb_content_key show_json "base" "ow" = Some content_key /\
  derive_kb_content_key show_json "base" "xx" = None.
Proof. vm_compute. by repeat split. Qed.

(** One unsigned record hides the content key: [kb_collection_is_e2e] looks
    for the owner's genesis among the valid records, [derive_kb_content_key]
    takes the first record that looks like a genesis and gives up when it is
    not the owner's. A relay that adds such a record leaves the members of an
    encrypted knowledge base without a key, so their edits are requeued for
    ever. *)
Theorem injected_genesis_hides_key :
  verify_signed outsider = false /\ kb_collection_is_e2e show_json "outsider" = true /\
  derive_kb_content_key show_json "outsider" "ow" = None /\
  (forall tx, (send_node_update nonce 30 1 (mkKb ∅ ∅ ∅ ∅ {["kb" := "outsider"]} (Some "ow") []) tx "kb" "n1" "edit" 0 true None (Some true)).2 = None).
Proof. split_and!; [vm_compute; reflexivity..|]. intros tx. reflexivity. Qed.

Lemma rewrap_trusts_unsigned_rebinds_witness :
  verify_signed forged = false /\
  exists d d', delta_replica d d' ∈ plan_reactive_member_rewraps show_json rand "kb" "base" "forge" content_key "ow" 30 /\
    hands_over "ow" "xx" (who "xx") content_key d d'.
Proof.
  split; [vm_compute; reflexivity|].
  apply (rewrap_trusts_unsigned_rebinds show_json rand "kb" "base" "forge" content_key "ow" 30 base_doc
    (with_record base_doc forged) forged (pk "xx") "xx"); try (vm_compute; reflexivity); try (intros i; vm_compute; reflexivity).
  - apply (bool_decide_eq_true_1 (forged ∈ _)). vm_compute. reflexivity.
  - apply (bool_decide_eq_true_1 (chain_hash forged ∉ _)). vm_compute. reflexivity.
  - vm_compute. discriminate.
  - vm_compute. discriminate.
Defined.

Lemma owner_rotation_keeps_content_key_witness :
  exists plan d1 o1, plan ∈ plan_owner_rotation show_json (fun _ => ("ephemeral", nonce)) {["kb" := "base"]} {["kb" := content_key]} "ow" "nw" 40 /\
    plan_kb plan = "kb" /\ d1 = author_op base_doc o1 "ow" (pk "ow") /\ subject o1 = who "nw" /\
    exists d2, hands_over "nw" "nw" (who "nw") content_key d1 d2 /\ deltas plan = ["delta"; "delta"].
Proof.
  destruct (owner_rotation_keeps_content_key show_json (fun _ => ("ephemeral", nonce)) {["kb" := "base"]} {["kb" := content_key]}
    "ow" "nw" 40 "kb" "base" base_doc (lookup_singleton_eq _ _) decode_base) as (plan & d1 & o1 & Hp & Hk & Hd & _ & _ & Hs & _ & _ & _ & Hh).
  { vm_compute. reflexivity. }
  destruct (Hh content_key) as (d2 & H2 & Hl & _); [vm_compute; reflexivity..|].
  exists plan, d1, o1. split; [exact Hp|]. split; [exact Hk|]. split; [exact Hd|]. split; [exact Hs|].
  exists d2. split; [exact H2|exact Hl].
Defined.

(** ** Sending and receiving *)

Definition nonce2 : string := OpSetWitnesses.nonce2.
(** The owner's edits, and a reader of the same knowledge base. *)
Definition bytes_of (r : option (Json * string * option string)) : string :=
  default "" (let? r := r in let? w := sent_update r.1.1 in b64_decode w).
Definition first_edit : string :=
  bytes_of (build_kb_node_update_request nonce 30 1 "kb" "n1" "edit" 0 (Some "ow") (Some content_key) true "").

Lemma encrypted_kb_sends_only_ciphertext_example :
  let b := build_kb_node_update_request nonce 30 1 "kb" "n1" "edit" 0 (Some "ow") (Some content_key) true "" in
  (exists req st oid, b = Some (req, st, Some oid) /\ sent_update req <> Some "edit" /\ oid = op_id_of (encrypt nonce content_key "edit")) /\
  build_kb_node_update_request nonce 30 1 "kb" "n1" "edit" 0 (Some "ow") None true "" = None /\
  select_share_node_states true [("n1", "text"); ("n2", "text")] {["n2" := "sealed"]} = [("n2", "sealed")].
Proof.
  split_and!; [|reflexivity|reflexivity]. eexists _, _, _. split; [reflexivity|]. split; [|reflexivity].
  apply (bool_decide_eq_true_1 (sent_update _ <> Some "edit")). vm_compute. reflexivity.
Qed.

Lemma encrypted_kb_sends_only_ciphertext_witness :
  exists k i op_id outer, Some content_key = Some k /\ Some "ow" = Some i /\
    seal_op nonce "" k "edit" (derive_kb_client_id (fingerprint i) 0) = inr (op_id, outer) /\
    Some (b64_encode first_edit) = Some (b64_encode outer).
Proof.
  destruct (encrypted_kb_sends_only_ciphertext nonce 30 1 "kb" "n1" "edit" 0 (Some "ow") (Some content_key) "") as [Hb _].
  destruct (Hb _ _ _ eq_refl) as (k & i & op_id & outer & Hk & Hi & Hs & Hu & _). exists k, i, op_id, outer.
  split; [exact Hk|]. split; [exact Hi|]. split; [exact Hs|]. rewrite <- Hu. vm_compute. reflexivity.
Defined.

Lemma state_of_empty : state_of "" = ∅.
Proof. reflexivity. Qed.
Lemma routing_delivers_unseen_once_witness :
  exists m, merge "" first_edit = inr m /\
    evt_queue (route_kb_node_update owner_state roomy "n1" first_edit).2 = [KbNodeUpdate "kb" "n1" "edit"] /\
    evt_queue (route_kb_node_update (route_kb_node_update owner_state roomy "n1" first_edit).1 roomy "n1" first_edit).2 = [].
Proof.
  destruct (decode_v1 first_edit) as [u|] eqn:Eu; [|exfalso; vm_compute in Eu; discriminate Eu].
  destruct (routing_delivers_unseen_once owner_state roomy roomy "n1" "kb" content_key first_edit u) as (m & Hm & _ & Hr).
  - vm_compute. reflexivity.
  - vm_compute. reflexivity.
  - left. vm_compute. reflexivity.
  - split; [exact Eu|done].
  - change (op_set_of owner_state "n1") with "" in Hm. exists m. split; [exact Hm|].
    assert (Em : (match merge "" first_edit with inr m' => m' | inl _ => "" end) = m) by (rewrite Hm; reflexivity).
    subst m. assert (Ho : open_new_ops (match merge "" first_edit with inr m' => m' | inl _ => "" end) content_key
      (seen_of owner_state "n1") = mkOpened [(op_id_of (encrypt nonce content_key "edit"), "edit")] 0).
    { vm_compute. reflexivity. }
    rewrite Ho in Hr. apply Hr; vm_compute; lia.
Defined.


(** An edit that meets a full channel is lost: its op is marked as seen before
    the event is offered, a full channel drops the event, and when the daemon
    sends the same update again nothing is delivered. *)
Theorem full_channel_loses_edits :
  let '(s1, tx1) := route_kb_node_update owner_state full "n1" first_edit in
  let '(s2, tx2) := route_kb_node_update s1 roomy "n1" first_edit in
  evt_queue tx1 = [] /\ evt_queue tx2 = [] /\
  evt_queue (route_kb_node_update owner_state roomy "n1" first_edit).2 = [KbNodeUpdate "kb" "n1" "edit"].
Proof. vm_compute. by repeat split. Qed.

(** Node ids are not told apart by knowledge base: an update addressed to the
    node [n1] of a knowledge base without encryption is merged into the op-set
    of the node [n1] of another, encrypted one, is reported as undecryptable
    there, and never reaches the editor. *)
Theorem same_node_id_mixes_kbs :
  let '(s, _, tx) := on_sync_update show_json rand 30 owner_state ∅ roomy ["kbn:two:n1"] "kbn:two:n1" OpSetWitnesses.root_update 0 in
  evt_queue tx = [KbOpsUndecryptable "kb" "n1" 1] /\ op_sets s !! "n1" <> op_sets owner_state !! "n1".
Proof.
  destruct (on_sync_update _ _ _ _ _ _ _ _ _ _) as [[s tr] tx] eqn:E. vm_compute in E. injection E as <- _ <-.
  split; [reflexivity|]. vm_compute. discriminate.
Qed.

(** The numbers of notifications count the events of a session, and the task
    compares them per document: two documents edited in turn, with no event
    lost, are reported as having gaps, each of which asks for a full sync. *)
Theorem interleaved_documents_report_gaps :
  let '(t1, c1) := check_seq_gap ∅ roomy "a" 1 in
  let '(t2, c2) := check_seq_gap t1 c1 "b" 2 in
  let '(t3, c3) := check_seq_gap t2 c2 "a" 3 in
  evt_queue (check_seq_gap t3 c3 "b" 4).2 = [GapDetected "a" 2 3; GapDetected "b" 3 4].
Proof. vm_compute. reflexivity. Qed.

(** A snapshot of a node on join is opened whole, even when its ops were seen. *)
Lemma join_opens_everything :
  let '(s, tx, bytes) := open_join_snapshot (route_kb_node_update owner_state full "n1" first_edit).1 roomy "kb" content_key "n1" first_edit in
  bytes = "edit" /\ evt_queue tx = [] /\ size (seen_of s "n1") = 1.
Proof. vm_compute. by repeat split. Qed.

End E2eWitnesses.
