(* ===== verification/OrgLinks.v ===== *)
(** * OrgLinks: links in the text of a knowledge-base node

    Models the link scanners of [shared/kb/src/org.rs] ([parse_typed_links],
    [next_link_span], [rewrite_links], the ADR-030 query grammar) and of
    [shared/kb/src/lib.rs] ([parse_links], [compute_code_block_ranges]), the
    functions through which the link graph of a KB is read off its text.

    A text is its UTF-8 bytes. A scanner's position [i] in the body is the pair
    of [i] and the rest of the body from [i]; a jump over a matched link is a
    count of bytes still to skip, which makes the loops structural. The loop of
    [parse_typed_links] steps by characters where nothing matches: a
    continuation byte is never a bracket, so stepping by bytes is the same. *)
From S2P Require Import Prelude DocAddress.

(** ** Substring search *)

(** [s.find(p)] with the slices around the match: what precedes the first
    occurrence of [p], and what follows it. *)
Fixpoint split_str (p s : string) : option (string * string) :=
  match strip_prefix p s with
  | Some r => Some ("", r)
  | None => match s with
            | "" => None
            | String c s' => let? (a, b) := split_str p s' in Some (String c a, b)
            end
  end.
Definition find_str (p s : string) : option nat := (String.length ∘ fst) <$> split_str p s.
Definition contains_str (p s : string) : bool := bool_decide (is_Some (split_str p s)).
Definition starts_with (p s : string) : bool := bool_decide (is_Some (strip_prefix p s)).

(** [&s[n..]] and [&s[..n]]. *)
Fixpoint drop_str (n : nat) (s : string) : string :=
  match n, s with S n', String _ s' => drop_str n' s' | _, _ => s end.
Fixpoint take_str (n : nat) (s : string) : string :=
  match n, s with S n', String c s' => String c (take_str n' s') | _, _ => "" end.

(** [to_ascii_lowercase]. *)
Definition lower_byte (c : Ascii.ascii) : Ascii.ascii :=
  let n := Ascii.N_of_ascii c in
  if (65 <=? n)%N && (n <=? 90)%N then Ascii.ascii_of_N (n + 32) else c.
Fixpoint to_ascii_lowercase (s : string) : string :=
  match s with "" => "" | String c s' => String (lower_byte c) (to_ascii_lowercase s') end.

(** [s.split(c)]. *)
Fixpoint split_char (c : Ascii.ascii) (s : string) : list string :=
  match s with
  | "" => [""]
  | String b s' =>
      if bool_decide (b = c) then "" :: split_char c s'
      else match split_char c s' with [] => [String b ""] | x :: l => String b x :: l end
  end.

(** ** Verbatim blocks *)

Definition newline : Ascii.ascii := Ascii.ascii_of_N 10.

(** The end of a block: past its end tag, up to and including the next newline. *)
Definition past_line (body : string) (p : nat) : nat :=
  match find_str (String newline "") (drop_str p body) with
  | Some nl => p + nl + 1
  | None => String.length body
  end.

(** The [while let] of one kind of block. Every round with a closed block moves
    [search_from] past its tags, so as many rounds as bytes are enough. *)
Fixpoint block_ranges (fuel : nat) (body low begin_tag end_tag : string) (search_from : nat) : list (nat * nat) :=
  match fuel with
  | 0 => []
  | S fuel' =>
      match find_str begin_tag (drop_str search_from low) with
      | None => []
      | Some start =>
          let abs_start := search_from + start in
          match find_str end_tag (drop_str abs_start low) with
          | Some e =>
              let abs_end := past_line body (abs_start + e + String.length end_tag) in
              (abs_start, abs_end) :: block_ranges fuel' body low begin_tag end_tag abs_end
          | None => [(abs_start, String.length body)]
          end
      end
  end.

Definition verbatim_blocks : list (string * string) :=
  [("#+begin_src", "#+end_src"); ("#+begin_example", "#+end_example"); ("#+begin_export", "#+end_export")].
Definition start_le (a b : nat * nat) : Prop := a.1 <= b.1.
#[export] Instance start_le_dec : RelDecision start_le.
Proof. intros a b. unfold start_le. apply _. Defined.
Definition compute_code_block_ranges (body : string) : list (nat * nat) :=
  let low := to_ascii_lowercase body in
  merge_sort start_le
    (verbatim_blocks ≫= fun '(b, e) => block_ranges (S (String.length body)) body low b e 0).
Definition in_code (ranges : list (nat * nat)) (pos : nat) : bool :=
  existsb (fun '(s, e) => (s <=? pos) && (pos <? e)) ranges.

(** ** The query grammar *)

(** [f64] as the grammar uses it: [parse] accepts what [str::parse::<f64>] does. *)
Class F64 (F : Type) := {
  f64_one : F;
  f64_parse : string -> option F;
  f64_is_finite : F -> bool;
  f64_clamp_unit : F -> F;
}.
(** [f.clamp(0.0, 1.0)] of a finite value lies in the unit interval. *)
Class F64Laws (F : Type) `{F64 F} := {
  f64_unit : F -> Prop;
  f64_one_unit : f64_unit f64_one;
  f64_clamp_in_unit f : f64_is_finite f = true -> f64_unit (f64_clamp_unit f);
}.

Record ParsedLink (F : Type) := mkLink {
  target : string;
  display : string;
  rel_type : string;
  fragment : option string;
  weight : F;
  confidence : F;
  attrs : list (string * string);
}.
Arguments mkLink {F}.
Arguments target {F}.
Arguments display {F}.
Arguments rel_type {F}.
Arguments fragment {F}.
Arguments weight {F}.
Arguments confidence {F}.
Arguments attrs {F}.

Definition split_link_target (t : string) : string * option string * option string :=
  let '(path, query) := match split_once "?" t with Some (p, q) => (p, Some q) | None => (t, None) end in
  let '(node_id, frag) := match split_once "#" path with Some (p, f) => (p, Some f) | None => (path, None) end in
  (node_id, frag, query).

Section Links.
Context {F : Type} `{F64 F}.

Definition parse_unit (v : string) (slot : F) : F :=
  match f64_parse v with
  | Some f => if f64_is_finite f then f64_clamp_unit f else slot
  | None => slot
  end.

Definition Query := (option string * F * F * list (string * string))%type.
Definition query_pair (acc : Query) (pair : string) : Query :=
  let '(rel, w, c, l) := acc in
  if is_empty pair then acc
  else
    let '(key, value) := match split_once "=" pair with
                         | Some (k, v) => (trim k, trim v)
                         | None => (trim pair, "")
                         end in
    if bool_decide (key = "rel") then (if is_empty value then acc else (Some value, w, c, l))
    else if bool_decide (key = "w") || bool_decide (key = "weight") then (rel, parse_unit value w, c, l)
    else if bool_decide (key = "c") || bool_decide (key = "conf") || bool_decide (key = "confidence")
    then (rel, w, parse_unit value c, l)
    else if is_empty key then acc
    else (rel, w, c, l ++ [(key, value)]).
Definition parse_link_query (query : string) : Query :=
  foldl query_pair (None, f64_one, f64_one, []) (split_char "&" query).

Definition classify_link (t : string) (disp : option string) : ParsedLink F :=
  let '(node_id, frag, query) := split_link_target t in
  let '(rel, w, c, l) := match query with Some q => parse_link_query q | None => (None, f64_one, f64_one, []) end in
  mkLink node_id (default node_id disp) (default "references" rel) frag w c l.

(** ** Scanning *)

(** The link that starts at position [i] where the rest of the body is [s]: its
    inner text and the bytes it takes. A third opening bracket is a stray one
    and dropped with the link; a nested link voids the outer brackets. [prev] is
    the byte before [i]. *)
Definition verbatim_mark (prev : option Ascii.ascii) : bool :=
  bool_decide (prev = Some "="%char) || bool_decide (prev = Some "~"%char).
Definition link_at (ranges : list (nat * nat)) (i : nat) (prev : option Ascii.ascii) (s : string)
    : option (string * nat) :=
  match s with
  | String "[" (String "[" r) =>
      if in_code ranges i || verbatim_mark prev then None
      else
        let '(stray, r') := match r with String "[" r' => (1, r') | _ => (0, r) end in
        let? (inner, _) := split_str "]]" r' in
        if contains_str "[[" inner then None
        else Some (inner, stray + 2 + String.length inner + 2)
  | _ => None
  end.

(** The target and the display text of a link's inner text, by [][] or by a bar. *)
Definition split_inner (inner : string) : string * option string :=
  match split_str "][" inner with
  | Some (t, d) => (t, Some d)
  | None => match split_once "|" inner with
            | Some (t, d) => (t, Some d)
            | None => (inner, None)
            end
  end.
Definition link_of (inner : string) : option (ParsedLink F) :=
  let '(target_raw, disp) := split_inner inner in
  let target_str := trim (default target_raw (strip_prefix "id:" target_raw)) in
  if is_empty target_str then None else Some (classify_link target_str disp).

Fixpoint scan_links (ranges : list (nat * nat)) (skip i : nat) (prev : option Ascii.ascii) (s : string)
    : list (ParsedLink F) :=
  match s with
  | "" => []
  | String c s' =>
      match skip with
      | S k => scan_links ranges k (S i) (Some c) s'
      | 0 => match link_at ranges i prev s with
             | Some (inner, len) =>
                 option_list (link_of inner) ++ scan_links ranges (len - 1) (S i) (Some c) s'
             | None => scan_links ranges 0 (S i) (Some c) s'
             end
      end
  end.
Definition parse_typed_links (body : string) : list (ParsedLink F) :=
  scan_links (compute_code_block_ranges body) 0 0 None body.

(** [Node::links] and [Node::links_typed]: the first link to each target. *)
Fixpoint first_per_target (seen : list string) (l : list (ParsedLink F)) : list (ParsedLink F) :=
  match l with
  | [] => []
  | x :: l' => if bool_decide (target x ∈ seen) then first_per_target seen l'
               else x :: first_per_target (target x :: seen) l'
  end.
Definition body_links_typed (body : string) : list (string * string * F) :=
  map (fun x => (target x, rel_type x, weight x)) (first_per_target [] (parse_typed_links body)).
Definition body_links (body : string) : list string :=
  map target (first_per_target [] (parse_typed_links body)).
End Links.

(** [parse_links], the untyped scanner of [lib.rs]: the target and the display
    text, both trimmed, the target kept as written. *)
Definition untyped_at (ranges : list (nat * nat)) (i : nat) (prev : option Ascii.ascii) (s : string)
    : option (string * nat) :=
  match s with
  | String "[" (String "[" r) =>
      if verbatim_mark prev || in_code ranges i then None
      else let? (inner, _) := split_str "]]" r in Some (inner, 2 + String.length inner + 2)
  | _ => None
  end.
Definition untyped_of (inner : string) : option (string * string) :=
  let '(t, d) := match split_str "][" inner with
                 | Some (t, d) => (t, d)
                 | None => match split_once "|" inner with
                           | Some (t, d) => (t, d)
                           | None => (inner, inner)
                           end
                 end in
  if is_empty (trim t) then None else Some (trim t, trim d).
Fixpoint scan_untyped (ranges : list (nat * nat)) (skip i : nat) (prev : option Ascii.ascii) (s : string)
    : list (string * string) :=
  match s with
  | "" => []
  | String c s' =>
      match skip with
      | S k => scan_untyped ranges k (S i) (Some c) s'
      | 0 => match untyped_at ranges i prev s with
             | Some (inner, len) =>
                 option_list (untyped_of inner) ++ scan_untyped ranges (len - 1) (S i) (Some c) s'
             | None => scan_untyped ranges 0 (S i) (Some c) s'
             end
      end
  end.
Definition parse_links (body : string) : list (string * string) :=
  scan_untyped (compute_code_block_ranges body) 0 0 None body.

(** ** Rewriting for display *)

Record LinkSpanMatch := mkSpan { full_start : nat; full_end : nat; span_inner : string }.

(** The byte before position [from]. *)
Definition byte_before (body : string) (from : nat) : option Ascii.ascii :=
  match from with 0 => None | S k => String.get k body end.
Fixpoint span_from (ranges : list (nat * nat)) (i : nat) (prev : option Ascii.ascii) (s : string)
    : option LinkSpanMatch :=
  match s with
  | "" => None
  | String c s' =>
      match link_at ranges i prev s with
      | Some (inner, len) => Some (mkSpan i (i + len) inner)
      | None => span_from ranges (S i) (Some c) s'
      end
  end.
Definition next_link_span (body : string) (from : nat) (ranges : list (nat * nat)) : option LinkSpanMatch :=
  span_from ranges from (byte_before body from) (drop_str from body).

Definition KB_NAMESPACES : list string :=
  ["concept:"; "cmd:"; "key:"; "category:"; "lesson:"; "module:"; "option:"; "scheme:"; "term:"; "tutor:";
   "tutorial:"; "guide:"; "view:"; "task:"; "meta:"; "index"; "daily:"; "practice:"; "user:"; "project:"].
Definition EXTERNAL_LINK_SCHEMES : list string :=
  ["http://"; "https://"; "ftp://"; "ftps://"; "mailto:"; "file:"; "attachment:"; "docview:"; "news:"; "irc:";
   "info:"; "shell:"; "elisp:"; "man:"; "doi:"].
Definition is_external_link_target (t : string) : bool :=
  let lowered := to_ascii_lowercase (trim t) in
  existsb (fun scheme => starts_with scheme lowered) EXTERNAL_LINK_SCHEMES.
Definition is_kb_node_id (t : string) : bool :=
  bool_decide (t = "index") || existsb (fun ns => starts_with ns t) KB_NAMESPACES.

(** What one link becomes. *)
Definition bar_display (disp : option string) : string := match disp with Some d => "|" +:+ d | None => "" end.
Definition rewrite_target (target_raw : string) (disp : option string) : string :=
  let target_clean := match split_once "?" target_raw with Some (p, _) => p | None => target_raw end in
  match strip_prefix "id:" target_clean with
  | Some uuid => "[[" +:+ trim uuid +:+ bar_display disp +:+ "]]"
  | None =>
      if is_kb_node_id target_clean then "[[" +:+ target_clean +:+ bar_display disp +:+ "]]"
      else match disp with
           | Some d => d +:+ " (" +:+ target_raw +:+ ")"
           | None => "(" +:+ target_raw +:+ ")"
           end
  end.
Definition rewrite_inner (inner : string) : string :=
  match split_str "][" inner with
  | Some (t, d) => rewrite_target t (Some d)
  | None => rewrite_target inner None
  end.

(** The [while let] of [rewrite_links_with_types]: every match ends at least four
    bytes past the cursor, so as many rounds as bytes are enough. *)
Fixpoint rewrite_from (fuel : nat) (body : string) (ranges : list (nat * nat)) (cursor : nat) : string :=
  match fuel with
  | 0 => ""
  | S fuel' =>
      match next_link_span body cursor ranges with
      | Some m => take_str (full_start m - cursor) (drop_str cursor body) +:+
                  rewrite_inner (span_inner m) +:+ rewrite_from fuel' body ranges (full_end m)
      | None => drop_str cursor body
      end
  end.
Definition rewrite_links_with_types (body : string) : string :=
  rewrite_from (S (String.length body)) body (compute_code_block_ranges body) 0.
Definition rewrite_links (body : string) : string := rewrite_links_with_types body.

(** ** Transclusions *)

(** [str::lines]: split at newlines, a carriage return before one dropped; a
    final empty line is no line. *)
Definition strip_cr (l : string) : string :=
  match String.rev l with
  | String c r => if bool_decide (c = Ascii.ascii_of_N 13) then String.rev r else l
  | "" => l
  end.
Fixpoint lines_of (parts : list string) : list string :=
  match parts with
  | [] => []
  | [l] => if is_empty l then [] else [l]
  | l :: rest => strip_cr l :: lines_of rest
  end.
Definition lines (s : string) : list string := lines_of (split_char newline s).

Definition transclude_line (line : string) : option (string * string) :=
  let trimmed := trim line in
  let? rest := match strip_prefix "#+TRANSCLUDE:" trimmed with
               | Some r => Some r
               | None => strip_prefix "#+transclude:" trimmed
               end in
  let '(member_id, role) := match split_once " " (trim rest) with
                            | Some (m, r) => (m, r)
                            | None => (trim rest, "content")
                            end in
  if is_empty member_id then None else Some (member_id, role).
Definition parse_transclusion_directives (body : string) : list (string * string) := omap transclude_line (lines body).

(** ** Lemmas on search *)

Lemma split_str_sound p s : forall a b, split_str p s = Some (a, b) -> s = a +:+ p +:+ b.
Proof.
  induction s as [|c s IH]; intros a b; simpl;
    (destruct (strip_prefix p _) as [r|] eqn:Hp; [intros [= <- <-]; exact (strip_prefix_inv _ _ _ Hp)|]); [done|].
  destruct (split_str p s) as [[a' b']|]; [|done]. intros [= <- <-]. by rewrite (IH a' b').
Qed.

(** The bytes of [s] avoid those of [l]. *)
Fixpoint avoids (l : list Ascii.ascii) (s : string) : bool :=
  match s with "" => true | String c s' => negb (bool_decide (c ∈ l)) && avoids l s' end.
Lemma avoids_app l a b : avoids l (a +:+ b) = avoids l a && avoids l b.
Proof. induction a as [|c a IH]; [done|]. simpl. rewrite IH. by destruct (negb _). Qed.
Lemma avoids_cons l c s : avoids l (String c s) = true <-> c ∉ l /\ avoids l s = true.
Proof. simpl. rewrite andb_true_iff, negb_true_iff, bool_decide_eq_false. done. Qed.
Lemma avoids_contains c s : avoids [c] s = true -> contains c s = false.
Proof.
  induction s as [|b s IH]; [done|]. rewrite avoids_cons. intros [Hb Hs]. simpl.
  rewrite (IH Hs), bool_decide_eq_false_2; set_solver.
Qed.
Lemma avoids_weaken l l' s : (forall c, c ∈ l' -> c ∈ l) -> avoids l s = true -> avoids l' s = true.
Proof. intros Hl. induction s as [|b s IH]; [done|]. rewrite !avoids_cons. naive_solver. Qed.
Lemma avoids_strip l p s r : strip_prefix p s = Some r -> avoids l s = true -> avoids l r = true.
Proof. intros ->%strip_prefix_inv. rewrite avoids_app. by intros [_ ?]%andb_true_iff. Qed.
Lemma split_once_sound c s : forall a b, split_once c s = Some (a, b) -> s = a +:+ String c b /\ avoids [c] a = true.
Proof.
  induction s as [|x s IH]; intros a b; [done|]. simpl. case_bool_decide as E.
  - intros [= <- <-]. by subst.
  - destruct (split_once c s) as [[a' b']|]; [|done]. intros [= <- <-]. destruct (IH a' b' eq_refl) as [-> Ha].
    split; [done|]. apply avoids_cons. set_solver.
Qed.
Lemma split_once_avoids c s : avoids [c] s = true -> split_once c s = None.
Proof.
  induction s as [|b s IH]; [done|]. rewrite avoids_cons. intros [Hb Hs]. simpl.
  rewrite (IH Hs), bool_decide_eq_false_2 by set_solver. done.
Qed.
Lemma split_once_none c s : split_once c s = None -> avoids [c] s = true.
Proof.
  induction s as [|b s IH]; [done|]. simpl. case_bool_decide as E; [done|].
  destruct (split_once c s) as [[??]|]; [done|]. intros _. rewrite IH by done. by rewrite bool_decide_eq_false_2 by set_solver.
Qed.

(** [String.rev] as the standard library has it, by an accumulator. *)
Lemma avoids_rev_app l s : forall acc, avoids l (String.rev_app s acc) = avoids l s && avoids l acc.
Proof.
  induction s as [|c s IH]; intros acc; [done|]. simpl. rewrite IH. simpl.
  by destruct (negb _), (avoids l s), (avoids l acc).
Qed.
Lemma avoids_rev l s : avoids l (String.rev s) = avoids l s.
Proof. unfold String.rev. rewrite avoids_rev_app. apply andb_true_r. Qed.
Lemma avoids_strip_one l ws s r : strip_one ws s = Some r -> avoids l s = true -> avoids l r = true.
Proof.
  induction ws as [|w ws IH]; [done|]. simpl. destruct (strip_prefix w s) eqn:E; [|done].
  intros [= <-]. by apply avoids_strip with w.
Qed.
Lemma avoids_strip_many l ws n : forall s, avoids l s = true -> avoids l (strip_many n ws s) = true.
Proof.
  induction n as [|n IH]; intros s Hs; [done|]. simpl. destruct (strip_one ws s) eqn:E; [|done].
  apply IH. by apply avoids_strip_one with ws s.
Qed.
Lemma avoids_trim l s : avoids l s = true -> avoids l (trim s) = true.
Proof. intros Hs. unfold trim. rewrite avoids_rev. apply avoids_strip_many. rewrite avoids_rev. by apply avoids_strip_many. Qed.

(** The last byte of [a], or [prev] when there is none. *)
Fixpoint last_byte (prev : option Ascii.ascii) (a : string) : option Ascii.ascii :=
  match a with "" => prev | String c a' => last_byte (Some c) a' end.
Lemma last_byte_app prev a b : last_byte prev (a +:+ b) = last_byte (last_byte prev a) b.
Proof. revert prev. induction a as [|c a IH]; intros prev; [done|]. apply IH. Qed.

(** ** Documents of text and links

    The texts on which the scanners are exercised: runs of plain text and links
    in the bracket form of org, or in the bar form the rewriting leaves. *)
Inductive Piece := Text (t : string) | Link (t : string) | LinkOrg (t d : string) | LinkBar (t d : string).
Definition inner_of (p : Piece) : string :=
  match p with
  | Text t | Link t => t
  | LinkOrg t d => t +:+ "][" +:+ d
  | LinkBar t d => t +:+ "|" +:+ d
  end.
Definition print_piece (p : Piece) : string :=
  match p with Text t => t | _ => "[[" +:+ inner_of p +:+ "]]" end.
Fixpoint print_pieces (l : list Piece) : string :=
  match l with [] => "" | p :: l' => print_piece p +:+ print_pieces l' end.

Definition brackets : list Ascii.ascii := ["["; "]"]%char.
Definition piece_ok (p : Piece) : bool :=
  match p with
  | Text t => avoids ["["%char] t && negb (verbatim_mark (last_byte None t))
  | Link t => avoids ("|"%char :: brackets) t
  | LinkOrg t d | LinkBar t d => avoids ("|"%char :: brackets) t && avoids brackets d
  end.

(** A link's inner text opens and closes nothing. *)
Definition inner_closed (inner : string) : Prop :=
  (forall r, inner <> String "[" r) /\ contains_str "[[" inner = false /\
  forall rest, split_str "]]" (inner +:+ "]]" +:+ rest) = Some (inner, rest).

Lemma split_close a rest : avoids brackets a = true -> split_str "]]" (a +:+ "]]" +:+ rest) = Some (a, rest).
Proof.
  induction a as [|c a IH]; [done|]. intros [Hc Ha]%avoids_cons.
  change (String c a +:+ "]]" +:+ rest) with (String c (a +:+ "]]" +:+ rest)).
  cbn [split_str strip_prefix]. rewrite bool_decide_eq_false_2 by set_solver. by rewrite IH.
Qed.
Lemma split_close_org t d rest : avoids brackets t = true -> avoids brackets d = true ->
  split_str "]]" ((t +:+ "][" +:+ d) +:+ "]]" +:+ rest) = Some (t +:+ "][" +:+ d, rest).
Proof.
  intros Ht Hd. induction t as [|c t IH].
  - change (("" +:+ "][" +:+ d) +:+ "]]" +:+ rest) with ("][" +:+ (d +:+ "]]" +:+ rest)).
    change ("][" +:+ (d +:+ "]]" +:+ rest)) with (String "]" (String "[" (d +:+ "]]" +:+ rest))).
    cbn [split_str strip_prefix]. rewrite (bool_decide_eq_true_2 ("]"%char = "]"%char)) by done.
    rewrite (bool_decide_eq_false_2 ("]"%char = "["%char)) by done. by rewrite split_close.
  - apply avoids_cons in Ht as [Hc Ht].
    change ((String c t +:+ "][" +:+ d) +:+ "]]" +:+ rest) with (String c ((t +:+ "][" +:+ d) +:+ "]]" +:+ rest)).
    cbn [split_str strip_prefix]. rewrite bool_decide_eq_false_2 by set_solver. by rewrite IH.
Qed.
Lemma split_str_avoids c p s : avoids [c] s = true -> split_str (String c p) s = None.
Proof.
  induction s as [|b s IH]; [done|]. intros [Hb Hs]%avoids_cons. cbn [split_str strip_prefix].
  rewrite bool_decide_eq_false_2 by set_solver. by rewrite IH.
Qed.
Lemma split_bracket t d : avoids brackets t = true -> split_str "][" (t +:+ "][" +:+ d) = Some (t, d).
Proof.
  induction t as [|c t IH]; [done|]. intros [Hc Ht]%avoids_cons.
  change (String c t +:+ "][" +:+ d) with (String c (t +:+ "][" +:+ d)). cbn [split_str strip_prefix].
  rewrite bool_decide_eq_false_2 by set_solver. by rewrite IH.
Qed.
Lemma no_open_org t d : avoids ["["%char] t = true -> avoids ["["%char] d = true ->
  split_str "[[" (t +:+ "][" +:+ d) = None.
Proof.
  intros Ht Hd. induction t as [|c t IH].
  - change ("" +:+ "][" +:+ d) with (String "]" (String "[" d)).
    destruct d as [|b d]; [done|]. cbn [split_str strip_prefix]. apply avoids_cons in Hd as [Hb Hd].
    rewrite (bool_decide_eq_false_2 ("["%char = "]"%char)), (bool_decide_eq_false_2 ("["%char = b)) by set_solver.
    rewrite (bool_decide_eq_true_2 ("["%char = "["%char)) by done. by rewrite split_str_avoids.
  - apply avoids_cons in Ht as [Hc Ht]. change (String c t +:+ "][" +:+ d) with (String c (t +:+ "][" +:+ d)).
    cbn [split_str strip_prefix]. rewrite bool_decide_eq_false_2 by set_solver. by rewrite IH.
Qed.
Lemma inner_of_closed p : piece_ok p = true -> (forall t, p <> Text t) -> inner_closed (inner_of p).
Proof.
  assert (Hno : forall t r, avoids brackets t = true -> t <> String "[" r).
  { intros t r Ht ->. apply avoids_cons in Ht as [Ht _]. set_solver. }
  assert (Hclean : forall t, avoids brackets t = true -> inner_closed t).
  { intros t Ht. split; [by intros r; apply Hno|]. split; [|by intros; apply split_close].
    unfold contains_str. rewrite split_str_avoids; [done|]. eapply avoids_weaken, Ht. set_solver. }
  intros Hp Ht. destruct p as [t|t|t d|t d]; [by destruct (Ht t)| | |]; cbn in Hp |- *.
  - apply Hclean. eapply avoids_weaken, Hp. set_solver.
  - apply andb_true_iff in Hp as [Hp Hd]. assert (Hb : avoids brackets t = true) by (eapply avoids_weaken, Hp; set_solver).
    split; [|split].
    + intros r. destruct t as [|c t]; [done|]. intros [= -> _]. by apply (Hno _ t Hb).
    + unfold contains_str. rewrite no_open_org; [done| |]; eapply avoids_weaken; try eassumption; set_solver.
    + intros rest. by apply split_close_org.
  - apply andb_true_iff in Hp as [Hp Hd]. apply Hclean. rewrite avoids_app. apply andb_true_iff. split.
    + eapply avoids_weaken, Hp. set_solver.
    + apply avoids_cons. split; [set_solver|done].
Qed.

Lemma link_at_closed ranges i prev inner rest : in_code ranges i = false -> verbatim_mark prev = false ->
  inner_closed inner -> link_at ranges i prev ("[[" +:+ inner +:+ "]]" +:+ rest) = Some (inner, String.length inner + 4).
Proof.
  intros Hr Hv (Hh & Ho & Hc). unfold link_at.
  change ("[[" +:+ inner +:+ "]]" +:+ rest) with (String "[" (String "[" (inner +:+ "]]" +:+ rest))).
  cbv beta iota zeta. rewrite Hr, Hv. cbn [orb].
  assert (E : match inner +:+ "]]" +:+ rest with String "[" r' => (1, r') | _ => (0, inner +:+ "]]" +:+ rest) end =
              (0, inner +:+ "]]" +:+ rest)).
  { destruct inner as [|c inner']; [done|]. change (String c inner' +:+ "]]" +:+ rest) with (String c (inner' +:+ "]]" +:+ rest)).
    specialize (Hh inner'). destruct c as [[] [] [] [] [] [] [] []]; done. }
  rewrite E, Hc, Ho. do 2 f_equal. lia.
Qed.
Lemma link_at_other ranges i prev c s : c <> "["%char -> link_at ranges i prev (String c s) = None.
Proof. intros Hc. destruct c as [[] [] [] [] [] [] [] []]; done. Qed.
(** An opening bracket with no second one is no link. *)
Lemma link_at_len ranges i prev s inner len : link_at ranges i prev s = Some (inner, len) ->
  4 <= len /\ exists a r, s = a +:+ r /\ String.length a = len.
Proof.
  unfold link_at. destruct s as [|c1 s]; [done|]. destruct (decide (c1 = "["%char)) as [->|Hc1];
    [|by destruct c1 as [[] [] [] [] [] [] [] []]].
  destruct s as [|c2 s]; [done|]. destruct (decide (c2 = "["%char)) as [->|Hc2];
    [|by destruct c2 as [[] [] [] [] [] [] [] []]].
  cbv beta iota zeta. destruct (in_code _ _ || _); [done|].
  assert (Hstray : exists st r', match s with String "[" r' => (1, r') | _ => (0, s) end = (String.length st, r') /\ s = st +:+ r').
  { destruct s as [|c3 s]; [by exists "", ""|]. destruct (decide (c3 = "["%char)) as [->|Hc3]; [by exists "[", s|].
    exists "", (String c3 s). by destruct c3 as [[] [] [] [] [] [] [] []]. }
  destruct Hstray as (st & r' & -> & ->). destruct (split_str "]]" r') as [[inn rest]|] eqn:E; [|done].
  apply split_str_sound in E as ->. destruct (contains_str "[[" inn); [done|]. intros [= -> <-].
  split; [lia|]. exists ("[[" +:+ st +:+ inner +:+ "]]"), rest. split; [by rewrite <- !string_app_assoc|].
  rewrite !string_length_app. cbn. lia.
Qed.

Section Scan.
Context {F : Type} `{F64 F}.

Lemma scan_skip ranges a rest : forall i prev,
  scan_links (F := F) ranges (String.length a) i prev (a +:+ rest) =
  scan_links ranges 0 (i + String.length a) (last_byte prev a) rest.
Proof.
  induction a as [|c a IH]; intros i prev; cbn [String.length last_byte].
  - change ("" +:+ rest) with rest. by rewrite Nat.add_0_r.
  - change (String c a +:+ rest) with (String c (a +:+ rest)). cbn [scan_links]. rewrite IH. f_equal. lia.
Qed.
Lemma scan_text ranges a rest : avoids ["["%char] a = true -> forall i prev,
  scan_links (F := F) ranges 0 i prev (a +:+ rest) = scan_links ranges 0 (i + String.length a) (last_byte prev a) rest.
Proof.
  induction a as [|c a IH]; intros Ha i prev; cbn [String.length last_byte].
  - change ("" +:+ rest) with rest. by rewrite Nat.add_0_r.
  - apply avoids_cons in Ha as [Hc Ha]. change (String c a +:+ rest) with (String c (a +:+ rest)).
    cbn [scan_links]. rewrite link_at_other by set_solver. rewrite IH by done. f_equal. lia.
Qed.
Lemma scan_link inner rest i prev : verbatim_mark prev = false -> inner_closed inner ->
  scan_links (F := F) [] 0 i prev ("[[" +:+ inner +:+ "]]" +:+ rest) =
  option_list (link_of inner) ++ scan_links [] 0 (i + (String.length inner + 4)) (Some "]"%char) rest.
Proof.
  intros Hv Hc. pose proof (link_at_closed [] i prev inner rest eq_refl Hv Hc) as E.
  replace ("[[" +:+ inner +:+ "]]" +:+ rest) with (String "[" (("[" +:+ inner +:+ "]]") +:+ rest)) in E |- *
    by (by rewrite !string_app_assoc).
  cbn [scan_links]. rewrite E. f_equal.
  replace (String.length inner + 4 - 1) with (String.length ("[" +:+ inner +:+ "]]"))
    by (rewrite !string_length_app; cbn; lia).
  rewrite scan_skip. f_equal; [rewrite !string_length_app; cbn; lia|]. by rewrite !last_byte_app.
Qed.
End Scan.

(** ** The rewriting as one pass *)

Fixpoint rewrite_scan (ranges : list (nat * nat)) (skip i : nat) (prev : option Ascii.ascii) (s : string) : string :=
  match s with
  | "" => ""
  | String c s' =>
      match skip with
      | S k => rewrite_scan ranges k (S i) (Some c) s'
      | 0 => match link_at ranges i prev s with
             | Some (inner, len) => rewrite_inner inner +:+ rewrite_scan ranges (len - 1) (S i) (Some c) s'
             | None => String c (rewrite_scan ranges 0 (S i) (Some c) s')
             end
      end
  end.

Lemma rewrite_skip ranges a rest : forall i prev,
  rewrite_scan ranges (String.length a) i prev (a +:+ rest) =
  rewrite_scan ranges 0 (i + String.length a) (last_byte prev a) rest.
Proof.
  induction a as [|c a IH]; intros i prev; cbn [String.length last_byte].
  - change ("" +:+ rest) with rest. by rewrite Nat.add_0_r.
  - change (String c a +:+ rest) with (String c (a +:+ rest)). cbn [rewrite_scan]. rewrite IH. f_equal. lia.
Qed.

Definition splits_at (ranges : list (nat * nat)) (i : nat) (prev : option Ascii.ascii) (s : string) (m : LinkSpanMatch) : Prop :=
  exists lit link rest, s = lit +:+ link +:+ rest /\ full_start m = i + String.length lit /\
    full_end m = full_start m + String.length link /\ 4 <= String.length link /\
    rewrite_scan ranges 0 i prev s =
    lit +:+ rewrite_inner (span_inner m) +:+ rewrite_scan ranges 0 (full_end m) (last_byte prev (lit +:+ link)) rest.
Lemma span_scan ranges s : forall i prev,
  match span_from ranges i prev s with
  | None => rewrite_scan ranges 0 i prev s = s
  | Some m => splits_at ranges i prev s m
  end.
Proof.
  induction s as [|c s IH]; intros i prev; [done|]. cbn [span_from rewrite_scan].
  destruct (link_at ranges i prev (String c s)) as [[inner len]|] eqn:E.
  - destruct (link_at_len _ _ _ _ _ _ E) as [Hlen (a & r & Hs & Ha)]. exists "", a, r. cbn [full_start full_end span_inner String.length].
    split_and!; [done|lia|lia|lia|]. change ("" +:+ ?x) with x. destruct a as [|b a]; [cbn in Ha; lia|].
    assert (b = c /\ s = a +:+ r) as [-> ->] by (by injection Hs).
    cbn [String.length] in Ha.
    cbn [rewrite_scan]. rewrite E. replace (len - 1) with (String.length a) by lia. rewrite rewrite_skip. do 2 f_equal. lia.
  - specialize (IH (S i) (Some c)). destruct (span_from ranges (S i) (Some c) s) as [m|]; [|by rewrite IH].
    destruct IH as (lit & link & rest & -> & H1 & H2 & H3 & H4). exists (String c lit), link, rest.
    split_and!; [done|cbn; lia|done|done|]. cbn [rewrite_scan]. by rewrite E, H4.
Qed.

Lemma drop_app a s : drop_str (String.length a) (a +:+ s) = s.
Proof. induction a as [|c a IH]; [done|]. exact IH. Qed.
Lemma take_app a s : take_str (String.length a) (a +:+ s) = a.
Proof. induction a as [|c a IH]; [by destruct s|]. exact (f_equal (String c) IH). Qed.
Lemma get_last c a s : String.get (String.length a) (a +:+ String c s) = Some c.
Proof. induction a as [|b a IH]; [done|]. exact IH. Qed.
Lemma byte_before_app a : forall s, byte_before (a +:+ s) (String.length a) = last_byte None a.
Proof.
  assert (Hsnoc : a = "" \/ exists a' c, a = a' +:+ String c "").
  { induction a as [|c a [->|(a' & b & ->)]]; [by left|by right; exists "", c|]. right. by exists (String c a'), b. }
  destruct Hsnoc as [->|(a' & c & ->)]; intros s; [done|].
  rewrite string_length_app, last_byte_app, string_app_assoc. cbn [String.length last_byte byte_before].
  rewrite Nat.add_1_r. cbn [byte_before]. apply get_last.
Qed.

(** The cursor loop has enough fuel: it is the one-pass rewriting. *)
Lemma rewrite_from_scan fuel ranges s : forall a, String.length s < fuel ->
  rewrite_from fuel (a +:+ s) ranges (String.length a) = rewrite_scan ranges 0 (String.length a) (last_byte None a) s.
Proof.
  revert s. induction fuel as [|fuel IH]; intros s a Hf; [lia|]. cbn [rewrite_from]. unfold next_link_span.
  rewrite byte_before_app, drop_app. pose proof (span_scan ranges s (String.length a) (last_byte None a)) as Hs.
  destruct (span_from _ _ _ s) as [m|]; [|by rewrite Hs].
  destruct Hs as (lit & link & rest & -> & H1 & H2 & H3 & ->). rewrite !string_length_app in Hf.
  replace (full_start m - String.length a) with (String.length lit) by lia. rewrite take_app. f_equal. f_equal.
  replace (a +:+ lit +:+ link +:+ rest) with ((a +:+ lit +:+ link) +:+ rest) by (by rewrite !string_app_assoc).
  replace (full_end m) with (String.length (a +:+ lit +:+ link)) by (rewrite !string_length_app; lia).
  rewrite IH by lia. by rewrite !last_byte_app.
Qed.
Lemma rewrite_links_scan body : rewrite_links body = rewrite_scan (compute_code_block_ranges body) 0 0 None body.
Proof. apply (rewrite_from_scan (S (String.length body)) _ body ""). lia. Qed.

Lemma rewrite_text ranges a rest : avoids ["["%char] a = true -> forall i prev,
  rewrite_scan ranges 0 i prev (a +:+ rest) = a +:+ rewrite_scan ranges 0 (i + String.length a) (last_byte prev a) rest.
Proof.
  induction a as [|c a IH]; intros Ha i prev; cbn [String.length last_byte].
  - change ("" +:+ ?x) with x. by rewrite Nat.add_0_r.
  - apply avoids_cons in Ha as [Hc Ha]. change (String c a +:+ rest) with (String c (a +:+ rest)).
    cbn [rewrite_scan]. rewrite link_at_other by set_solver. rewrite IH by done.
    change (String c a +:+ ?x) with (String c (a +:+ x)). do 2 f_equal. f_equal. lia.
Qed.
Lemma rewrite_link inner rest i prev : verbatim_mark prev = false -> inner_closed inner ->
  rewrite_scan [] 0 i prev ("[[" +:+ inner +:+ "]]" +:+ rest) =
  rewrite_inner inner +:+ rewrite_scan [] 0 (i + (String.length inner + 4)) (Some "]"%char) rest.
Proof.
  intros Hv Hc. pose proof (link_at_closed [] i prev inner rest eq_refl Hv Hc) as E.
  replace ("[[" +:+ inner +:+ "]]" +:+ rest) with (String "[" (("[" +:+ inner +:+ "]]") +:+ rest)) in E |- *
    by (by rewrite !string_app_assoc).
  cbn [rewrite_scan]. rewrite E. f_equal.
  replace (String.length inner + 4 - 1) with (String.length ("[" +:+ inner +:+ "]]"))
    by (rewrite !string_length_app; cbn; lia).
  rewrite rewrite_skip. f_equal; [rewrite !string_length_app; cbn; lia|]. by rewrite !last_byte_app.
Qed.

(** ** What the scanners read off a document *)

Section Documents.
Context {F : Type} `{F64 F}.

(** The link of a target as written, with its display text. *)
Definition named_link (t : string) (disp : option string) : option (ParsedLink F) :=
  let target_str := trim (default t (strip_prefix "id:" t)) in
  if is_empty target_str then None else Some (classify_link target_str disp).
Definition piece_link (p : Piece) : option (ParsedLink F) :=
  match p with
  | Text _ => None
  | Link t => named_link t None
  | LinkOrg t d | LinkBar t d => named_link t (Some d)
  end.

Lemma link_of_piece p : piece_ok p = true -> (forall t, p <> Text t) -> link_of (inner_of p) = piece_link p.
Proof.
  assert (Hb : forall t, avoids ("|"%char :: brackets) t = true -> split_str "][" t = None /\ avoids brackets t = true /\
    avoids ["|"%char] t = true).
  { intros t Ht. split_and!; [apply split_str_avoids|..]; eapply avoids_weaken; try exact Ht; set_solver. }
  intros Hp Ht. unfold link_of, split_inner. destruct p as [t|t|t d|t d]; [by destruct (Ht t)| | |]; cbn in Hp |- *.
  - destruct (Hb t Hp) as (-> & _ & Hbar). by rewrite split_once_avoids.
  - apply andb_true_iff in Hp as [Hp _]. destruct (Hb t Hp) as (_ & Hbr & _). by rewrite split_bracket.
  - apply andb_true_iff in Hp as [Hp Hd]. destruct (Hb t Hp) as (_ & Hbr & Hbar).
    change (t +:+ String "|" d) with (t +:+ "|" +:+ d). rewrite split_str_avoids.
    + change (t +:+ "|" +:+ d) with (t +:+ String "|" d). rewrite split_once_app; [done|]. by apply avoids_contains.
    + rewrite avoids_app. apply andb_true_iff. split; [eapply avoids_weaken, Hbr; set_solver|].
      apply avoids_cons. split; [set_solver|]. eapply avoids_weaken, Hd. set_solver.
Qed.
Lemma text_mark t prev : verbatim_mark prev = false -> verbatim_mark (last_byte None t) = false ->
  verbatim_mark (last_byte prev t) = false.
Proof. by destruct t. Qed.

Lemma piece_cases p : (exists t, p = Text t) \/ (forall t, p <> Text t) /\ print_piece p = "[[" +:+ inner_of p +:+ "]]".
Proof. destruct p; naive_solver. Qed.

Lemma scan_pieces l : forall i prev, forallb piece_ok l = true -> verbatim_mark prev = false ->
  scan_links [] 0 i prev (print_pieces l) = omap piece_link l.
Proof.
  induction l as [|p l IH]; intros i prev Hl Hv; [done|]. cbn [forallb] in Hl. apply andb_true_iff in Hl as [Hp Hl].
  cbn [print_pieces]. destruct (piece_cases p) as [[t ->]|[Hne ->]].
  { cbn in Hp |- *. apply andb_true_iff in Hp as [Ht Hm]. apply negb_true_iff in Hm.
    rewrite scan_text by done. apply IH; [done|]. by apply text_mark. }
  rewrite !string_app_assoc, scan_link by (done || by apply inner_of_closed).
  rewrite IH by done. rewrite link_of_piece by done. cbn. by destruct (piece_link p).
Qed.

(** Rewriting one piece: a link to a KB node stays a link, any other becomes
    text. *)
Definition kept_as (t : string) (disp : option string) : Piece :=
  match disp with Some d => LinkBar t d | None => Link t end.
Definition cut_query (t : string) : string := match split_once "?" t with Some (p, _) => p | None => t end.
Definition rewrite_as (t : string) (disp : option string) : Piece :=
  match strip_prefix "id:" (cut_query t) with
  | Some uuid => kept_as (trim uuid) disp
  | None =>
      if is_kb_node_id (cut_query t) then kept_as (cut_query t) disp
      else Text (match disp with Some d => d +:+ " (" +:+ t +:+ ")" | None => "(" +:+ t +:+ ")" end)
  end.
Definition rewrite_piece (p : Piece) : Piece :=
  match p with
  | Link t => rewrite_as t None
  | LinkOrg t d => rewrite_as t (Some d)
  | _ => p
  end.
(** The pieces of an org source. *)
Definition org_piece (p : Piece) : bool := piece_ok p && match p with LinkBar _ _ => false | _ => true end.

Lemma avoids_cut l t : avoids l t = true -> avoids l (cut_query t) = true.
Proof.
  unfold cut_query. destruct (split_once "?" t) as [[a b]|] eqn:E; [|done].
  apply split_once_sound in E as [-> _]. rewrite avoids_app. by intros [? _]%andb_true_iff.
Qed.
Lemma rewrite_as_ok t disp : avoids ("|"%char :: brackets) t = true ->
  (forall d, disp = Some d -> avoids brackets d = true) -> piece_ok (rewrite_as t disp) = true.
Proof.
  intros Ht Hd. pose proof (avoids_cut _ _ Ht) as Hc. unfold rewrite_as.
  destruct (strip_prefix "id:" (cut_query t)) as [u|] eqn:Hu.
  { pose proof (avoids_trim _ _ (avoids_strip _ _ _ _ Hu Hc)) as Hu'.
    destruct disp as [d|]; cbn; rewrite Hu'; [apply (Hd d); done|done]. }
  destruct (is_kb_node_id _).
  { destruct disp as [d|]; cbn; rewrite Hc; [apply (Hd d); done|done]. }
  assert (Ht1 : avoids ["["%char] t = true) by (eapply avoids_weaken, Ht; set_solver).
  destruct disp as [d|]; cbn [piece_ok]; rewrite !avoids_app, ?last_byte_app, Ht1.
  - assert (avoids ["["%char] d = true) as -> by (eapply avoids_weaken, (Hd d eq_refl); set_solver). done.
  - done.
Qed.
Lemma rewrite_piece_ok p : org_piece p = true -> piece_ok (rewrite_piece p) = true.
Proof.
  intros [Hp Hb]%andb_true_iff. destruct p as [t|t|t d|t d]; cbn [piece_ok rewrite_piece] in *; [done| | |done].
  - by apply rewrite_as_ok.
  - apply andb_true_iff in Hp as [Ht Hd]. apply rewrite_as_ok; [done|]. by intros ? [= <-].
Qed.
Lemma print_rewrite_as t disp : print_piece (rewrite_as t disp) = rewrite_target t disp.
Proof.
  unfold rewrite_as, rewrite_target. fold (cut_query t).
  destruct (strip_prefix "id:" (cut_query t)); [|destruct (is_kb_node_id _)]; destruct disp; try done;
    cbn [kept_as print_piece inner_of bar_display]; rewrite ?string_app_assoc; by rewrite ?string_app_nil_r.
Qed.
Lemma rewrite_inner_piece p : org_piece p = true -> (forall t, p <> Text t) ->
  rewrite_inner (inner_of p) = print_piece (rewrite_piece p).
Proof.
  intros [Hp Hb]%andb_true_iff Ht. unfold rewrite_inner.
  destruct p as [t|t|t d|t d]; [by destruct (Ht t)| | |done]; cbn [piece_ok inner_of rewrite_piece] in *.
  - rewrite split_str_avoids by (eapply avoids_weaken, Hp; set_solver). by rewrite print_rewrite_as.
  - apply andb_true_iff in Hp as [Hp _]. rewrite split_bracket by (eapply avoids_weaken, Hp; set_solver).
    by rewrite print_rewrite_as.
Qed.
Lemma rewrite_pieces l : forall i prev, forallb org_piece l = true -> verbatim_mark prev = false ->
  rewrite_scan [] 0 i prev (print_pieces l) = print_pieces (map rewrite_piece l).
Proof.
  induction l as [|p l IH]; intros i prev Hl Hv; [done|]. cbn [forallb] in Hl. apply andb_true_iff in Hl as [Hp Hl].
  pose proof Hp as [Hok _]%andb_true_iff. cbn [print_pieces map].
  destruct (piece_cases p) as [[t ->]|[Hne ->]].
  { cbn in Hok |- *. apply andb_true_iff in Hok as [Ht Hm]. apply negb_true_iff in Hm.
    rewrite rewrite_text by done. f_equal. apply IH; [done|]. by apply text_mark. }
  rewrite !string_app_assoc, rewrite_link by (done || by apply inner_of_closed).
  rewrite IH by done. by rewrite rewrite_inner_piece.
Qed.
Lemma rewritten_pieces_ok l : forallb org_piece l = true -> forallb piece_ok (map rewrite_piece l) = true.
Proof. rewrite !forallb_forall. intros Hl p (q & <- & Hq)%in_map_iff. by apply rewrite_piece_ok, Hl. Qed.

(** ** What a link carries *)

Lemma scanned_links_named ranges s : forall skip i prev x, x ∈ scan_links (F := F) ranges skip i prev s ->
  exists t disp, x = classify_link t disp.
Proof.
  induction s as [|c s IH]; intros skip i prev x; cbn [scan_links]; [by intros ?%elem_of_nil|].
  destruct skip as [|k]; [|apply IH]. destruct (link_at _ _ _ _) as [[inner len]|]; [|apply IH].
  rewrite elem_of_app. intros [Hx|Hx]; [|by eapply IH]. unfold link_of in Hx.
  destruct (split_inner inner) as [raw disp]. destruct (is_empty _); [by apply elem_of_nil in Hx|].
  apply list_elem_of_singleton in Hx as ->. eauto.
Qed.
Lemma split_target_plain t : let '(node_id, _, _) := split_link_target t in avoids ["?"; "#"]%char node_id = true.
Proof.
  unfold split_link_target.
  assert (Hpath : let '(path, _) := match split_once "?" t with Some (p, q) => (p, Some q) | None => (t, None) end in
                  avoids ["?"%char] path = true).
  { destruct (split_once "?" t) as [[p q]|] eqn:E; [by apply split_once_sound in E as [_ ?]|by apply split_once_none]. }
  assert (Hboth : forall s, avoids ["?"%char] s = true -> avoids ["#"%char] s = true -> avoids ["?"; "#"]%char s = true).
  { induction s as [|c s IH]; [done|]. rewrite !avoids_cons. set_solver. }
  destruct (split_once "?" t) as [[path q]|]; [|destruct (split_once "#" t) as [[p f]|] eqn:E].
  - destruct (split_once "#" path) as [[p f]|] eqn:E; [|by apply Hboth, split_once_none].
    apply split_once_sound in E as [-> Hp]. apply Hboth; [|done]. rewrite avoids_app in Hpath. by apply andb_true_iff in Hpath as [? _].
  - apply split_once_sound in E as [-> Hp]. apply Hboth; [|done]. rewrite avoids_app in Hpath. by apply andb_true_iff in Hpath as [? _].
  - by apply Hboth, split_once_none.
Qed.
Lemma classify_no_query t disp : avoids ["?"%char] t = true -> let x := classify_link t disp in
  rel_type x = "references" /\ weight x = f64_one /\ confidence x = f64_one /\ attrs x = [].
Proof.
  intros Ht. unfold classify_link, split_link_target. rewrite split_once_avoids by done.
  by destruct (split_once "#" t) as [[p f]|].
Qed.

Section Unit.
Context `{!F64Laws F}.
Lemma parse_unit_in_unit v slot : f64_unit slot -> f64_unit (parse_unit v slot).
Proof. intros Hs. unfold parse_unit. destruct (f64_parse v) as [f|]; [|done]. destruct (f64_is_finite f) eqn:E; [by apply f64_clamp_in_unit|done]. Qed.
Definition query_in_unit (q : Query (F := F)) : Prop :=
  let '(rel, w, c, l) := q in rel <> Some "" /\ f64_unit w /\ f64_unit c.
Lemma query_pair_ok q pair : query_in_unit q -> query_in_unit (query_pair q pair).
Proof.
  destruct q as [[[rel w] c] l]. intros (Hr & Hw & Hc). unfold query_pair. destruct (is_empty pair); [done|].
  destruct (match split_once "=" pair with Some _ => _ | None => _ end) as [key value].
  repeat case_match; split_and!; try done; try (by apply parse_unit_in_unit).
  intros [= ->]. by match goal with H : is_empty "" = false |- _ => cbv in H end.
Qed.
Lemma parse_link_query_ok q : query_in_unit (parse_link_query q).
Proof. unfold parse_link_query. apply (foldl_inv query_in_unit); [split_and!; [done|apply f64_one_unit..]|]. intros; by apply query_pair_ok. Qed.
Lemma classify_link_ok t disp : let x := classify_link t disp in
  avoids ["?"; "#"]%char (target x) = true /\ rel_type x <> "" /\ f64_unit (weight x) /\ f64_unit (confidence x).
Proof.
  unfold classify_link. pose proof (split_target_plain t) as Hp. destruct (split_link_target t) as [[node_id frag] query].
  assert (Hq : query_in_unit (match query with Some q => parse_link_query q | None => (None, f64_one, f64_one, []) end)).
  { destruct query; [apply parse_link_query_ok|]. split_and!; [done|apply f64_one_unit..]. }
  destruct (match query with Some _ => _ | None => _ end) as [[[rel w] c] l]. destruct Hq as (Hr & Hw & Hc).
  cbn. split_and!; try done. destruct rel; cbn; congruence.
Qed.

(** Every link read off any text names a bare node id, without query or
    fragment, has a relation type, and its weight and confidence lie between 0
    and 1 whatever numbers its query holds: the ADR-030 grammar cannot yield an
    out-of-range or malformed edge. *)
Theorem typed_links_are_well_formed body x : x ∈ parse_typed_links (F := F) body ->
  avoids ["?"; "#"]%char (target x) = true /\ rel_type x <> "" /\ f64_unit (weight x) /\ f64_unit (confidence x).
Proof. intros (t & disp & ->)%scanned_links_named. apply classify_link_ok. Qed.
End Unit.

(** Scanning inverts printing: on a document of text and links, written in
    the bracket form of org or in the bar form, the scanner returns exactly the
    document's links, in order, with the relation, weight, fragment and display
    text their targets spell. *)
Theorem parse_of_printed l : forallb piece_ok l = true -> compute_code_block_ranges (print_pieces l) = [] ->
  parse_typed_links (print_pieces l) = omap piece_link l.
Proof. intros Hl Hr. unfold parse_typed_links. rewrite Hr. by apply scan_pieces. Qed.


Lemma rewritten_link_plain p x : org_piece p = true -> piece_link (rewrite_piece p) = Some x ->
  exists t disp, x = classify_link t disp /\ avoids ["?"%char] t = true.
Proof.
  assert (Hcut : forall t, avoids ["?"%char] (cut_query t) = true).
  { intros t. unfold cut_query. destruct (split_once "?" t) as [[a b]|] eqn:E;
      [by apply split_once_sound in E as [_ ?]|by apply split_once_none]. }
  assert (Hnamed : forall t disp, avoids ["?"%char] t = true -> named_link t disp = Some x ->
    exists t disp, x = classify_link t disp /\ avoids ["?"%char] t = true).
  { intros t disp Ht. assert (Hu : avoids ["?"%char] (default t (strip_prefix "id:" t)) = true).
    { destruct (strip_prefix "id:" t) eqn:E; [exact (avoids_strip _ _ _ _ E Ht)|done]. }
    unfold named_link. apply avoids_trim in Hu. revert Hu. generalize (trim (default t (strip_prefix "id:" t))) as u.
    intros u Hu. destruct (is_empty u); [done|]. intros [= <-]. eauto. }
  assert (Has : forall t disp, piece_link (rewrite_as t disp) = Some x ->
    exists t disp, x = classify_link t disp /\ avoids ["?"%char] t = true).
  { intros t disp. unfold rewrite_as. destruct (strip_prefix "id:" (cut_query t)) as [u|] eqn:E;
      [|destruct (is_kb_node_id _); [|done]]; destruct disp; cbn; apply Hnamed; try apply Hcut;
      exact (avoids_trim _ _ (avoids_strip _ _ _ _ E (Hcut t))). }
  intros [_ Hb]%andb_true_iff. destruct p; cbn [rewrite_piece]; try done; apply Has.
Qed.

(** The stored body of an ingested node has lost every authored relation:
    whatever types, weights, confidences and attributes the org source gave its
    links, the links read off the rewritten body are all plain references of
    weight and confidence one. *)
Theorem ingest_forgets_relations l x : forallb org_piece l = true ->
  compute_code_block_ranges (print_pieces l) = [] ->
  compute_code_block_ranges (rewrite_links (print_pieces l)) = [] ->
  x ∈ parse_typed_links (F := F) (rewrite_links (print_pieces l)) ->
  rel_type x = "references" /\ weight x = f64_one /\ confidence x = f64_one /\ attrs x = [].
Proof.
  intros Hl Hr Hr'. unfold parse_typed_links.
  rewrite Hr', rewrite_links_scan, Hr, rewrite_pieces, scan_pieces by (done || by apply rewritten_pieces_ok).
  intros (q & (p & -> & Hp)%list_elem_of_fmap & Hx)%list_elem_of_omap.
  rewrite forallb_forall in Hl. apply list_elem_of_In in Hp.
  destruct (rewritten_link_plain p x (Hl p Hp) Hx) as (t & disp & -> & Ht). by apply classify_no_query.
Qed.
End Documents.

(** ** Verbatim blocks *)

Lemma lower_length s : String.length (to_ascii_lowercase s) = String.length s.
Proof. induction s as [|c s IH]; [done|]. exact (f_equal S IH). Qed.
Lemma drop_length n : forall s, String.length (drop_str n s) = String.length s - n.
Proof. induction n as [|n IH]; intros [|c s]; try done. exact (IH s). Qed.
Lemma find_str_spec p s k : find_str p s = Some k -> starts_with p (drop_str k s) = true /\ k + String.length p <= String.length s.
Proof.
  unfold find_str. destruct (split_str p s) as [[a b]|] eqn:E; [|done]. intros [= <-].
  apply split_str_sound in E as ->. cbn. rewrite drop_app. unfold starts_with. rewrite strip_prefix_app.
  split; [by rewrite bool_decide_eq_true_2|]. rewrite !string_length_app. lia.
Qed.
Lemma find_str_first p s : forall k, starts_with p (drop_str k s) = true -> k <= String.length s ->
  exists k', find_str p s = Some k' /\ k' <= k.
Proof.
  unfold find_str, starts_with. induction s as [|c s IH]; intros k Hk Hle; cbn [String.length] in Hle.
  - assert (k = 0) as -> by lia. apply bool_decide_eq_true in Hk as [r Hr]. cbn in Hr |- *. rewrite Hr. by exists 0.
  - cbn [split_str]. destruct (strip_prefix p (String c s)) as [r|] eqn:E; [exists 0; split; [done|lia]|].
    destruct k as [|k]; [apply bool_decide_eq_true in Hk as [r Hr]; cbn in Hr; congruence|].
    destruct (IH k Hk ltac:(lia)) as (k' & Hf & Hk'). destruct (split_str p s) as [[a b]|]; [|done].
    injection Hf as <-. eexists. split; [done|]. cbn in *. lia.
Qed.
Lemma drop_drop a : forall b s, drop_str a (drop_str b s) = drop_str (b + a) s.
Proof. intros b. induction b as [|b IH]; intros [|c s]; try done; [by destruct a|]. exact (IH s). Qed.
Lemma past_line_bounds body p : p <= String.length body -> p <= past_line body p <= String.length body.
Proof.
  intros Hp. unfold past_line. destruct (find_str _ _) as [nl|] eqn:E; [|lia].
  apply find_str_spec in E as [_ E]. rewrite drop_length in E. cbn in E. lia.
Qed.

Section Blocks.
Variables (body low b e : string).
Hypotheses (Hlow : String.length low = String.length body) (Hb : 0 < String.length b) (He : 0 < String.length e).

(** One closed or unclosed block found from [from]. *)
Definition block_ok (from : nat) (r : nat * nat) : Prop :=
  from <= r.1 /\ r.1 < r.2 /\ r.2 <= String.length body /\ starts_with b (drop_str r.1 low) = true.
Lemma block_step from start : from <= String.length body -> find_str b (drop_str from low) = Some start ->
  match find_str e (drop_str (from + start) low) with
  | Some k => let p := past_line body (from + start + k + String.length e) in block_ok from (from + start, p) /\ from < p
  | None => block_ok from (from + start, String.length body)
  end.
Proof.
  intros Hfrom [Hs Hl]%find_str_spec. rewrite drop_drop in Hs. rewrite drop_length in Hl.
  destruct (find_str e _) as [k|] eqn:E; [|split_and!; cbn; lia || done].
  apply find_str_spec in E as [_ E]. rewrite drop_length in E.
  pose proof (past_line_bounds body (from + start + k + String.length e) ltac:(lia)).
  cbn zeta. split; [split_and!; cbn; try done; lia|lia].
Qed.
Lemma block_ranges_ok fuel : forall from r, from <= String.length body -> r ∈ block_ranges fuel body low b e from -> block_ok from r.
Proof.
  induction fuel as [|fuel IH]; intros from r Hfrom; cbn [block_ranges]; [by intros ?%elem_of_nil|].
  destruct (find_str b _) as [start|] eqn:E; [|by intros ?%elem_of_nil]. pose proof (block_step from start Hfrom E) as Hstep.
  destruct (find_str e _) as [k|]; [destruct Hstep as [Hok Hlt]|].
  - intros [->|Hr]%elem_of_cons; [done|]. cbn zeta in Hlt, Hok.
    destruct Hok as (_ & _ & Hend & _). cbn [snd] in Hend.
    destruct (IH _ r Hend Hr) as (? & ? & ? & ?). split_and!; try done; lia.
  - by intros ->%list_elem_of_singleton.
Qed.
(** Every opening tag from [from] on is covered: the fuel is enough. *)
Lemma block_ranges_cover fuel : forall from p, from <= p -> p < String.length body -> String.length body - from < fuel ->
  starts_with b (drop_str p low) = true -> exists r, r ∈ block_ranges fuel body low b e from /\ r.1 <= p < r.2.
Proof.
  induction fuel as [|fuel IH]; intros from p Hfrom Hp Hfuel Ht; [lia|]. cbn [block_ranges].
  destruct (find_str_first b (drop_str from low) (p - from)) as (start & E & Hstart).
  { rewrite drop_drop. by replace (from + (p - from)) with p by lia. }
  { rewrite drop_length. lia. }
  rewrite E. pose proof (block_step from start ltac:(lia) E) as Hstep.
  destruct (find_str e _) as [k|]; cbn zeta in *.
  - destruct Hstep as [Hok Hlt]. set (q := past_line body _) in *. destruct (decide (p < q)) as [Hq|Hq].
    + exists (from + start, q). split; [by left|]. cbn. lia.
    + destruct (IH q p ltac:(lia) Hp ltac:(lia) Ht) as (r & Hr & Hin). exists r. split; [by right|done].
  - eexists. split; [by left|]. cbn. lia.
Qed.
End Blocks.

(** The verbatim ranges of a text are exact: each one is a non-empty range
    inside the text that starts at an opening tag, and every opening tag of a
    source, example or export block, in any letter case, lies in one of them. *)
Theorem code_ranges_exact body :
  (forall r, r ∈ compute_code_block_ranges body -> r.1 < r.2 <= String.length body /\
    exists t, t ∈ verbatim_blocks.*1 /\ starts_with t (drop_str r.1 (to_ascii_lowercase body)) = true) /\
  (forall t p, t ∈ verbatim_blocks.*1 -> p < String.length body ->
    starts_with t (drop_str p (to_ascii_lowercase body)) = true -> in_code (compute_code_block_ranges body) p = true).
Proof.
  assert (Hpos : forall b e, (b, e) ∈ verbatim_blocks -> 0 < String.length b /\ 0 < String.length e).
  { intros b e Hbe. unfold verbatim_blocks in Hbe. rewrite !elem_of_cons, elem_of_nil in Hbe.
    destruct Hbe as [[= -> ->]|[[= -> ->]|[[= -> ->]|[]]]]; cbn; lia. }
  unfold compute_code_block_ranges. split.
  - intros r. rewrite merge_sort_Permutation. intros ([b e] & Hr & Hbe)%list_elem_of_bind.
    destruct (Hpos b e Hbe) as [Hb He].
    apply (block_ranges_ok body (to_ascii_lowercase body) b e (lower_length body) Hb He) in Hr as (_ & H1 & H2 & H3); [|lia].
    split; [lia|]. exists b. split; [|done]. apply list_elem_of_fmap. by exists (b, e).
  - intros t p ([b e] & -> & Hbe)%list_elem_of_fmap Hp Ht. destruct (Hpos b e Hbe) as [Hb He].
    destruct (block_ranges_cover body (to_ascii_lowercase body) b e (lower_length body) Hb He (S (String.length body)) 0 p)
      as ([s q] & Hr & Hin); [lia|done|lia|done|].
    apply existsb_exists. exists (s, q). split; [|cbn in Hin; apply andb_true_iff; split; [apply Nat.leb_le|apply Nat.ltb_lt]; lia].
    apply list_elem_of_In. rewrite merge_sort_Permutation. apply list_elem_of_bind. by exists (b, e).
Qed.

(** ** A concrete number type: tenths, and what it makes of texts *)
Module ToyFloat.
#[export] Instance tenths : F64 N := {|
  f64_one := 10%N;
  f64_parse s := let? d := strip_prefix "0." s in parse_uint 99 d;
  f64_is_finite _ := true;
  f64_clamp_unit f := N.min f 10;
|}.
#[export, program] Instance tenths_laws : F64Laws N := {| f64_unit f := (f <= 10)%N |}.
Next Obligation. done. Qed.
Next Obligation. intros f _. cbn. lia. Qed.
End ToyFloat.

Module OrgLinkWitnesses.
Import ToyFloat.

Definition source_doc : list Piece :=
  [Text "See "; LinkOrg "concept:buffer#edit?rel=teaches&w=0.8" "buffers"; Text " and "; Link "id:4f2a"; Text ", ";
   LinkOrg "https://example.org" "the site"; Text "."].

Lemma typed_links_are_well_formed_witness :
  mkLink "concept:a" "x" "teaches" None 10%N 10%N [] ∈ parse_typed_links (F := N) "[[concept:a?rel=teaches&w=0.77][x]]" /\
  (10 <= 10)%N.
Proof.
  assert (Hin : mkLink "concept:a" "x" "teaches" None 10%N 10%N [] ∈
                parse_typed_links (F := N) "[[concept:a?rel=teaches&w=0.77][x]]").
  { assert (parse_typed_links (F := N) "[[concept:a?rel=teaches&w=0.77][x]]" =
      [mkLink "concept:a" "x" "teaches" None 10%N 10%N []]) as -> by (vm_compute; reflexivity). by left. }
  split; [exact Hin|]. exact (proj1 (proj2 (proj2 (typed_links_are_well_formed _ _ Hin)))).
Defined.

Lemma parse_of_printed_witness : map (fun x => (target x, rel_type x, weight x)) (parse_typed_links (F := N) (print_pieces source_doc)) =
  [("concept:buffer", "teaches", 8%N); ("4f2a", "references", 10%N); ("https://example.org", "references", 10%N)].
Proof. rewrite parse_of_printed by (vm_compute; reflexivity). vm_compute. reflexivity. Defined.


Lemma ingest_forgets_relations_witness :
  weight (mkLink "concept:buffer" "buffers" "references" (Some "edit") 10%N 10%N []) = f64_one.
Proof.
  refine (proj1 (proj2 (ingest_forgets_relations source_doc _ _ _ _ _))); [vm_compute; reflexivity..|].
  replace (parse_typed_links (rewrite_links (print_pieces source_doc))) with
    [mkLink "concept:buffer" "buffers" "references" (Some "edit") 10%N 10%N []; mkLink "4f2a" "4f2a" "references" None 10%N 10%N []]
    by (vm_compute; reflexivity).
  by left.
Defined.
End OrgLinkWitnesses.

(** ** Departures *)

Module OrgLinkDepartures.
Import ToyFloat.

(** An opening tag that is only mentioned in prose hides every link after it:
    Emacs, which [compute_code_block_ranges] says it matches, opens a block at
    the start of a line and only if it is closed. *)
Theorem mentioned_tag_hides_links :
  body_links (F := N) "Wrap code in =#+begin_src=. See [[concept:a]]." = [] /\
  body_links (F := N) "Wrap code in =#+begin_ src=. See [[concept:a]]." = ["concept:a"].
Proof. vm_compute. repeat split. Qed.

(** A link to a heading of the same file is an edge to the node with the empty
    id: the target is tested for emptiness before its fragment is cut off. *)
Theorem heading_link_is_an_edge_to_nothing : body_links (F := N) "See [[#intro][above]]." = [""].
Proof. vm_compute. repeat split. Qed.

(** The two scanners of the crate disagree on typed and [id:] links: the one the
    health report uses keeps the query and the prefix in the target. *)
Theorem scanners_disagree_on_targets :
  body_links (F := N) "[[concept:a?rel=teaches][x]] [[id:4f2a][y]]" = ["concept:a"; "4f2a"] /\
  (parse_links "[[concept:a?rel=teaches][x]] [[id:4f2a][y]]").*1 = ["concept:a?rel=teaches"; "id:4f2a"].
Proof. vm_compute. repeat split. Qed.
End OrgLinkDepartures.
