(* ===== verification/KbStore.v ===== *)
(** * KbStore: the in-memory knowledge base

    Models the store of [shared/kb/src/lib.rs]: nodes, their conversion to and
    from CRDT documents, and [KnowledgeBase] with its reverse link index, its
    secondary indexes and its search cache. An operation on [&mut self] takes
    and returns the record; an operation that can fail returns an option, and
    leaves the store as it was when it does.

    A hash map is a [gmap], and iterating over it goes through the elements in
    the order of the model's map; results whose order the code leaves open are
    stated up to permutation. A [char] is its UTF-8 text. *)
From S2P Require Import Prelude DocAddress Membership OpLog KbNode OrgLinks.

(** ** Data *)

Inductive NodeKind :=
  | Index | Command | Concept | Key | Note | Project | Category | Lesson | Tutorial | Meta | Block | SchemeApi | Task | View.
#[export] Instance NodeKind_eq_dec : EqDecision NodeKind.
Proof. solve_decision. Defined.
Definition kind_names : list (NodeKind * string) :=
  [(Index, "index"); (Command, "command"); (Concept, "concept"); (Key, "key"); (Note, "note"); (Project, "project");
   (Category, "category"); (Lesson, "lesson"); (Tutorial, "tutorial"); (Meta, "meta"); (Block, "block");
   (SchemeApi, "scheme_api"); (Task, "task"); (View, "view")].
Definition NodeKind_as_str (k : NodeKind) : string :=
  match List.find (fun '(k', _) => bool_decide (k' = k)) kind_names with Some (_, s) => s | None => "" end.
Definition NodeKind_from_str_lossy (s : string) : NodeKind :=
  match List.find (fun '(_, s') => bool_decide (s' = s)) kind_names with Some (k, _) => k | None => Note end.

Inductive NodeSource := Seed | UserOrg | Manual | Federation | Promoted.
#[export] Instance NodeSource_eq_dec : EqDecision NodeSource.
Proof. solve_decision. Defined.
Definition NodeSource_as_str (s : NodeSource) : string :=
  match s with
  | Seed => "seed" | UserOrg => "user_org" | Manual => "manual" | Federation => "federation" | Promoted => "promoted"
  end.
Definition NodeSource_from_str_opt (s : string) : option NodeSource :=
  if bool_decide (s = "seed") then Some Seed
  else if bool_decide (s = "user_org") then Some UserOrg
  else if bool_decide (s = "manual") then Some Manual
  else if bool_decide (s = "federation") then Some Federation
  else if bool_decide (s = "promoted") then Some Promoted
  else None.

Record Node := mkNode {
  n_id : string;
  n_title : string;
  n_kind : NodeKind;
  n_body : string;
  n_tags : list string;
  n_todo_state : option string;
  n_priority : option string;
  n_source : option NodeSource;
  n_source_version : option N;
  n_aliases : list string;
  n_properties : gmap string string;
  n_source_file : option string;
  n_crdt_doc : option string;
  n_created_at : option Z;
}.
#[export] Instance Node_eq_dec : EqDecision Node.
Proof. solve_decision. Defined.

Definition Node_new (id title : string) (kind : NodeKind) (body : string) : Node :=
  mkNode id title kind body [] None None None None [] ∅ None None None.
Definition with_crdt (n : Node) (b : option string) : Node :=
  mkNode (n_id n) (n_title n) (n_kind n) (n_body n) (n_tags n) (n_todo_state n) (n_priority n) (n_source n)
    (n_source_version n) (n_aliases n) (n_properties n) (n_source_file n) b (n_created_at n).
Definition with_source (n : Node) (s : NodeSource) (v : N) : Node :=
  mkNode (n_id n) (n_title n) (n_kind n) (n_body n) (n_tags n) (n_todo_state n) (n_priority n) (Some s)
    (Some v) (n_aliases n) (n_properties n) (n_source_file n) (n_crdt_doc n) (n_created_at n).

(** [s.chars().next()] of UTF-8 text: the bytes of its first scalar. *)
Definition char_len (c : Ascii.ascii) : nat :=
  let n := Ascii.N_of_ascii c in if (n <? 192)%N then 1 else if (n <? 224)%N then 2 else if (n <? 240)%N then 3 else 4.
Definition first_char (s : string) : option string :=
  match s with "" => None | String c _ => Some (take_str (char_len c) s) end.

(** ** The node document as the store uses it *)

(** A replica of a node document: made from a root map, decoded, written to by a
    client, updated; [rep_view] is its root map. State vectors are decoded to
    the clock of each client. *)
Class NodeReplica := {
  Rep : Type;
  rep_new : N -> gmap string Val -> Rep;
  rep_from_bytes : string -> option Rep;
  rep_encode : Rep -> string;
  rep_view : Rep -> gmap string Val;
  rep_write : N -> Rep -> gmap string Val -> Rep;
  rep_apply : Rep -> string -> option Rep;
  rep_state_vector : Rep -> string;
  rep_encode_diff : Rep -> string -> option string;
  sv_decode : string -> option (gmap N N);
}.
(** Local transactions leave the map they write, and a decoded encoding reads as
    what was encoded. *)
Class NodeReplicaLaws `{NodeReplica} : Prop := {
  view_new c v : rep_view (rep_new c v) = v;
  view_write c r v : rep_view (rep_write c r v) = v;
  view_decode r : exists r', rep_from_bytes (rep_encode r) = Some r' /\ rep_view r' = rep_view r;
}.

(** [sv_has_ops_beyond] and [sv_clients_disjoint]. *)
Definition sv_has_ops_beyond `{NodeReplica} (candidate_sv base_sv : string) : option bool :=
  let? candidate := sv_decode candidate_sv in
  let? base := sv_decode base_sv in
  Some (existsb (fun '(client, clock) => (default 0 (base !! client) <? clock)%N) (map_to_list candidate)).
Definition sv_clients_disjoint `{NodeReplica} (a_sv b_sv : string) : option bool :=
  let? a := sv_decode a_sv in
  let? b := sv_decode b_sv in
  Some (forallb (fun '(client, _) => negb (bool_decide (is_Some (b !! client)))) (map_to_list a)).

(** ** The store *)

Record LowerCache := mkLower {
  lowered_id : string;
  lowered_title : string;
  lowered_body : string;
  lowered_tags : list string;
  lowered_aliases : list string;
}.
Record KnowledgeBase := mkKB {
  nodes : gmap string Node;
  links_in : gmap string (list string);
  lower : gmap string LowerCache;
  todo_index : gmap string (gset string);
  priority_index : gmap string (gset string);
  tag_index : gmap string (gset string);
}.

Inductive ReconcileAction := Created | Merged | DivergentLineage.
Record ReconcileOutcome := mkOutcome { outcome_action : ReconcileAction; content_changed : bool; local_ahead : option string }.

(** The reverse index: drop an edge and the entry it empties, add an edge once. *)
Definition unlink (id : string) (m : gmap string (list string)) (target : string) : gmap string (list string) :=
  match m !! target with
  | Some sources =>
      let sources := List.filter (fun s => negb (bool_decide (s = id))) sources in
      match sources with [] => delete target m | _ => <[target := sources]> m end
  | None => m
  end.
Definition install (id : string) (m : gmap string (list string)) (target : string) : gmap string (list string) :=
  let entry := default [] (m !! target) in
  <[target := if bool_decide (id ∈ entry) then entry else entry ++ [id]]> m.
(** A secondary index: drop an id from the set of a key, add it. *)
Definition idx_remove (id : string) (m : gmap string (gset string)) (k : string) : gmap string (gset string) :=
  match m !! k with Some set => <[k := set ∖ {[id]}]> m | None => m end.
Definition idx_insert (id : string) (m : gmap string (gset string)) (k : string) : gmap string (gset string) :=
  <[k := {[id]} ∪ default ∅ (m !! k)]> m.
(** [for sources in self.links_in.values_mut() { sources.retain(|s| s != id) }]
    and [self.links_in.retain(|_, v| !v.is_empty())]. *)
Definition unlink_everywhere (id : string) (m : gmap string (list string)) : gmap string (list string) :=
  omap (fun sources => match List.filter (fun s => negb (bool_decide (s = id))) sources with [] => None | l => Some l end) m.

Section Store.
Context `{Crypto, NodeReplica} {F : Type} `{F64 F} (show : Val -> string) (to_lowercase : string -> string).
Implicit Types (n : Node) (kb : KnowledgeBase).

Definition links n : list string := body_links (F := F) (n_body n).
Definition links_typed n : list (string * string * F) := body_links_typed (n_body n).

(** ** Nodes and documents *)

Definition write_v2_fields n (d : gmap string Val) : gmap string Val :=
  let d := KbNodeDoc.set_kind show d (Some (NodeKind_as_str (n_kind n))) in
  let d := KbNodeDoc.set_todo_state show d (n_todo_state n) in
  let d := KbNodeDoc.set_priority show d (n_priority n) in
  let d := KbNodeDoc.set_source_version show d (n_source_version n) in
  let d := KbNodeDoc.set_aliases show d (n_aliases n) in
  let d := KbNodeDoc.set_properties show d (n_properties n) in
  KbNodeDoc.set_source show d (NodeSource_as_str <$> n_source n).

(** [now] is the clock and [client] the random client id of a document that is
    made here. *)
Definition to_crdt_doc (now client : N) n : option Rep :=
  match n_crdt_doc n with
  | Some bytes => rep_from_bytes bytes
  | None => Some (rep_new client (write_v2_fields n (KbNodeDoc.new_node now (n_id n) (n_title n) (n_body n) (n_tags n))))
  end.

Definition apply_crdt_doc n (r : Rep) : Node :=
  let d := rep_view r in
  let kind := match KbNodeDoc.kind show d with Some k => NodeKind_from_str_lossy k | None => n_kind n end in
  let v2 := (2 <=? KbNodeDoc.node_schema_version show d)%Z in
  mkNode (n_id n) (KbNodeDoc.title d) kind (KbNodeDoc.body d) (KbNodeDoc.tags d)
    (if v2 then KbNodeDoc.todo_state show d else n_todo_state n)
    (if v2 then KbNodeDoc.priority show d ≫= first_char else n_priority n)
    (if v2 then match KbNodeDoc.source show d ≫= NodeSource_from_str_opt with Some s => Some s | None => n_source n end
     else n_source n)
    (if v2 then KbNodeDoc.source_version show d else n_source_version n)
    (if v2 then KbNodeDoc.aliases d else n_aliases n)
    (if v2 then KbNodeDoc.properties d else n_properties n)
    (n_source_file n) (Some (rep_encode r))
    (match KbNodeDoc.created_at show d with Some c => Some c | None => n_created_at n end).

Definition from_crdt_doc (r : Rep) (kind : NodeKind) (source : NodeSource) : Node :=
  let m := KbNodeDoc.materialize show (rep_view r) in
  mkNode (mat_id m) (mat_title m) (default kind (NodeKind_from_str_lossy <$> mat_kind m)) (mat_body m) (mat_tags m)
    (mat_todo_state m) (mat_priority m ≫= first_char)
    (Some (default source (mat_source m ≫= NodeSource_from_str_opt)))
    (mat_source_version m) (mat_aliases m) (mat_properties m) None (Some (rep_encode r)) (mat_created_at m).

(** ** Operations *)

Definition LowerCache_from_node n : LowerCache :=
  mkLower (to_lowercase (n_id n)) (to_lowercase (n_title n)) (to_lowercase (n_body n))
    (map to_lowercase (n_tags n)) (map to_lowercase (n_aliases n)).

Definition KnowledgeBase_new : KnowledgeBase := mkKB ∅ ∅ ∅ ∅ ∅ ∅.

(** The index entries of a node: dropped under the node's key, or added. *)
Definition drop_entries kb (id : string) n : KnowledgeBase :=
  mkKB (nodes kb) (foldl (unlink id) (links_in kb) (links n)) (lower kb)
    (foldl (idx_remove id) (todo_index kb) (option_list (n_todo_state n)))
    (foldl (idx_remove id) (priority_index kb) (option_list (n_priority n)))
    (foldl (idx_remove id) (tag_index kb) (n_tags n)).
Definition add_entries kb (id : string) n : KnowledgeBase :=
  mkKB (nodes kb) (foldl (install id) (links_in kb) (links n)) (lower kb)
    (foldl (idx_insert id) (todo_index kb) (option_list (n_todo_state n)))
    (foldl (idx_insert id) (priority_index kb) (option_list (n_priority n)))
    (foldl (idx_insert id) (tag_index kb) (n_tags n)).

Definition insert kb n : KnowledgeBase * option Node :=
  let id := n_id n in
  let prev := nodes kb !! id in
  let kb := match prev with Some p => drop_entries kb id p | None => kb end in
  let kb := add_entries kb id n in
  (mkKB (<[id := n]> (nodes kb)) (links_in kb) (<[id := LowerCache_from_node n]> (lower kb))
     (todo_index kb) (priority_index kb) (tag_index kb), prev).

Definition remove kb (id : string) : KnowledgeBase * option Node :=
  match nodes kb !! id with
  | None => (kb, None)
  | Some prev =>
      let kb := drop_entries (mkKB (delete id (nodes kb)) (links_in kb) (delete id (lower kb))
                                (todo_index kb) (priority_index kb) (tag_index kb)) id prev in
      (kb, Some prev)
  end.
Fixpoint remove_nodes kb (ids : list string) : KnowledgeBase * list Node :=
  match ids with
  | [] => (kb, [])
  | id :: rest =>
      let '(kb, o) := remove kb id in
      let '(kb, l) := remove_nodes kb rest in
      (kb, option_list o ++ l)
  end.

(** [fresh_v2_doc]. *)
Definition fresh_v2_doc n (client : N) : Rep :=
  rep_new client (write_v2_fields n (KbNodeDoc.new_with_client_id (n_id n) (n_title n) (n_body n) (n_tags n))).
(** The edited fields on an existing lineage. *)
Definition edit_doc n (d : gmap string Val) : gmap string Val :=
  let d := if bool_decide (KbNodeDoc.title d = n_title n) then d else KbNodeDoc.set_title d (n_title n) in
  let d := if bool_decide (KbNodeDoc.body d = n_body n) then d else KbNodeDoc.set_body d (n_body n) in
  let d := if bool_decide (KbNodeDoc.tags d = n_tags n) then d else KbNodeDoc.set_tags d (n_tags n) in
  write_v2_fields n d.
Definition edited_doc n (client : N) : Rep :=
  match n_crdt_doc n ≫= rep_from_bytes with
  | Some r => rep_write client r (edit_doc n (rep_view r))
  | None => fresh_v2_doc n client
  end.
Definition upsert_with_crdt kb n (client : N) : KnowledgeBase * option string :=
  let update := rep_encode (edited_doc n client) in
  let kb := (insert kb (with_crdt n (Some update))).1 in
  (kb, if bool_decide (is_Some (nodes kb !! n_id n)) then Some update else None).

(** [KbNodeDoc::apply_update]: the replica after the update, and whether the hash
    of title, body and tags changed. *)
Definition doc_apply_update (r : Rep) (update : string) : option (Rep * bool) :=
  let? r' := rep_apply r update in
  Some (r', negb (bool_decide (KbNodeDoc.content_hash show (rep_view r) = KbNodeDoc.content_hash show (rep_view r')))).

(** The node a remote document makes when it is new here, or adopted. *)
Definition remote_node (r : Rep) (kind : NodeKind) : Node :=
  let m := KbNodeDoc.materialize show (rep_view r) in
  mkNode (mat_id m) (mat_title m) kind (mat_body m) (mat_tags m) None None (Some Federation) None [] ∅ None
    (Some (rep_encode r)) None.
(** The reverse edges of one node rebuilt from its current links. *)
Definition relink kb (id : string) (targets : list string) : KnowledgeBase :=
  mkKB (nodes kb) (foldl (install id) (unlink_everywhere id (links_in kb)) targets) (lower kb)
    (todo_index kb) (priority_index kb) (tag_index kb).

Definition apply_remote_update (now client : N) kb (node_id update : string) : option (KnowledgeBase * bool) :=
  match nodes kb !! node_id with
  | Some n =>
      let? r := to_crdt_doc now client n in
      let? (r, changed) := doc_apply_update r update in
      if changed then
        let n' := apply_crdt_doc n r in
        let kb := mkKB (<[node_id := n']> (nodes kb)) (links_in kb) (lower kb) (todo_index kb) (priority_index kb) (tag_index kb) in
        Some (relink kb (n_id n') (links n'), true)
      else Some (kb, false)
  | None =>
      let? r := rep_from_bytes update in
      Some ((insert kb (remote_node r Note)).1, true)
  end.

Definition adopt_remote_node kb (node_id state : string) : option (KnowledgeBase * bool) :=
  let? r := rep_from_bytes state in
  let m := KbNodeDoc.materialize show (rep_view r) in
  let '(kind, changed) :=
    match nodes kb !! node_id with
    | Some n => (n_kind n, negb (bool_decide (n_title n = mat_title m)) || negb (bool_decide (n_body n = mat_body m)) ||
                           negb (bool_decide (n_tags n = mat_tags m)))
    | None => (Note, true)
    end in
  let kb := (insert kb (remote_node r kind)).1 in
  Some (relink kb node_id (default [] (links <$> nodes kb !! node_id)), changed).

Definition node_state_vector (now client : N) kb (node_id : string) : option string :=
  let? m := nodes kb !! node_id in
  let? r := to_crdt_doc now client m in
  Some (rep_state_vector r).

Definition reconcile_remote_node (now client : N) kb (node_id remote_diff remote_sv : string)
    : option (KnowledgeBase * ReconcileOutcome) :=
  let existed := bool_decide (is_Some (nodes kb !! node_id)) in
  let? diverged := match node_state_vector now client kb node_id with
                   | Some pre =>
                       if existed then
                         let? ahead := sv_has_ops_beyond remote_sv pre in
                         if ahead then sv_clients_disjoint pre remote_sv else Some false
                       else Some false
                   | None => Some false
                   end in
  if diverged then Some (kb, mkOutcome DivergentLineage false None)
  else
    let? (st, changed) := apply_remote_update now client kb node_id remote_diff in
    let? ahead :=
      (if existed then
         match nodes st !! node_id with
         | Some m =>
             let? r := to_crdt_doc now client m in
             let? beyond := sv_has_ops_beyond (rep_state_vector r) remote_sv in
             if beyond then let? d := rep_encode_diff r remote_sv in Some (Some d) else Some None
         | None => Some None
         end
       else Some None) in
    Some (st, mkOutcome (if existed then Merged else Created) changed ahead).

Definition stamp (s : NodeSource) (v : N) n : Node := match n_source n with None => with_source n s v | Some _ => n end.
Definition set_nodes kb (m : gmap string Node) : KnowledgeBase :=
  mkKB m (links_in kb) (lower kb) (todo_index kb) (priority_index kb) (tag_index kb).
Definition stamp_source kb (s : NodeSource) (v : N) : KnowledgeBase := set_nodes kb (stamp s v <$> nodes kb).
Definition stamp_source_for kb (ids : list string) (s : NodeSource) (v : N) : KnowledgeBase :=
  set_nodes kb (foldl (fun m id => alter (stamp s v) id m) (nodes kb) ids).

Definition with_tags n (l : list string) : Node :=
  mkNode (n_id n) (n_title n) (n_kind n) (n_body n) l (n_todo_state n) (n_priority n) (n_source n)
    (n_source_version n) (n_aliases n) (n_properties n) (n_source_file n) (n_crdt_doc n) (n_created_at n).
Fixpoint replace_space (s : string) : string :=
  match s with "" => "" | String c s' => String (if bool_decide (c = " "%char) then "-"%char else c) (replace_space s') end.
Definition ingest_project kb (name root config_body : string) : KnowledgeBase :=
  let nl := String newline "" in
  let body := "# Project: " +:+ name +:+ nl +:+ nl +:+ "Root: `" +:+ root +:+ "`" +:+ nl +:+ nl +:+ config_body in
  (insert kb (with_tags (Node_new ("project:" +:+ replace_space (to_lowercase name)) name Project body) ["project"])).1.

(** [path_exists] asks the file system. *)
Definition detect_stale_nodes (path_exists : string -> bool) kb : list (string * string * string) :=
  omap (fun '(_, n) => let? path := n_source_file n in if path_exists path then None else Some (n_id n, n_title n, path))
    (map_to_list (nodes kb)).
Definition remove_stale_nodes (path_exists : string -> bool) kb : KnowledgeBase * nat :=
  let stale_ids := map (fun '(id, _, _) => id) (detect_stale_nodes path_exists kb) in
  ((remove_nodes kb stale_ids).1, length stale_ids).
End Store.

(** ** Consistency of the indexes *)

(** [mem k i]: the index has [i] under [k]. It is exact when that says that node
    [i] has [k] among its [keys]. *)
Definition indexes (mem : string -> string -> Prop) (ns : gmap string Node) (keys : Node -> list string) : Prop :=
  forall k i, mem k i <-> exists n, ns !! i = Some n /\ k ∈ keys n.
Definition in_list (m : gmap string (list string)) (k i : string) : Prop := i ∈ default [] (m !! k).
Definition in_set (m : gmap string (gset string)) (k i : string) : Prop := i ∈ default ∅ (m !! k).
(** An entry of the reverse index is not empty and has no duplicates. *)
Definition entries_ok (m : gmap string (list string)) : Prop := forall k l, m !! k = Some l -> l <> [] /\ NoDup l.

Lemma indexes_insert mem mem1 mem2 ns keys id n : indexes mem ns keys ->
  (forall k i, mem1 k i <-> mem k i /\ ~ (i = id /\ exists p, ns !! id = Some p /\ k ∈ keys p)) ->
  (forall k i, mem2 k i <-> mem1 k i \/ i = id /\ k ∈ keys n) -> indexes mem2 (<[id := n]> ns) keys.
Proof.
  unfold indexes. intros Hm H1 H2 k i. rewrite H2, H1, Hm. destruct (decide (i = id)) as [->|Hne].
  - rewrite lookup_insert_eq. naive_solver.
  - rewrite lookup_insert_ne by done. naive_solver.
Qed.
Lemma indexes_delete mem mem1 ns keys id p : indexes mem ns keys -> ns !! id = Some p ->
  (forall k i, mem1 k i <-> mem k i /\ ~ (i = id /\ k ∈ keys p)) -> indexes mem1 (delete id ns) keys.
Proof.
  unfold indexes. intros Hm Hp H1 k i. rewrite H1, Hm. destruct (decide (i = id)) as [->|Hne].
  - rewrite lookup_delete_eq. naive_solver.
  - rewrite lookup_delete_ne by done. naive_solver.
Qed.
Lemma indexes_same_keys mem ns ns' keys : indexes mem ns keys ->
  (forall i, keys <$> ns' !! i = keys <$> ns !! i) -> indexes mem ns' keys.
Proof.
  unfold indexes. intros Hm He k i. rewrite Hm. specialize (He i).
  destruct (ns !! i) as [a|], (ns' !! i) as [b|]; cbn in He; [injection He as He|done|done|naive_solver].
  split; intros (x & [= <-] & Hk); eexists; (split; [done|]); congruence.
Qed.

Lemma in_set_removes id ks : forall m k i, in_set (foldl (idx_remove id) m ks) k i <-> in_set m k i /\ ~ (i = id /\ k ∈ ks).
Proof.
  induction ks as [|x ks IH]; intros m k i; cbn [foldl]; [set_solver|]. rewrite IH.
  assert (Hx : in_set (idx_remove id m x) k i <-> in_set m k i /\ ~ (i = id /\ k = x)).
  { unfold in_set, idx_remove. destruct (decide (k = x)) as [->|Hne].
    - destruct (m !! x) as [s|] eqn:E; [rewrite lookup_insert_eq; cbn; set_solver|rewrite E; set_solver].
    - destruct (m !! x); [rewrite lookup_insert_ne by done|]; naive_solver. }
  rewrite Hx, elem_of_cons. tauto.
Qed.
Lemma in_set_inserts id ks : forall m k i, in_set (foldl (idx_insert id) m ks) k i <-> in_set m k i \/ i = id /\ k ∈ ks.
Proof.
  induction ks as [|x ks IH]; intros m k i; cbn [foldl]; [set_solver|]. rewrite IH.
  assert (Hx : in_set (idx_insert id m x) k i <-> in_set m k i \/ i = id /\ k = x).
  { unfold in_set, idx_insert. destruct (decide (k = x)) as [->|Hne].
    - rewrite lookup_insert_eq. cbn. set_solver.
    - rewrite lookup_insert_ne by done. naive_solver. }
  rewrite Hx, elem_of_cons. tauto.
Qed.
Lemma elem_of_retain id (l : list string) i : i ∈ List.filter (fun s => negb (bool_decide (s = id))) l <-> i ∈ l /\ i <> id.
Proof. rewrite elem_of_List_filter, negb_true_iff, bool_decide_eq_false. tauto. Qed.
Lemma in_list_unlinks id ks : forall m k i, in_list (foldl (unlink id) m ks) k i <-> in_list m k i /\ ~ (i = id /\ k ∈ ks).
Proof.
  induction ks as [|x ks IH]; intros m k i; cbn [foldl]; [set_solver|]. rewrite IH.
  assert (Hx : in_list (unlink id m x) k i <-> in_list m k i /\ ~ (i = id /\ k = x)).
  { unfold in_list, unlink. destruct (m !! x) as [l|] eqn:E; [|destruct (decide (k = x)) as [->|]; [rewrite E|]; set_solver].
    pose proof (elem_of_retain id l i) as Hr. destruct (decide (k = x)) as [->|Hne].
    - rewrite E. destruct (List.filter _ l) as [|y l']; [rewrite lookup_delete_eq|rewrite lookup_insert_eq]; cbn; set_solver.
    - destruct (List.filter _ l); [rewrite lookup_delete_ne by done|rewrite lookup_insert_ne by done]; naive_solver. }
  rewrite Hx, elem_of_cons. tauto.
Qed.
Lemma in_list_installs id ks : forall m k i, in_list (foldl (install id) m ks) k i <-> in_list m k i \/ i = id /\ k ∈ ks.
Proof.
  induction ks as [|x ks IH]; intros m k i; cbn [foldl]; [set_solver|]. rewrite IH.
  assert (Hx : in_list (install id m x) k i <-> in_list m k i \/ i = id /\ k = x).
  { unfold in_list, install. destruct (decide (k = x)) as [->|Hne].
    - rewrite lookup_insert_eq. cbn. case_bool_decide; set_solver.
    - rewrite lookup_insert_ne by done. naive_solver. }
  rewrite Hx, elem_of_cons. tauto.
Qed.
Lemma in_list_everywhere id m k i : in_list (unlink_everywhere id m) k i <-> in_list m k i /\ i <> id.
Proof.
  unfold in_list, unlink_everywhere. rewrite lookup_omap. destruct (m !! k) as [l|]; [|set_solver].
  cbn. rewrite <- elem_of_retain. by destruct (List.filter _ l).
Qed.
Lemma retain_entry id l : NoDup l -> NoDup (List.filter (fun s : string => negb (bool_decide (s = id))) l).
Proof. rewrite !NoDup_ListNoDup. apply List.NoDup_filter. Qed.
Lemma entries_unlinks id ks : forall m, entries_ok m -> entries_ok (foldl (unlink id) m ks).
Proof.
  induction ks as [|x ks IH]; intros m Hm; [done|]. cbn [foldl]. apply IH. intros k l. unfold unlink.
  destruct (m !! x) as [s|] eqn:E; [|apply Hm]. pose proof (retain_entry id s (proj2 (Hm x s E))) as Hs.
  destruct (List.filter _ s) as [|y s']; [intros [_ Hk]%lookup_delete_Some; by apply (Hm k)|].
  intros [[<- <-]|[_ Hk]]%lookup_insert_Some; [done|by apply (Hm k)].
Qed.
Lemma entries_installs id ks : forall m, entries_ok m -> entries_ok (foldl (install id) m ks).
Proof.
  induction ks as [|x ks IH]; intros m Hm; [done|]. cbn [foldl]. apply IH. intros k l. unfold install.
  intros [[<- <-]|[_ Hk]]%lookup_insert_Some; [|by apply (Hm k)].
  assert (Hd : NoDup (default [] (m !! x))).
  { destruct (m !! x) as [s|] eqn:E; [apply (Hm x s E)|constructor]. }
  case_bool_decide as Hin; [split; [|done]; intros E; rewrite E in Hin; set_solver|].
  split; [by destruct (default [] (m !! x))|]. apply NoDup_app. split_and!; [done|set_solver|by apply NoDup_singleton].
Qed.
Lemma entries_everywhere id m : entries_ok m -> entries_ok (unlink_everywhere id m).
Proof.
  intros Hm k l. unfold unlink_everywhere. rewrite lookup_omap. destruct (m !! k) as [s|] eqn:E; [|done]. cbn.
  pose proof (retain_entry id s (proj2 (Hm k s E))). destruct (List.filter _ s); [done|]. by intros [= <-].
Qed.

Section Consistency.
Context `{Crypto, NodeReplica} {F : Type} `{F64 F} (show : Val -> string) (to_lowercase : string -> string).
Implicit Types (n : Node) (kb : KnowledgeBase).

Local Notation links := (links (F := F)).
Local Notation insert := (insert (F := F) to_lowercase).
Local Notation remove := (remove (F := F)).
Local Notation remove_nodes := (remove_nodes (F := F)).
Local Notation apply_remote_update := (apply_remote_update (F := F) show to_lowercase).
Local Notation adopt_remote_node := (adopt_remote_node (F := F) show to_lowercase).

(** Nodes sit under their own id, and the reverse index has exactly the links of
    the nodes. *)
Record linked kb : Prop := {
  linked_keys : forall i n, nodes kb !! i = Some n -> n_id n = i;
  linked_index : indexes (in_list (links_in kb)) (nodes kb) links;
  linked_entries : entries_ok (links_in kb);
}.
(** The secondary indexes and the search cache say what the nodes say. *)
Record indexed kb : Prop := {
  indexed_lower : lower kb = LowerCache_from_node to_lowercase <$> nodes kb;
  indexed_todo : indexes (in_set (todo_index kb)) (nodes kb) (option_list ∘ n_todo_state);
  indexed_priority : indexes (in_set (priority_index kb)) (nodes kb) (option_list ∘ n_priority);
  indexed_tags : indexes (in_set (tag_index kb)) (nodes kb) n_tags;
}.

Lemma new_linked : linked KnowledgeBase_new.
Proof. split; [done| |done]. intros k i. unfold in_list. cbn. rewrite lookup_empty. set_solver. Qed.
Lemma new_indexed : indexed KnowledgeBase_new.
Proof.
  split; [cbn [lower nodes KnowledgeBase_new]; by rewrite fmap_empty|..]; intros k i; unfold in_set; cbn; rewrite !lookup_empty; set_solver.
Qed.

Lemma insert_nodes kb n : nodes (insert kb n).1 = <[n_id n := n]> (nodes kb).
Proof. unfold KbStore.insert. cbn. by destruct (nodes kb !! n_id n). Qed.
Lemma insert_linked kb n : linked kb -> linked (insert kb n).1.
Proof.
  intros [Hk Hi He]. split; rewrite ?insert_nodes.
  - intros i m [[<- <-]|[_ Hm]]%lookup_insert_Some; [done|by apply Hk].
  - eapply indexes_insert; [exact Hi| |].
    + intros k i. unfold KbStore.insert. cbn. instantiate (1 := fun k i => in_list (match nodes kb !! n_id n with
        | Some p => foldl (unlink (n_id n)) (links_in kb) (links p) | None => links_in kb end) k i). cbn.
      destruct (nodes kb !! n_id n) as [p|]; [|naive_solver]. rewrite in_list_unlinks. naive_solver.
    + intros k i. unfold KbStore.insert. cbn. destruct (nodes kb !! n_id n) as [p|]; cbn; by rewrite in_list_installs.
  - unfold KbStore.insert. cbn. apply entries_installs. destruct (nodes kb !! n_id n) as [p|]; [|done]. by apply entries_unlinks.
Qed.
Lemma insert_set_index kb n (m : gmap string (gset string)) keys : indexes (in_set m) (nodes kb) keys ->
  indexes (in_set (foldl (idx_insert (n_id n)) (match nodes kb !! n_id n with
    | Some p => foldl (idx_remove (n_id n)) m (keys p) | None => m end) (keys n))) (<[n_id n := n]> (nodes kb)) keys.
Proof.
  intros Hi. eapply indexes_insert; [exact Hi| |intros; apply in_set_inserts].
  intros k i. destruct (nodes kb !! n_id n) as [p|]; [rewrite in_set_removes|]; naive_solver.
Qed.
Lemma insert_indexed kb n : indexed kb -> indexed (insert kb n).1.
Proof.
  intros [Hl Ht Hp Hg]. pose proof (insert_set_index kb n _ _ Ht) as Ht'. pose proof (insert_set_index kb n _ _ Hp) as Hp'.
  pose proof (insert_set_index kb n _ _ Hg) as Hg'.
  split; rewrite insert_nodes; unfold KbStore.insert; cbn; destruct (nodes kb !! n_id n); cbn;
    try done; by rewrite fmap_insert, Hl.
Qed.

Lemma remove_linked kb id : linked kb -> linked (remove kb id).1.
Proof.
  intros [Hk Hi He]. unfold KbStore.remove. destruct (nodes kb !! id) as [p|] eqn:Hp; [|done]. split; cbn.
  - intros i m [_ Hm]%lookup_delete_Some. by apply Hk.
  - eapply indexes_delete; [exact Hi|exact Hp|]. intros. apply in_list_unlinks.
  - by apply entries_unlinks.
Qed.
Lemma remove_indexed kb id : indexed kb -> indexed (remove kb id).1.
Proof.
  intros [Hl Ht Hp Hg]. unfold KbStore.remove. destruct (nodes kb !! id) as [p|] eqn:E; [|done]. split; cbn.
  - by rewrite fmap_delete, Hl.
  - eapply indexes_delete; [exact Ht|exact E|]. intros. apply in_set_removes.
  - eapply indexes_delete; [exact Hp|exact E|]. intros. apply in_set_removes.
  - eapply indexes_delete; [exact Hg|exact E|]. intros. apply in_set_removes.
Qed.
Lemma remove_nodes_inv (P : KnowledgeBase -> Prop) ids : (forall kb id, P kb -> P (remove kb id).1) ->
  forall kb, P kb -> P (remove_nodes kb ids).1.
Proof.
  intros HP. induction ids as [|id ids IH]; intros kb Hkb; [done|]. cbn.
  pose proof (HP kb id Hkb) as Hr. destruct (remove kb id) as [kb1 o]. pose proof (IH kb1 Hr) as Hrs.
  by destruct (remove_nodes kb1 ids).
Qed.

Lemma relink_index (m : gmap string (list string)) ns ns' id : indexes (in_list m) ns links ->
  (forall i, i <> id -> ns' !! i = ns !! i) ->
  indexes (in_list (foldl (install id) (unlink_everywhere id m) (default [] (links <$> ns' !! id)))) ns' links.
Proof.
  unfold indexes. intros Hi Hns k i. rewrite in_list_installs, in_list_everywhere, Hi.
  destruct (decide (i = id)) as [->|Hne].
  - destruct (ns' !! id) as [n|]; cbn; [naive_solver|]. split; [by intros [[_ []]|[_ []%elem_of_nil]]|by intros (? & ? & _)].
  - rewrite (Hns i Hne). naive_solver.
Qed.
Lemma relink_linked kb id : linked kb -> linked (relink kb id (default [] (links <$> nodes kb !! id))).
Proof.
  intros [Hk Hi He]. split; cbn; [done| |by apply entries_installs, entries_everywhere].
  by eapply relink_index.
Qed.
Lemma relink_indexed kb id ts : indexed kb -> indexed (relink kb id ts).
Proof. by intros [Hl Ht Hp Hg]. Qed.

Lemma adopt_linked kb id state kb' b : linked kb -> adopt_remote_node kb id state = Some (kb', b) -> linked kb'.
Proof.
  intros Hk. unfold KbStore.adopt_remote_node. destruct (rep_from_bytes state) as [r|]; [|done].
  destruct (match nodes kb !! id with Some _ => _ | None => _ end) as [kd ch]. intros [<- _]%(inj Some)%pair_equal_spec.
  by apply relink_linked, insert_linked.
Qed.
Lemma adopt_indexed kb id state kb' b : indexed kb -> adopt_remote_node kb id state = Some (kb', b) -> indexed kb'.
Proof.
  intros Hk. unfold KbStore.adopt_remote_node. destruct (rep_from_bytes state) as [r|]; [|done].
  destruct (match nodes kb !! id with Some _ => _ | None => _ end) as [kd ch]. intros [<- _]%(inj Some)%pair_equal_spec.
  by apply relink_indexed, insert_indexed.
Qed.
Lemma apply_linked now client kb id update kb' b : linked kb ->
  apply_remote_update now client kb id update = Some (kb', b) -> linked kb'.
Proof.
  intros Hl. unfold KbStore.apply_remote_update. destruct (nodes kb !! id) as [n|] eqn:En.
  - destruct (to_crdt_doc show now client n) as [r|]; [|done].
    destruct (doc_apply_update show r update) as [[r' [|]]|]; [| |done]; intros [= <- <-]; [|done].
    destruct Hl as [Hk Hi He]. pose proof (Hk id n En) as Hid.
    split; cbn; [| |by apply entries_installs, entries_everywhere].
    + intros i m [[<- <-]|[_ Hm]]%lookup_insert_Some; [done|by apply Hk].
    + rewrite Hid. pose proof (relink_index (links_in kb) (nodes kb) (<[id := apply_crdt_doc show n r']> (nodes kb)) id Hi) as Hr.
      rewrite lookup_insert_eq in Hr. apply Hr. intros i Hne. by rewrite lookup_insert_ne.
  - destruct (rep_from_bytes update) as [r|]; [|done]. intros [<- _]%(inj Some)%pair_equal_spec. by apply insert_linked.
Qed.
Lemma stamped_keys (s : NodeSource) v n : n_id (stamp s v n) = n_id n /\ links (stamp s v n) = links n /\
  LowerCache_from_node to_lowercase (stamp s v n) = LowerCache_from_node to_lowercase n /\
  n_todo_state (stamp s v n) = n_todo_state n /\ n_priority (stamp s v n) = n_priority n /\ n_tags (stamp s v n) = n_tags n.
Proof. unfold stamp. by destruct (n_source n). Qed.
Lemma set_nodes_linked kb m : linked kb -> (forall i, (fun n => (n_id n, links n)) <$> m !! i = (fun n => (n_id n, links n)) <$> nodes kb !! i) ->
  linked (set_nodes kb m).
Proof.
  intros [Hk Hi He] Hm. split; cbn; [| |done].
  - intros i n Hn. specialize (Hm i). rewrite Hn in Hm. destruct (nodes kb !! i) as [p|] eqn:Hp; [|done].
    injection Hm as E _. rewrite E. by apply Hk.
  - eapply indexes_same_keys; [exact Hi|]. intros i. specialize (Hm i).
    destruct (m !! i), (nodes kb !! i); cbn in Hm |- *; congruence.
Qed.
Definition same_entries n n' : Prop := LowerCache_from_node to_lowercase n = LowerCache_from_node to_lowercase n' /\
  n_todo_state n = n_todo_state n' /\ n_priority n = n_priority n' /\ n_tags n = n_tags n'.
Lemma set_nodes_indexed kb m : indexed kb -> (forall i, option_relation same_entries (fun _ => False) (fun _ => False) (m !! i) (nodes kb !! i)) ->
  indexed (set_nodes kb m).
Proof.
  intros [Hl Ht Hp Hg] Hm.
  split; cbn; [|eapply indexes_same_keys; [eassumption|]; intros i; specialize (Hm i);
    destruct (m !! i), (nodes kb !! i); cbn in Hm |- *; try done; destruct Hm as (_ & Et & Ep & Eg); congruence..].
  rewrite Hl. apply map_eq. intros i. rewrite !lookup_fmap. specialize (Hm i).
  destruct (m !! i), (nodes kb !! i); cbn in Hm |- *; try done. destruct Hm as (El & _). congruence.
Qed.
Lemma stamped_for (s : NodeSource) v ids : forall (m : gmap string Node) i,
  foldl (fun m id => alter (stamp s v) id m) m ids !! i = (if bool_decide (i ∈ ids) then stamp s v else id) <$> m !! i.
Proof.
  assert (Hidem : forall n, stamp s v (stamp s v n) = stamp s v n) by (intros n; unfold stamp; by destruct (n_source n) eqn:E; rewrite ?E).
  induction ids as [|x ids IH]; intros m i; cbn [foldl]; [by destruct (m !! i)|]. rewrite IH. destruct (decide (i = x)) as [->|Hne].
  - rewrite lookup_alter_eq, (bool_decide_eq_true_2 (x ∈ x :: ids)) by (by left).
    case_bool_decide; destruct (m !! x); cbn; rewrite ?Hidem; done.
  - rewrite lookup_alter_ne by done. do 2 case_bool_decide; try done; exfalso; set_solver.
Qed.

(** ** Histories of a store *)

Inductive kb_op :=
  | OpInsert (n : Node)
  | OpRemove (id : string)
  | OpUpsert (n : Node) (client : N)
  | OpApply (now client : N) (id update : string)
  | OpAdopt (id state : string)
  | OpReconcile (now client : N) (id diff sv : string)
  | OpStamp (s : NodeSource) (v : N)
  | OpStampFor (ids : list string) (s : NodeSource) (v : N)
  | OpProject (name root config : string)
  | OpRemoveStale (path_exists : string -> bool).
Definition kb_step kb (o : kb_op) : KnowledgeBase :=
  match o with
  | OpInsert n => (insert kb n).1
  | OpRemove id => (remove kb id).1
  | OpUpsert n client => (upsert_with_crdt (F := F) show to_lowercase kb n client).1
  | OpApply now client id update => default kb (fst <$> apply_remote_update now client kb id update)
  | OpAdopt id state => default kb (fst <$> adopt_remote_node kb id state)
  | OpReconcile now client id diff sv =>
      default kb (fst <$> reconcile_remote_node (F := F) show to_lowercase now client kb id diff sv)
  | OpStamp s v => stamp_source kb s v
  | OpStampFor ids s v => stamp_source_for kb ids s v
  | OpProject name root config => ingest_project (F := F) to_lowercase kb name root config
  | OpRemoveStale path_exists => (remove_stale_nodes (F := F) path_exists kb).1
  end.
(** The operation merges a remote update into a node that is there. *)
Definition merges kb (o : kb_op) : bool :=
  match o with
  | OpApply _ _ id _ | OpReconcile _ _ id _ _ => bool_decide (is_Some (nodes kb !! id))
  | _ => false
  end.
Inductive kb_reachable (allowed : KnowledgeBase -> kb_op -> bool) : KnowledgeBase -> Prop :=
  | reach_new : kb_reachable allowed KnowledgeBase_new
  | reach_step kb o : kb_reachable allowed kb -> allowed kb o = true -> kb_reachable allowed (kb_step kb o).

Lemma reconcile_cases now client kb id diff sv kb' out :
  reconcile_remote_node (F := F) show to_lowercase now client kb id diff sv = Some (kb', out) ->
  kb' = kb \/ exists b, apply_remote_update now client kb id diff = Some (kb', b).
Proof.
  unfold reconcile_remote_node. destruct (match node_state_vector _ _ _ _ _ with Some _ => _ | None => _ end) as [[]|];
    [by intros [= <- <-]; left| |done].
  destruct (apply_remote_update now client kb id diff) as [[st b]|]; [|done].
  destruct (if bool_decide _ then _ else _) as [o|]; [|done]. intros [= <- <-]. eauto.
Qed.
Lemma step_linked kb o : linked kb -> linked (kb_step kb o).
Proof.
  intros Hl. assert (Hst : forall s v n, (n_id (stamp s v n), links (stamp s v n)) = (n_id n, links n)).
  { intros s v n. by destruct (stamped_keys s v n) as (-> & -> & _). }
  destruct o as [n|id|n client|now client id update|id state|now client id diff sv|s v|ids s v|name root config|ex]; cbn [kb_step].
  - by apply insert_linked.
  - by apply remove_linked.
  - by apply insert_linked.
  - destruct (apply_remote_update now client kb id update) as [[kb' b]|] eqn:E; [|done]. by eapply apply_linked.
  - destruct (adopt_remote_node kb id state) as [[kb' b]|] eqn:E; [|done]. by eapply adopt_linked.
  - destruct (reconcile_remote_node _ _ _ _ _ _ _ _) as [[kb' out]|] eqn:E; [|done]. cbn.
    apply reconcile_cases in E as [->|[b Hb]]; [done|]. by eapply apply_linked.
  - apply set_nodes_linked; [done|]. intros i. rewrite lookup_fmap. destruct (nodes kb !! i); [|done]. cbn. by rewrite Hst.
  - apply set_nodes_linked; [done|]. intros i. rewrite stamped_for. destruct (nodes kb !! i); [|done]. cbn.
    case_bool_decide; [by rewrite Hst|done].
  - by apply insert_linked.
  - unfold remove_stale_nodes. cbn [fst]. apply (remove_nodes_inv linked); [by intros; apply remove_linked|done].
Qed.
Lemma apply_new_indexed now client kb id update kb' b : indexed kb -> nodes kb !! id = None ->
  apply_remote_update now client kb id update = Some (kb', b) -> indexed kb'.
Proof.
  intros Hi Hn. unfold KbStore.apply_remote_update. rewrite Hn. destruct (rep_from_bytes update); [|done].
  intros [<- _]%(inj Some)%pair_equal_spec. by apply insert_indexed.
Qed.
Lemma step_indexed kb o : indexed kb -> merges kb o = false -> indexed (kb_step kb o).
Proof.
  intros Hi Hm. assert (Hst : forall s v n, same_entries (stamp s v n) n).
  { intros s v n. destruct (stamped_keys s v n) as (_ & _ & ? & ? & ? & ?). done. }
  destruct o as [n|id|n client|now client id update|id state|now client id diff sv|s v|ids s v|name root config|ex]; cbn [kb_step].
  - by apply insert_indexed.
  - by apply remove_indexed.
  - by apply insert_indexed.
  - destruct (apply_remote_update now client kb id update) as [[kb' b]|] eqn:E; [|done].
    apply bool_decide_eq_false, eq_None_not_Some in Hm. by eapply apply_new_indexed.
  - destruct (adopt_remote_node kb id state) as [[kb' b]|] eqn:E; [|done]. by eapply adopt_indexed.
  - destruct (reconcile_remote_node _ _ _ _ _ _ _ _) as [[kb' out]|] eqn:E; [|done].
    apply bool_decide_eq_false, eq_None_not_Some in Hm.
    apply reconcile_cases in E as [->|[b Hb]]; [done|]. by eapply apply_new_indexed.
  - apply set_nodes_indexed; [done|]. intros i. rewrite lookup_fmap. destruct (nodes kb !! i); [|done]. apply Hst.
  - apply set_nodes_indexed; [done|]. intros i. rewrite stamped_for. destruct (nodes kb !! i) as [n|]; [|done]. cbn.
    case_bool_decide; [apply Hst|done].
  - by apply insert_indexed.
  - unfold remove_stale_nodes. cbn [fst]. apply (remove_nodes_inv indexed); [by intros; apply remove_indexed|done].
Qed.

(** In every store the program can reach, with every operation included,
    nodes sit under their own id and the reverse index is exact: it has [s]
    under [t], once, if and only if [s] is a stored node whose body links to
    [t]. *)
Theorem link_index_is_exact kb : kb_reachable (fun _ _ => true) kb -> linked kb.
Proof. induction 1; [apply new_linked|by apply step_linked]. Qed.

End Consistency.

(** ** Nodes and their documents *)

Section Documents.
Context `{Crypto, NodeReplica} {F : Type} `{F64 F} (show : Val -> string) (to_lowercase : string -> string).
Implicit Types (n : Node) (kb : KnowledgeBase) (d : gmap string Val).

Local Notation links := (links (F := F)).
Local Notation write_v2 := (write_v2_fields show).
Local Notation apply_remote_update := (apply_remote_update (F := F) show to_lowercase).

Definition v2_keys : list string := ["kind"; "todo"; "prio"; "src_v"; "aliases"; "props"; "source"; "schema_v"].
Local Ltac not_key := let E := fresh in intros E; subst; match goal with Hk : _ ∉ v2_keys |- _ => apply Hk end; unfold v2_keys; set_solver.
Lemma v2_other n d k : k ∉ v2_keys -> write_v2 n d !! k = d !! k.
Proof.
  intros Hk. unfold write_v2_fields, KbNodeDoc.set_source, KbNodeDoc.set_source_version, KbNodeDoc.set_priority,
    KbNodeDoc.set_todo_state, KbNodeDoc.set_kind.
  rewrite KbNodeDoc.set_scalar_other, KbNodeDoc.set_properties_other, KbNodeDoc.set_aliases_other by not_key.
  by rewrite !KbNodeDoc.set_scalar_other by not_key.
Qed.
(** Reading a field after the setters that follow its own. *)
Local Ltac past :=
  repeat first [rewrite KbNodeDoc.set_scalar_other by done | rewrite KbNodeDoc.set_properties_other by done
               | rewrite KbNodeDoc.set_aliases_other by done].
Local Ltac own k := erewrite (KbNodeDoc.scalar_ext show _ _ k);
  [apply KbNodeDoc.set_scalar_same|unfold write_v2_fields, KbNodeDoc.set_source, KbNodeDoc.set_source_version,
   KbNodeDoc.set_priority, KbNodeDoc.set_todo_state, KbNodeDoc.set_kind; past; reflexivity].
Lemma kind_name_nonempty k : Some (NodeKind_as_str k) <> Some "".
Proof. by destruct k. Qed.
Lemma v2_scalars n d : n_todo_state n <> Some "" -> n_priority n <> Some "" ->
  KbNodeDoc.kind show (write_v2 n d) = Some (NodeKind_as_str (n_kind n)) /\
  KbNodeDoc.todo_state show (write_v2 n d) = n_todo_state n /\
  KbNodeDoc.priority show (write_v2 n d) = n_priority n /\
  KbNodeDoc.source show (write_v2 n d) = NodeSource_as_str <$> n_source n /\
  KbNodeDoc.scalar show (write_v2 n d) "src_v" = to_dec <$> n_source_version n.
Proof.
  intros Ht Hp. unfold KbNodeDoc.kind, KbNodeDoc.todo_state, KbNodeDoc.priority, KbNodeDoc.source. split_and!.
  - own "kind"; [done|apply kind_name_nonempty].
  - own "todo"; done.
  - own "prio"; done.
  - own "source"; [done|]. destruct (n_source n) as [[]|]; done.
  - own "src_v"; [done|]. destruct (n_source_version n) as [v|]; [|done]. cbn. intros [= E]. by destruct (to_dec_nonempty v).
Qed.
Lemma v2_properties n d : KbNodeDoc.properties (write_v2 n d) = n_properties n.
Proof.
  unfold write_v2_fields, KbNodeDoc.set_source. unfold KbNodeDoc.properties at 1. rewrite KbNodeDoc.set_scalar_other by done.
  match goal with |- match KbNodeDoc.set_properties ?s ?d' ?m !! _ with _ => _ end = _ => exact (KbNodeDoc.set_properties_eq s d' m) end.
Qed.
Lemma v2_aliases n d : KbNodeDoc.aliases (write_v2 n d) = KbNodeDoc.set_by_value (KbNodeDoc.aliases d) (n_aliases n).
Proof.
  unfold write_v2_fields, KbNodeDoc.set_source. unfold KbNodeDoc.aliases at 1, KbNodeDoc.get_array.
  rewrite KbNodeDoc.set_scalar_other, KbNodeDoc.set_properties_other by done.
  match goal with |- match KbNodeDoc.set_aliases ?s ?d' ?l !! _ with _ => _ end = _ =>
    change (KbNodeDoc.aliases (KbNodeDoc.set_aliases s d' l) = KbNodeDoc.set_by_value (KbNodeDoc.aliases d) l);
    rewrite KbNodeDoc.set_aliases_eq; f_equal end.
  unfold KbNodeDoc.aliases, KbNodeDoc.get_array, KbNodeDoc.set_source_version, KbNodeDoc.set_priority,
    KbNodeDoc.set_todo_state, KbNodeDoc.set_kind. by past.
Qed.
Lemma kind_round_trip k : NodeKind_from_str_lossy (NodeKind_as_str k) = k.
Proof. by destruct k. Qed.
Lemma source_round_trip s : NodeSource_from_str_opt (NodeSource_as_str s) = Some s.
Proof. by destruct s. Qed.

(** A node whose optional fields are what the parsers produce: no empty TODO
    state, a priority of one character, aliases without repetition. *)
Definition node_ok n : Prop := n_todo_state n <> Some "" /\ (forall p, n_priority n = Some p -> first_char p = Some p) /\
  (forall v, n_source_version n = Some v -> (v <= u32_max)%N) /\ NoDup (n_aliases n).
Lemma priority_nonempty n : node_ok n -> n_priority n <> Some "".
Proof. intros (_ & Hp & _) E. by specialize (Hp _ E). Qed.

(** The fields a document written from [n] reads as. *)
Lemma read_v2 n d (m := KbNodeDoc.materialize show (write_v2 n d)) : node_ok n -> KbNodeDoc.aliases d = [] ->
  mat_kind m = Some (NodeKind_as_str (n_kind n)) /\ mat_todo_state m = n_todo_state n /\ mat_priority m = n_priority n /\
  mat_source m = NodeSource_as_str <$> n_source n /\ mat_source_version m = n_source_version n /\
  mat_aliases m = n_aliases n /\ mat_properties m = n_properties n.
Proof.
  intros Hok Ha. pose proof (priority_nonempty n Hok) as Hp. destruct Hok as (Ht & _ & Hv & Hn).
  destruct (v2_scalars n d Ht Hp) as (E1 & E2 & E3 & E4 & E5). cbn. split_and!; try done.
  - unfold KbNodeDoc.source_version. rewrite E5. destruct (n_source_version n) as [v|]; [|done]. cbn.
    by rewrite parse_to_dec by (by apply Hv).
  - rewrite v2_aliases, Ha. by apply KbNodeDoc.set_by_value_fresh.
  - apply v2_properties.
Qed.
(** The text fields of a document are those it was made with. *)
Lemma read_text n d (m := KbNodeDoc.materialize show (write_v2 n d)) (m0 := KbNodeDoc.materialize show d) :
  mat_id m = mat_id m0 /\ mat_title m = mat_title m0 /\ mat_body m = mat_body m0 /\ mat_tags m = mat_tags m0 /\
  mat_created_at m = mat_created_at m0.
Proof.
  assert (Hk : forall k, k ∉ v2_keys -> write_v2 n d !! k = d !! k) by (intros; by apply v2_other).
  cbn. unfold KbNodeDoc.node_id, KbNodeDoc.title, KbNodeDoc.body, KbNodeDoc.tags, KbNodeDoc.get_text, KbNodeDoc.get_array,
    KbNodeDoc.created_at, KbNodeDoc.scalar.
  rewrite (Hk "id"), (Hk "title"), (Hk "body"), (Hk "tags"), (Hk "created"); try done; unfold v2_keys; set_solver.
Qed.

Context `{!NodeReplicaLaws}.


(** Reconciling a node that exists never replaces it: the node is either
    left as it is or becomes the merge of its own document with the remote
    operations, no other node changes, an independent lineage leaves the whole
    store untouched, and operations are handed back for the remote only when
    the node was there before. *)
Theorem reconcile_never_replaces now client kb id diff sv kb' out :
  reconcile_remote_node (F := F) show to_lowercase now client kb id diff sv = Some (kb', out) ->
  (outcome_action out = DivergentLineage -> kb' = kb /\ local_ahead out = None) /\
  (is_Some (local_ahead out) -> is_Some (nodes kb !! id)) /\
  (outcome_action out = Created <-> nodes kb !! id = None) /\
  (forall n, nodes kb !! id = Some n ->
     (nodes kb' = nodes kb \/ exists r r', to_crdt_doc show now client n = Some r /\ rep_apply r diff = Some r' /\
        nodes kb' = <[id := apply_crdt_doc show n r']> (nodes kb))).
Proof.
  unfold reconcile_remote_node. intros E.
  destruct (match node_state_vector _ _ _ _ _ with Some _ => _ | None => _ end) as [[]|] eqn:Ed; [|clear Ed|done].
  { injection E as <- <-. cbn. split_and!; [done|by intros [? ?]| |by left].
    split; [done|]. intros Hn. unfold node_state_vector in Ed. rewrite Hn in Ed. done. }
  destruct (apply_remote_update now client kb id diff) as [[st b]|] eqn:Ea; [|done].
  destruct (if bool_decide _ then _ else _) as [o|] eqn:Eo; [|done]. injection E as <- <-. cbn. split_and!.
  - case_bool_decide; done.
  - intros [x Hx]. case_bool_decide as Hs; [done|]. simplify_eq.
  - case_bool_decide as Hs; [|by apply eq_None_not_Some in Hs]. split; [done|]. intros Hn. rewrite Hn in Hs. by destruct Hs.
  - intros n Hn. unfold KbStore.apply_remote_update in Ea. rewrite Hn in Ea.
    destruct (to_crdt_doc show now client n) as [r|]; [|done]. unfold doc_apply_update in Ea.
    destruct (rep_apply r diff) as [r'|] eqn:Er; [|done]. destruct (negb _); injection Ea as <- <-; [|by left].
    right. by exists r, r'.
Qed.

(** A remote update that leaves title, body and tags alone is thrown away:
    whatever it does to the TODO state, priority, kind, aliases, properties or
    provenance of a node that exists, the store keeps the old node and the old
    document and reports that nothing changed. *)
Theorem metadata_update_is_lost now client kb id update n r r' :
  nodes kb !! id = Some n -> to_crdt_doc show now client n = Some r -> rep_apply r update = Some r' ->
  (KbNodeDoc.title (rep_view r'), KbNodeDoc.body (rep_view r'), KbNodeDoc.tags (rep_view r')) =
  (KbNodeDoc.title (rep_view r), KbNodeDoc.body (rep_view r), KbNodeDoc.tags (rep_view r)) ->
  apply_remote_update now client kb id update = Some (kb, false).
Proof.
  intros Hn Hr Hu [= Et Eb Eg]. unfold KbStore.apply_remote_update. rewrite Hn, Hr. unfold doc_apply_update. rewrite Hu.
  rewrite bool_decide_eq_true_2; [done|]. unfold KbNodeDoc.content_hash, KbNodeDoc.materialize. cbn. by rewrite Et, Eb, Eg.
Qed.

(** A node first seen as a remote update, or adopted, keeps only its text
    and tags: its document may say it is built-in content with a kind, a TODO
    state and a priority, the stored node is of unknown state with provenance
    [Federation]. *)
Theorem remote_creation_drops_fields now client kb id update r : rep_from_bytes update = Some r -> nodes kb !! id = None ->
  KbNodeDoc.node_id show (rep_view r) = id ->
  exists kb' kb'' n, apply_remote_update now client kb id update = Some (kb', true) /\
    adopt_remote_node (F := F) show to_lowercase kb id update = Some (kb'', true) /\
    nodes kb' !! id = Some n /\ nodes kb'' !! id = Some n /\
    n_kind n = Note /\ n_todo_state n = None /\ n_priority n = None /\ n_source n = Some Federation /\
    n_aliases n = [] /\ n_properties n = ∅.
Proof.
  intros Hr Hn Hid. unfold KbStore.apply_remote_update, KbStore.adopt_remote_node. rewrite Hr, Hn.
  exists (insert (F := F) to_lowercase kb (remote_node show r Note)).1. eexists. exists (remote_node show r Note).
  split; [reflexivity|]. split; [reflexivity|].
  assert (Hins : nodes (insert (F := F) to_lowercase kb (remote_node show r Note)).1 !! id = Some (remote_node show r Note)).
  { rewrite insert_nodes. cbn [remote_node n_id KbNodeDoc.materialize mat_id]. rewrite Hid. apply lookup_insert_eq. }
  split_and!; try done; exact Hins.
Qed.
End Documents.

(** ** A concrete replica: a map, encoded as the bits of its number *)
Module ToyReplica.
#[local] Instance Val_eq_dec : EqDecision Val.
Proof. solve_decision. Defined.
Definition val_sum (v : Val) : string + string + list string + gmap string string :=
  match v with VStr s => inl (inl (inl s)) | VText s => inl (inl (inr s)) | VArr l => inl (inr l) | VMap m => inr m end.
Definition sum_val (x : string + string + list string + gmap string string) : Val :=
  match x with inl (inl (inl s)) => VStr s | inl (inl (inr s)) => VText s | inl (inr l) => VArr l | inr m => VMap m end.
#[local, program] Instance Val_countable : Countable Val := inj_countable' val_sum sum_val _.
Next Obligation. by intros []. Qed.
Definition pack (v : gmap string Val) : string := bits (encode v).
Definition unpack (s : string) : option (gmap string Val) := decode (unbits s).
(** An update is the encoding of the fields it sets. *)
#[export] Instance toy_replica : NodeReplica := {|
  Rep := gmap string Val;
  rep_new _ v := v;
  rep_from_bytes := unpack;
  rep_encode := pack;
  rep_view v := v;
  rep_write _ _ v := v;
  rep_apply r u := (fun v => v ∪ r) <$> unpack u;
  rep_state_vector _ := "";
  rep_encode_diff r _ := Some (pack r);
  sv_decode s := Some (if bool_decide (s = "remote") then {[ 7%N := 1%N ]} else {[ 3%N := 1%N ]});
|}.
#[export] Instance toy_replica_laws : NodeReplicaLaws.
Proof.
  split; [done|done|]. intros r. exists r. split; [|done]. cbn. unfold unpack, pack. rewrite unbits_bits. apply countable.decode_encode.
Qed.
End ToyReplica.

Module KbStoreWitnesses.
Import Toy ToyReplica ToyFloat KbNodeWitnesses.

Definition same (s : string) : string := s.
Definition note (id body : string) (tags : list string) : Node := with_tags (Node_new id "T" Note body) tags.
Definition task : Node :=
  mkNode "t1" "Ship it" Task "see [[a]]" ["x"] (Some "TODO") (Some "A") (Some Seed) (Some 3%N) ["ship"] {[ "effort" := "2h" ]}
    None None None.
Notation step := (kb_step (F := N) show0 same).
Definition two_nodes : KnowledgeBase :=
  step (step KnowledgeBase_new (OpInsert (note "a" "to [[b]] and [[c]]" ["x"]))) (OpInsert (note "b" "back to [[a]]" ["x"; "y"])).
Definition edited_kb : KnowledgeBase := step two_nodes (OpInsert (note "a" "only [[c]]" ["y"])).

Lemma edited_kb_reachable allowed : (forall kb n, allowed kb (OpInsert n) = true) -> kb_reachable (F := N) show0 same allowed edited_kb.
Proof. intros Ha. repeat (apply reach_step; [|apply Ha]). apply reach_new. Qed.
Lemma link_index_is_exact_witness : linked (F := N) edited_kb /\ links_in edited_kb !! "c" = Some ["a"] /\ links_in edited_kb !! "b" = None.
Proof.
  split; [apply (link_index_is_exact show0 same), edited_kb_reachable; done|]. split; vm_compute; reflexivity.
Defined.


(** A remote update that sets the tags, and one that sets the TODO state. *)
Definition tag_update : string := pack {[ "tags" := VArr ["z"] ]}.
Definition todo_update : string := pack {[ "todo" := VStr "DONE" ]}.

Lemma reconcile_never_replaces_witness : exists kb' out,
  reconcile_remote_node (F := N) show0 same 5 1 two_nodes "a" tag_update "remote" = Some (kb', out) /\
  outcome_action out = DivergentLineage /\ kb' = two_nodes.
Proof.
  destruct (reconcile_remote_node (F := N) show0 same 5 1 two_nodes "a" tag_update "remote") as [[kb' out]|] eqn:E.
  - exists kb', out. assert (Ho : outcome_action out = DivergentLineage).
    { assert (Hc : (outcome_action ∘ snd) <$> reconcile_remote_node (F := N) show0 same 5 1 two_nodes "a" tag_update "remote" =
        Some DivergentLineage) by (vm_compute; reflexivity). rewrite E in Hc. by injection Hc. }
    split; [done|]. split; [done|].
    exact (proj1 (proj1 (reconcile_never_replaces show0 same _ _ _ _ _ _ _ _ E) Ho)).
  - exfalso. assert (Hc : is_Some (reconcile_remote_node (F := N) show0 same 5 1 two_nodes "a" tag_update "remote")).
    { apply (bool_decide_eq_true_1 _). vm_compute. reflexivity. }
    rewrite E in Hc. by destruct Hc.
Defined.

Lemma metadata_update_is_lost_witness : exists d r',
  to_crdt_doc show0 5 1 (note "b" "back to [[a]]" ["x"; "y"]) = Some d /\ rep_apply d todo_update = Some r' /\
  KbNodeDoc.todo_state show0 (rep_view r') = Some "DONE" /\
  apply_remote_update (F := N) show0 same 5 1 two_nodes "b" todo_update = Some (two_nodes, false).
Proof.
  eexists _, _. split; [reflexivity|]. split; [cbn [rep_apply toy_replica]; unfold todo_update, unpack, pack;
    rewrite unbits_bits, countable.decode_encode; reflexivity|].
  split; [vm_compute; reflexivity|].
  eapply metadata_update_is_lost; [vm_compute; reflexivity|reflexivity| |].
  - cbn [rep_apply toy_replica]. unfold todo_update, unpack, pack. 
    rewrite unbits_bits, countable.decode_encode. reflexivity.
  - vm_compute. reflexivity.
Defined.

Lemma remote_creation_drops_fields_witness : exists kb' kb'' n,
  apply_remote_update (F := N) show0 same 5 1 two_nodes "t1" (pack (write_v2_fields show0 task (KbNodeDoc.new_node 5 "t1" "Ship it" "b" []))) = Some (kb', true) /\
  adopt_remote_node (F := N) show0 same two_nodes "t1" (pack (write_v2_fields show0 task (KbNodeDoc.new_node 5 "t1" "Ship it" "b" []))) = Some (kb'', true) /\
  nodes kb' !! "t1" = Some n /\ nodes kb'' !! "t1" = Some n /\
  n_kind n = Note /\ n_todo_state n = None /\ n_priority n = None /\ n_source n = Some Federation /\ n_aliases n = [] /\ n_properties n = ∅.
Proof.
  eapply remote_creation_drops_fields.
  - cbn [rep_from_bytes toy_replica]. unfold unpack, pack. rewrite unbits_bits. apply countable.decode_encode.
  - vm_compute. reflexivity.
  - vm_compute. reflexivity.
Defined.
End KbStoreWitnesses.

(** ** Departures *)
Module KbStoreDepartures.
Import Toy ToyReplica ToyFloat KbNodeWitnesses KbStoreWitnesses.

(** Merging a remote update into an existing node rebuilds its reverse links
    and nothing else: the tag index still files the node under its old tags,
    not under its new ones, and the search cache holds the old text. *)
Theorem merge_leaves_indexes_stale :
  match apply_remote_update (F := N) show0 same 5 1 two_nodes "a" tag_update with
  | Some (kb, changed) =>
      changed = true /\ n_tags <$> nodes kb !! "a" = Some ["z"] /\
      "a" ∈ default ∅ (tag_index kb !! "x") /\ tag_index kb !! "z" = None /\
      lowered_tags <$> lower kb !! "a" = Some ["x"]
  | None => False
  end.
Proof. apply (bool_decide_eq_true_1 _). vm_compute. reflexivity. Qed.
End KbStoreDepartures.
