(* ===== verification/KbGraph.v ===== *)
(** * KbGraph: queries and walks over the knowledge base

    Models the queries of [KnowledgeBase] in [shared/kb/src/lib.rs]: the indexed
    lookups, the agenda, the health report, the walks over the link graph
    ([extract_subgraph], [extract_full_corpus], [hop_distances_from]) and the
    degree-based choices.

    Sets are iterated in the order of the model's sets; where the code sorts the
    result the order does not show. [usize] subtraction wraps at 64 bits, as in
    the release builds of the program. *)
From S2P Require Import Prelude DocAddress Membership OpLog KbNode OrgLinks KbStore.

(** ** Data *)

Record SubgraphSpec := mkSpec {
  starter_nodes : list string;
  max_depth : nat;
  include_backlinks : bool;
  node_cap : option nat;
  include_body : bool;
  required_tag : option string;
}.
Record SubgraphLink (F : Type) := mkSubLink { sl_source : string; sl_target : string; sl_rel_type : string; sl_weight : F }.
Arguments mkSubLink {F}.
Arguments sl_source {F}.
Arguments sl_target {F}.
Arguments sl_rel_type {F}.
Arguments sl_weight {F}.
Record SubgraphResult (F : Type) := mkResult {
  sub_nodes : list Node;
  sub_links : list (SubgraphLink F);
  boundary_links : list (SubgraphLink F);
  hidden_node_count : N;
  tag_filtered_count : N;
}.
Arguments mkResult {F}.
Arguments sub_nodes {F}.
Arguments sub_links {F}.
Arguments boundary_links {F}.
Arguments hidden_node_count {F}.
Arguments tag_filtered_count {F}.

Inductive BrokenLinkKind := TargetNotFound | MalformedId | TemplatePlaceholder.
Record BrokenLink := mkBroken { broken_source : string; broken_target : string; broken_display : string; broken_kind : BrokenLinkKind }.
Record KbHealthReport := mkHealth {
  total_nodes : nat;
  total_links : nat;
  orphan_ids : list string;
  broken_links : list BrokenLink;
  namespace_counts : gmap string nat;
}.
Inductive AgendaFilter :=
  | AgTodo (state : option string)
  | AgPriority (min_pri : string)
  | AgTag (tag : string)
  | AgStale (days : N)
  | AgOrphan
  | AgDeadEnd
  | AgMissingRole
  | AgWeaklyLinked (n : nat)
  | AgCustom (query : string).

(** [a - b] of two [usize]. *)
Definition usize_sub (a b : nat) : N := ((N.of_nat a + 2 ^ 64 - N.of_nat b) mod 2 ^ 64)%N.

(** Sorting of ids, and of nodes by id. *)
Definition sort_ids (l : list string) : list string := merge_sort String.le l.
Definition node_le (a b : Node) : Prop := String.le (n_id a) (n_id b).
#[export] Instance node_le_dec : RelDecision node_le.
Proof. intros a b. unfold node_le. apply _. Defined.
Definition sort_nodes (l : list Node) : list Node := merge_sort node_le l.

(** ** Link classification of the health report *)

Definition is_ascii_hexdigit (c : Ascii.ascii) : bool :=
  let n := Ascii.N_of_ascii c in
  ((48 <=? n) && (n <=? 57) || (65 <=? n) && (n <=? 70) || (97 <=? n) && (n <=? 102))%N.
Fixpoint all_bytes (f : Ascii.ascii -> bool) (s : string) : bool :=
  match s with "" => true | String c s' => f c && all_bytes f s' end.
Definition is_uuid_like (s : string) : bool :=
  let parts := split_char "-" s in
  bool_decide (map String.length parts = [8; 4; 4; 4; 12]) && forallb (all_bytes is_ascii_hexdigit) parts.
Definition classify_broken (target : string) : BrokenLinkKind :=
  let t := trim target in
  if bool_decide (t = "%s") || bool_decide (to_ascii_lowercase t = "uuid") || bool_decide (t = "...") then TemplatePlaceholder
  else if is_uuid_like t then TargetNotFound
  else MalformedId.

Section Queries.
Context {F : Type} `{F64 F}.
Implicit Types (kb : KnowledgeBase) (n : Node).

Local Notation links := (links (F := F)).

(** ** Lookups *)

Definition incoming kb (target : string) : list string := default [] (links_in kb !! target).
Definition ids kb : list string := (map_to_list (nodes kb)).*1.
Definition values kb : list Node := (map_to_list (nodes kb)).*2.
Definition list_ids kb (prefix : option string) : list string :=
  sort_ids (List.filter (fun k => match prefix with None => true | Some p => starts_with p k end) (ids kb)).
Definition ids_by_source_file kb (path : string) : list string :=
  omap (fun '(id, n) => if bool_decide (n_source_file n = Some path) then Some id else None) (map_to_list (nodes kb)).
Definition links_from kb (id : string) : list string := default [] (links <$> nodes kb !! id).
Definition links_to kb (target : string) : list string := sort_ids (incoming kb target).
Fixpoint push_unseen (seen l : list string) : list string :=
  match l with
  | [] => []
  | x :: l' => if bool_decide (x ∈ seen) then push_unseen seen l' else x :: push_unseen (x :: seen) l'
  end.
Definition neighbors kb (id : string) : list string :=
  let out := links_from kb id in out ++ push_unseen out (links_to kb id).
Definition linked_in_degree kb : gmap string nat := length <$> links_in kb.
Definition namespace_prefixes kb : list string :=
  sort_ids (elements (list_to_set (C := gset string)
    (omap (fun id => match split_once ":" id with Some (ns, _) => Some (ns +:+ ":") | None => None end) (ids kb)))).
Definition all_id_title_pairs kb : list (string * string) := map (fun n => (n_id n, n_title n)) (sort_nodes (values kb)).
Definition validate_links kb (node_id : string) : list string :=
  match nodes kb !! node_id with
  | Some n => List.filter (fun t => negb (bool_decide (is_Some (nodes kb !! t)))) (parse_links (n_body n)).*1
  | None => []
  end.

(** The nodes a secondary index names, sorted by id. *)
Definition resolve kb (s : gset string) : list Node := omap (fun id => nodes kb !! id) (elements s).
Definition by_index kb (m : gmap string (gset string)) (k : string) : list Node :=
  sort_nodes (match m !! k with Some s => resolve kb s | None => [] end).
Definition nodes_by_todo_state kb (state : string) : list Node := by_index kb (todo_index kb) state.
Definition nodes_by_priority kb (priority : string) : list Node := by_index kb (priority_index kb) priority.
Definition nodes_by_tag kb (tag : string) : list Node := by_index kb (tag_index kb) tag.
(** [Vec::dedup_by] on the id. *)
Fixpoint dedup_ids (l : list Node) : list Node :=
  match l with
  | a :: ((b :: _) as l') => if bool_decide (n_id a = n_id b) then
                               match dedup_ids l' with [] => [a] | _ :: r => a :: r end
                             else a :: dedup_ids l'
  | _ => l
  end.
Definition todo_nodes kb : list Node := dedup_ids (sort_nodes ((map_to_list (todo_index kb)).*2 ≫= resolve kb)).

(** [json_tags] is [serde_json::to_string] of a list of tags. *)
Definition has_incoming kb (id : string) : bool := negb (bool_decide (incoming kb id = [])).
Definition agenda_matches (json_tags : list string -> string) kb (f : AgendaFilter) (id : string) n : option bool :=
  match f with
  | AgTodo None => Some (bool_decide (is_Some (n_todo_state n)))
  | AgTodo (Some state) => Some (bool_decide (n_todo_state n = Some state))
  | AgPriority min_pri => Some (match n_priority n with Some p => negb (String.ltb min_pri p) | None => false end)
  | AgTag tag => Some (contains_str tag (json_tags (n_tags n)))
  | AgOrphan => Some (negb (bool_decide (n_kind n = Index)) && bool_decide (links n = []) && negb (has_incoming kb id))
  | AgDeadEnd => Some (bool_decide (links n = []))
  | AgMissingRole => Some (bool_decide (n_properties n !! "role" = None))
  | AgWeaklyLinked k => Some (length (links n) <? k)
  | AgStale _ | AgCustom _ => None
  end.
Definition agenda_query_in_memory (json_tags : list string -> string) kb (f : AgendaFilter) : option (list Node) :=
  match f with
  | AgStale _ | AgCustom _ => None
  | _ => Some (sort_nodes (omap (fun '(id, n) =>
           if default false (agenda_matches json_tags kb f id n) && negb (is_empty (n_title n)) then Some n else None)
           (map_to_list (nodes kb))))
  end.

(** ** Health *)

Definition health_step (external : string -> bool) kb (acc : KbHealthReport) (entry : string * Node) : KbHealthReport :=
  let '(id, n) := entry in
  let pairs := parse_links (n_body n) in
  let broken := omap (fun '(t, d) =>
    if bool_decide (is_Some (nodes kb !! t)) || external t then None else Some (mkBroken (n_id n) t d (classify_broken t))) pairs in
  let orphan := negb (bool_decide (n_kind n = Index)) && bool_decide (pairs = []) && negb (has_incoming kb id) in
  let ns := match split_once ":" id with Some (ns, _) => ns | None => "(none)" end in
  mkHealth (S (total_nodes acc)) (total_links acc + length pairs)
    (if orphan then orphan_ids acc ++ [id] else orphan_ids acc) (broken_links acc ++ broken)
    (<[ns := S (default 0 (namespace_counts acc !! ns))]> (namespace_counts acc)).
Definition health_report_with_visibility (external : string -> bool) (node_visible : Node -> bool) kb : KbHealthReport :=
  let r := foldl (health_step external kb) (mkHealth 0 0 [] [] ∅)
             (List.filter (fun '(_, n) => node_visible n) (map_to_list (nodes kb))) in
  mkHealth (total_nodes r) (total_links r) (sort_ids (orphan_ids r)) (broken_links r) (namespace_counts r).
Definition health_report kb : KbHealthReport := health_report_with_visibility (fun _ => false) (fun _ => true) kb.

(** ** Degrees *)

Definition node_degree kb (id : string) : nat := length (links_from kb id) + length (incoming kb id).
(** Descending degree, then ascending id. *)
Definition degree_le kb (a b : string) : Prop :=
  node_degree kb b < node_degree kb a \/ node_degree kb a = node_degree kb b /\ String.le a b.
#[export] Instance degree_le_dec kb : RelDecision (degree_le kb).
Proof. intros a b. unfold degree_le. apply _. Defined.
(** The last maximum in iteration order; the order is total, so there is one. *)
Definition hub_node_id kb : option string :=
  foldl (fun best id => match best with
                        | None => Some id
                        | Some b => if decide (degree_le kb id b) then Some id else Some b
                        end) None (ids kb).

(** ** Walks *)

(** One node of the frontier, in the round that is the [last] or not. *)
Definition visit kb (backlinks last : bool) (acc : gset string * list string) (id : string) : gset string * list string :=
  let '(included, next) := acc in
  match nodes kb !! id with
  | Some n =>
      if bool_decide (id ∈ included) then acc
      else
        let included := {[id]} ∪ included in
        if last then (included, next)
        else
          let fresh := List.filter (fun x => negb (bool_decide (x ∈ included))) in
          (included, next ++ fresh (links n) ++ (if backlinks then fresh (incoming kb id) else []))
  | None => acc
  end.
Fixpoint walk kb (backlinks : bool) (rounds : nat) (included : gset string) (frontier : list string) : gset string :=
  match rounds with
  | 0 => included
  | S r =>
      match frontier with
      | [] => included
      | _ => let '(included, next) := foldl (visit kb backlinks (bool_decide (r = 0))) (included, []) frontier in
             walk kb backlinks r included next
      end
  end.
Definition bfs_walk kb (spec : SubgraphSpec) : gset string :=
  walk kb (include_backlinks spec) (S (max_depth spec)) ∅ (starter_nodes spec).

(** The cap: the exempt ids and the first of the others by degree. *)
Definition kept_by_cap kb (exempt included : gset string) (budget : nat) : gset string :=
  exempt ∪ list_to_set (take budget (merge_sort (degree_le kb) (elements (included ∖ exempt)))).

Definition strip_body n : Node :=
  mkNode (n_id n) (n_title n) (n_kind n) "" (n_tags n) (n_todo_state n) (n_priority n) (n_source n) (n_source_version n)
    (n_aliases n) ∅ None None None.
Definition typed_edges kb (id : string) : list (SubgraphLink F) :=
  match nodes kb !! id with
  | Some n => map (fun '(t, rel, w) => mkSubLink id t rel w) (links_typed n)
  | None => []
  end.
Definition collect_and_categorize kb (included : gset string) (with_body : bool)
    : list Node * list (SubgraphLink F) * list (SubgraphLink F) :=
  let found := omap (fun id => nodes kb !! id) (elements included) in
  let edges := elements included ≫= typed_edges kb in
  (if with_body then found else map strip_body found,
   List.filter (fun l => bool_decide (sl_target l ∈ included)) edges,
   List.filter (fun l => negb (bool_decide (sl_target l ∈ included))) edges).

Definition has_tag kb (tag id : string) : bool :=
  match nodes kb !! id with Some n => bool_decide (tag ∈ n_tags n) | None => false end.
Definition extract_subgraph kb (spec : SubgraphSpec) : SubgraphResult F :=
  let included := bfs_walk kb spec in
  let starters : gset string := list_to_set (starter_nodes spec) in
  let '(included, tag_filtered) :=
    match required_tag spec with
    | Some tag =>
        let kept := filter (fun id => id ∈ starters \/ has_tag kb tag id = true) included in
        (kept, usize_sub (size included) (size kept))
    | None => (included, 0%N)
    end in
  let '(included, hidden) :=
    match node_cap spec with
    | Some cap =>
        if cap <? size included then
          let kept := kept_by_cap kb starters included (cap - size starters) in
          (kept, usize_sub (size included) (size kept))
        else (included, 0%N)
    | None => (included, 0%N)
    end in
  let '(ns, internal, boundary) := collect_and_categorize kb included (include_body spec) in
  mkResult ns internal boundary hidden tag_filtered.

Definition extract_full_corpus kb (cap : option nat) (protected : gset string) (with_body : bool) : SubgraphResult F :=
  let included : gset string := list_to_set (list_ids kb None) in
  let '(included, hidden) :=
    match cap with
    | Some cap =>
        if cap <? size included then
          let in_scope := included ∩ protected in
          let kept := kept_by_cap kb in_scope included (cap - size in_scope) in
          (kept, usize_sub (size included) (size kept))
        else (included, 0%N)
    | None => (included, 0%N)
    end in
  let '(ns, internal, boundary) := collect_and_categorize kb included with_body in
  mkResult ns internal boundary hidden 0.

(** [hop_distances_from]: a round reaches the unseen neighbours of the frontier.
    Every round but the last reaches a new id, and an id that is reached is a
    node or the target of a link, so one more round than there are such ids is
    enough. *)
Definition reach_one (depth : nat) (acc : gmap string nat * list string) (n : string) : gmap string nat * list string :=
  let '(distances, next) := acc in
  if bool_decide (is_Some (distances !! n)) then acc else (<[n := S depth]> distances, next ++ [n]).
Definition expand kb (depth : nat) (acc : gmap string nat * list string) (id : string) : gmap string nat * list string :=
  foldl (reach_one depth) acc (links_from kb id ++ incoming kb id).
Fixpoint hops (fuel : nat) kb (distances : gmap string nat) (frontier : list string) (depth : nat) : gmap string nat :=
  match fuel with
  | 0 => distances
  | S fuel' =>
      match frontier with
      | [] => distances
      | _ => let '(distances, next) := foldl (expand kb depth) (distances, []) frontier in
             hops fuel' kb distances next (S depth)
      end
  end.
Definition known_ids kb : gset string := list_to_set (ids kb ++ (values kb ≫= links)).
Definition hop_distances_from kb (focus : string) : gmap string nat :=
  if bool_decide (is_Some (nodes kb !! focus))
  then hops (S (S (size (known_ids kb)))) kb {[focus := 0]} [focus] 0
  else ∅.
End Queries.

(** ** Lookups through the indexes *)

Lemma elem_of_merge_sort {A} (R : relation A) `{!RelDecision R} l x : x ∈ merge_sort R l <-> x ∈ l.
Proof. by rewrite merge_sort_Permutation. Qed.

Section Exact.
Context {F : Type} `{F64 F} (to_lowercase : string -> string).
Implicit Types (kb : KnowledgeBase) (n : Node).

Local Notation links := (links (F := F)).

Lemma elem_of_ids kb i : i ∈ ids kb <-> is_Some (nodes kb !! i).
Proof.
  unfold ids. rewrite list_elem_of_fmap. split.
  - intros ([j n] & -> & Hn%elem_of_map_to_list). by exists n.
  - intros [n Hn]. exists (i, n). by rewrite elem_of_map_to_list.
Qed.
Lemma elem_of_values kb n : linked (F := F) kb -> n ∈ values kb <-> nodes kb !! n_id n = Some n.
Proof.
  intros Hl. unfold values. rewrite list_elem_of_fmap. split.
  - intros ([j m] & -> & Hn%elem_of_map_to_list). cbn. by rewrite (linked_keys _ Hl j m Hn).
  - intros Hn. exists (n_id n, n). by rewrite elem_of_map_to_list.
Qed.
Lemma elem_of_resolve kb s n : linked (F := F) kb -> n ∈ resolve kb s <-> nodes kb !! n_id n = Some n /\ n_id n ∈ s.
Proof.
  intros Hl. unfold resolve. rewrite list_elem_of_omap. split.
  - intros (i & Hi & Hn). rewrite (linked_keys _ Hl i n Hn). split; [done|]. by apply elem_of_elements.
  - intros [Hn Hi]. exists (n_id n). by rewrite elem_of_elements.
Qed.
Lemma resolve_ids_NoDup kb s : linked (F := F) kb -> NoDup (map n_id (resolve kb s)).
Proof.
  intros Hl. unfold resolve. pose proof (NoDup_elements s) as Hn. induction (elements s) as [|i l IH]; [constructor|].
  inversion Hn as [|?? Hi Hl']; subst. cbn. destruct (nodes kb !! i) as [n|] eqn:E; [|by apply IH]. cbn. constructor; [|by apply IH].
  rewrite (linked_keys _ Hl i n E). intros (m & Em & (j & Hj & Hm)%list_elem_of_omap)%list_elem_of_fmap.
  rewrite (linked_keys _ Hl j m Hm) in Em. by subst.
Qed.

(** [l] is the list of the stored nodes with property [P], once each, by
    ascending id. There is only one such list. *)
Definition exactly kb (P : Node -> Prop) (l : list Node) : Prop :=
  Sorted node_le l /\ NoDup (map n_id l) /\ forall n, n ∈ l <-> nodes kb !! n_id n = Some n /\ P n.
#[local] Instance node_le_total : Total node_le.
Proof. intros a b. unfold node_le. apply String.le_total. Qed.
Lemma by_index_exact kb (m : gmap string (gset string)) keys k : linked (F := F) kb ->
  indexes (in_set m) (nodes kb) keys -> exactly kb (fun n => k ∈ keys n) (by_index kb m k).
Proof.
  intros Hl Hi. unfold by_index, sort_nodes. set (l := match m !! k with Some s => _ | None => _ end).
  assert (Hmem : forall n, n ∈ l <-> nodes kb !! n_id n = Some n /\ k ∈ keys n).
  { intros n. transitivity (nodes kb !! n_id n = Some n /\ in_set m k (n_id n)).
    - unfold l, in_set. destruct (m !! k) as [s|]; cbn; [by apply elem_of_resolve|set_solver].
    - rewrite (Hi k (n_id n)). naive_solver. }
  assert (Hnd : NoDup (map n_id l)).
  { unfold l. destruct (m !! k) as [s|]; [by apply resolve_ids_NoDup|constructor]. }
  split_and!.
  - apply Sorted_merge_sort; apply _.
  - by rewrite merge_sort_Permutation.
  - intros n. by rewrite elem_of_merge_sort.
Qed.

(** Every lookup of a consistent store answers exactly from its nodes:
    backlinks are the stored nodes whose body links to the target, and the
    lookups by tag, TODO state and priority are the nodes that have it, each
    once and in ascending order of id. *)
Theorem lookups_are_exact kb : linked (F := F) kb -> indexed to_lowercase kb -> forall k,
  (Sorted String.le (links_to kb k) /\ NoDup (links_to kb k) /\
   forall s, s ∈ links_to kb k <-> exists n, nodes kb !! s = Some n /\ k ∈ links n) /\
  exactly kb (fun n => k ∈ n_tags n) (nodes_by_tag kb k) /\
  exactly kb (fun n => n_todo_state n = Some k) (nodes_by_todo_state kb k) /\
  exactly kb (fun n => n_priority n = Some k) (nodes_by_priority kb k).
Proof.
  intros Hl Hi k.
  assert (Hopt : forall (f : Node -> option string) l, exactly kb (fun n => k ∈ option_list (f n)) l -> exactly kb (fun n => f n = Some k) l).
  { intros f l (Hs & Hn & Hm). split_and!; [done|done|]. intros n. rewrite Hm. destruct (f n); cbn; set_solver. }
  split_and!.
  - apply (Sorted_merge_sort _).
  - unfold links_to, sort_ids, incoming. rewrite merge_sort_Permutation.
    destruct (links_in kb !! k) as [l|] eqn:E; [by apply (linked_entries _ Hl k)|constructor].
  - intros s. unfold links_to, sort_ids. rewrite elem_of_merge_sort. apply (linked_index _ Hl).
  - apply by_index_exact; [done|apply (indexed_tags _ _ Hi)].
  - apply (Hopt n_todo_state), by_index_exact; [done|apply (indexed_todo _ _ Hi)].
  - apply (Hopt n_priority), by_index_exact; [done|apply (indexed_priority _ _ Hi)].
Qed.
End Exact.

(** ** Reachability *)

Section Walks.
Context {F : Type} `{F64 F}.
Implicit Types (kb : KnowledgeBase) (n : Node).

Local Notation links := (links (F := F)).

(** [x] reaches [y] over one link of [x], or backwards over one link to [x]. *)
Definition edge kb (backlinks : bool) (x y : string) : Prop :=
  exists n, nodes kb !! x = Some n /\ (y ∈ links n \/ backlinks = true /\ y ∈ incoming kb x).
Inductive steps (R : string -> string -> Prop) (starts : list string) : nat -> string -> Prop :=
  | steps_0 x : x ∈ starts -> steps R starts 0 x
  | steps_S k x y : steps R starts k x -> R x y -> steps R starts (S k) y.

Section Ball.
Variables (kb : KnowledgeBase) (backlinks : bool) (starts : list string).
Local Notation reach := (steps (edge kb backlinks) starts).
Local Notation is_node x := (is_Some (nodes kb !! x)).

Lemma visit_frontier last frontier : forall inc acc, let '(inc', next) := foldl (visit (F := F) kb backlinks last) (inc, acc) frontier in
  (forall x, x ∈ inc' <-> x ∈ inc \/ x ∈ frontier /\ is_node x) /\
  (forall y, y ∈ next -> y ∈ acc \/ exists x, x ∈ frontier /\ edge kb backlinks x y) /\
  (forall y, y ∈ acc -> y ∈ next) /\
  (last = false -> forall x y, x ∈ frontier -> x ∉ inc -> edge kb backlinks x y -> y ∈ next \/ y ∈ inc').
Proof.
  induction frontier as [|z frontier IH]; intros inc acc; [cbn; set_solver|]. cbn [foldl].
  unfold visit at 2. destruct (nodes kb !! z) as [n|] eqn:Hz; [case_bool_decide as Hin|].
  - specialize (IH inc acc). destruct (foldl _ (inc, acc) frontier) as [inc' next]. destruct IH as (I1 & I2 & I3 & I4).
    split_and!; [|set_solver|done|].
    + intros x. rewrite I1, elem_of_cons. split; [naive_solver|]. intros [?|[[->|?] ?]]; auto.
    + intros Hl x y [->|Hx]%elem_of_cons Hni; [done|]. by apply I4.
  - set (inc1 := {[z]} ∪ inc). set (fresh := List.filter _).
    assert (Hfr : forall l y, y ∈ fresh l <-> y ∈ l /\ y ∉ inc1).
    { intros l y. unfold fresh. by rewrite elem_of_List_filter, negb_true_iff, bool_decide_eq_false. }
    set (acc1 := if last then acc else acc ++ fresh (links n) ++ (if backlinks then fresh (incoming kb z) else [])).
    assert (Hacc : forall y, y ∈ acc1 <-> y ∈ acc \/ last = false /\ edge kb backlinks z y /\ y ∉ inc1).
    { intros y. unfold acc1, edge. rewrite Hz. destruct last; [naive_solver|]. rewrite !elem_of_app, Hfr.
      destruct backlinks; [rewrite Hfr|]; set_solver. }
    replace (if last then (inc1, acc) else _) with (inc1, acc1) by (unfold acc1; by destruct last).
    specialize (IH inc1 acc1). destruct (foldl _ (inc1, acc1) frontier) as [inc' next]. destruct IH as (I1 & I2 & I3 & I4).
    split_and!.
    + intros x. rewrite I1. unfold inc1. rewrite elem_of_union, elem_of_singleton, elem_of_cons. split; [|naive_solver].
      intros [[->|?]|[??]]; [|by left|right; auto]. right. split; [by left|by exists n].
    + intros y Hy. destruct (I2 y Hy) as [[?|(_ & ? & _)]%Hacc|(x & ? & ?)]; [by left|right; exists z; set_solver|right; exists x; set_solver].
    + intros y Hy. apply I3, Hacc. by left.
    + intros Hl x y [->|Hx]%elem_of_cons Hni He.
      * destruct (decide (y ∈ inc1)) as [Hy|Hy]; [right; apply I1; by left|]. left. apply I3, Hacc. by right.
      * destruct (decide (x = z)) as [->|Hne]; [|apply (I4 Hl x y Hx); [unfold inc1; set_solver|done]].
        destruct (decide (y ∈ inc1)) as [Hy|Hy]; [right; apply I1; by left|]. left. apply I3, Hacc. by right.
  - specialize (IH inc acc). destruct (foldl _ (inc, acc) frontier) as [inc' next]. destruct IH as (I1 & I2 & I3 & I4).
    split_and!; [|set_solver|done|].
    + intros x. rewrite I1, elem_of_cons. split; [naive_solver|]. intros [?|[[->|?] Hs]]; auto. rewrite Hz in Hs. by destruct Hs.
    + intros Hl x y [->|Hx]%elem_of_cons Hni He; [destruct He as (m & Hm & _); congruence|]. exact (I4 Hl x y Hx Hni He).
Qed.

(** The walk before its round at depth [k]: the nodes nearer than [k] are in, the
    frontier has what is at [k] and not in yet. *)
Record at_depth (k : nat) (inc : gset string) (frontier : list string) : Prop := {
  in_near x : x ∈ inc -> is_node x /\ exists j, j < k /\ reach j x;
  near_in x j : reach j x -> j < k -> is_node x -> x ∈ inc;
  frontier_at x : x ∈ frontier -> reach k x;
  at_frontier x : reach k x -> is_node x -> x ∈ frontier \/ x ∈ inc;
}.
Lemma walk_ball r : forall k inc frontier, at_depth k inc frontier ->
  forall x, x ∈ walk (F := F) kb backlinks (S r) inc frontier <-> is_node x /\ exists j, j <= k + r /\ reach j x.
Proof.
  induction r as [|r IH]; intros k inc frontier [H1 H2 H3 H4] x.
  - assert (Hw : x ∈ walk (F := F) kb backlinks 1 inc frontier <-> x ∈ inc \/ x ∈ frontier /\ is_node x).
    { destruct frontier as [|z fr]; [cbn; set_solver|]. cbn [walk].
      pose proof (visit_frontier (bool_decide (0 = 0)) (z :: fr) inc []) as Hv.
      destruct (foldl _ (inc, []) (z :: fr)) as [inc' next]. by apply Hv. }
    rewrite Hw. split.
    + intros [[Hx (j & Hj & Hr)]%H1|[Hx Hn]]; (split; [done|]); [exists j; split; [lia|done]|]. exists k. split; [lia|by apply H3].
    + intros [Hn (j & Hj & Hr)]. destruct (decide (j < k)) as [Hlt|Hge]; [left; by eapply H2|].
      assert (j = k) as -> by lia. destruct (H4 x Hr Hn); auto.
  - destruct frontier as [|z fr].
    + cbn [walk]. assert (Hno : forall j y, reach (k + j) y -> is_node y -> y ∈ inc).
      { induction j as [|j IHj]; intros y Hy Hn.
        - rewrite Nat.add_0_r in Hy. destruct (H4 y Hy Hn) as [?%elem_of_nil|?]; done.
        - rewrite Nat.add_succ_r in Hy. inversion Hy as [|? p ? Hp He]; subst. assert (Hpn : is_node p).
          { destruct He as (n & Hn' & _). by exists n. }
          destruct (H1 p (IHj p Hp Hpn)) as [_ (i & Hi & Hri)].
          destruct (decide (S i = k)) as [Hk|Hk].
          + destruct (H4 y) as [?%elem_of_nil|?]; [rewrite <- Hk; by econstructor|done|done|done].
          + apply (H2 y (S i)); [by econstructor|lia|done]. }
      split; [intros Hx; destruct (H1 x Hx) as [? (j & ? & ?)]; split; [done|exists j; split; [lia|done]]|].
      intros [Hn (j & Hj & Hr)]. destruct (decide (j < k)) as [Hlt|Hge]; [by eapply H2|].
      apply (Hno (j - k)); [by replace (k + (j - k)) with j by lia|done].
    + cbn [walk]. pose proof (visit_frontier (bool_decide (S r = 0)) (z :: fr) inc []) as Hv.
      destruct (foldl _ (inc, []) (z :: fr)) as [inc' next]. destruct Hv as (I1 & I2 & I3 & I4).
      assert (Hat : at_depth (S k) inc' next).
      { assert (Hin : forall y j, reach j y -> j < S k -> is_node y -> y ∈ inc').
        { intros y j Hy Hj Hn. apply I1. destruct (decide (j < k)); [left; by eapply H2|].
          assert (j = k) as -> by lia. destruct (H4 y Hy Hn); auto. }
        split.
        - intros y Hy%I1. destruct Hy as [[? (j & ? & ?)]%H1|[Hf Hn]]; (split; [done|]); [exists j; split; [lia|done]|].
          exists k. split; [lia|by apply H3].
        - intros y j. intros. by eapply Hin.
        - intros y Hy. destruct (I2 y Hy) as [[]%elem_of_nil|(p & Hp & He)]. econstructor; [by apply H3|done].
        - intros y Hy Hn. inversion Hy as [|? p ? Hp He]; subst.
          assert (Hpn : is_node p). { destruct He as (n & Hn' & _). by exists n. }
          destruct (decide (p ∈ inc)) as [Hpi|Hpi].
          + right. destruct (H1 p Hpi) as [_ (j & Hj & Hrj)]. apply (Hin y (S j)); [by econstructor|lia|done].
          + destruct (H4 p Hp Hpn) as [Hf|?]; [|done]. by apply (I4 eq_refl p y). }
      rewrite (IH (S k) inc' next Hat x). by replace (k + S r) with (S k + r) by lia.
Qed.
End Ball.

(** Subgraph extraction selects a ball: without a cap or a tag, the nodes a
    walk includes are exactly the stored nodes that the starters reach in at
    most [max_depth] links, following backlinks too when asked to. A dead link
    adds nothing, and neither the order of the walk nor the nodes it meets
    twice matter. *)
Theorem subgraph_is_a_ball kb spec x : x ∈ bfs_walk (F := F) kb spec <->
  is_Some (nodes kb !! x) /\
  exists j, j <= max_depth spec /\ steps (edge kb (include_backlinks spec)) (starter_nodes spec) j x.
Proof.
  apply (walk_ball kb (include_backlinks spec) (starter_nodes spec) (max_depth spec) 0 ∅ (starter_nodes spec)).
  split; [set_solver|lia|by constructor|]. intros y Hy _. left. by inversion Hy.
Qed.

(** ** Distances *)

Definition adjacent kb (x : string) : list string := links_from (F := F) kb x ++ incoming kb x.

Lemma foldl_nested {A B C} (f : A -> C -> A) (g : B -> list C) l : forall a,
  foldl (fun a x => foldl f a (g x)) a l = foldl f a (l ≫= g).
Proof. induction l as [|x l IH]; intros a; [done|]. cbn. by rewrite IH, foldl_app. Qed.
Lemma expand_all kb k acc fr : foldl (expand (F := F) kb k) acc fr = foldl (reach_one k) acc (fr ≫= adjacent kb).
Proof. apply foldl_nested. Qed.
Lemma reach_one_all k l : forall d acc, let '(d', next) := foldl (reach_one k) (d, acc) l in
  (forall x, d' !! x = match d !! x with Some v => Some v | None => if bool_decide (x ∈ l) then Some (S k) else None end) /\
  (forall x, x ∈ next <-> x ∈ acc \/ d !! x = None /\ x ∈ l).
Proof.
  induction l as [|y l IH]; intros d acc; [cbn; split; intros x; [by destruct (d !! x)|set_solver]|].
  cbn [foldl]. unfold reach_one at 2. case_bool_decide as Hy.
  - specialize (IH d acc). destruct (foldl _ (d, acc) l) as [d' next]. destruct IH as [I1 I2]. split; intros x.
    + rewrite I1. destruct (d !! x) as [v|] eqn:E; [done|]. assert (x <> y) by (intros ->; rewrite E in Hy; by destruct Hy).
      do 2 case_bool_decide; try done; exfalso; set_solver.
    + rewrite I2, elem_of_cons. split; [naive_solver|]. intros [?|[Hx [->|?]]]; auto. rewrite Hx in Hy. by destruct Hy.
  - apply eq_None_not_Some in Hy. specialize (IH (<[y := S k]> d) (acc ++ [y])).
    destruct (foldl _ (<[y := S k]> d, acc ++ [y]) l) as [d' next]. destruct IH as [I1 I2]. split; intros x.
    + rewrite I1. destruct (decide (x = y)) as [->|Hne].
      * rewrite lookup_insert_eq, Hy, bool_decide_eq_true_2 by (by left). done.
      * rewrite lookup_insert_ne by done. destruct (d !! x); [done|]. do 2 case_bool_decide; try done; exfalso; set_solver.
    + rewrite I2, elem_of_app, list_elem_of_singleton, elem_of_cons. destruct (decide (x = y)) as [->|Hne].
      * naive_solver.
      * rewrite lookup_insert_ne by done. naive_solver.
Qed.

Section Distances.
Variables (kb : KnowledgeBase) (focus : string).
Hypotheses (Hlinked : linked (F := F) kb) (Hfocus : is_Some (nodes kb !! focus)).
Local Notation reach := (steps (fun x y => y ∈ adjacent kb x) [focus]).

(** [v] links lead from the focus to [x], and no fewer do. *)
Definition distance (x : string) (v : nat) : Prop := reach v x /\ forall j, reach j x -> v <= j.
Record hop_inv (k : nat) (d : gmap string nat) (fr : list string) : Prop := {
  hop_sound x v : d !! x = Some v -> v <= k /\ distance x v;
  hop_complete x j : reach j x -> j <= k -> is_Some (d !! x);
  hop_frontier x : x ∈ fr <-> d !! x = Some k;
  hop_known x : is_Some (d !! x) -> x ∈ known_ids (F := F) kb;
}.
Lemma adjacent_known x y : y ∈ adjacent kb x -> y ∈ known_ids (F := F) kb.
Proof.
  unfold adjacent, known_ids. rewrite elem_of_app, elem_of_list_to_set, elem_of_app. intros [Hy|Hy].
  - right. unfold links_from in Hy. destruct (nodes kb !! x) as [n|] eqn:E; [|by apply elem_of_nil in Hy].
    apply list_elem_of_bind. exists n. split; [done|]. apply (elem_of_values kb n Hlinked). by rewrite (linked_keys _ Hlinked x n E).
  - left. apply elem_of_ids. destruct (proj1 (linked_index _ Hlinked x y) Hy) as (n & Hn & _). by exists n.
Qed.
Lemma hop_step k d fr : hop_inv k d fr -> let '(d', next) := foldl (expand (F := F) kb k) (d, []) fr in
  hop_inv (S k) d' next /\ (next <> [] -> size d < size d').
Proof.
  intros [Hs Hc Hf Hk]. rewrite expand_all. pose proof (reach_one_all k (fr ≫= adjacent kb) d []) as Ha.
  destruct (foldl _ (d, []) _) as [d' next]. destruct Ha as [I1 I2].
  assert (Hl : forall x, x ∈ fr ≫= adjacent kb <-> exists p, d !! p = Some k /\ x ∈ adjacent kb p).
  { intros x. rewrite list_elem_of_bind. setoid_rewrite <- Hf. naive_solver. }
  assert (Hext : forall x v, d !! x = Some v -> d' !! x = Some v) by (intros x v Hx; by rewrite I1, Hx).
  split; [split|].
  - intros x v. rewrite I1. destruct (d !! x) as [w|] eqn:E; [intros [= <-]; destruct (Hs x w E); split; [lia|done]|].
    case_bool_decide as Hx; [|done]. intros [= <-]. apply Hl in Hx as (p & Hp & Hx). destruct (Hs p k Hp) as [_ [Hr _]].
    split; [done|]. split; [by econstructor|]. intros j Hj. destruct (decide (j <= k)) as [Hle|]; [|lia].
    destruct (Hc x j Hj Hle) as [? ?]. congruence.
  - intros x j Hj Hle. destruct (decide (j <= k)) as [Hjk|].
    { destruct (Hc x j Hj Hjk) as [v Hv]. exists v. by apply Hext. }
    assert (j = S k) as -> by lia. inversion Hj as [|? p ? Hp Hx]; subst. destruct (Hc p k Hp ltac:(lia)) as [v Hv].
    destruct (Hs p v Hv) as [Hvk [Hrv _]]. destruct (decide (v = k)) as [->|Hne].
    + rewrite I1. destruct (d !! x); [by eexists|]. rewrite bool_decide_eq_true_2; [by eexists|]. apply Hl. eauto.
    + destruct (Hc x (S v)) as [w Hw]; [by econstructor|lia|]. exists w. by apply Hext.
  - intros x. rewrite I2, I1. destruct (d !! x) as [w|] eqn:E; [destruct (Hs x w E) as [? _]|case_bool_decide]; split.
    + intros [?%elem_of_nil|[??]]; done.
    + intros [= ->]. lia.
    + done.
    + intros _. right. done.
    + intros [?%elem_of_nil|[_ ?]]; done.
    + done.
  - intros x [v Hv]. rewrite I1 in Hv. destruct (d !! x) eqn:E; [apply Hk; by eexists|].
    case_bool_decide as Hx; [|done]. apply Hl in Hx as (p & _ & Hx). by eapply adjacent_known.
  - intros Hne. rewrite <- !size_dom. apply subset_size. split.
    + intros x [v Hv]%elem_of_dom. apply elem_of_dom. exists v. by apply Hext.
    + destruct next as [|y next]; [done|]. assert (Hy : y ∈ y :: next) by (by left).
      apply I2 in Hy as [?%elem_of_nil|[Hy1 Hy2]]; [done|]. intros Hsub. specialize (Hsub y).
      rewrite !elem_of_dom, I1, Hy1, bool_decide_eq_true_2 in Hsub by done. by destruct Hsub as [? ?].
Qed.
Lemma hop_done k d : hop_inv k d [] -> forall x v, d !! x = Some v <-> distance x v.
Proof.
  intros [Hs Hc Hf Hk].
  assert (Hall : forall j x, reach j x -> is_Some (d !! x)).
  { induction j as [|j IH]; intros x Hx; [apply (Hc x 0); [done|lia]|]. inversion Hx as [|? p ? Hp Hxp]; subst.
    destruct (IH p Hp) as [v Hv]. destruct (Hs p v Hv) as [Hvk [Hrv _]].
    assert (v <> k). { intros ->. by apply Hf, elem_of_nil in Hv. }
    apply (Hc x (S v)); [by econstructor|lia]. }
  intros x v. split; [intros Hx; by apply Hs|]. intros [Hr Hmin]. destruct (Hall v x Hr) as [w Hw].
  destruct (Hs x w Hw) as [_ [Hrw Hminw]]. rewrite Hw. f_equal. specialize (Hmin w Hrw). specialize (Hminw v Hr). lia.
Qed.
Lemma hops_exact fuel : forall k d fr, hop_inv k d fr ->
  fr = [] /\ 0 < fuel \/ S (size (known_ids (F := F) kb)) - size d < fuel ->
  forall x v, hops (F := F) fuel kb d fr k !! x = Some v <-> distance x v.
Proof.
  induction fuel as [|fuel IH]; intros k d fr Hinv Hfuel; [lia|]. cbn [hops]. destruct fr as [|y fr]; [by eapply hop_done|].
  pose proof (hop_step k d (y :: fr) Hinv) as Hstep. destruct (foldl _ (d, []) (y :: fr)) as [d' next]. destruct Hstep as [Hinv' Hsize].
  apply (IH (S k) d' next Hinv'). destruct Hfuel as [[? _]|Hfuel]; [done|].
  assert (size d <= size (known_ids (F := F) kb)).
  { rewrite <- size_dom. apply subseteq_size. intros x Hx%elem_of_dom. by apply (hop_known _ _ _ Hinv). }
  destruct next as [|z next]; [left; split; [done|lia]|]. right. specialize (Hsize ltac:(done)). lia.
Qed.
End Distances.

(** [hop_distances_from] computes shortest paths and terminates with them:
    in a store with an exact reverse index it maps an id to [v] if and only if
    [v] links, taken in either direction, lead from the focus to it and no fewer
    do; an unknown focus reaches nothing. *)
Theorem hop_distances_are_shortest kb focus : linked (F := F) kb ->
  (nodes kb !! focus = None -> hop_distances_from (F := F) kb focus = ∅) /\
  (is_Some (nodes kb !! focus) -> forall x v, hop_distances_from (F := F) kb focus !! x = Some v <-> distance kb focus x v).
Proof.
  intros Hl. unfold hop_distances_from. split; intros Hf.
  - by rewrite Hf.
  - rewrite bool_decide_eq_true_2 by done. apply hops_exact; [done| |right; rewrite map_size_singleton; lia]. split.
    + intros x v [<- <-]%lookup_singleton_Some. split; [done|]. split; [constructor; by left|lia].
    + intros x j Hj Hle. assert (j = 0) as -> by lia. inversion Hj as [? Hx|]; subst.
      apply list_elem_of_singleton in Hx as ->. rewrite lookup_singleton_eq. by eexists.
    + intros x. rewrite list_elem_of_singleton, lookup_singleton_Some. naive_solver.
    + intros x [v [<- _]%lookup_singleton_Some]. unfold known_ids. rewrite elem_of_list_to_set, elem_of_app. left. by apply elem_of_ids.
Qed.

(** ** Caps *)

#[local] Instance degree_le_total kb : Total (degree_le (F := F) kb).
Proof.
  intros a b. unfold degree_le. destruct (String.le_total a b) as [Hl|Hl];
    destruct (Nat.lt_total (node_degree kb a) (node_degree kb b)) as [?|[?|?]]; auto.
Qed.
#[local] Instance degree_le_trans kb : Transitive (degree_le (F := F) kb).
Proof.
  intros a b c [Hab|[Hab Lab]] [Hbc|[Hbc Lbc]]; unfold degree_le; [left; lia|left; lia|left; lia|].
  right. split; [lia|]. by transitivity b.
Qed.
Lemma kept_spec kb (exempt included : gset string) budget (K := kept_by_cap (F := F) kb exempt included budget) :
  exempt ⊆ included ->
  exempt ⊆ K /\ K ⊆ included /\ size K = size exempt + budget `min` size (included ∖ exempt) /\
  forall x y, x ∈ K -> x ∉ exempt -> y ∈ included -> y ∉ K -> degree_le kb x y.
Proof.
  intros Hsub. unfold K, kept_by_cap. set (l := merge_sort _ _).
  assert (Hin : forall x, x ∈ l <-> x ∈ included /\ x ∉ exempt).
  { intros x. unfold l. rewrite elem_of_merge_sort. set_solver. }
  assert (Hnd : NoDup l) by (unfold l; rewrite merge_sort_Permutation; apply NoDup_elements).
  assert (Hlen : length l = size (included ∖ exempt)) by (unfold l; by rewrite merge_sort_Permutation).
  assert (Hsorted : StronglySorted (degree_le kb) l) by (apply (StronglySorted_merge_sort _)).
  rewrite <- (take_drop budget l) in Hin, Hnd, Hsorted. apply NoDup_app in Hnd as (Hn1 & Hdisj & _).
  split_and!.
  - set_solver.
  - intros x [Hx|Hx%elem_of_list_to_set]%elem_of_union; [by apply Hsub|]. apply Hin. set_solver.
  - rewrite size_union; [|intros x Hx Hy%elem_of_list_to_set; destruct (proj1 (Hin x)); set_solver].
    rewrite size_list_to_set by done. rewrite length_take, Hlen. lia.
  - intros x y Hx Hnx Hy Hny. assert (Hxt : x ∈ take budget l) by set_solver.
    assert (Hyd : y ∈ drop budget l). { assert (y ∈ take budget l ++ drop budget l) by (apply Hin; set_solver). set_solver. }
    by apply (StronglySorted_app_1_elem_of _ _ _ x y Hsorted).
Qed.
Lemma usize_sub_le a b : b <= a -> (N.of_nat a < 2 ^ 64)%N -> usize_sub a b = N.of_nat (a - b).
Proof.
  intros Hle Ha. unfold usize_sub. replace (N.of_nat a + 2 ^ 64 - N.of_nat b)%N with (N.of_nat (a - b) + 1 * 2 ^ 64)%N by lia.
  rewrite N.Div0.mod_add. apply N.mod_small. lia.
Qed.
Lemma resolve_length kb (s : gset string) : (forall x, x ∈ s -> is_Some (nodes kb !! x)) ->
  length (omap (fun id => nodes kb !! id) (elements s)) = size s.
Proof.
  intros Hs. change (size s) with (length (elements s)).
  assert (Hall : Forall (fun x => is_Some (nodes kb !! x)) (elements s)) by (apply Forall_forall; intros x Hx; apply Hs; by apply elem_of_elements).
  induction Hall as [|x l [n Hn] _ IH]; [done|]. cbn. rewrite Hn. cbn. by rewrite IH.
Qed.
Lemma corpus_ids kb : forall x, x ∈ (list_to_set (list_ids kb None) : gset string) <-> is_Some (nodes kb !! x).
Proof.
  intros x. rewrite elem_of_list_to_set. unfold list_ids, sort_ids. rewrite elem_of_merge_sort, elem_of_List_filter, elem_of_ids. tauto.
Qed.

(** The cap of a full extraction is honest: it keeps every protected node
    that exists and then the nodes of highest degree, ties by id; it returns no
    more than the cap or the number of protected nodes, whichever is larger; and
    the nodes it returns and the number it reports as hidden add up to the
    store. *)
Theorem corpus_cap_is_honest kb cap protected wb (res := extract_full_corpus (F := F) kb (Some cap) protected wb)
    (kept := list_to_set (map n_id (sub_nodes res)) : gset string) (prot := filter (fun x => x ∈ protected) (dom (nodes kb))) :
  linked (F := F) kb -> (N.of_nat (size (nodes kb)) < 2 ^ 64)%N ->
  (N.of_nat (length (sub_nodes res)) + hidden_node_count res = N.of_nat (size (nodes kb)))%N /\
  length (sub_nodes res) <= cap `max` size prot /\ prot ⊆ kept /\
  forall x y, x ∈ kept -> x ∉ protected -> is_Some (nodes kb !! y) -> y ∉ kept -> degree_le (F := F) kb x y.
Proof.
  intros Hl Hsize. subst kept res. unfold extract_full_corpus. set (inc := list_to_set (list_ids kb None) : gset string).
  assert (Hinc : inc = dom (nodes kb)) by (apply set_eq; intros x; rewrite elem_of_dom; apply corpus_ids).
  assert (Hprot : inc ∩ protected = prot) by (unfold prot; rewrite Hinc; set_solver).
  assert (Hids : forall (s : gset string) b, (forall x, x ∈ s -> is_Some (nodes kb !! x)) ->
    length (if b : bool then omap (fun id => nodes kb !! id) (elements s) else map strip_body (omap (fun id => nodes kb !! id) (elements s))) = size s /\
    list_to_set (map n_id (if b then omap (fun id => nodes kb !! id) (elements s) else map strip_body (omap (fun id => nodes kb !! id) (elements s)))) = s).
  { intros s b Hs. assert (Hm : map n_id (if b then omap (fun id => nodes kb !! id) (elements s)
        else map strip_body (omap (fun id => nodes kb !! id) (elements s))) = map n_id (omap (fun id => nodes kb !! id) (elements s))).
    { destruct b; [done|]. by rewrite List.map_map. }
    split; [destruct b; rewrite ?length_map; by apply resolve_length|]. rewrite Hm. apply set_eq. intros x.
    rewrite elem_of_list_to_set, list_elem_of_fmap. split.
    - intros (n & -> & (i & Hi & Hn)%list_elem_of_omap). rewrite (linked_keys _ Hl i n Hn). by apply elem_of_elements.
    - intros Hx. destruct (Hs x Hx) as [n Hn]. exists n. split; [by rewrite (linked_keys _ Hl x n Hn)|].
      apply list_elem_of_omap. exists x. by rewrite elem_of_elements. }
  assert (Hdom : size inc = size (nodes kb)) by (by rewrite Hinc, size_dom).
  assert (Hnode : forall x, x ∈ inc -> is_Some (nodes kb !! x)) by (intros x; apply corpus_ids).
  destruct (Nat.ltb_spec cap (size inc)) as [Hlt|Hge].
  - rewrite Hprot. destruct (kept_spec kb prot inc (cap - size prot)) as (K1 & K2 & K3 & K4); [set_solver|].
    set (K := kept_by_cap kb prot inc (cap - size prot)) in *. cbn [collect_and_categorize sub_nodes hidden_node_count].
    destruct (Hids K wb) as [E1 E2]; [intros x Hx; by apply Hnode, K2|]. cbn [sub_nodes hidden_node_count] in *. rewrite E1, E2.
    assert (size K <= size inc) by (by apply subseteq_size). rewrite usize_sub_le by (done || by rewrite Hdom).
    split_and!; [lia| |done|].
    + assert (size prot <= size inc) by (apply subseteq_size; set_solver). lia.
    + intros x y Hx Hnp Hy Hny. apply K4; try done; [unfold prot; set_solver|]. rewrite Hinc. by apply elem_of_dom.
  - cbn [collect_and_categorize sub_nodes hidden_node_count]. destruct (Hids inc wb Hnode) as [E1 E2]. rewrite E1, E2.
    split_and!; [lia|lia|rewrite Hinc; unfold prot; set_solver|]. intros x y _ _ Hy []. by apply corpus_ids.
Qed.

(** Link classification is a partition: among the typed links of the
    included nodes that exist, those whose target is included are the internal
    ones and all the others the boundary ones. *)
Theorem links_are_partitioned kb included wb :
  let '(_, internal, boundary) := collect_and_categorize (F := F) kb included wb in
  (forall l, l ∈ internal <-> l ∈ typed_edges kb (sl_source l) /\ sl_source l ∈ included /\ sl_target l ∈ included) /\
  (forall l, l ∈ boundary <-> l ∈ typed_edges kb (sl_source l) /\ sl_source l ∈ included /\ sl_target l ∉ included).
Proof.
  assert (Hsrc : forall i l, l ∈ typed_edges (F := F) kb i -> sl_source l = i).
  { intros i l. unfold typed_edges. destruct (nodes kb !! i); [|by intros ?%elem_of_nil].
    intros ([[t rel] w] & -> & _)%list_elem_of_fmap. done. }
  assert (Hedges : forall l, l ∈ elements included ≫= typed_edges (F := F) kb <-> l ∈ typed_edges kb (sl_source l) /\ sl_source l ∈ included).
  { intros l. rewrite list_elem_of_bind. split.
    - intros (i & Hl & Hi%elem_of_elements). pose proof (Hsrc i l Hl) as <-. done.
    - intros [Hl Hi]. exists (sl_source l). by rewrite elem_of_elements. }
  cbn. split; intros l; rewrite elem_of_List_filter, Hedges.
  - rewrite bool_decide_eq_true. tauto.
  - rewrite negb_true_iff, bool_decide_eq_false. tauto.
Qed.
End Walks.

Module KbGraphWitnesses.
Import Toy ToyReplica ToyFloat KbNodeWitnesses KbStoreWitnesses.

Definition store_of (l : list Node) : KnowledgeBase :=
  foldl (fun kb n => (insert (F := N) same kb n).1) KnowledgeBase_new l.
Lemma store_of_ok l : linked (F := N) (store_of l) /\ indexed same (store_of l).
Proof.
  unfold store_of. apply (foldl_inv (fun kb => linked (F := N) kb /\ indexed same kb)).
  - split; [apply (new_linked same)|apply new_indexed].
  - intros kb n _ [Hl Hi]. split; [by apply insert_linked|by apply insert_indexed].
Qed.
(** [d -> a -> b -> c], and a node apart. *)
Definition chain : KnowledgeBase :=
  store_of [note "a" "[[b]]" ["x"]; note "b" "[[c]] and [[gone]]" ["y"]; note "c" "" ["x"]; note "d" "[[a]]" []; note "e" "" []].

Lemma lookups_are_exact_witness : map n_id (nodes_by_tag chain "x") = ["a"; "c"] /\ links_to chain "a" = ["d"] /\
  forall s, s ∈ links_to chain "a" <-> exists n, nodes chain !! s = Some n /\ "a" ∈ links (F := N) n.
Proof.
  split; [vm_compute; reflexivity|]. split; [vm_compute; reflexivity|].
  exact (proj2 (proj2 (proj1 (lookups_are_exact same chain (proj1 (store_of_ok _)) (proj2 (store_of_ok _)) "a")))).
Defined.
Example two_links_from_a : elements (bfs_walk (F := N) chain (mkSpec ["a"] 2 false None true None)) ≡ₚ ["a"; "b"; "c"] /\
  elements (bfs_walk (F := N) chain (mkSpec ["a"] 1 true None true None)) ≡ₚ ["a"; "b"; "d"].
Proof. split; apply (bool_decide_eq_true_1 _); vm_compute; reflexivity. Qed.
Lemma hop_distances_are_shortest_witness : distance (F := N) chain "a" "c" 2 /\ distance (F := N) chain "a" "d" 1 /\
  hop_distances_from (F := N) chain "a" !! "e" = None.
Proof.
  assert (Hs : forall x v, hop_distances_from (F := N) chain "a" !! x = Some v <-> distance (F := N) chain "a" x v).
  { apply (hop_distances_are_shortest chain "a" (proj1 (store_of_ok _))). apply (bool_decide_eq_true_1 _). vm_compute. reflexivity. }
  split; [apply Hs; vm_compute; reflexivity|]. split; [apply Hs; vm_compute; reflexivity|]. vm_compute. reflexivity.
Defined.
Lemma corpus_cap_is_honest_witness :
  map n_id (sub_nodes (extract_full_corpus (F := N) chain (Some 3) {["e"]} true)) ≡ₚ ["a"; "b"; "e"] /\
  let res := extract_full_corpus (F := N) chain (Some 3) {["e"]} true in
  (N.of_nat (length (sub_nodes res)) + hidden_node_count res = N.of_nat (size (nodes chain)))%N.
Proof.
  split; [apply (bool_decide_eq_true_1 _); vm_compute; reflexivity|].
  apply (corpus_cap_is_honest chain 3 {["e"]} true (proj1 (store_of_ok _))). vm_compute. reflexivity.
Defined.
End KbGraphWitnesses.

(** ** Departures *)
Module KbGraphDepartures.
Import Toy ToyReplica ToyFloat KbNodeWitnesses KbStoreWitnesses KbGraphWitnesses.

(** With a cap, starters that do not exist count as kept: two dead starters make
    a cap of zero "hide" minus two nodes, which wraps around. *)
Theorem dead_starters_break_the_count :
  hidden_node_count (extract_subgraph (F := N) chain (mkSpec ["a"; "ghost1"; "ghost2"] 0 false (Some 0) true None)) =
  (2 ^ 64 - 2)%N.
Proof. vm_compute. reflexivity. Qed.

(** [todo_nodes], documented to leave out finished items, returns every node
    with any TODO state. *)
Theorem todo_nodes_include_done :
  map n_id (todo_nodes (store_of [mkNode "t" "T" Task "" [] (Some "DONE") None None None [] ∅ None None None])) = ["t"].
Proof. vm_compute. reflexivity. Qed.

(** The health report calls a typed link to an existing node broken and of a
    malformed id, while the graph has the edge. *)
Theorem health_report_breaks_typed_links :
  let kb := store_of [note "concept:a" "[[concept:b?rel=teaches][b]]" []; note "concept:b" "" []] in
  broken_links (health_report kb) = [mkBroken "concept:a" "concept:b?rel=teaches" "b" MalformedId] /\
  links_to kb "concept:b" = ["concept:a"].
Proof. vm_compute. repeat split. Qed.
End KbGraphDepartures.
