(* ===== verification/Float32.v ===== *)
(** * Single-precision numbers

    The window layout is the one part of the editor that computes with [f32].
    Its arithmetic is the Standard Library's specification of IEEE 754 floats
    ([SpecFloat]) at 24 bits of mantissa and exponents below 128, so a ratio is
    the number the machine holds, rounding included.

    What the layout needs of it is proved here without any axiom on floats:
    rounding an exact value that lies between two integers below [2 ^ 24] gives
    a number between the same integers ([round_between]); so the truncated
    product of a [u16] and a ratio of at most one never exceeds the [u16]
    ([scale_le]), a half is a half up to one cell ([scale_half]), and a clamped
    ratio is a ratio ([clamp_ratio]). *)
From Stdlib Require Export ZArith SpecFloat.
From Stdlib Require Import Lia Psatz.
From S2P Require Export Prelude.
Local Open Scope Z_scope.

(** ** The operations [window.rs] uses of [f32] and [u16] *)

Notation f32 := spec_float.
Definition prec32 : Z := 24.
Definition emax32 : Z := 128.

(** [x as f32] of an integer. *)
Definition f32_of (z : Z) : f32 := binary_normalize prec32 emax32 z 0 false.
Definition f32_mul : f32 -> f32 -> f32 := SFmul prec32 emax32.
Definition f32_add : f32 -> f32 -> f32 := SFadd prec32 emax32.
Definition f32_sub : f32 -> f32 -> f32 := SFsub prec32 emax32.
Definition f32_div : f32 -> f32 -> f32 := SFdiv prec32 emax32.
Definition f32_neg : f32 -> f32 := SFopp.

(** A decimal literal [n/d]: both parts are exact, the division rounds once. *)
Definition f32_lit (n d : Z) : f32 := f32_div (f32_of n) (f32_of d).
Definition zero32 : f32 := S754_zero false.
Definition one32 : f32 := f32_of 1.
Definition half32 : f32 := f32_lit 1 2.
Definition tenth32 : f32 := f32_lit 1 10.
Definition nine_tenths32 : f32 := f32_lit 9 10.

(** [f32::min]: the other operand when one is not a number. *)
Definition f32_min (a b : f32) : f32 :=
  match a, b with
  | S754_nan, _ => b
  | _, S754_nan => a
  | _, _ => if SFltb a b then a else b
  end.

(** [f32::clamp]. *)
Definition f32_clamp (x lo hi : f32) : f32 :=
  let x := if SFltb x lo then lo else x in
  if SFltb hi x then hi else x.

(** [x as u16]: truncation towards zero, saturating, not-a-number to 0. *)
Definition u16_max : Z := 65535.
Definition f32_to_u16 (x : f32) : Z :=
  match x with
  | S754_zero _ | S754_nan => 0
  | S754_infinity s => if s then 0 else u16_max
  | S754_finite s m e => if s then 0 else Z.min u16_max (Z.shiftl (Zpos m) e)
  end.

(** Wrapping [u16] addition and subtraction (the release profile). *)
Definition add16 (a b : Z) : Z := (a + b) mod 65536.
Definition sub16 (a b : Z) : Z := (a - b) mod 65536.

(** [(w as f32 * r) as u16]. *)
Definition scale (w : Z) (r : f32) : Z := f32_to_u16 (f32_mul (f32_of w) r).

(** ** Values against integers: [m * 2^e <= B] and [B <= m * 2^e] *)

Definition vle (m e B : Z) : Prop := m * 2 ^ Z.max e 0 <= B * 2 ^ Z.max (- e) 0.
Definition vge (m e B : Z) : Prop := B * 2 ^ Z.max (- e) 0 <= m * 2 ^ Z.max e 0.

Lemma pow_pos k : 0 <= k -> 0 < 2 ^ k.
Proof. intros. apply Z.pow_pos_nonneg; lia. Qed.

Lemma common_shift m e B k : 0 <= k -> 0 <= e + k ->
  exists c, 0 < c /\ m * 2 ^ (e + k) = m * 2 ^ Z.max e 0 * c /\
    B * 2 ^ k = B * 2 ^ Z.max (- e) 0 * c.
Proof.
  intros Hk He. exists (2 ^ (k - Z.max (- e) 0)). split; [apply pow_pos; lia|].
  rewrite <- !Z.mul_assoc, <- !Z.pow_add_r by lia. split; do 2 f_equal; lia.
Qed.

Lemma vle_at k m e B : 0 <= k -> 0 <= e + k -> (vle m e B <-> m * 2 ^ (e + k) <= B * 2 ^ k).
Proof.
  intros Hk He. destruct (common_shift m e B k Hk He) as (c & Hc & -> & ->).
  unfold vle. apply Z.mul_le_mono_pos_r. lia.
Qed.

Lemma vge_at k m e B : 0 <= k -> 0 <= e + k -> (vge m e B <-> B * 2 ^ k <= m * 2 ^ (e + k)).
Proof.
  intros Hk He. destruct (common_shift m e B k Hk He) as (c & Hc & -> & ->).
  unfold vge. apply Z.mul_le_mono_pos_r. lia.
Qed.

(** Dropping bits lowers a value; below the point it keeps integer bounds. *)
Lemma vle_drop m e B k m' : 0 <= k -> m' * 2 ^ k <= m -> vle m e B -> vle m' (e + k) B.
Proof.
  intros Hk Hm Hv. apply (vle_at (Z.abs e) m e B) in Hv; [|lia..].
  apply (vle_at (Z.abs e)); [lia..|]. replace (e + k + Z.abs e) with (k + (e + Z.abs e)) by lia.
  rewrite Z.pow_add_r, Z.mul_assoc by lia. etrans; [|exact Hv].
  apply Z.mul_le_mono_nonneg_r; [apply Z.pow_nonneg; lia|done].
Qed.

Lemma vge_drop m e B k m' : 0 <= k -> e + k <= 0 -> m < (m' + 1) * 2 ^ k -> vge m e B ->
  vge m' (e + k) B.
Proof.
  intros Hk He Hm Hv. apply (vge_at (- e) m e B) in Hv; [|lia..].
  apply (vge_at (- (e + k))); [lia..|]. replace (e + k + - (e + k)) with 0 by lia.
  replace (e + - e) with 0 in Hv by lia. rewrite Z.pow_0_r, Z.mul_1_r in *.
  replace (- e) with (- (e + k) + k) in Hv by lia.
  rewrite Z.pow_add_r, Z.mul_assoc in Hv by lia.
  assert (H2 := pow_pos k Hk). apply Z.lt_succ_r, (Z.mul_lt_mono_pos_r (2 ^ k)); lia.
Qed.

(** Rounding up from strictly below an integer does not pass it. *)
Lemma vle_up m e B k m' : 0 <= k -> e + k <= 0 -> m' * 2 ^ k < m -> vle m e B ->
  vle (m' + 1) (e + k) B.
Proof.
  intros Hk He Hm Hv. apply (vle_at (- e) m e B) in Hv; [|lia..].
  apply (vle_at (- (e + k))); [lia..|]. replace (e + k + - (e + k)) with 0 by lia.
  replace (e + - e) with 0 in Hv by lia. rewrite Z.pow_0_r, Z.mul_1_r in *.
  replace (- e) with (- (e + k) + k) in Hv by lia.
  rewrite Z.pow_add_r, Z.mul_assoc in Hv by lia.
  assert (H2 := pow_pos k Hk). apply Z.le_succ_l, (Z.mul_lt_mono_pos_r (2 ^ k)); lia.
Qed.

Lemma vge_mono m m' e B : m <= m' -> vge m e B -> vge m' e B.
Proof.
  unfold vge. intros Hm Hv. etrans; [exact Hv|].
  apply Z.mul_le_mono_nonneg_r; [apply Z.pow_nonneg; lia|done].
Qed.

Lemma vle_bound m e B B' : B <= B' -> vle m e B -> vle m e B'.
Proof.
  unfold vle. intros Hm Hv. etrans; [exact Hv|].
  apply Z.mul_le_mono_nonneg_r; [apply Z.pow_nonneg; lia|done].
Qed.

(** A positive multiple of a power of two below [2 ^ n] has its exponent below [n]. *)
Lemma vle_exp d e n : 0 <= n -> 0 <= d -> vle (2 ^ d) e (2 ^ n - 1) -> d + e < n.
Proof.
  intros Hn Hd Hv. apply (vle_at (Z.abs e)) in Hv; [|lia..].
  rewrite <- Z.pow_add_r in Hv by lia.
  destruct (Z.lt_ge_cases (d + e) n) as [|Hge]; [done|exfalso].
  assert (2 ^ (n + Z.abs e) <= 2 ^ (d + (e + Z.abs e))) by (apply Z.pow_le_mono_r; lia).
  rewrite (Z.pow_add_r 2 n) in * by lia. assert (H2 := pow_pos (Z.abs e)). nia.
Qed.

(** ** Digits and shifts of [SpecFloat] *)

Lemma digits_spec p : 2 ^ (Zpos (digits2_pos p) - 1) <= Zpos p < 2 ^ Zpos (digits2_pos p).
Proof.
  induction p as [p IH|p IH|]; cbn [digits2_pos]; [| |by cbn].
  all: rewrite Pos2Z.inj_succ; replace (Z.succ (Zpos (digits2_pos p)) - 1) with
         (Z.succ (Zpos (digits2_pos p) - 1)) by lia.
  all: rewrite !Z.pow_succ_r by lia; lia.
Qed.

(** The record after dropping [k] bits of [m0]: the quotient, and no rounding
    information unless something non-zero was dropped. *)
Definition dropped (m0 k : Z) (x : shr_record) : Prop :=
  0 <= k /\ 0 <= shr_m x /\ shr_m x * 2 ^ k <= m0 < (shr_m x + 1) * 2 ^ k /\
  (shr_r x || shr_s x = true -> shr_m x * 2 ^ k < m0).

Lemma dropped_1 m0 k x : dropped m0 k x -> dropped m0 (k + 1) (shr_1 x).
Proof.
  intros (Hk & Hm & Hb & Hr). unfold dropped. rewrite Z.pow_add_r by lia.
  assert (H2 := pow_pos k Hk). destruct x as [m r s]; simpl in *.
  destruct m as [|[p|p|]|]; [| | | |lia]; simpl; (split_and!; try lia); intros Hrs;
    try (specialize (Hr Hrs)); lia.
Qed.

Lemma dropped_iter m0 p : forall k x, dropped m0 k x ->
  dropped m0 (k + Zpos p) (SpecFloat.iter_pos shr_1 p x).
Proof.
  induction p as [p IH|p IH|]; intros k x Hx; cbn [SpecFloat.iter_pos].
  - replace (k + Zpos p~1) with (k + 1 + Zpos p + Zpos p) by lia. by do 2 apply IH; apply dropped_1.
  - replace (k + Zpos p~0) with (k + Zpos p + Zpos p) by lia. by do 2 apply IH.
  - by apply dropped_1.
Qed.

Lemma shr_fexp_spec m e : 0 <= m -> exists k x,
  shr_fexp prec32 emax32 m e loc_Exact = (x, e + k) /\ dropped m k x /\
  e + k = Z.max e (fexp prec32 emax32 (Zdigits2 m + e)).
Proof.
  intros Hm. unfold shr_fexp, shr. cbn [shr_record_of_loc].
  assert (H0 : dropped m 0 {| shr_m := m; shr_r := false; shr_s := false |}).
  { unfold dropped; simpl. split_and!; (lia || done). }
  destruct (_ - e) as [|p|p] eqn:Hs.
  - eexists 0, _. rewrite Z.add_0_r. split_and!; [done..|lia].
  - eexists (Zpos p), _. split_and!; [done| |lia]. by apply (dropped_iter _ p 0).
  - eexists 0, _. rewrite Z.add_0_r. split_and!; [done..|lia].
Qed.

Lemma rne_cases m l : round_nearest_even m l = m \/
  (round_nearest_even m l = m + 1 /\ l <> loc_Exact).
Proof. destruct l as [|[]]; simpl; try destruct (Z.even m); auto. Qed.

Lemma loc_exact x : loc_of_shr_record x <> loc_Exact -> shr_r x || shr_s x = true.
Proof. by destruct x as [m [] []]. Qed.

(** ** Rounding keeps integer bounds *)

(** One normalising shift followed by any of its two roundings. *)
Lemma shift_bounds m e U L k x mr : 0 < m -> U < 2 ^ prec32 -> vle m e U -> vge m e L ->
  dropped m k x -> e + k = Z.max e (fexp prec32 emax32 (Zdigits2 m + e)) ->
  mr = shr_m x \/ (mr = shr_m x + 1 /\ shr_r x || shr_s x = true) ->
  0 <= mr /\ vle mr (e + k) U /\ vge mr (e + k) L /\ e + k <= emax32 - prec32.
Proof.
  intros Hm HU Hle Hge (Hk & Hx & [Hb Hb'] & Hr) He Hmr.
  assert (Hd : Zdigits2 m - 1 + e < prec32).
  { destruct m as [|p|]; [lia| |lia]. cbn [Zdigits2]. destruct (digits_spec p) as [Hp _].
    apply vle_exp; [done|lia|]. apply (vle_bound _ _ U); [lia|].
    replace e with (e + 0) by lia. apply (vle_drop (Zpos p)); [done|by rewrite Z.mul_1_r|done]. }
  assert (Hneg : k = 0 \/ e + k <= 0).
  { unfold fexp, emin, prec32, emax32 in *. lia. }
  assert (Htop : e + k <= emax32 - prec32).
  { unfold fexp, emin, prec32, emax32 in *.
    assert (0 < Zdigits2 m) by (by destruct m). lia. }
  split_and!; [lia| | |done].
  - destruct Hmr as [->|[-> Hi]]; [by apply (vle_drop m)|].
    destruct Hneg as [->|Hn]; [specialize (Hr Hi); lia|]. apply (vle_up m); auto.
  - destruct Hneg as [->|Hn].
    + rewrite Z.add_0_r. apply (vge_mono m); [|done]. lia.
    + apply (vge_mono (shr_m x)); [lia|]. by apply (vge_drop m).
Qed.

(** A normalising shift leaves at most 24 bits. *)
Lemma shr_mantissa m e k x : 0 < m -> dropped m k x ->
  e + k = Z.max e (fexp prec32 emax32 (Zdigits2 m + e)) -> shr_m x < 2 ^ prec32.
Proof.
  intros Hm (Hk & Hx & [Hb _] & _) He. destruct m as [|p|]; [lia| |lia].
  destruct (digits_spec p) as [_ Hp]. cbn [Zdigits2] in He. unfold fexp in He.
  assert (2 ^ Zpos (digits2_pos p) <= 2 ^ (prec32 + k)) by (apply Z.pow_le_mono_r; lia).
  rewrite Z.pow_add_r in * by (unfold prec32; lia). assert (H2 := pow_pos k Hk).
  apply (Z.mul_lt_mono_pos_r (2 ^ k)); lia.
Qed.

(** A float whose value, not rounded further, lies between two integers. *)
Definition float_between (L U : Z) (s : bool) (x : f32) : Prop :=
  match x with
  | S754_zero _ => L <= 0
  | S754_finite s' m e => s' = s /\ Zpos m < 2 ^ prec32 /\ vle (Zpos m) e U /\ vge (Zpos m) e L
  | _ => False
  end.

Lemma round_between s m e L U : 0 < m -> U < 2 ^ prec32 -> vle m e U -> vge m e L ->
  float_between L U s (binary_round_aux prec32 emax32 s m e loc_Exact).
Proof.
  intros Hm HU Hle Hge. unfold binary_round_aux.
  destruct (shr_fexp_spec m e) as (k & x & -> & Hx & Hk); [lia|].
  set (mr := round_nearest_even _ _).
  assert (Hmr : mr = shr_m x \/ (mr = shr_m x + 1 /\ shr_r x || shr_s x = true)).
  { destruct (rne_cases (shr_m x) (loc_of_shr_record x)) as [?|[? ?%loc_exact]]; auto. }
  destruct (shift_bounds m e U L k x mr) as (Hr0 & Hrle & Hrge & Hrt); try done.
  destruct (shr_fexp_spec mr (e + k)) as (k2 & x2 & -> & Hx2 & Hk2); [done|].
  destruct (Z.eq_dec mr 0) as [Hz|Hz].
  { destruct Hx2 as (? & ? & Hb & _). assert (H2 := pow_pos k2).
    assert (shr_m x2 = 0) as -> by nia. simpl. rewrite Hz in Hrge. unfold vge in Hrge.
    rewrite Z.mul_0_l in Hrge. assert (0 < 2 ^ Z.max (- (e + k)) 0) by (apply pow_pos; lia). nia. }
  destruct (shift_bounds mr (e + k) U L k2 x2 (shr_m x2)) as (H20 & H2le & H2ge & H2t); auto; [lia|].
  destruct (shr_m x2) as [|p|p] eqn:Hp; [| |lia].
  - simpl. unfold vge in H2ge. rewrite Z.mul_0_l in H2ge.
    assert (0 < 2 ^ Z.max (- (e + k + k2)) 0) by (apply pow_pos; lia). nia.
  - rewrite (proj2 (Z.leb_le _ _) H2t). split_and!; try done.
    rewrite <- Hp. apply (shr_mantissa mr (e + k) k2); auto. lia.
Qed.

(** ** Integers, products, truncation *)

Lemma iter_xO p n : Zpos (Pos.iter xO p n) = Zpos p * 2 ^ Zpos n.
Proof.
  revert p. induction n as [|n IH] using Pos.peano_ind; intros p; [simpl; lia|].
  rewrite Pos.iter_succ. change (Zpos (xO (Pos.iter xO p n))) with (2 * Zpos (Pos.iter xO p n)).
  rewrite IH, Pos2Z.inj_succ, Z.pow_succ_r by lia. lia.
Qed.

(** A [u16] converts to a float of exactly its value. *)
Lemma f32_of_between w : 0 <= w < 65536 -> float_between w w false (f32_of w).
Proof.
  intros Hw. unfold f32_of. destruct w as [|p|]; [done| |lia]. cbn [binary_normalize].
  unfold binary_round. rewrite Z.add_0_r. destruct (digits_spec p) as [Hp _].
  assert (Hd : Zpos (digits2_pos p) - 1 < 16).
  { apply (Z.pow_lt_mono_r_iff 2); lia. }
  unfold shl_align, fexp, emin, prec32, emax32.
  rewrite Z.max_l by lia. rewrite Z.sub_0_r.
  destruct (Zpos (digits2_pos p) - 24) as [|n|n] eqn:Hn; try lia.
  apply round_between; [done|by unfold prec32; lia|..]; rewrite iter_xO.
  - apply (vle_at (Zpos n)); [lia..|]. replace (Zneg n + Zpos n) with 0 by lia. lia.
  - apply (vge_at (Zpos n)); [lia..|]. replace (Zneg n + Zpos n) with 0 by lia. lia.
Qed.

Lemma to_u16_between L U x : 0 <= L -> L <= U -> U <= u16_max -> float_between L U false x ->
  L <= f32_to_u16 x <= U.
Proof.
  intros HL HLU HU Hx. destruct x as [| | |s' m e]; simpl in *; try done; [lia|].
  destruct Hx as (-> & _ & Hle & Hge). destruct (Z.le_gt_cases 0 e) as [He|He].
  - rewrite Z.shiftl_mul_pow2 by done. apply (vle_at 0) in Hle; [|lia..].
    apply (vge_at 0) in Hge; [|lia..]. rewrite Z.add_0_r, Z.pow_0_r in *. lia.
  - replace e with (- (- e)) by lia. rewrite Z.shiftl_opp_r, Z.shiftr_div_pow2 by lia.
    apply (vle_at (- e)) in Hle; [|lia..]. apply (vge_at (- e)) in Hge; [|lia..].
    replace (e + - e) with 0 in * by lia. rewrite Z.pow_0_r, Z.mul_1_r in *.
    assert (H2 := pow_pos (- e)). assert (Hdm := Z.div_mod (Zpos m) (2 ^ (- e))).
    assert (Hmb := Z.mod_pos_bound (Zpos m) (2 ^ (- e))).
    assert (L <= Zpos m / 2 ^ (- e)) by (apply Z.div_le_lower_bound; lia).
    assert (Zpos m / 2 ^ (- e) <= U) by (apply Z.div_le_upper_bound; lia). lia.
Qed.

(** The truncated product of a [u16] and a positive float lies between any two
    integers the exact product lies between. *)
Lemma scale_between w m e L U : 0 < w < 65536 -> 0 <= L -> L <= U -> U <= u16_max ->
  vle (w * Zpos m) e U -> vge (w * Zpos m) e L ->
  L <= scale w (S754_finite false m e) <= U.
Proof.
  intros Hw HL HLU HU Hle Hge. unfold scale. apply to_u16_between; try done.
  assert (Hf := f32_of_between w ltac:(lia)). destruct (f32_of w) as [| | |s mw ew]; try done.
  { unfold float_between in Hf. lia. }
  destruct Hf as (-> & _ & Hl & Hg). cbn [f32_mul SFmul xorb].
  set (k := Z.abs e + Z.abs ew). apply (vle_at (Z.abs ew)) in Hl; [|lia..].
  apply (vge_at (Z.abs ew)) in Hg; [|lia..]. apply (vle_at (Z.abs e)) in Hle; [|lia..].
  apply (vge_at (Z.abs e)) in Hge; [|lia..].
  assert (Hprod : Zpos (mw * m) * 2 ^ (ew + e + k) = w * Zpos m * 2 ^ (e + Z.abs e) * 2 ^ Z.abs ew).
  { replace (ew + e + k) with ((ew + Z.abs ew) + (e + Z.abs e)) by lia.
    assert (Hw' : Zpos mw * 2 ^ (ew + Z.abs ew) = w * 2 ^ Z.abs ew) by (by apply Z.le_antisymm).
    rewrite Pos2Z.inj_mul, Z.pow_add_r by lia.
    transitivity (Zpos mw * 2 ^ (ew + Z.abs ew) * (Zpos m * 2 ^ (e + Z.abs e))); [ring|].
    rewrite Hw'. ring. }
  assert (H2 : 0 < 2 ^ Z.abs ew) by (apply pow_pos; lia).
  apply round_between; [done|unfold u16_max, prec32 in *; lia|..].
  - apply (vle_at k); [lia..|]. rewrite Hprod. unfold k. rewrite (Z.pow_add_r 2 (Z.abs e)), Z.mul_assoc by lia.
    apply Z.mul_le_mono_nonneg_r; [lia|done].
  - apply (vge_at k); [lia..|]. rewrite Hprod. unfold k. rewrite (Z.pow_add_r 2 (Z.abs e)), Z.mul_assoc by lia.
    apply Z.mul_le_mono_nonneg_r; [lia|done].
Qed.

(** A ratio: a float that does not exceed one (so never positive infinity). *)
Definition ratio_ok (r : f32) : Prop :=
  match r with
  | S754_finite false m e => vle (Zpos m) e 1
  | S754_infinity false => False
  | _ => True
  end.

#[export] Instance ratio_ok_dec r : Decision (ratio_ok r).
Proof. destruct r as [|[]| |[] m e]; simpl; unfold vle; apply _. Defined.

(** A float at most zero, or not a number after a product with one. *)
Definition nonpos (x : f32) : bool :=
  match x with S754_finite s _ _ | S754_infinity s => s | _ => true end.

Lemma nonpos_to_u16 x : nonpos x = true -> f32_to_u16 x = 0.
Proof. by destruct x as [[]|[]| |[]]. Qed.

Lemma nonpos_round m e l : nonpos (binary_round_aux prec32 emax32 true m e l) = true.
Proof.
  unfold binary_round_aux. destruct (shr_fexp _ _ m e l) as [x k].
  destruct (shr_fexp _ _ _ k loc_Exact) as [y k']. destruct (shr_m y); [done| |done].
  by destruct (_ <=? _).
Qed.

Lemma scale_nonpos w r : 0 <= w < 65536 -> nonpos r = true -> scale w r = 0.
Proof.
  intros Hw Hr. apply nonpos_to_u16. assert (Hf := f32_of_between w Hw).
  destruct (f32_of w) as [s| | |s mw ew]; try done; destruct r as [s'|[]| |[]]; try done.
  - by destruct Hf as [-> _].
  - destruct Hf as [-> _]. apply nonpos_round.
Qed.

Lemma scale_0 r : scale 0 r = 0.
Proof. by destruct r as [[]|[]| |[]]. Qed.

Lemma scale_le w r : 0 <= w < 65536 -> ratio_ok r -> 0 <= scale w r <= w.
Proof.
  intros Hw Hr. destruct (nonpos r) eqn:Hn; [rewrite scale_nonpos by done; lia|].
  destruct r as [|[]| |[] m e]; try done. destruct (Z.eq_dec w 0) as [->|]; [by rewrite scale_0|].
  apply scale_between; try (unfold u16_max; lia); unfold ratio_ok, vle, vge in *.
  - assert (0 <= 2 ^ Z.max e 0) by (apply Z.pow_nonneg; lia). nia.
  - assert (0 <= 2 ^ Z.max e 0) by (apply Z.pow_nonneg; lia). nia.
Qed.

Lemma scale_half w : 0 <= w < 65536 -> w / 2 <= scale w half32 <= (w + 1) / 2.
Proof.
  intros Hw. replace half32 with (S754_finite false 8388608 (-24)) by reflexivity.
  destruct (Z.eq_dec w 0) as [->|]; [by rewrite scale_0|].
  assert (H1 := Z.div_mod w 2 ltac:(lia)). assert (H2 := Z.mod_pos_bound w 2 ltac:(lia)).
  assert (H3 := Z.div_mod (w + 1) 2 ltac:(lia)). assert (H4 := Z.mod_pos_bound (w + 1) 2 ltac:(lia)).
  apply scale_between; try (unfold u16_max; lia); unfold vle, vge.
  all: change (2 ^ Z.max (-24) 0) with 1; change (2 ^ Z.max (- (-24)) 0) with 16777216; lia.
Qed.

(** ** The ratios the window manager stores *)

(** At most 24 bits of mantissa: what a value of the type [f32] has. *)
Definition f32_small (x : f32) : Prop :=
  match x with S754_finite _ m _ => Zpos m < 2 ^ prec32 | _ => True end.

Lemma valid_small x : valid_binary prec32 emax32 x = true -> f32_small x.
Proof.
  destruct x as [| | |s m e]; try done. simpl. unfold bounded, canonical_mantissa, fexp.
  intros [H%Z.eqb_eq _]%andb_prop. destruct (digits_spec m) as [_ Hm].
  assert (2 ^ Zpos (digits2_pos m) <= 2 ^ prec32); [|lia].
  apply Z.pow_le_mono_r; unfold prec32 in *; lia.
Qed.

Lemma shr_1_nonneg x : 0 <= shr_m x -> 0 <= shr_m (shr_1 x).
Proof. destruct x as [[|[]|[]] ? ?]; simpl; lia. Qed.

Lemma shr_nonneg m e l : 0 <= m -> 0 <= shr_m (fst (shr_fexp prec32 emax32 m e l)).
Proof.
  intros Hm. unfold shr_fexp, shr. set (x := shr_record_of_loc m l).
  assert (Hx : 0 <= shr_m x) by (by destruct l as [|[]]). clearbody x.
  destruct (_ - e) as [|p|p]; [done| |done]. simpl. clear Hm. revert x Hx.
  induction p as [p IH|p IH|]; intros x Hx; cbn [SpecFloat.iter_pos].
  - apply IH, IH. by apply shr_1_nonneg.
  - by apply IH, IH.
  - by apply shr_1_nonneg.
Qed.

Lemma round_small s m e l : 0 <= m -> f32_small (binary_round_aux prec32 emax32 s m e l).
Proof.
  intros Hm. unfold binary_round_aux. assert (Hx := shr_nonneg m e l Hm).
  destruct (shr_fexp _ _ m e l) as [x k]. simpl in Hx.
  set (mr := round_nearest_even _ _).
  assert (Hr : 0 <= mr) by (destruct (rne_cases (shr_m x) (loc_of_shr_record x)) as [|[? _]]; lia).
  destruct (shr_fexp_spec mr k Hr) as (k2 & y & -> & Hy & Hk).
  destruct (shr_m y) as [|p|p] eqn:Hp; [done| |done]. destruct (_ <=? _); [|done].
  simpl. rewrite <- Hp. destruct (Z.eq_dec mr 0) as [Hz|]; [|apply (shr_mantissa mr k k2); auto; lia].
  destruct Hy as (? & ? & Hb & _). assert (H2 := pow_pos k2). nia.
Qed.

Lemma round_not_nan s m e l : 0 <= m -> binary_round_aux prec32 emax32 s m e l <> S754_nan.
Proof.
  intros Hm. unfold binary_round_aux. assert (Hx := shr_nonneg m e l Hm).
  destruct (shr_fexp _ _ m e l) as [x k]. simpl in Hx.
  set (mr := round_nearest_even _ _).
  assert (Hr : 0 <= mr) by (destruct (rne_cases (shr_m x) (loc_of_shr_record x)) as [|[? _]]; lia).
  assert (Hy := shr_nonneg mr k loc_Exact Hr). destruct (shr_fexp _ _ mr _ _) as [y k']. simpl in Hy.
  destruct (shr_m y); [done| |lia]. by destruct (_ <=? _).
Qed.

Lemma normalize_small m e : f32_small (binary_normalize prec32 emax32 m e false).
Proof.
  destruct m; simpl; [done|..]; unfold binary_round; destruct (shl_align _ _ _); by apply round_small.
Qed.

Lemma f32_add_small a b : f32_small a -> f32_small b -> f32_small (f32_add a b).
Proof.
  intros Ha Hb. destruct a as [[]|[]| |], b as [[]|[]| |]; try done. apply normalize_small.
Qed.

Lemma f32_neg_small a : f32_small a -> f32_small (f32_neg a).
Proof. by destruct a. Qed.

Lemma f32_div_small a b : f32_small (f32_div a b).
Proof.
  destruct a as [[]|[]| |s m e], b as [[]|[]| |s' m' e']; try done.
  cbn [f32_div SFdiv]. unfold SFdiv_core_binary. cbv zeta.
  set (q := match _ - Z.min _ _ with Z0 => _ | Zpos _ => _ | Zneg _ => _ end).
  assert (0 <= q).
  { unfold q. destruct (_ - _); try done. by apply Z.shiftl_nonneg. }
  clearbody q. destruct (Z.div_eucl q (Zpos m')) as [z r] eqn:Hz. apply round_small.
  change z with (fst (z, r)). rewrite <- Hz. apply (Z.div_pos q (Zpos m')); lia.
Qed.

(** [f32::clamp] to bounds that are numbers keeps the mantissa small. *)
Lemma f32_clamp_small x lo hi : f32_small x -> f32_small lo -> f32_small hi ->
  f32_small (f32_clamp x lo hi).
Proof. intros. unfold f32_clamp. by repeat case_match. Qed.

(** What [clamp(0.1, 0.9)] returns is a ratio. *)
Lemma clamp_ratio x : f32_small x -> ratio_ok (f32_clamp x tenth32 nine_tenths32).
Proof.
  intros Hx. unfold f32_clamp.
  assert (Ht : f32_small tenth32) by done.
  set (y := if SFltb x tenth32 then tenth32 else x).
  assert (Hy : f32_small y) by (unfold y; by case_match). clearbody y.
  destruct (SFltb nine_tenths32 y) eqn:Hlt; [by compute|].
  destruct y as [|[]| |[] m e]; try done. simpl in Hy |- *.
  assert (He : e <= -24).
  { destruct (Z.le_gt_cases e (-24)) as [|Hgt]; [done|]. exfalso. revert Hlt.
    replace nine_tenths32 with (S754_finite false 15099494 (-24)) by reflexivity.
    unfold SFltb. cbn [SFcompare]. by rewrite (proj2 (Z.compare_lt_iff (-24) e) ltac:(lia)). }
  unfold vle. rewrite Z.max_r, (Z.max_l (- e)), Z.mul_1_r by lia.
  assert (2 ^ prec32 <= 2 ^ (- e)) by (apply Z.pow_le_mono_r; unfold prec32; lia). lia.
Qed.

Lemma half_ratio : ratio_ok half32.
Proof. by compute. Qed.

(** [1.0 - r] is not positive once [r] exceeds one. *)
Lemma one_minus_nonpos r : ~ ratio_ok r -> nonpos (f32_min r (f32_sub one32 r)) = true.
Proof.
  destruct r as [|[]| |[] m e]; try done; intros Hr.
  assert (Hn : nonpos (f32_sub one32 (S754_finite false m e)) = true /\
    f32_sub one32 (S754_finite false m e) <> S754_nan).
  { replace one32 with (S754_finite false 8388608 (-23)) by reflexivity.
    cbn [f32_sub SFsub cond_Zopp]. set (ez := Z.min (-23) e).
    assert (Hal : forall p x, ez <= x -> Zpos (fst (shl_align p x ez)) = Zpos p * 2 ^ (x - ez)).
    { intros p x Hx. unfold shl_align. destruct (ez - x) as [|d|d] eqn:Hd; [|lia|].
      - replace (x - ez) with 0 by lia. simpl. lia.
      - simpl fst. rewrite iter_xO. do 2 f_equal. lia. }
    rewrite !Hal by lia. unfold ratio_ok in Hr. rewrite (vle_at (- ez)) in Hr by lia.
    replace (8388608 * 2 ^ (-23 - ez)) with (1 * 2 ^ (- ez)).
    2:{ replace (- ez) with (23 + (-23 - ez)) by lia. rewrite Z.pow_add_r by lia. lia. }
    replace (e + - ez) with (e - ez) in Hr by lia.
    destruct (1 * 2 ^ (- ez) - Zpos m * 2 ^ (e - ez)) as [|q|q] eqn:Hq; [lia|lia|].
    cbn [binary_normalize]. unfold binary_round. destruct (shl_align _ _ _).
    split; [apply nonpos_round|apply round_not_nan]. lia. }
  destruct Hn as [Hn Hnn]. destruct (f32_sub _ _) as [s|[]| |[] p q]; done.
Qed.
