(* ===== verification/WindowView.v ===== *)
(** * A window's view of its buffer: cursors, saved views, scrolling

    [crates/core/src/cursor.rs] and the part of [window.rs] that keeps the
    cursor on screen: the multi-cursor set, the view states saved per buffer,
    the scroll commands and the functions that bring the cursor back into the
    viewport after a move, plain or counting the rows of wrapped lines.

    A window here is the whole struct [Window]; [cursor_of] and [with_cursor]
    pass its cursor to the buffer component ([Buffer.clamp_cursor]). The rows a
    line occupies ([line_visual_rows], computed by the renderer) are an
    argument, as in the code. [Instant]s are natural numbers. *)
From S2P Require Import Float32 Prelude Rope Grapheme Buffer BufferHistory.
Local Open Scope nat_scope.

(** ** [cursor.rs] *)

Record Cursor := mkCursor { row : nat; col : nat; anchor : option (nat * nat) }.
#[export] Instance Cursor_eq_dec : EqDecision Cursor.
Proof. solve_decision. Defined.

Module CursorSet.
(** The vector of cursors; index 0 is the primary. *)
Definition new_set (row col : nat) : list Cursor := [mkCursor row col None].
Definition primary (cs : list Cursor) : option Cursor := head cs.
Definition secondaries (cs : list Cursor) : list Cursor := if 1 <? length cs then drop 1 cs else [].
Definition add (cs : list Cursor) (row col : nat) : list Cursor := cs ++ [mkCursor row col None].
Definition remove_at (cs : list Cursor) (idx : nat) : list Cursor :=
  if (0 <? idx) && (idx <? length cs) then delete idx cs else cs.
Definition clear_secondaries (cs : list Cursor) : list Cursor := take 1 cs.

Definition position_le (a b : Cursor) : Prop := row a < row b \/ (row a = row b /\ col a <= col b).
#[global] Instance position_le_dec a b : Decision (position_le a b).
Proof. unfold position_le. apply _. Defined.
#[global] Instance position_le_total : Total position_le.
Proof. intros [r c ?] [r' c' ?]. unfold position_le. simpl. lia. Qed.
#[global] Instance position_le_trans : Transitive position_le.
Proof. intros [r c ?] [r' c' ?] [r2 c2 ?]. unfold position_le. simpl. lia. Qed.

(** [sort_by_position]: a stable sort of the secondaries. The primary is not
    part of the sorted slice, so the final check never finds it moved. *)
Definition sort_by_position (cs : list Cursor) : list Cursor :=
  match cs with
  | p :: rest => if length cs <=? 1 then cs else p :: merge_sort position_le rest
  | [] => []
  end.

(** [Vec::retain] with [HashSet::insert]. *)
Fixpoint retain_new (seen : gset (nat * nat)) (cs : list Cursor) : list Cursor :=
  match cs with
  | [] => []
  | c :: cs =>
      if decide ((row c, col c) ∈ seen) then retain_new seen cs
      else c :: retain_new ({[(row c, col c)]} ∪ seen) cs
  end.
Definition dedup_positions (cs : list Cursor) : list Cursor :=
  match retain_new ∅ cs with [] => new_set 0 0 | cs => cs end.
End CursorSet.

(** ** The window *)

Record BufferViewState := mkViewState {
  v_cursor_row : nat; v_cursor_col : nat; v_scroll_offset : nat; v_col_offset : nat;
}.

Record WindowState := mkWindow {
  w_id : nat;
  w_buffer_idx : nat;
  w_row : nat;
  w_col : nat;
  w_scroll_offset : nat;
  w_col_offset : nat;
  w_cursor_set : list Cursor;
  w_saved : gmap nat BufferViewState;
  w_locked : bool;
  w_locked_cursor : nat;
  w_pixel_offset : f32;
  w_shell_acc : f32;
  w_samples : list (N * f32);
  w_velocity : f32;
  w_inertia : bool;
}.
Implicit Types (w : WindowState).

(** [Window::new]. *)
Definition new_window (id buffer_idx : nat) : WindowState :=
  mkWindow id buffer_idx 0 0 0 0 (CursorSet.new_set 0 0) ∅ false 0 zero32 zero32 [] zero32 false.

(** Field assignments. *)
Definition set_position w (row col : nat) : WindowState :=
  mkWindow (w_id w) (w_buffer_idx w) row col (w_scroll_offset w) (w_col_offset w) (w_cursor_set w)
    (w_saved w) (w_locked w) (w_locked_cursor w) (w_pixel_offset w) (w_shell_acc w) (w_samples w)
    (w_velocity w) (w_inertia w).
Definition set_scroll w (scroll : nat) (pixel : f32) : WindowState :=
  mkWindow (w_id w) (w_buffer_idx w) (w_row w) (w_col w) scroll (w_col_offset w) (w_cursor_set w)
    (w_saved w) (w_locked w) (w_locked_cursor w) pixel (w_shell_acc w) (w_samples w)
    (w_velocity w) (w_inertia w).
Definition set_col_offset w (col_offset : nat) : WindowState :=
  mkWindow (w_id w) (w_buffer_idx w) (w_row w) (w_col w) (w_scroll_offset w) col_offset
    (w_cursor_set w) (w_saved w) (w_locked w) (w_locked_cursor w) (w_pixel_offset w) (w_shell_acc w)
    (w_samples w) (w_velocity w) (w_inertia w).
Definition set_cursors w (cs : list Cursor) : WindowState :=
  mkWindow (w_id w) (w_buffer_idx w) (w_row w) (w_col w) (w_scroll_offset w) (w_col_offset w) cs
    (w_saved w) (w_locked w) (w_locked_cursor w) (w_pixel_offset w) (w_shell_acc w) (w_samples w)
    (w_velocity w) (w_inertia w).
Definition set_saved_views w (saved : gmap nat BufferViewState) : WindowState :=
  mkWindow (w_id w) (w_buffer_idx w) (w_row w) (w_col w) (w_scroll_offset w) (w_col_offset w)
    (w_cursor_set w) saved (w_locked w) (w_locked_cursor w) (w_pixel_offset w) (w_shell_acc w)
    (w_samples w) (w_velocity w) (w_inertia w).
(** [scroll_locked = true; scroll_locked_cursor = cursor_row]. *)
Definition lock_scroll w : WindowState :=
  mkWindow (w_id w) (w_buffer_idx w) (w_row w) (w_col w) (w_scroll_offset w) (w_col_offset w)
    (w_cursor_set w) (w_saved w) true (w_row w) (w_pixel_offset w) (w_shell_acc w) (w_samples w)
    (w_velocity w) (w_inertia w).

(** [sync_primary_cursor]: the first cursor of the set follows the window's. *)
Definition sync_primary_cursor w : WindowState :=
  match w_cursor_set w with
  | c :: cs => set_cursors w (mkCursor (w_row w) (w_col w) (anchor c) :: cs)
  | [] => w
  end.

Definition save_view_state w : WindowState :=
  set_saved_views w (<[w_buffer_idx w :=
    mkViewState (w_row w) (w_col w) (w_scroll_offset w) (w_col_offset w)]> (w_saved w)).

Definition restore_view_state w (buf_idx : nat) : WindowState :=
  let st := default (mkViewState 0 0 0 0) (w_saved w !! buf_idx) in
  mkWindow (w_id w) buf_idx (v_cursor_row st) (v_cursor_col st) (v_scroll_offset st)
    (v_col_offset st) (w_cursor_set w) (w_saved w) (w_locked w) (w_locked_cursor w)
    (w_pixel_offset w) zero32 [] zero32 false.

(** [f32::ceil() as usize] of a non-negative float, saturating. *)
Definition usize_max : Z := 18446744073709551615.
Definition ceil_usize (x : f32) : nat :=
  Z.to_nat (match x with
            | S754_zero _ | S754_nan => 0
            | S754_infinity s => if s then 0 else usize_max
            | S754_finite s m e => if s then 0 else Z.min usize_max (- Z.shiftl (- Zpos m) e)
            end)%Z.
Definition scroll_skip_rows w (cell_height : f32) : nat :=
  if SFltb zero32 cell_height then ceil_usize (f32_div (w_pixel_offset w) cell_height) else 0.

(** ** Bringing the cursor back into the viewport *)

Definition ensure_scroll_with_margin w (viewport_height scrolloff : nat) : WindowState :=
  if viewport_height =? 0 then w
  else
    let margin := Nat.min scrolloff (viewport_height / 2) in
    let w := if w_row w <? w_scroll_offset w + margin
             then set_scroll w (w_row w - margin) (w_pixel_offset w) else w in
    if w_scroll_offset w + viewport_height <=? w_row w + margin
    then set_scroll w (w_row w + margin + 1 - viewport_height) (w_pixel_offset w) else w.
Definition ensure_scroll w (viewport_height : nat) : WindowState :=
  ensure_scroll_with_margin w viewport_height 0.

Definition ensure_scroll_horizontal w (viewport_width : nat) : WindowState :=
  if viewport_width =? 0 then w
  else
    let w := if w_col w <? w_col_offset w then set_col_offset w (w_col w) else w in
    if w_col_offset w + viewport_width <=? w_col w
    then set_col_offset w (w_col w - viewport_width + 1) else w.

Section Wrapped.
Context (line_visual_rows : nat -> nat).

(** The lines above the cursor that hold its top margin: the loop's [line]
    counts down from the cursor, so the fuel is the line itself. *)
Fixpoint margin_above (top_margin line rows lines : nat) : nat :=
  if rows <? top_margin then
    match line with
    | 0 => lines
    | S line => margin_above top_margin line (rows + line_visual_rows line) (lines + 1)
    end
  else lines.

(** The walk from [scroll_offset] to the cursor row, [n] lines away. *)
Fixpoint cursor_fits (viewport_height bottom_margin line n visual : nat) : bool :=
  match n with
  | 0 => visual + line_visual_rows line + bottom_margin <=? viewport_height
  | S n =>
      let visual := visual + line_visual_rows line in
      if viewport_height <=? visual then false
      else cursor_fits viewport_height bottom_margin (line + 1) n visual
  end.

(** The walk backward from the cursor that fills the rows left above it. *)
Fixpoint walk_back (new_offset budget : nat) : nat :=
  match new_offset with
  | 0 => 0
  | S prev => if budget <? line_visual_rows prev then new_offset
              else walk_back prev (budget - line_visual_rows prev)
  end.

Definition ensure_scroll_wrapped_with_margin w (viewport_height scrolloff line_count : nat)
    : WindowState :=
  if viewport_height =? 0 then w
  else
    let cursor := w_row w in let old := w_scroll_offset w in
    let distance := if old <? cursor then cursor - old else old - cursor in
    let margin := Nat.min scrolloff (viewport_height / 2) in
    if viewport_height * 10 <? distance then set_scroll w (cursor - margin) zero32
    else
      let top_margin := Nat.min margin cursor in
      let bottom_margin := Nat.min margin (line_count - (cursor + 1)) in
      let top_target := cursor - margin_above top_margin cursor 0 0 in
      if top_target <? old then set_scroll w top_target zero32
      else if (old <=? cursor) && cursor_fits viewport_height bottom_margin old (cursor - old) 0 then w
      else
        let cursor_rows := Nat.min (line_visual_rows cursor) viewport_height in
        let new_offset := walk_back cursor (viewport_height - cursor_rows - bottom_margin) in
        set_scroll w new_offset (if new_offset =? old then w_pixel_offset w else zero32).

(** [line_count] is [usize::MAX]: no cursor row is near it. *)
Definition ensure_scroll_wrapped w (viewport_height : nat) : WindowState :=
  ensure_scroll_wrapped_with_margin w viewport_height 0 (w_row w + 1).
End Wrapped.

(** ** Scroll commands *)

Definition scroll_half_up w (viewport_height : nat) : WindowState :=
  let half := viewport_height / 2 in
  lock_scroll (set_scroll (set_position w (w_row w - half) (w_col w)) (w_scroll_offset w - half) zero32).
Definition scroll_page_up w (viewport_height : nat) : WindowState :=
  let page := viewport_height - 2 in
  lock_scroll (set_scroll (set_position w (w_row w - page) (w_col w)) (w_scroll_offset w - page) zero32).
Definition scroll_center w (viewport_height : nat) : WindowState :=
  lock_scroll (set_scroll w (w_row w - viewport_height / 2) zero32).
Definition scroll_cursor_top w : WindowState := lock_scroll (set_scroll w (w_row w) zero32).
Definition scroll_cursor_bottom w (viewport_height : nat) : WindowState :=
  lock_scroll (set_scroll w
    (if 0 <? viewport_height then w_row w - (viewport_height - 1) else w_scroll_offset w) zero32).
Definition move_to_screen_top w : WindowState :=
  sync_primary_cursor (set_position w (w_scroll_offset w) 0).

(** [wrap::last_visible_wrapped_line]: the loop ends because a line that does
    not advance breaks it; the fuel is the number of rows up to [max_row]. *)
Section LastVisible.
Context (line_visual_rows next_visible_line : nat -> nat) (viewport_height skip max_row : nat).
Fixpoint last_visible_walk (fuel visual last_fit line : nat) (first : bool) : option nat :=
  match fuel with
  | 0 => None
  | S fuel =>
      if max_row <? line then Some last_fit
      else
        let rows := line_visual_rows line in
        let continue (visual last_fit : nat) (first : bool) :=
          let line := next_visible_line line in
          if line <=? last_fit then Some last_fit
          else last_visible_walk fuel visual last_fit line first in
        if 0 <? rows then
          let effective := if first then rows - skip else rows in
          if viewport_height <? visual + effective then Some last_fit
          else continue (visual + effective) line false
        else continue visual last_fit first
  end.
End LastVisible.
Definition last_visible_wrapped_line (fuel scroll_offset viewport_height skip max_row : nat)
    (line_visual_rows next_visible_line : nat -> nat) : option nat :=
  last_visible_walk line_visual_rows next_visible_line viewport_height skip max_row
    fuel 0 scroll_offset scroll_offset true.

Section OnBuffer.
Context {R Doc : Type} `{Rope R, SyncDoc R Doc, ContentHash, Segmentation}.
Implicit Types (b : Buffer R Doc).

Definition cursor_of w : Buffer.Window :=
  mkWin (w_row w) (w_col w) (from_option (fun c => (row c, col c)) (0, 0) (head (w_cursor_set w))).
Definition with_cursor w (c : Buffer.Window) : WindowState :=
  sync_primary_cursor (set_position w (cursor_row c) (cursor_col c)).
(** [clamp_cursor] ends by syncing the primary cursor. *)
Definition clamp w b : option WindowState :=
  let? c := Buffer.clamp_cursor (cursor_of w) b in Some (with_cursor w c).
Definition max_row b : option nat := let? n := display_line_count b in Some (n - 1).

(** [scroll_half_down] and [scroll_page_down] move by [n]. *)
Definition scroll_down_by w b (n : nat) : option WindowState :=
  let? mx := max_row b in
  let w := set_position w (Nat.min (w_row w + n) mx) (w_col w) in
  let w := set_scroll w (Nat.min (w_scroll_offset w + n) mx) zero32 in
  let? v := clamp w b in Some (lock_scroll v).
Definition scroll_half_down w b (viewport_height : nat) : option WindowState :=
  scroll_down_by w b (viewport_height / 2).
Definition scroll_page_down w b (viewport_height : nat) : option WindowState :=
  scroll_down_by w b (viewport_height - 2).

Definition move_to_screen_middle w b (viewport_height : nat) : option WindowState :=
  let? mx := max_row b in
  clamp (set_position w (Nat.min (w_scroll_offset w + viewport_height / 2) mx) 0) b.
Definition move_to_screen_bottom w b (viewport_height : nat) : option WindowState :=
  let? mx := max_row b in
  clamp (set_position w (Nat.min (w_scroll_offset w + (viewport_height - 1)) mx) 0) b.

Definition scroll_up_line_wrapped w b (viewport_height : nat) (cell_height : f32)
    (line_visual_rows : nat -> nat) : option WindowState :=
  if viewport_height =? 0 then Some w
  else
    let w :=
      if SFleb cell_height (w_pixel_offset w)
      then set_scroll w (w_scroll_offset w) (f32_sub (w_pixel_offset w) cell_height)
      else
        let prev := prev_visible_line b (w_scroll_offset w) in
        if prev <? w_scroll_offset w then
          let prev_rows := line_visual_rows prev in
          set_scroll w prev
            (if 1 <? prev_rows then
               let px := f32_mul (f32_sub (f32_of (Z.of_nat prev_rows)) (f32_of 2)) cell_height in
               if SFltb px zero32 then zero32 else px
             else zero32)
        else w in
    let? mx := max_row b in
    let? bottom := last_visible_wrapped_line (mx + 2) (w_scroll_offset w) viewport_height
                     (scroll_skip_rows w cell_height) mx line_visual_rows (next_visible_line b) in
    let? v := (if bottom <? w_row w then clamp (set_position w bottom (w_col w)) b else Some w) in
    Some (lock_scroll v).
Definition scroll_up_line w b (viewport_height : nat) : option WindowState :=
  let? v := scroll_up_line_wrapped w b viewport_height one32 (fun _ => 1) in
  Some (mkWindow (w_id v) (w_buffer_idx v) (w_row v) (w_col v) (w_scroll_offset v) (w_col_offset v)
    (w_cursor_set v) (w_saved v) true (w_locked_cursor v) (w_pixel_offset v) (w_shell_acc v)
    (w_samples v) (w_velocity v) (w_inertia v)).

Definition scroll_down_line w b (viewport_height : nat) (cell_height : f32)
    (line_visual_rows : nat -> nat) : option WindowState :=
  let line_height := f32_mul (f32_of (Z.of_nat (line_visual_rows (w_scroll_offset w)))) cell_height in
  let pixel := f32_add (w_pixel_offset w) cell_height in
  let? v := (if SFleb line_height pixel then
               let? mx := max_row b in
               Some (set_scroll w (Nat.min (next_visible_line b (w_scroll_offset w)) mx) zero32)
             else Some (set_scroll w (w_scroll_offset w) pixel)) in
  let? u := (if w_row v <? w_scroll_offset v
             then clamp (set_position v (w_scroll_offset v) (w_col v)) b
             else if (w_row v =? w_scroll_offset v) && SFltb zero32 (w_pixel_offset v) then
               let next := next_visible_line b (w_row v) in
               if w_row v <? next then clamp (set_position v next (w_col v)) b else Some v
             else Some v) in
  Some (lock_scroll u).
End OnBuffer.

(** ** Cursor sets *)

Lemma retain_new_spec cs : forall seen,
  (forall c, c ∈ CursorSet.retain_new seen cs -> c ∈ cs /\ (row c, col c) ∉ seen) /\
  NoDup ((fun c => (row c, col c)) <$> CursorSet.retain_new seen cs) /\
  (forall c, c ∈ cs -> (row c, col c) ∉ seen ->
    (row c, col c) ∈ (fun c => (row c, col c)) <$> CursorSet.retain_new seen cs).
Proof.
  induction cs as [|a cs IH]; intros seen; simpl.
  { split_and!; [set_solver|constructor|set_solver]. }
  case_decide as Ha.
  - destruct (IH seen) as (H1 & H2 & H3). split_and!; [set_solver|done|].
    intros c [->|Hc]%elem_of_cons Hn; [done|by apply H3].
  - destruct (IH ({[(row a, col a)]} ∪ seen)) as (H1 & H2 & H3). split_and!.
    + intros c [->|Hc]%elem_of_cons; [split; [left|done]|]. destruct (H1 _ Hc). set_solver.
    + simpl. constructor; [|done]. intros (c & Hc & Hin)%list_elem_of_fmap.
      destruct (H1 _ Hin) as [_ Hns]. apply Hns. rewrite <- Hc. set_solver.
    + intros c [->|Hc]%elem_of_cons Hn; [left|]. simpl.
      destruct (decide ((row c, col c) = (row a, col a))) as [->|]; [left|].
      right. apply H3; set_solver.
Qed.

(** The primary cursor of a set is never lost: adding, removing, clearing,
    sorting and deduplicating all keep it first, sorting rearranges the
    secondaries in order of position, removing cannot touch it, and after
    deduplication every position is held exactly once. *)
Theorem cursor_set_keeps_primary p cs idx r c :
  CursorSet.primary (CursorSet.add (p :: cs) r c) = Some p /\
  CursorSet.primary (CursorSet.remove_at (p :: cs) idx) = Some p /\
  CursorSet.clear_secondaries (p :: cs) = [p] /\
  (exists cs', CursorSet.sort_by_position (p :: cs) = p :: cs' /\ cs' ≡ₚ cs /\
    Sorted CursorSet.position_le cs') /\
  (exists cs', CursorSet.dedup_positions (p :: cs) = p :: cs' /\ incl cs' cs /\
    NoDup ((fun c => (row c, col c)) <$> p :: cs') /\
    forall c, c ∈ cs -> exists d, d ∈ p :: cs' /\ row d = row c /\ col d = col c).
Proof.
  split_and!; [done| |done| |].
  - unfold CursorSet.remove_at. destruct idx as [|idx]; [done|]. by destruct (_ && _).
  - unfold CursorSet.sort_by_position. destruct (_ <=? 1) eqn:Hl.
    + apply Nat.leb_le in Hl. destruct cs; [|simpl in Hl; lia]. by exists []; repeat constructor.
    + eexists; split; [done|]. split; [apply merge_sort_Permutation|apply (Sorted_merge_sort _)].
  - unfold CursorSet.dedup_positions. simpl. rewrite decide_False by set_solver.
    destruct (retain_new_spec cs ({[(row p, col p)]} ∪ ∅)) as (H1 & H2 & H3).
    eexists; split; [done|]. split_and!.
    + intros x Hx. apply list_elem_of_In. apply (H1 x). by apply list_elem_of_In.
    + simpl. constructor; [|done]. intros (d & Hd & Hin)%list_elem_of_fmap.
      destruct (H1 _ Hin) as [_ Hns]. rewrite <- Hd in Hns. set_solver.
    + intros d Hd. destruct (decide ((row d, col d) = (row p, col p))) as [[= Hr Hc]|Hne].
      { exists p. split; [left|done]. }
      pose proof (H3 d Hd ltac:(set_solver)) as (x & Hx & Hin)%list_elem_of_fmap.
      injection Hx as Hr Hc. exists x. split; [by right|done].
Qed.

(** ** Saved views *)

(** Leaving a buffer and coming back shows it where it was: the cursor and
    both scroll positions saved for a buffer are what a later restore puts
    back, however many other buffers were restored in between; a buffer never
    shown starts at the top; and no restore carries scrolling momentum over. *)
Theorem view_state_round_trip w (visits : list nat) :
  let w' := restore_view_state (foldl restore_view_state (save_view_state w) visits) (w_buffer_idx w) in
  (w_row w', w_col w', w_scroll_offset w', w_col_offset w', w_buffer_idx w') =
    (w_row w, w_col w, w_scroll_offset w, w_col_offset w, w_buffer_idx w) /\
  (w_samples w', w_inertia w', w_velocity w', w_shell_acc w') = ([], false, zero32, zero32) /\
  w_cursor_set w' = w_cursor_set w /\
  forall i, w_saved w !! i = None -> i <> w_buffer_idx w ->
    let v := restore_view_state w' i in (w_row v, w_col v, w_scroll_offset v) = (0, 0, 0).
Proof.
  assert (Hv : forall v, w_saved (foldl restore_view_state v visits) = w_saved v /\
    w_cursor_set (foldl restore_view_state v visits) = w_cursor_set v).
  { induction visits as [|i l IH]; intros v; simpl; [done|].
    destruct (IH (restore_view_state v i)) as [-> ->]. done. }
  destruct (Hv (save_view_state w)) as [Hs Hc].
  set (u := foldl _ _ _) in *. clearbody u.
  assert (Hl : w_saved u !! w_buffer_idx w =
    Some (mkViewState (w_row w) (w_col w) (w_scroll_offset w) (w_col_offset w))).
  { rewrite Hs. apply lookup_insert_eq. }
  cbn zeta. unfold restore_view_state. cbn -[lookup]. rewrite Hl. split_and!; [done|done|exact Hc|].
  intros i Hi Hne. rewrite Hs. unfold save_view_state. cbn -[lookup insert].
  by rewrite lookup_insert_ne, Hi.
Qed.

(** ** Keeping the cursor in the viewport *)

(** Bringing the cursor back into view without wrapping: the cursor's line
    is on screen with [scrolloff] lines (at most half the viewport) below it,
    and with as many above it as the top of the buffer and the viewport leave
    room for; nothing but the scroll position changes; and doing it again
    changes nothing. *)
Theorem ensure_scroll_shows_cursor w vh so : 0 < vh ->
  let w' := ensure_scroll_with_margin w vh so in
  let margin := Nat.min so (vh / 2) in
  w_row w' = w_row w /\ w_scroll_offset w' <= w_row w /\
  w_row w + margin < w_scroll_offset w' + vh /\
  (w_scroll_offset w' = 0 \/ w_scroll_offset w' + Nat.min margin (vh - 1 - margin) <= w_row w) /\
  (exists s, w' = set_scroll w s (w_pixel_offset w)) /\
  ensure_scroll_with_margin w' vh so = w'.
Proof.
  intros Hvh. cbn zeta. unfold ensure_scroll_with_margin.
  rewrite (proj2 (Nat.eqb_neq vh 0)) by lia.
  assert (Hm : Nat.min so (vh / 2) * 2 <= vh).
  { assert (H2 := Nat.Div0.mul_div_le vh 2). lia. }
  set (margin := Nat.min so (vh / 2)) in *. clearbody margin.
  destruct w as [? ? r ? s ? ? ? ? ? ? ? ? ? ?]; simpl.
  repeat (case_match; rewrite ?Nat.ltb_lt, ?Nat.ltb_ge, ?Nat.leb_le, ?Nat.leb_gt in *; simpl in *).
  all: (split_and!; [lia|lia|lia|lia|by eexists|]).
  all: unfold set_scroll; simpl; f_equal; lia.
Qed.

(** The same across the page: the cursor's column is within the columns
    shown. *)
Theorem ensure_scroll_horizontal_shows_cursor w vw : 0 < vw ->
  let w' := ensure_scroll_horizontal w vw in
  w_col w' = w_col w /\ w_col_offset w' <= w_col w < w_col_offset w' + vw /\
  (w_col_offset w <= w_col w < w_col_offset w + vw -> w' = w).
Proof.
  intros Hvw. cbn zeta. unfold ensure_scroll_horizontal. rewrite (proj2 (Nat.eqb_neq vw 0)) by lia.
  destruct w; simpl.
  repeat (case_match; rewrite ?Nat.ltb_lt, ?Nat.ltb_ge, ?Nat.leb_le, ?Nat.leb_gt in *; simpl in *);
    split_and!; auto; lia.
Qed.

Section WrappedScroll.
Context (rows : nat -> nat).

(** The visual rows of the lines from [lo] up to, not including, [hi]. *)
Definition rows_between (lo hi : nat) : nat := sum_list (rows <$> seq lo (hi - lo)).

Lemma rows_between_refl n : rows_between n n = 0.
Proof. unfold rows_between. by rewrite Nat.sub_diag. Qed.

Lemma rows_between_left lo hi : lo < hi -> rows_between lo hi = rows lo + rows_between (S lo) hi.
Proof.
  intros Hl. unfold rows_between. replace (hi - lo) with (S (hi - S lo)) by lia. done.
Qed.

Lemma cursor_fits_spec vh bm n : forall line visual, cursor_fits rows vh bm line n visual = true ->
  visual + rows_between line (line + n) + rows (line + n) + bm <= vh.
Proof.
  induction n as [|n IH]; intros line visual; simpl.
  - rewrite Nat.leb_le, Nat.add_0_r, rows_between_refl. lia.
  - case_match; [done|]. intros Hf%IH. rewrite rows_between_left by lia.
    replace (line + S n) with (line + 1 + n) by lia. replace (S line) with (line + 1) by lia. lia.
Qed.

Lemma walk_back_spec cur budget : let off := walk_back rows cur budget in
  off <= cur /\ rows_between off cur <= budget /\
  (off = 0 \/ budget < rows_between (off - 1) cur).
Proof.
  cbn zeta. revert budget.
  assert (Hgen : forall n spent budget, n <= cur -> spent = rows_between n cur ->
    let off := walk_back rows n budget in off <= n /\ rows_between off cur <= spent + budget /\
    (off = 0 \/ spent + budget < rows_between (off - 1) cur)).
  { induction n as [|n IH]; intros spent budget Hn Hs; cbn zeta; simpl.
    { rewrite <- Hs. split_and!; [lia..|by left]. }
    assert (Hr := rows_between_left n cur ltac:(lia)). case_match eqn:Hb.
    - apply Nat.ltb_lt in Hb. replace (S n - 1) with n by lia. split_and!; [lia..|right; lia].
    - apply Nat.ltb_ge in Hb. destruct (IH (rows n + spent) (budget - rows n)) as (H1 & H2 & H3);
        [lia..|]. split_and!; [lia..|]. destruct H3; [by left|right; lia]. }
  intros budget. destruct (Hgen cur 0 budget) as (H1 & H2 & H3); [done|by rewrite rows_between_refl|].
  by split_and!.
Qed.

End WrappedScroll.

Section OneRowLines.
(** Lines that are not wrapped. *)
Notation one_row := (fun _ : nat => 1).

Lemma margin_above_one tm line : forall r l,
  margin_above one_row tm line r l = l + Nat.min line (tm - r).
Proof.
  induction line as [|line IH]; intros r l; cbn [margin_above]; case_match eqn:Hr; try lia.
  - apply Nat.ltb_lt in Hr. rewrite IH. lia.
  - apply Nat.ltb_ge in Hr. lia.
Qed.

Lemma cursor_fits_one vh bm n : forall line v,
  cursor_fits one_row vh bm line n v = (v + n + 1 + bm <=? vh).
Proof.
  induction n as [|n IH]; intros line v; simpl; [f_equal; lia|].
  case_match eqn:Hv; [|rewrite IH; f_equal; lia].
  apply Nat.leb_le in Hv. symmetry. apply Nat.leb_gt. lia.
Qed.

Lemma walk_back_one cur : forall budget, walk_back one_row cur budget = cur - budget.
Proof.
  induction cur as [|cur IH]; intros budget; simpl; [done|]. case_match eqn:Hb.
  - apply Nat.ltb_lt in Hb. lia.
  - apply Nat.ltb_ge in Hb. rewrite IH. lia.
Qed.

(** What the wrapped function does over such lines, away from a jump. *)
Lemma wrapped_one w vh so n : 0 < vh ->
  Nat.max (w_row w - w_scroll_offset w) (w_scroll_offset w - w_row w) <= vh * 10 ->
  let m := Nat.min so (vh / 2) in let bm := Nat.min m (n - (w_row w + 1)) in
  w_scroll_offset (ensure_scroll_wrapped_with_margin one_row w vh so n) =
    if w_row w - m <? w_scroll_offset w then w_row w - m
    else if w_row w - w_scroll_offset w + 1 + bm <=? vh then w_scroll_offset w
    else w_row w - (vh - 1 - bm).
Proof.
  intros Hvh Hd. cbn zeta. unfold ensure_scroll_wrapped_with_margin.
  rewrite (proj2 (Nat.eqb_neq vh 0)) by lia. cbv zeta.
  set (m := Nat.min so _). set (bm := Nat.min m (n - _)).
  rewrite (proj2 (Nat.ltb_ge (vh * 10) _)) by (case_match; lia).
  rewrite margin_above_one, cursor_fits_one, walk_back_one, !Nat.sub_0_r, !Nat.add_0_l.
  replace (w_row w - Nat.min (w_row w) (Nat.min m (w_row w))) with (w_row w - m) by lia.
  destruct (_ <? _) eqn:Ht; [done|]. apply Nat.ltb_ge in Ht.
  rewrite (proj2 (Nat.leb_le _ _)) by lia. rewrite andb_true_l.
  destruct (_ <=? vh); [done|]. cbn [w_scroll_offset set_scroll]. lia.
Qed.

(** Over lines that take one row each, and away from the ends of the
    buffer and from a jump of more than ten screens, the wrapped function and
    the plain one put the view at the same line, as long as the margins leave
    the cursor a row of its own. *)
Theorem wrapped_scroll_agrees w vh so n : 0 < vh -> Nat.min so (vh / 2) * 2 < vh ->
  Nat.max (w_row w - w_scroll_offset w) (w_scroll_offset w - w_row w) <= vh * 10 ->
  w_row w + Nat.min so (vh / 2) < n ->
  w_scroll_offset (ensure_scroll_wrapped_with_margin one_row w vh so n) =
  w_scroll_offset (ensure_scroll_with_margin w vh so).
Proof.
  intros Hvh Hm Hd Hn. rewrite wrapped_one by done. unfold ensure_scroll_with_margin.
  rewrite (proj2 (Nat.eqb_neq vh 0)) by lia. set (m := Nat.min so (vh / 2)) in *. clearbody m.
  cbv zeta. rewrite (Nat.min_l m) by lia. destruct w as [? ? r ? s ? ? ? ? ? ? ? ? ? ?]; simpl in *.
  repeat (case_match; rewrite ?Nat.ltb_lt, ?Nat.ltb_ge, ?Nat.leb_le, ?Nat.leb_gt in *; simpl in *); lia.
Qed.

(** With a [scrolloff] of half an even viewport or more, bringing the
    cursor into view over one-row lines never settles: away from the ends of
    the buffer, the view alternates between two lines each time it is drawn. *)
Theorem wide_margin_never_settles w m so n : 0 < m -> m <= so -> m <= w_row w ->
  w_row w + m < n -> w_scroll_offset w = w_row w - m ->
  let draw w := ensure_scroll_wrapped_with_margin one_row w (m + m) so n in
  w_scroll_offset (draw w) = w_row w - m + 1 /\
  w_scroll_offset (draw (draw w)) = w_row w - m.
Proof.
  intros Hm Hso Hr Hn Hs. cbn zeta.
  assert (Hh : (m + m) / 2 = m) by (replace (m + m) with (m * 2) by lia; by apply Nat.div_mul).
  assert (H1 : w_scroll_offset (ensure_scroll_wrapped_with_margin one_row w (m + m) so n) = w_row w - m + 1).
  { rewrite wrapped_one by lia. rewrite Hh, Hs, (Nat.min_r so m), (Nat.min_l m) by lia.
    rewrite (proj2 (Nat.ltb_ge _ _)), (proj2 (Nat.leb_gt _ _)) by lia. lia. }
  assert (H2 : w_row (ensure_scroll_wrapped_with_margin one_row w (m + m) so n) = w_row w).
  { unfold ensure_scroll_wrapped_with_margin. by repeat case_match. }
  split; [done|]. rewrite wrapped_one by lia. rewrite H1, H2, Hh, (Nat.min_r so m) by lia.
  by rewrite (proj2 (Nat.ltb_lt _ _)) by lia.
Qed.
End OneRowLines.

(** ** The last line on screen *)

Section LastVisibleSpec.
Context (rows next : nat -> nat) (vh skip mx : nat).

(** The visible lines from [line] on, and the rows they take when the first
    one with any rows hides [skip] of them. *)
Fixpoint visible_chain (k line : nat) : list nat :=
  line :: match k with 0 => [] | S k => visible_chain k (next line) end.
Fixpoint used (first : bool) (l : list nat) : nat :=
  match l with
  | [] => 0
  | line :: l => if 0 <? rows line
                 then (if first then rows line - skip else rows line) + used false l
                 else used first l
  end.

Lemma visible_chain_ge : (forall l, l < next l) -> forall k line, line <= Nat.iter k next line.
Proof.
  intros Hn k line. induction k as [|k IH]; simpl; [done|]. specialize (Hn (Nat.iter k next line)). lia.
Qed.

(** The line [r] is one the walk from [line] may stop at, with [visual] rows
    used before it. *)
Definition fits_at (visual : nat) (first : bool) (line r : nat) : Prop :=
  exists k, r = Nat.iter k next line /\ r <= mx /\ 0 < rows r /\ visual + used first (visible_chain k line) <= vh.

Lemma fits_at_next visual first line r : line <= mx ->
  fits_at visual first line r <->
  (r = line /\ 0 < rows line /\ visual + (if first then rows line - skip else rows line) <= vh) \/
  (if 0 <? rows line then fits_at (visual + (if first then rows line - skip else rows line)) false (next line) r
   else fits_at visual first (next line) r).
Proof.
  intros Hl. unfold fits_at. destruct (0 <? rows line) eqn:Hr.
  - apply Nat.ltb_lt in Hr. split.
    + intros ([|k] & -> & H1 & H2 & H3); simpl in H3; rewrite (proj2 (Nat.ltb_lt _ _) Hr) in H3.
      * left. simpl. split_and!; [done|done|lia].
      * right. exists k. rewrite <- Nat.iter_succ_r. split_and!; [done..|lia].
    + intros [(-> & _ & H3)|(k & -> & H1 & H2 & H3)].
      * exists 0. simpl. rewrite (proj2 (Nat.ltb_lt _ _) Hr). split_and!; [done..|lia].
      * exists (S k). rewrite Nat.iter_succ_r. split_and!; [done..|]. simpl.
        rewrite (proj2 (Nat.ltb_lt _ _) Hr). lia.
  - assert (Hz := proj1 (Nat.ltb_ge _ _) Hr). split.
    + intros ([|k] & -> & H1 & H2 & H3); simpl in H2, H3; [lia|]. rewrite Hr in H3.
      right. exists k. rewrite <- Nat.iter_succ_r. split_and!; done.
    + intros [(-> & H2 & _)|(k & -> & H1 & H2 & H3)]; [lia|].
      exists (S k). rewrite Nat.iter_succ_r. split_and!; [done..|]. simpl. by rewrite Hr.
Qed.

Lemma last_visible_walk_spec (Hn : forall l, l < next l) fuel : forall visual last_fit line first,
  last_fit <= line -> 0 < fuel -> mx + 1 < fuel + line ->
  exists r, last_visible_walk rows next vh skip mx fuel visual last_fit line first = Some r /\
    last_fit <= r /\ (r = last_fit \/ fits_at visual first line r) /\
    (forall k, fits_at visual first line k -> k <= r).
Proof.
  induction fuel as [|fuel IH]; intros visual last_fit line first Hle Hpos Hf; [lia|].
  simpl. destruct (mx <? line) eqn:Hmx.
  { apply Nat.ltb_lt in Hmx. exists last_fit. split_and!; [done|done|by left|].
    intros r (k & -> & H1 & _). assert (Hk := visible_chain_ge Hn k line). lia. }
  apply Nat.ltb_ge in Hmx. assert (Hnl := Hn line).
  setoid_rewrite (fits_at_next visual first line _ Hmx).
  destruct (0 <? rows line) eqn:Hr.
  - apply Nat.ltb_lt in Hr. destruct (vh <? _) eqn:Hv.
    + apply Nat.ltb_lt in Hv. exists last_fit. split_and!; [done|done|by left|].
      intros r [(_ & _ & ?)|(k & _ & _ & _ & ?)]; lia.
    + apply Nat.ltb_ge in Hv. rewrite (proj2 (Nat.leb_gt _ _) Hnl).
      edestruct (IH (visual + (if first then rows line - skip else rows line)) line (next line) false)
        as (r & -> & H1 & H2 & H3); [lia..|].
      exists r. split_and!; [done|lia| |].
      * right. destruct H2 as [->|H2]; [by left|by right].
      * intros k [(-> & _)|Hk]; [done|by apply H3].
  - rewrite (proj2 (Nat.leb_gt _ _)) by lia.
    edestruct (IH visual last_fit (next line) first) as (r & -> & H1 & H2 & H3); [lia..|].
    exists r. split_and!; [done|done| |].
    + destruct H2 as [->|H2]; [by left|by right; right].
    + intros k [(_ & ? & _)|Hk]; [|by apply H3]. apply Nat.ltb_ge in Hr. lia.
Qed.

(** When every line leads to a later one, the walk to the bottom of the
    viewport ends within the rows of the buffer, and finds the last line whose
    rows, with those of the visible lines above it and less the hidden rows of
    the first, fit the viewport; the first line when none does. *)
Theorem last_visible_line_is_greatest off : (forall l, l < next l) ->
  exists r, last_visible_wrapped_line (mx + 2) off vh skip mx rows next = Some r /\
    off <= r /\ (r = off \/ fits_at 0 true off r) /\ (forall k, fits_at 0 true off k -> k <= r).
Proof. intros Hn. apply last_visible_walk_spec; auto; lia. Qed.
End LastVisibleSpec.

(** The walk's check for progress compares with the last line that fitted,
    not with the line it came from: past a line of no rows, a caller whose
    [next_visible_line] stands still keeps it going forever. *)
Theorem last_visible_walk_can_spin fuel :
  last_visible_wrapped_line fuel 0 5 0 9 (fun l => if l =? 0 then 1 else 0)
    (fun l => if l =? 0 then 1 else l) = None.
Proof.
  destruct fuel as [|fuel]; [done|]. unfold last_visible_wrapped_line. cbn.
  induction fuel as [|fuel IH]; [done|]. cbn. exact IH.
Qed.

(** ** Paging *)

Section Paging.
Context {R Doc : Type} `{RopeLaws R, SyncDoc R Doc, ContentHash, SegmentationLaws}.
Implicit Types (b : Buffer R Doc).

Lemma display_line_count_total b : exists n, display_line_count b = Some n /\ 0 < n /\ n <= line_count b.
Proof.
  unfold display_line_count. assert (Hl := line_count_pos b). unfold line_count in *.
  destruct (_ && _) eqn:Hc; [|by eexists; split_and!].
  apply andb_prop in Hc as [H1c%Nat.ltb_lt H2c%Nat.ltb_lt].
  assert (Hs : is_Some (char_at (rope b) (len_chars (rope b) - 1))).
  { rewrite rope_char_at, rope_len_chars in *. apply lookup_lt_is_Some_2. lia. }
  destruct Hs as [c ->]. eexists. split; [done|]. case_bool_decide; lia.
Qed.

Lemma clamp_spec b w : exists v, clamp w b = Some v /\ w_row v = clamped_row b (w_row w) /\
  w_scroll_offset v = w_scroll_offset w /\ w_pixel_offset v = w_pixel_offset w /\
  w_buffer_idx v = w_buffer_idx w /\ w_id v = w_id w.
Proof.
  unfold clamp. destruct (clamp_cursor_alt (cursor_of w) b) as (len & txt & _ & _ & ->).
  cbn [mbind option_bind]. eexists. split; [done|]. unfold with_cursor, sync_primary_cursor, set_position. simpl.
  by destruct (w_cursor_set w).
Qed.

(** Paging down by [n] never panics: the view and the cursor move [n] lines,
    at most to the last line shown; the cursor stays on a line of the buffer,
    and the scroll lock remembers where; and when neither was stopped by the end
    of the buffer nor by narrowing, moving back up by as much restores both. *)
Theorem paging_down_is_bounded b w n : exists mx v,
  max_row b = Some mx /\ scroll_down_by w b n = Some v /\
  mx < line_count b /\ w_row v < line_count b /\
  w_scroll_offset v = Nat.min (w_scroll_offset w + n) mx /\ w_pixel_offset v = zero32 /\
  w_locked v = true /\ w_locked_cursor v = w_row v /\
  (narrowed_range b = None -> w_row v = Nat.min (w_row w + n) mx) /\
  (narrowed_range b = None -> w_row w + n <= mx -> w_scroll_offset w + n <= mx ->
   w_row v - n = w_row w /\ w_scroll_offset v - n = w_scroll_offset w).
Proof.
  destruct (display_line_count_total b) as (k & Hk & Hpos & Hle). exists (k - 1).
  unfold scroll_down_by, max_row. rewrite Hk. cbn [mbind option_bind].
  match goal with |- context [clamp ?x b] => destruct (clamp_spec b x) as (v & -> & Hr & Hs & Hp & _) end.
  cbn [mbind option_bind]. exists (lock_scroll v).
  cbn [lock_scroll w_row w_scroll_offset w_pixel_offset w_locked w_locked_cursor set_scroll set_position] in *.
  assert (Hrow : narrowed_range b = None -> w_row v = Nat.min (w_row w + n) (k - 1)).
  { intros Hn. rewrite Hr. unfold clamped_row. rewrite Hn. by rewrite (proj2 (Nat.ltb_ge _ _)) by lia. }
  split_and!; try done; [lia|rewrite Hr; apply clamped_row_lt|].
  intros Hn H1n H2n. rewrite (Hrow Hn), Hs. lia.
Qed.
End Paging.

(** ** Concrete windows *)

Module ViewWitnesses.
Import PlainBuffer.
(** A window with its cursor on row [r] and its view at line [s]. *)
Definition at_row (r s : nat) : WindowState := set_scroll (set_position (new_window 0 0) r 0) s zero32.

Lemma ensure_scroll_shows_cursor_witness :
  w_scroll_offset (ensure_scroll_with_margin (at_row 50 0) 20 5) = 36 /\ 50 + 5 < 36 + 20.
Proof.
  assert (Ho : w_scroll_offset (ensure_scroll_with_margin (at_row 50 0) 20 5) = 36) by reflexivity.
  split; [exact Ho|]. destruct (ensure_scroll_shows_cursor (at_row 50 0) 20 5 ltac:(lia)) as (_ & _ & H & _).
  rewrite Ho in H. exact H.
Defined.

Lemma ensure_scroll_horizontal_shows_cursor_witness :
  let w := set_position (new_window 0 0) 0 90 in
  w_col_offset (ensure_scroll_horizontal w 40) = 51 /\ 51 <= 90.
Proof.
  intros w. assert (Ho : w_col_offset (ensure_scroll_horizontal w 40) = 51) by reflexivity.
  split; [exact Ho|]. destruct (ensure_scroll_horizontal_shows_cursor w 40 ltac:(lia)) as (_ & [H _] & _).
  rewrite Ho in H. exact H.
Defined.

(** Every third line takes two rows. *)
Definition heading_rows (l : nat) : nat := if l mod 3 =? 0 then 2 else 1.

Lemma wrapped_scroll_agrees_witness :
  w_scroll_offset (ensure_scroll_wrapped_with_margin (fun _ => 1) (at_row 60 0) 20 5 1000) = 46.
Proof.
  rewrite (wrapped_scroll_agrees (at_row 60 0) 20 5 1000); [reflexivity|cbn; lia..].
Defined.

Lemma wide_margin_never_settles_witness :
  let draw w := ensure_scroll_wrapped_with_margin (fun _ => 1) w (10 + 10) 999 1000 in
  w_scroll_offset (draw (at_row 60 50)) = 51 /\ w_scroll_offset (draw (draw (at_row 60 50))) = 50.
Proof. apply (wide_margin_never_settles (at_row 60 50) 10 999 1000); cbn; lia. Defined.

Lemma last_visible_line_is_greatest_witness :
  last_visible_wrapped_line 101 0 20 0 99 (fun l => if l =? 4 then 3 else 1) S = Some 17 /\
  fits_at (fun l => if l =? 4 then 3 else 1) S 20 0 99 0 true 0 17.
Proof.
  assert (Hr : last_visible_wrapped_line 101 0 20 0 99 (fun l => if l =? 4 then 3 else 1) S = Some 17)
    by reflexivity.
  split; [exact Hr|].
  destruct (last_visible_line_is_greatest (fun l => if l =? 4 then 3 else 1) S 20 0 99 0) as (r & H1 & _ & H2 & _).
  { intros l. lia. }
  change (99 + 2) with 101 in H1. rewrite Hr in H1. injection H1 as <-. destruct H2 as [H2|H2]; [discriminate H2|exact H2].
Defined.

(** Down half a screen in a file of eleven lines, and back. *)
Definition eleven_lines : string :=
  String.concat (String "010" "") ["a"; "b"; "c"; "d"; "e"; "f"; "g"; "h"; "i"; "j"; "k"].
Lemma paging_down_is_bounded_witness :
  w_row <$> scroll_half_down (at_row 1 0) (file eleven_lines) 8 = Some 5 /\
  w_row <$> scroll_half_down (at_row 9 8) (file eleven_lines) 8 = Some 10 /\
  (w_row <$> ((fun v => scroll_half_up v 8) <$> scroll_half_down (at_row 1 0) (file eleven_lines) 8)) = Some 1.
Proof.
  split; [by vm_compute|]. split; [by vm_compute|].
  destruct (paging_down_is_bounded (file eleven_lines) (at_row 1 0) 4)
    as (mx & v & Hm & Hv & _ & _ & _ & _ & _ & _ & _ & Hback).
  assert (mx = 10) as -> by (assert (max_row (file eleven_lines) = Some 10) by reflexivity; congruence).
  destruct Hback as [Hrow _]; [done|cbn; lia..|].
  unfold scroll_half_down. change (8 / 2) with 4. rewrite Hv. cbn [fmap option_fmap option_map].
  f_equal. exact Hrow.
Defined.
End ViewWitnesses.
