(* ===== verification/WindowMoves.v ===== *)
(** * Cursor movement

    The movement methods of [Window] ([crates/core/src/window.rs], lines
    164-355): by line with folds, by cluster, by word, paragraph, bracket and
    character. They compose the buffer's position conversions ([Buffer]) with
    the motions of [word.rs] ([Word]); a rope access out of range is [None].

    Every one of them leaves the cursor in the text. Some of them leave the
    primary cursor of the multi-cursor set behind ([MoveDepartures]). *)
From S2P Require Import Prelude Rope Grapheme Word Buffer BufferHistory.

Section Moves.
Context {R Doc : Type} `{Rope R, SyncDoc R Doc, ContentHash, Segmentation, Unicode}.
Implicit Types (b : Buffer R Doc).

Definition set_col (w : Window) (c : nat) : Window := mkWin (cursor_row w) c (primary w).
Definition set_pos (w : Window) (r c : nat) : Window := mkWin r c (primary w).

(** The loops over folded lines. *)
Fixpoint skip_folded_up b (row : nat) : nat :=
  match row with
  | 0 => 0
  | S r => if is_line_folded b row then skip_folded_up b r else row
  end.
Fixpoint skip_folded_down (fuel : nat) b (max row : nat) : nat :=
  match fuel with
  | 0 => row
  | S fuel => if (row + 1 <? max) && is_line_folded b row
              then skip_folded_down fuel b max (row + 1) else row
  end.

Definition move_up b (w : Window) : option Window :=
  match cursor_row w with
  | 0 => Some w
  | S r => clamp_cursor (set_pos w (skip_folded_up b r) (cursor_col w)) b
  end.
Definition move_down b (w : Window) : option Window :=
  let? max := display_line_count b in
  if cursor_row w + 1 <? max
  then clamp_cursor (set_pos w (skip_folded_down max b max (cursor_row w + 1)) (cursor_col w)) b
  else Some w.

Definition move_left b (w : Window) : option Window :=
  if 0 <? cursor_col w
  then let? c := prev_grapheme_col b (cursor_row w) (cursor_col w) in Some (sync_primary (set_col w c))
  else Some (sync_primary w).
Definition move_right b (w : Window) : option Window :=
  let? len := line_byte_len b (cursor_row w) in
  if cursor_col w <? len
  then let? c := next_grapheme_col b (cursor_row w) (cursor_col w) in Some (set_col w c)
  else Some w.
Definition move_to_line_start (w : Window) : Window := sync_primary (set_col w 0).
Definition move_to_line_end b (w : Window) : option Window :=
  let? len := line_byte_len b (cursor_row w) in Some (sync_primary (set_col w len)).
Definition move_to_first_line b (w : Window) : option Window :=
  clamp_cursor (set_pos w 0 (cursor_col w)) b.
Definition move_to_last_line b (w : Window) : option Window :=
  let? count := display_line_count b in
  clamp_cursor (if 0 <? count then set_pos w (count - 1) (cursor_col w) else w) b.

Definition set_cursor_from_offset b (w : Window) (char_pos : nat) : option Window :=
  let n := len_chars (rope b) in
  if bool_decide (n = 0) then Some (sync_primary (set_pos w 0 0))
  else
    let? (row, col) := row_col_from_offset b (Nat.min char_pos (n - 1)) in
    let? c := snap_col_to_grapheme b row col in
    Some (sync_primary (set_pos w row c)).

(** The motions over character offsets: from the cursor's, to the motion's. *)
Definition by_offset (motion : R -> nat -> option nat) b (w : Window) : option Window :=
  let? offset := char_offset_at b (cursor_row w) (cursor_col w) in
  let? pos := motion (rope b) offset in
  set_cursor_from_offset b w pos.
Definition move_word_forward := by_offset word_start_forward.
Definition move_word_backward := by_offset word_start_backward.
Definition move_word_end := by_offset word_end_forward.
Definition move_big_word_forward := by_offset big_word_start_forward.
Definition move_big_word_backward := by_offset big_word_start_backward.
Definition move_big_word_end := by_offset big_word_end_forward.
Definition move_word_end_backward := by_offset word_end_backward.
Definition move_big_word_end_backward := by_offset big_word_end_backward.

Definition move_matching_bracket b (w : Window) : option Window :=
  let? offset := char_offset_at b (cursor_row w) (cursor_col w) in
  let? found := matching_bracket (rope b) offset in
  match found with Some pos => set_cursor_from_offset b w pos | None => Some w end.

Definition move_to_first_non_blank b (w : Window) : option Window :=
  let? col := first_non_blank_col (rope b) (cursor_row w) in
  let? c := snap_col_to_grapheme b (cursor_row w) col in
  Some (set_col w c).

Definition by_paragraph (motion : R -> nat -> option nat) b (w : Window) : option Window :=
  let? new_line := motion (rope b) (cursor_row w) in
  clamp_cursor (set_pos w new_line 0) b.
Definition move_paragraph_forward := by_paragraph paragraph_forward.
Definition move_paragraph_backward := by_paragraph paragraph_backward.

Definition by_find (find : R -> nat -> nat -> N -> option (option nat)) b (w : Window) (ch : N)
    : option Window :=
  let? found := find (rope b) (cursor_row w) (cursor_col w) ch in
  match found with
  | Some col => let? c := snap_col_to_grapheme b (cursor_row w) col in Some (set_col w c)
  | None => Some w
  end.
Definition move_find_char := by_find find_char_forward.
Definition move_find_char_back := by_find find_char_backward.
Definition move_till_char := by_find find_char_forward_till.
Definition move_till_char_back := by_find find_char_backward_till.

(** The movements, by name. *)
Inductive movement :=
  | MUp | MDown | MLeft | MRight | MLineStart | MLineEnd | MFirstLine | MLastLine
  | MWord | MWordBack | MWordEnd | MBigWord | MBigWordBack | MBigWordEnd | MWordEndBack | MBigWordEndBack
  | MBracket | MFirstNonBlank | MParagraph | MParagraphBack
  | MFind (ch : N) | MFindBack (ch : N) | MTill (ch : N) | MTillBack (ch : N).

Definition move (m : movement) b (w : Window) : option Window :=
  match m with
  | MUp => move_up b w | MDown => move_down b w | MLeft => move_left b w | MRight => move_right b w
  | MLineStart => Some (move_to_line_start w) | MLineEnd => move_to_line_end b w
  | MFirstLine => move_to_first_line b w | MLastLine => move_to_last_line b w
  | MWord => move_word_forward b w | MWordBack => move_word_backward b w
  | MWordEnd => move_word_end b w | MBigWord => move_big_word_forward b w
  | MBigWordBack => move_big_word_backward b w | MBigWordEnd => move_big_word_end b w
  | MWordEndBack => move_word_end_backward b w | MBigWordEndBack => move_big_word_end_backward b w
  | MBracket => move_matching_bracket b w | MFirstNonBlank => move_to_first_non_blank b w
  | MParagraph => move_paragraph_forward b w | MParagraphBack => move_paragraph_backward b w
  | MFind ch => move_find_char b w ch | MFindBack ch => move_find_char_back b w ch
  | MTill ch => move_till_char b w ch | MTillBack ch => move_till_char_back b w ch
  end.
End Moves.

(** ** Movement stays in the text *)

Section InText.
Context {R Doc : Type} `{RopeLaws R, SyncDoc R Doc, ContentHash, SegmentationLaws, Unicode}.
Implicit Types (b : Buffer R Doc).

(** The cursor is on a line of the buffer and its column within the line. *)
Definition in_text b (w : Window) : Prop :=
  cursor_row w < line_count b /\
  exists len, line_byte_len b (cursor_row w) = Some len /\ cursor_col w <= len.

Lemma trim_end_prefix c s : exists t, s = trim_end c s ++ t /\ (last s = Some c -> t <> []).
Proof.
  induction s as [|d s (t & IH1 & IH2)]; [by exists []|]. cbn [trim_end].
  destruct s as [|x s].
  - simpl. destruct (decide (d = c)) as [->|Hd].
    + rewrite bool_decide_eq_true_2 by done. by exists [c].
    + rewrite bool_decide_eq_false_2 by done. exists []. split; [done|congruence].
  - rewrite last_cons_cons. destruct (trim_end c (x :: s)) as [|e u].
    + simpl in IH1. subst t. case_bool_decide; [by exists (d :: x :: s)|by exists (x :: s)].
    + exists t. split; [|done]. by rewrite IH1.
Qed.

Lemma text_within_line b row txt len : line_text_no_newline b row = Some txt ->
  line_byte_len b row = Some len -> byte_len txt <= len.
Proof.
  unfold line_text_no_newline, line_byte_len. case_match; [by intros [= <-] [= <-]|].
  destruct (line (rope b) row) as [s|]; [|done]. intros [= <-].
  destruct (trim_end_prefix 10 s) as (t & Hs & Hl). destruct (trim_end_prefix 13 (trim_end 10 s)) as (u & Hu & _).
  assert (Hba : byte_len (trim_end 13 (trim_end 10 s)) <= byte_len (trim_end 10 s)).
  { rewrite Hu at 2. rewrite byte_len_app. lia. }
  assert (Hbb : byte_len s = byte_len (trim_end 10 s) + byte_len t) by (rewrite Hs at 1; apply byte_len_app).
  destruct (last s) as [c|] eqn:Hlast.
  - intros [= <-]. case_bool_decide as Hc; [|lia]. subst c. destruct t as [|x t]; [by destruct Hl|].
    assert (Hp := char_len_pos x). simpl in Hbb. lia.
  - intros [= <-]. apply last_None in Hlast. subst s. simpl in *. lia.
Qed.

Lemma boundary_le txt c : boundary txt c -> c <= byte_len txt.
Proof. intros (k & _ & ->). apply offs_le. Qed.

Lemma line_len_total b row : exists len, line_byte_len b row = Some len.
Proof.
  unfold line_byte_len. case_match eqn:Hl; [by eexists|]. apply Nat.leb_gt in Hl.
  destruct (line_lt b row Hl) as [s ->]. by destruct (last s); eexists.
Qed.
Lemma line_text_total b row : exists txt, line_text_no_newline b row = Some txt.
Proof.
  unfold line_text_no_newline. case_match eqn:Hl; [by eexists|]. apply Nat.leb_gt in Hl.
  destruct (line_lt b row Hl) as [s ->]. by eexists.
Qed.

Lemma in_text_clamp b w w' : clamp_cursor w b = Some w' -> in_text b w'.
Proof.
  destruct (clamp_cursor_alt w b) as (len & txt & Hlen & Htxt & ->). intros [= <-].
  split; cbn [sync_primary cursor_row cursor_col]; [apply clamped_row_lt|]. exists len. split; [done|].
  destruct (Nat.ltb_spec len (cursor_col w)); [done|]. case_match; [|lia].
  destruct (snap_spec txt (cursor_col w)) as (_ & Hs & _). lia.
Qed.

(** A column on a cluster boundary of its line is within the line. *)
Lemma in_text_boundary b r c p txt : r < line_count b -> line_text_no_newline b r = Some txt ->
  boundary txt c -> in_text b (mkWin r c p).
Proof.
  intros Hr Ht Hc. split; [done|]. destruct (line_len_total b r) as [len Hlen]. exists len. split; [done|].
  etrans; [by apply boundary_le|by eapply text_within_line].
Qed.

Lemma in_text_snap b r col c p : r < line_count b -> snap_col_to_grapheme b r col = Some c ->
  in_text b (mkWin r c p).
Proof.
  unfold snap_col_to_grapheme. destruct (line_text_no_newline b r) as [txt|] eqn:Ht; [|done].
  intros Hr [= <-]. eapply in_text_boundary; [done..|]. apply (snap_spec txt col).
Qed.

Lemma in_text_offset b w pos w' : set_cursor_from_offset b w pos = Some w' -> in_text b w'.
Proof.
  unfold set_cursor_from_offset. case_bool_decide as Hn.
  - intros [= <-]. split; [apply line_count_pos|]. destruct (line_len_total b 0) as [len Hlen].
    exists len. split; [done|cbn; lia].
  - unfold row_col_from_offset. set (o := Nat.min _ (len_chars (rope b) - 1)).
    destruct (char_to_line (rope b) o) as [row|] eqn:Hrow; [|done]. cbn [mbind option_bind].
    destruct (line_to_byte _ row); [|done]. destruct (char_to_byte _ o); [|done]. cbn [mbind option_bind].
    destruct (snap_col_to_grapheme b row _) as [c|] eqn:Hc; [|done]. intros [= <-].
    eapply in_text_snap; [|done]. rewrite rope_char_to_line in Hrow. case_match; [|done].
    injection Hrow as <-. unfold line_count. rewrite rope_len_lines.
    apply (line_of_spec (split_lines (rope_chars (rope b))) o).
    by destruct (split_lines_cons (rope_chars (rope b))) as (? & ? & ->).
Qed.


(** *** Folds *)

Lemma skip_folded_up_spec b row : let r := skip_folded_up b row in
  r <= row /\ (r = 0 \/ is_line_folded b r = false) /\
  (forall i, r < i -> i <= row -> is_line_folded b i = true).
Proof.
  cbn zeta. induction row as [|row IH]; simpl; [split_and!; auto; lia|].
  destruct (is_line_folded b (S row)) eqn:Hf.
  - destruct IH as (H1' & H2' & H3'). split_and!; [lia|done|]. intros i Hi Hle.
    destruct (decide (i = S row)) as [->|]; [done|]. apply H3'; lia.
  - split_and!; [done|by right|lia].
Qed.

Lemma skip_folded_down_spec b max fuel : forall row, max <= fuel + row ->
  let r := skip_folded_down fuel b max row in
  row <= r /\ (r + 1 <? max = false \/ is_line_folded b r = false) /\
  (forall i, row <= i -> i < r -> is_line_folded b i = true) /\ (row < max -> r < max).
Proof.
  induction fuel as [|fuel IH]; intros row Hf; cbn zeta; simpl.
  { split_and!; [done| |lia|lia]. left. apply Nat.ltb_ge. lia. }
  destruct (row + 1 <? max) eqn:Hm; simpl; [|split_and!; auto; lia]. apply Nat.ltb_lt in Hm.
  destruct (is_line_folded b row) eqn:Hr; [|split_and!; auto; lia].
  destruct (IH (row + 1)) as (H1' & H2' & H3' & H4'); [lia|]. split_and!; [lia|done| |lia].
  intros i Hi Hlt. destruct (decide (i = row)) as [->|]; [done|]. apply H3'; lia.
Qed.

Lemma display_le b max : display_line_count b = Some max -> max <= line_count b.
Proof.
  unfold display_line_count, line_count. case_match; [|by intros [= <-]].
  destruct (char_at _ _); [|done]. intros [= <-]. case_bool_decide; lia.
Qed.

Lemma clamp_row b w w' : narrowed_range b = None -> cursor_row w < line_count b ->
  clamp_cursor w b = Some w' -> cursor_row w' = cursor_row w.
Proof.
  intros Hn Hlt. destruct (clamp_cursor_alt w b) as (len & txt & _ & _ & ->). intros [= <-].
  cbn [sync_primary cursor_row]. unfold clamped_row. rewrite Hn.
  by rewrite (proj2 (Nat.ltb_ge _ _)) by lia.
Qed.

(** Moving up and down skips folded lines, and only those: the cursor goes
    to the next line in the direction that is not folded (or the last one
    shown, or the first), every line in between is folded, and it stays only at
    the first and the last line. *)
Theorem vertical_moves_skip_folds b w w' : narrowed_range b = None -> in_text b w ->
  (move_up b w = Some w' ->
     (cursor_row w = 0 /\ w' = w) \/
     (cursor_row w' < cursor_row w /\
      (cursor_row w' = 0 \/ is_line_folded b (cursor_row w') = false) /\
      forall i, cursor_row w' < i -> i < cursor_row w -> is_line_folded b i = true)) /\
  (move_down b w = Some w' -> exists max, display_line_count b = Some max /\
     ((max <= cursor_row w + 1 /\ w' = w) \/
      (cursor_row w < cursor_row w' /\ cursor_row w' < max /\
       (cursor_row w' + 1 = max \/ is_line_folded b (cursor_row w') = false) /\
       forall i, cursor_row w < i -> i < cursor_row w' -> is_line_folded b i = true))).
Proof.
  intros Hn [Hrow _]. split.
  - unfold move_up. destruct (cursor_row w) as [|r] eqn:Hr; [intros [= <-]; by left|]. intros Hc. right.
    destruct (skip_folded_up_spec b r) as (Ha & Hb & Hd). cbn zeta in *.
    apply clamp_row in Hc; [|done|cbn [set_pos cursor_row]; lia]. cbn [set_pos cursor_row] in Hc. rewrite Hc.
    split_and!; [lia|done|]. intros i Hi Hlt. apply Hd; lia.
  - unfold move_down. destruct (display_line_count b) as [max|] eqn:Hmax; [|done]. cbn [mbind option_bind].
    intros Hc. exists max. split; [done|]. apply display_le in Hmax.
    destruct (Nat.ltb_spec (cursor_row w + 1) max) as [Hlt|Hge]; [right|left; by injection Hc as <-].
    destruct (skip_folded_down_spec b max max (cursor_row w + 1)) as (Ha & Hb & Hd & He); [lia|].
    specialize (He Hlt). apply clamp_row in Hc; [|done|cbn [set_pos cursor_row]; lia].
    cbn [set_pos cursor_row] in Hc. rewrite Hc. split_and!; [lia|done| |].
    + destruct Hb as [Hb%Nat.ltb_ge|]; [left; lia|by right].
    + intros i Hi Hlt'. apply Hd; lia.
Qed.
End InText.

(** ** Witnesses and departures *)

Module MoveWitnesses.
Import PlainBuffer.
#[export] Instance lower_letters : Unicode := {| is_alphanumeric c := ((97 <=? c) && (c <=? 122))%N |}.

Definition folded_text : buffer :=
  set_view (file (String.concat (String "010" "") ["ab"; "c"; "d"; "e f"])) [(0, 3)] None.
Definition late_cursor : Window := mkWin 3 2 (3, 2).

Lemma late_cursor_in_text : in_text folded_text late_cursor.
Proof. split; [by vm_compute; lia|]. exists 3. split; [reflexivity|cbn; lia]. Qed.


(** Up from line 3, over the folded lines 2 and 1. *)
Lemma vertical_moves_skip_folds_witness :
  move_up folded_text late_cursor = Some (mkWin 0 2 (0, 2)) /\ is_line_folded folded_text 1 = true.
Proof.
  assert (Hm : move_up folded_text late_cursor = Some (mkWin 0 2 (0, 2))) by reflexivity. split; [exact Hm|].
  destruct (vertical_moves_skip_folds folded_text late_cursor (mkWin 0 2 (0, 2)) eq_refl late_cursor_in_text) as [H _].
  destruct (H Hm) as [[H0 _]|(_ & _ & H1)]; [discriminate H0|]. apply H1; cbn; lia.
Defined.
End MoveWitnesses.

Module MoveDepartures.
Import PlainBuffer MoveWitnesses.

(** "The CursorSet primary must mirror them": moving right, to the first
    non-blank and to a character found leave it where it was, while their
    opposites update it. *)
Theorem some_moves_leave_primary_behind :
  let w := mkWin 3 0 (3, 0) in
  move MRight folded_text w = Some (mkWin 3 1 (3, 0)) /\
  move (MFind 102) folded_text w = Some (mkWin 3 2 (3, 0)) /\
  move MFirstNonBlank folded_text (mkWin 3 2 (3, 2)) = Some (mkWin 3 0 (3, 2)) /\
  move MLeft folded_text (mkWin 3 1 (3, 0)) = Some (mkWin 3 0 (3, 0)) /\
  move MWord folded_text w = Some (mkWin 3 2 (3, 2)).
Proof. by vm_compute. Qed.
End MoveDepartures.
