(* ===== verification/WindowTree.v ===== *)
(** * The window layout tree

    [WindowManager] of [crates/core/src/window.rs]: a binary tree of splits,
    with named groups that split as one unit, over the map of windows; opening,
    closing, grouping, resizing, moving and maximising windows, and the
    rectangles the tree divides a screen into.

    Ratios are single-precision floats ([Float32]) and screen coordinates
    wrapping [u16]s, as the machine has them; window identifiers are natural
    numbers (a [u32] counter that only grows). [HashMap] order is never
    observed: the only iteration sorts the keys. Formatted error messages are
    the strings the code builds. *)
From Stdlib Require Import Lia.
From S2P Require Import Float32 Prelude WindowView.
Local Open Scope Z_scope.

(** ** Data *)

Inductive SplitDirection := Horizontal | Vertical.
Inductive Direction := Up | Down | Left | Right.

Inductive LayoutNode :=
  | Leaf (id : nat)
  | Split (direction : SplitDirection) (ratio : f32) (first second : LayoutNode)
  | Group (label : string) (inner : LayoutNode).

Definition MIN_WINDOW_HEIGHT : Z := 3.
Definition MIN_WINDOW_WIDTH : Z := 20.

Inductive SplitSizing := Ratio (r : f32) | FixedPixels (px : Z).
Definition resolve_sizing (s : SplitSizing) (dimension_px : Z) : f32 :=
  match s with
  | Ratio r => f32_clamp r zero32 one32
  | FixedPixels px =>
      if dimension_px =? 0 then half32
      else f32_clamp (f32_div (f32_of px) (f32_of dimension_px)) zero32 one32
  end.

Record Rect := mkRect { x : Z; y : Z; width : Z; height : Z }.
Definition rect_contains (r : Rect) (col row : Z) : bool :=
  (x r <=? col) && (col <? add16 (x r) (width r)) && (y r <=? row) && (row <? add16 (y r) (height r)).

Record WindowManager := mkWM {
  windows : gmap nat WindowState;
  layout : LayoutNode;
  focused : nat;
  next_id : nat;
}.
#[export] Instance SplitDirection_eq_dec : EqDecision SplitDirection.
Proof. solve_decision. Defined.
#[export] Instance Direction_eq_dec : EqDecision Direction.
Proof. solve_decision. Defined.
Implicit Types (wm : WindowManager) (node : LayoutNode).

Definition new (buffer_idx : nat) : WindowManager :=
  mkWM {[0%nat := new_window 0 buffer_idx]} (Leaf 0) 0 1.
Definition reset_to_single wm (buffer_idx : nat) : WindowManager :=
  mkWM {[next_id wm := new_window (next_id wm) buffer_idx]} (Leaf (next_id wm)) (next_id wm)
    (next_id wm + 1).

Definition set_layout wm node : WindowManager := mkWM (windows wm) node (focused wm) (next_id wm).
Definition focus wm (id : nat) : WindowManager := mkWM (windows wm) (layout wm) id (next_id wm).
(** A new window, and where the layout holds it. *)
Definition open_window wm (buffer_idx : nat) node : WindowManager :=
  mkWM (<[next_id wm := new_window (next_id wm) buffer_idx]> (windows wm)) node (focused wm)
    (next_id wm + 1).

(** [focused_window]: [expect]s the window. *)
Definition focused_window wm : option WindowState := windows wm !! focused wm.
Definition set_focused wm (id : nat) : WindowManager :=
  if decide (is_Some (windows wm !! id)) then focus wm id else wm.
Definition window_count wm : nat := size (windows wm).

(** The window identifiers, sorted. *)
Definition window_ids wm : list nat := merge_sort Nat.le (map_to_list (windows wm)).*1.
Definition position (id : nat) (l : list nat) : nat :=
  default 0%nat (fst <$> list_find (fun i => i = id) l).
Definition focus_next wm : WindowManager :=
  if (window_count wm <=? 1)%nat then wm
  else
    let l := window_ids wm in
    let next := ((position (focused wm) l + 1) mod length l)%nat in
    focus wm (default 0%nat (l !! next)).

(** ** Rectangles *)

Definition split_area (direction : SplitDirection) (ratio : f32) (area : Rect) : Rect * Rect :=
  match direction with
  | Vertical =>
      let first_width := scale (width area) ratio in
      let second_width := sub16 (width area) first_width in
      (mkRect (x area) (y area) first_width (height area),
       mkRect (add16 (x area) first_width) (y area) second_width (height area))
  | Horizontal =>
      let first_height := scale (height area) ratio in
      let second_height := sub16 (height area) first_height in
      (mkRect (x area) (y area) (width area) first_height,
       mkRect (x area) (add16 (y area) first_height) (width area) second_height)
  end.

Fixpoint compute_rects node (area : Rect) : list (nat * Rect) :=
  match node with
  | Leaf id => [(id, area)]
  | Split direction ratio first second =>
      let '(first_area, second_area) := split_area direction ratio area in
      compute_rects first first_area ++ compute_rects second second_area
  | Group _ inner => compute_rects inner area
  end.
Definition layout_rects wm (total : Rect) : list (nat * Rect) := compute_rects (layout wm) total.

Definition window_at_cell wm (col row : Z) (total : Rect) : option nat :=
  fst <$> List.find (fun '(_, rect) => rect_contains rect col row) (layout_rects wm total).

(** ** Leaves and groups *)

Fixpoint contains_leaf node (target : nat) : bool :=
  match node with
  | Leaf id => (id =? target)%nat
  | Split _ _ first second => contains_leaf first target || contains_leaf second target
  | Group _ inner => contains_leaf inner target
  end.

Fixpoint all_leaves node : list nat :=
  match node with
  | Leaf id => [id]
  | Split _ _ first second => all_leaves first ++ all_leaves second
  | Group _ inner => all_leaves inner
  end.

Fixpoint first_leaf_id node : nat :=
  match node with
  | Leaf id => id
  | Split _ _ first _ => first_leaf_id first
  | Group _ inner => first_leaf_id inner
  end.

(** The leaf a node is, through groups. *)
Fixpoint sole_leaf_id node : option nat :=
  match node with
  | Leaf id => Some id
  | Group _ inner => sole_leaf_id inner
  | Split _ _ _ _ => None
  end.

Definition count_in node (leaf_ids : list nat) : nat :=
  length (List.filter (contains_leaf node) leaf_ids).

Fixpoint wrap_group_recursive node (leaf_ids : list nat) (label : string) : LayoutNode :=
  if (count_in node leaf_ids =? 0)%nat then node
  else
    match node with
    | Leaf _ => Group label node
    | Split direction ratio first second =>
        if (0 <? count_in first leaf_ids)%nat && (0 <? count_in second leaf_ids)%nat
        then Group label (Split direction ratio first second)
        else if (0 <? count_in first leaf_ids)%nat
        then Split direction ratio (wrap_group_recursive first leaf_ids label) second
        else Split direction ratio first (wrap_group_recursive second leaf_ids label)
    | Group l inner => Group l (wrap_group_recursive inner leaf_ids label)
    end.
Definition wrap_subtree_as_group wm (leaf_ids : list nat) (label : string) : WindowManager :=
  set_layout wm (wrap_group_recursive (layout wm) leaf_ids label).

Fixpoint group_label_recursive node (target : nat) : option string :=
  match node with
  | Leaf _ => None
  | Split _ _ first second =>
      match group_label_recursive first target with
      | Some l => Some l
      | None => group_label_recursive second target
      end
  | Group label inner => if contains_leaf inner target then Some label else None
  end.
Definition group_label wm (leaf_id : nat) : option string := group_label_recursive (layout wm) leaf_id.
Definition is_in_group wm (leaf_id : nat) : bool := bool_decide (is_Some (group_label wm leaf_id)).

Fixpoint collect_group_leaves node (target_label : string) : list nat :=
  match node with
  | Leaf _ => []
  | Split _ _ first second =>
      collect_group_leaves first target_label ++ collect_group_leaves second target_label
  | Group label inner =>
      if String.eqb label target_label then all_leaves inner
      else collect_group_leaves inner target_label
  end.
Definition group_member_ids wm (id : nat) : list nat :=
  match group_label wm id with
  | Some label => collect_group_leaves (layout wm) label
  | None => []
  end.

(** ** Opening windows *)

(** Group-aware split: a group that holds the target is split as a whole. *)
Fixpoint split_for_leaf_recursive node (target_id new_leaf_id : nat) (direction : SplitDirection)
    (ratio : f32) : LayoutNode :=
  match node with
  | Leaf id => if (id =? target_id)%nat then Split direction ratio (Leaf id) (Leaf new_leaf_id) else node
  | Group _ _ => if contains_leaf node target_id
                 then Split direction ratio node (Leaf new_leaf_id) else node
  | Split d r first second =>
      if contains_leaf first target_id
      then Split d r (split_for_leaf_recursive first target_id new_leaf_id direction ratio) second
      else Split d r first (split_for_leaf_recursive second target_id new_leaf_id direction ratio)
  end.

Definition focused_rect wm (available : Rect) : Rect :=
  match List.find (fun '(id, _) => (id =? focused wm)%nat) (layout_rects wm available) with
  | Some (_, r) => r
  | None => available
  end.

Definition fmt16 (n : Z) : string := to_dec (Z.to_N n).
Local Open Scope string_scope.

Definition split wm (direction : SplitDirection) (buffer_idx : nat) (available : Rect)
    : (WindowManager * nat) + string :=
  let rect := focused_rect wm available in
  let go := inl (open_window wm buffer_idx
    (split_for_leaf_recursive (layout wm) (focused wm) (next_id wm) direction half32), next_id wm) in
  match direction with
  | Vertical =>
      let half := width rect / 2 in
      if (half <? MIN_WINDOW_WIDTH)%Z
      then inr ("Cannot split: width " +:+ fmt16 half +:+ " < minimum " +:+
                fmt16 MIN_WINDOW_WIDTH +:+ " per pane")
      else go
  | Horizontal =>
      let half := height rect / 2 in
      if (half <? MIN_WINDOW_HEIGHT)%Z
      then inr ("Cannot split: height " +:+ fmt16 half +:+ " < minimum " +:+
                fmt16 MIN_WINDOW_HEIGHT +:+ " per pane")
      else go
  end.

(** [(dim as f32 * ratio.min(1.0 - ratio)) as u16]. *)
Definition smaller_pane (dim : Z) (ratio : f32) : Z := scale dim (f32_min ratio (f32_sub one32 ratio)).

Definition split_with_ratio wm (direction : SplitDirection) (buffer_idx : nat) (available : Rect)
    (ratio : f32) : (WindowManager * nat) + string :=
  let rect := focused_rect wm available in
  let go := inl (open_window wm buffer_idx
    (split_for_leaf_recursive (layout wm) (focused wm) (next_id wm) direction
       (f32_clamp ratio tenth32 nine_tenths32)), next_id wm) in
  match direction with
  | Vertical =>
      let smaller := smaller_pane (width rect) ratio in
      if (smaller <? MIN_WINDOW_WIDTH)%Z
      then inr ("Cannot split: pane width " +:+ fmt16 smaller +:+ " < minimum " +:+ fmt16 MIN_WINDOW_WIDTH)
      else go
  | Horizontal =>
      let smaller := smaller_pane (height rect) ratio in
      if (smaller <? MIN_WINDOW_HEIGHT)%Z
      then inr ("Cannot split: pane height " +:+ fmt16 smaller +:+ " < minimum " +:+ fmt16 MIN_WINDOW_HEIGHT)
      else go
  end.

Definition split_with_sizing wm (direction : SplitDirection) (buffer_idx : nat) (available : Rect)
    (sizing : SplitSizing) : (WindowManager * nat) + string :=
  let rect := focused_rect wm available in
  let dimension := match direction with Vertical => width rect | Horizontal => height rect end in
  split_with_ratio wm direction buffer_idx available (resolve_sizing sizing dimension).

(** The size check of the two root splits. *)
Definition root_check (direction : SplitDirection) (available : Rect) (ratio : f32) : option string :=
  match direction with
  | Vertical => if (smaller_pane (width available) ratio <? MIN_WINDOW_WIDTH)%Z
                then Some "Cannot split: too narrow" else None
  | Horizontal => if (smaller_pane (height available) ratio <? MIN_WINDOW_HEIGHT)%Z
                  then Some "Cannot split: too short" else None
  end.

Definition split_root wm (direction : SplitDirection) (buffer_idx : nat) (available : Rect)
    (ratio : f32) : (WindowManager * nat) + string :=
  match root_check direction available ratio with
  | Some e => inr e
  | None => inl (open_window wm buffer_idx
                   (Split direction ratio (layout wm) (Leaf (next_id wm))), next_id wm)
  end.
Definition split_root_prepend wm (direction : SplitDirection) (buffer_idx : nat) (available : Rect)
    (ratio : f32) : (WindowManager * nat) + string :=
  match root_check direction available ratio with
  | Some e => inr e
  | None => inl (open_window wm buffer_idx
                   (Split direction ratio (Leaf (next_id wm)) (layout wm)), next_id wm)
  end.

(** ** Closing windows *)

Fixpoint remove_leaf_recursive node (target_id : nat) : LayoutNode :=
  match node with
  | Leaf _ => node
  | Split direction ratio first second =>
      if decide (sole_leaf_id first = Some target_id) then second
      else if decide (sole_leaf_id second = Some target_id) then first
      else Split direction ratio (remove_leaf_recursive first target_id)
             (remove_leaf_recursive second target_id)
  | Group label inner => Group label (remove_leaf_recursive inner target_id)
  end.

(** [remove_leaf], then the window's removal from the map. *)
Definition drop_window wm (id : nat) : WindowManager :=
  mkWM (delete id (windows wm)) (remove_leaf_recursive (layout wm) id) (focused wm) (next_id wm).

Definition close wm (id : nat) : WindowManager * option nat :=
  if (window_count wm <=? 1)%nat then (wm, None)
  else
    match windows wm !! id with
    | None => (wm, None)
    | Some w =>
        let wm' := drop_window wm id in
        (if (focused wm =? id)%nat then focus wm' (first_leaf_id (layout wm')) else wm',
         Some (w_buffer_idx w))
    end.

Definition close_group wm (id : nat) : WindowManager * list nat :=
  let members := group_member_ids wm id in
  if (length members =? 0)%nat then (wm, []%list)
  else if (window_count wm <=? length members)%nat then (wm, [])
  else
    let '(wm', bufs) := foldl (fun '(wm, bufs) wid =>
      (drop_window wm wid, (bufs ++ match windows wm !! wid with
                                    | Some w => [w_buffer_idx w]
                                    | None => []
                                    end)%list)) (wm, []%list) members in
    (if decide (focused wm ∈ members) then focus wm' (first_leaf_id (layout wm')) else wm', bufs).

Definition any_window_shows wm (buf_idx : nat) : bool :=
  existsb (fun '(_, w) => (w_buffer_idx w =? buf_idx)%nat) (map_to_list (windows wm)).

Local Close Scope string_scope.

(** ** Moving the focus *)

(** The centre of a rectangle, in [i32]: no [u16] sum reaches its bounds. *)
Definition center (r : Rect) : Z * Z := ((x r + width r / 2)%Z, (y r + height r / 2)%Z).
Definition is_valid_direction (dir : Direction) (f c : Z * Z) : bool :=
  match dir with
  | Left => (c.1 <? f.1)%Z
  | Right => (f.1 <? c.1)%Z
  | Up => (c.2 <? f.2)%Z
  | Down => (f.2 <? c.2)%Z
  end.
Definition dist (f c : Z * Z) : Z := Z.abs (c.1 - f.1) + Z.abs (c.2 - f.2).

(** The loop both [focus_direction] and [move_window_spatial] run: the first of
    the nearest windows in the direction. *)
Definition best_step (me : nat) (dir : Direction) (f : Z * Z) (best : option (nat * Z))
    (entry : nat * Rect) : option (nat * Z) :=
  let '(id, rect) := entry in
  if (id =? me)%nat then best
  else
    let c := center rect in
    if is_valid_direction dir f c then
      match best with
      | None => Some (id, dist f c)
      | Some (_, d) => if (dist f c <? d)%Z then Some (id, dist f c) else best
      end
    else best.

Definition nearest wm (dir : Direction) (total : Rect) : option nat :=
  let rects := layout_rects wm total in
  match List.find (fun '(id, _) => (id =? focused wm)%nat) rects with
  | None => None
  | Some (_, r) => fst <$> foldl (best_step (focused wm) dir (center r)) None rects
  end.

Definition focus_direction wm (dir : Direction) (total : Rect) : WindowManager :=
  match nearest wm dir total with
  | Some id => focus wm id
  | None => wm
  end.

(** ** Resizing *)

Definition matching (split_dir : SplitDirection) (dir : Direction) : bool :=
  match split_dir, dir with
  | Vertical, (Left | Right) | Horizontal, (Up | Down) => true
  | _, _ => false
  end.

Fixpoint adjust_ratio_recursive node (target : nat) (dir : Direction) (delta : f32)
    : LayoutNode * bool :=
  match node with
  | Leaf _ => (node, false)
  | Split split_dir ratio first second =>
      let in_first := contains_leaf first target in
      let in_second := contains_leaf second target in
      if negb in_first && negb in_second then (node, false)
      else if matching split_dir dir then
        let grow := match dir with Right | Down => true | _ => false end in
        let step := if in_first then (if grow then delta else f32_neg delta)
                    else (if grow then f32_neg delta else delta) in
        (Split split_dir (f32_clamp (f32_add ratio step) tenth32 nine_tenths32) first second, true)
      else if in_first then
        let '(first, done) := adjust_ratio_recursive first target dir delta in
        (Split split_dir ratio first second, done)
      else
        let '(second, done) := adjust_ratio_recursive second target dir delta in
        (Split split_dir ratio first second, done)
  | Group label inner =>
      let '(inner, done) := adjust_ratio_recursive inner target dir delta in
      (Group label inner, done)
  end.
Definition adjust_ratio wm (dir : Direction) (delta : f32) : WindowManager :=
  set_layout wm (adjust_ratio_recursive (layout wm) (focused wm) dir delta).1.

Fixpoint balance_recursive node : LayoutNode :=
  match node with
  | Leaf _ => node
  | Split direction _ first second =>
      Split direction half32 (balance_recursive first) (balance_recursive second)
  | Group label inner => Group label (balance_recursive inner)
  end.
Definition balance_splits wm : WindowManager := set_layout wm (balance_recursive (layout wm)).

(** ** Maximising, snapshots *)

Definition snapshot wm : WindowManager := wm.
Definition restore (saved : WindowManager) : WindowManager := saved.

(** The manager and the saved layout, both updated. *)
Definition maximize_toggle wm (saved : option WindowManager) : WindowManager * option WindowManager :=
  match saved with
  | Some s => (restore s, None)
  | None =>
      (mkWM (filter (fun '(id, _) => id = focused wm) (windows wm)) (Leaf (focused wm)) (focused wm)
         (next_id wm),
       Some (snapshot wm))
  end.

(** ** Moving windows *)

Fixpoint swap_leaves node (a b : nat) : LayoutNode :=
  match node with
  | Leaf id => if (id =? a)%nat then Leaf b else if (id =? b)%nat then Leaf a else node
  | Split direction ratio first second =>
      Split direction ratio (swap_leaves first a b) (swap_leaves second a b)
  | Group label inner => Group label (swap_leaves inner a b)
  end.

Definition flip (d : SplitDirection) : SplitDirection :=
  match d with Horizontal => Vertical | Vertical => Horizontal end.

Fixpoint move_window_structural node (focused : nat) (dir : Direction) : LayoutNode * bool :=
  match node with
  | Leaf _ => (node, false)
  | Group label inner =>
      let '(inner, done) := move_window_structural inner focused dir in (Group label inner, done)
  | Split direction ratio first second =>
      let in_first := contains_leaf first focused in
      let in_second := contains_leaf second focused in
      if negb in_first && negb in_second then (node, false)
      else
        let first_is_focused := bool_decide (sole_leaf_id first = Some focused) in
        let second_is_focused := bool_decide (sole_leaf_id second = Some focused) in
        let sibling_is_leaf :=
          if first_is_focused then bool_decide (is_Some (sole_leaf_id second))
          else if second_is_focused then bool_decide (is_Some (sole_leaf_id first)) else false in
        if (first_is_focused || second_is_focused) && sibling_is_leaf then
          if negb (matching direction dir) then
            let should_be_first := match dir with Left | Up => true | _ => false end in
            if Bool.eqb should_be_first first_is_focused
            then (Split (flip direction) ratio first second, true)
            else (Split (flip direction) ratio second first, true)
          else
            let toward_first := match dir with Left | Up => true | _ => false end in
            if (toward_first && second_is_focused) || (negb toward_first && first_is_focused)
            then (Split direction ratio second first, true)
            else (node, false)
        else if in_first then
          let '(first, done) := move_window_structural first focused dir in
          (Split direction ratio first second, done)
        else
          let '(second, done) := move_window_structural second focused dir in
          (Split direction ratio first second, done)
  end.

Definition move_window_spatial wm (dir : Direction) (total : Rect) : WindowManager * bool :=
  match nearest wm dir total with
  | Some neighbor => (set_layout wm (swap_leaves (layout wm) (focused wm) neighbor), true)
  | None => (wm, false)
  end.
Definition move_window wm (dir : Direction) (total : Rect) : WindowManager * bool :=
  let '(node, done) := move_window_structural (layout wm) (focused wm) dir in
  if done then (set_layout wm node, true) else move_window_spatial (set_layout wm node) dir total.

(** ** Well-formed managers *)

Fixpoint ratios_ok node : Prop :=
  match node with
  | Leaf _ => True
  | Split _ ratio first second =>
      (ratio_ok ratio /\ f32_small ratio) /\ ratios_ok first /\ ratios_ok second
  | Group _ inner => ratios_ok inner
  end.

(** The tree holds every window exactly once, the focus is one of them, fresh
    identifiers are fresh, and every ratio is at most one. *)
Record wm_ok wm : Prop := {
  ok_leaves : NoDup (all_leaves (layout wm));
  ok_windows : forall id, id ∈ all_leaves (layout wm) <-> is_Some (windows wm !! id);
  ok_focus : focused wm ∈ all_leaves (layout wm);
  ok_fresh : forall id, id ∈ all_leaves (layout wm) -> (id < next_id wm)%nat;
  ok_ratios : ratios_ok (layout wm);
  ok_ids : forall id w, windows wm !! id = Some w -> w_id w = id;
}.

Lemma contains_leaf_iff node id : contains_leaf node id = true <-> id ∈ all_leaves node.
Proof.
  induction node as [i|d r a IHa b IHb|l a IHa]; simpl; [|rewrite orb_true_iff, elem_of_app; naive_solver|done].
  rewrite Nat.eqb_eq, list_elem_of_singleton. naive_solver.
Qed.
Lemma contains_leaf_false node id : contains_leaf node id = false <-> id ∉ all_leaves node.
Proof. rewrite <- contains_leaf_iff. by destruct (contains_leaf node id). Qed.

(** Case analysis on the membership tests of a goal. *)
Ltac leaf_cases :=
  repeat match goal with
  | |- context [if contains_leaf ?n ?i then _ else _] =>
      destruct (contains_leaf n i) eqn:?; [rewrite contains_leaf_iff in *|rewrite contains_leaf_false in *]
  end.

Lemma all_leaves_pos node : (0 < length (all_leaves node))%nat.
Proof. induction node; simpl; rewrite ?length_app; lia. Qed.

Lemma sole_leaf_iff node id : sole_leaf_id node = Some id <-> all_leaves node = [id].
Proof.
  induction node as [i|d r a IHa b IHb|l a IHa]; simpl; [naive_solver| |done].
  split; [done|]. intros Hl. assert (Ha := all_leaves_pos a). assert (Hb := all_leaves_pos b).
  apply (f_equal length) in Hl. rewrite length_app in Hl. simpl in Hl. lia.
Qed.

Lemma first_leaf_elem node : first_leaf_id node ∈ all_leaves node.
Proof. induction node; simpl; rewrite ?elem_of_app, ?list_elem_of_singleton; auto. Qed.

Lemma split_for_leaf_leaves target new d r node : target ∈ all_leaves node ->
  all_leaves (split_for_leaf_recursive node target new d r) ≡ₚ new :: all_leaves node.
Proof.
  induction node as [i|d' r' a IHa b IHb|l a IHa]; simpl.
  - intros ->%list_elem_of_singleton. rewrite Nat.eqb_refl. simpl. apply Permutation_swap.
  - intros Hin. destruct (contains_leaf a target) eqn:Ha; simpl.
    + rewrite contains_leaf_iff in Ha. by rewrite IHa.
    + rewrite contains_leaf_false in Ha. apply elem_of_app in Hin as [|Hb]; [done|].
      rewrite IHb by done. symmetry. apply Permutation_middle.
  - intros Hin. apply contains_leaf_iff in Hin. rewrite Hin. simpl.
    symmetry. apply Permutation_cons_append.
Qed.

Lemma filter_not_in (t : nat) (l : list nat) : t ∉ l -> filter (fun i => i <> t) l = l.
Proof.
  induction l as [|i l IH]; [done|]. intros [Hi Hl]%not_elem_of_cons.
  rewrite filter_cons_True by done. by rewrite IH.
Qed.

(** Removing a window that is not alone removes that leaf and keeps the order
    of the others; removing one that is not there changes nothing. *)
Lemma remove_leaf_leaves t node : NoDup (all_leaves node) -> sole_leaf_id node <> Some t ->
  all_leaves (remove_leaf_recursive node t) = filter (fun i => i <> t) (all_leaves node).
Proof.
  induction node as [i|d r a IHa b IHb|l a IHa]; cbn [all_leaves remove_leaf_recursive].
  - intros _ Hs. rewrite filter_not_in; [done|]. set_solver.
  - intros (Hna & Hab & Hnb)%NoDup_app _. rewrite filter_app. repeat case_decide; cbn [all_leaves].
    + apply sole_leaf_iff in H. rewrite H in *. rewrite filter_cons_False, filter_nil by naive_solver.
      simpl. rewrite filter_not_in; [done|]. apply Hab. left.
    + apply sole_leaf_iff in H0. rewrite H0 in *.
      rewrite (filter_cons_False _ t), filter_nil, app_nil_r by naive_solver.
      rewrite filter_not_in; [done|]. intros Ht. by apply (Hab t Ht); left.
    + by rewrite IHa, IHb.
  - intros Hn Hs. by apply IHa.
Qed.

Lemma wrap_group_leaves l s node : all_leaves (wrap_group_recursive node l s) = all_leaves node.
Proof. induction node; simpl; repeat case_match; simpl; congruence. Qed.

Lemma balance_leaves node : all_leaves (balance_recursive node) = all_leaves node.
Proof. induction node; simpl; congruence. Qed.

Lemma adjust_leaves t dir delta node :
  all_leaves (adjust_ratio_recursive node t dir delta).1 = all_leaves node.
Proof. induction node; simpl; repeat case_match; simplify_eq/=; congruence. Qed.

Definition swap_id (a b i : nat) : nat := if (i =? a)%nat then b else if (i =? b)%nat then a else i.

Lemma swap_leaves_map a b node : all_leaves (swap_leaves node a b) = swap_id a b <$> all_leaves node.
Proof.
  induction node as [i|d r n1 IH1 n2 IH2|l n IH]; cbn [swap_leaves all_leaves].
  - unfold swap_id. simpl. by repeat case_match.
  - by rewrite IH1, IH2, fmap_app.
  - done.
Qed.

Lemma structural_leaves f dir node :
  all_leaves (move_window_structural node f dir).1 ≡ₚ all_leaves node.
Proof.
  induction node as [i|d r n1 IH1 n2 IH2|l n IH]; simpl; [done| |by case_match].
  repeat case_match; simplify_eq/=; try done; try apply Permutation_app_comm; by rewrite ?IH1, ?IH2.
Qed.

(** *** Ratios *)

Lemma split_for_leaf_ratios t new d r node : ratio_ok r /\ f32_small r -> ratios_ok node ->
  ratios_ok (split_for_leaf_recursive node t new d r).
Proof. intros Hr. induction node; simpl; repeat case_match; simpl; naive_solver. Qed.
Lemma remove_leaf_ratios t node : ratios_ok node -> ratios_ok (remove_leaf_recursive node t).
Proof. induction node; simpl; repeat case_match; simpl; naive_solver. Qed.
Lemma wrap_group_ratios l s node : ratios_ok node -> ratios_ok (wrap_group_recursive node l s).
Proof. induction node; simpl; repeat case_match; simpl; naive_solver. Qed.
Lemma balance_ratios node : ratios_ok (balance_recursive node).
Proof. induction node; simpl; [done| |done]. split_and!; [apply half_ratio|done..]. Qed.
Lemma swap_leaves_ratios a b node : ratios_ok node -> ratios_ok (swap_leaves node a b).
Proof. induction node; simpl; repeat case_match; simpl; naive_solver. Qed.
Lemma structural_ratios f dir node : ratios_ok node -> ratios_ok (move_window_structural node f dir).1.
Proof. induction node; simpl; repeat case_match; simplify_eq/=; naive_solver. Qed.

Lemma clamp_ok r : f32_small r ->
  ratio_ok (f32_clamp r tenth32 nine_tenths32) /\ f32_small (f32_clamp r tenth32 nine_tenths32).
Proof. intros Hr. split; [by apply clamp_ratio|by apply f32_clamp_small]. Qed.

Lemma adjust_ratios t dir delta node : f32_small delta -> ratios_ok node ->
  ratios_ok (adjust_ratio_recursive node t dir delta).1.
Proof.
  intros Hd. induction node as [i|d r a IHa b IHb|l a IHa]; simpl; [done| |by case_match].
  intros (Hr & Ha & Hb). specialize (IHa Ha). specialize (IHb Hb).
  destruct (negb _ && _); [done|]. destruct (matching _ _).
  - cbn [fst ratios_ok]. split; [|done]. apply clamp_ok, f32_add_small; [tauto|].
    repeat case_match; auto using f32_neg_small.
  - destruct (contains_leaf a t).
    + destruct (adjust_ratio_recursive a t dir delta). by split.
    + destruct (adjust_ratio_recursive b t dir delta). by split.
Qed.

(** A ratio the root splits accept is one. *)
Lemma root_check_ratio d area r : 0 <= width area < 65536 -> 0 <= height area < 65536 ->
  root_check d area r = None -> ratio_ok r.
Proof.
  intros Hw Hh Hc. destruct (ratio_ok_dec r) as [|Hr]; [done|exfalso].
  assert (Hs : forall w, 0 <= w < 65536 -> smaller_pane w r = 0).
  { intros w Hrange. by apply scale_nonpos, one_minus_nonpos. }
  unfold root_check in Hc. destruct d.
  - rewrite (Hs (height area) Hh) in Hc. discriminate Hc.
  - rewrite (Hs (width area) Hw) in Hc. discriminate Hc.
Qed.

(** ** The invariant *)

Definition rect16 (r : Rect) : Prop := 0 <= width r < 65536 /\ 0 <= height r < 65536.

Lemma open_window_ok wm b node : wm_ok wm -> ratios_ok node ->
  all_leaves node ≡ₚ next_id wm :: all_leaves (layout wm) -> wm_ok (open_window wm b node).
Proof.
  intros [Hn Hw Hf Hi Hr Hid] Hrn Hp.
  assert (Hnew : next_id wm ∉ all_leaves (layout wm)) by (intros ?%Hi; lia).
  split; cbn [open_window layout windows focused next_id].
  - rewrite Hp. by constructor.
  - intros id. rewrite Hp, elem_of_cons, Hw. destruct (decide (id = next_id wm)) as [->|Hne].
    + rewrite lookup_insert_eq. naive_solver.
    + rewrite lookup_insert_ne by done. naive_solver.
  - rewrite Hp. by right.
  - intros id. rewrite Hp, elem_of_cons. intros [->|Hin]; [lia|]. apply Hi in Hin. lia.
  - done.
  - intros id w [[<- <-]|[_ Hl]]%lookup_insert_Some; [done|by apply Hid].
Qed.

(** A change of the tree alone. *)
Lemma set_layout_ok wm node : wm_ok wm -> ratios_ok node -> all_leaves node ≡ₚ all_leaves (layout wm) ->
  wm_ok (set_layout wm node).
Proof.
  intros [Hn Hw Hf Hi Hr Hid] Hrn Hp. split; cbn [set_layout layout windows focused next_id]; try done.
  - by rewrite Hp.
  - intros id. by rewrite Hp.
  - by rewrite Hp.
  - intros id. rewrite Hp. apply Hi.
Qed.

Lemma focus_ok wm id : wm_ok wm -> id ∈ all_leaves (layout wm) -> wm_ok (focus wm id).
Proof. intros [Hn Hw Hf Hi Hr Hid] Hin. by split. Qed.

Lemma windows_size wm : wm_ok wm -> window_count wm = length (all_leaves (layout wm)).
Proof.
  intros Hok. unfold window_count. rewrite <- size_dom, <- (size_list_to_set (C := gset nat) (all_leaves _))
    by apply Hok.
  f_equal. apply set_eq. intros id. rewrite elem_of_dom, elem_of_list_to_set. symmetry. apply Hok.
Qed.

(** Dropping a window that is not the only one, the focus aside. *)
Definition wm_ok_but_focus wm : Prop := exists id, wm_ok (focus wm id).

Lemma drop_window_ok wm id : wm_ok_but_focus wm -> all_leaves (layout wm) <> [id] ->
  wm_ok_but_focus (drop_window wm id) /\
  all_leaves (layout (drop_window wm id)) = filter (fun i => i <> id) (all_leaves (layout wm)).
Proof.
  intros [f [Hn Hw Hf Hi Hr Hid]] Hne. cbn [focus layout windows focused next_id] in *.
  assert (Hl : all_leaves (remove_leaf_recursive (layout wm) id) =
    filter (fun i => i <> id) (all_leaves (layout wm))).
  { apply remove_leaf_leaves; [done|]. by rewrite sole_leaf_iff. }
  split; [|done]. exists (first_leaf_id (remove_leaf_recursive (layout wm) id)).
  split; cbn [focus drop_window layout windows focused next_id].
  - rewrite Hl. by apply NoDup_filter.
  - intros i. rewrite Hl, list_elem_of_filter, Hw. destruct (decide (i = id)) as [->|Hii].
    + rewrite lookup_delete_eq. naive_solver.
    + rewrite lookup_delete_ne by done. naive_solver.
  - apply first_leaf_elem.
  - intros i. rewrite Hl, list_elem_of_filter. intros [_ Hin]. by apply Hi.
  - by apply remove_leaf_ratios.
  - intros i w [_ Hlk]%lookup_delete_Some. by apply Hid.
Qed.

(** A manager whose focus is among its leaves. *)
Lemma refocus_ok wm id : wm_ok_but_focus wm -> id ∈ all_leaves (layout wm) -> wm_ok (focus wm id).
Proof. intros [f Hf] Hin. by apply (focus_ok (focus wm f)). Qed.
Lemma ok_but_focus wm : wm_ok wm -> wm_ok_but_focus wm.
Proof. intros Hok. exists (focused wm). by destruct wm. Qed.
Lemma refocus_same wm : wm_ok_but_focus wm -> focused wm ∈ all_leaves (layout wm) -> wm_ok wm.
Proof. intros Hb Hin. assert (Hok := refocus_ok wm _ Hb Hin). by destruct wm. Qed.

Lemma close_ok wm id : wm_ok wm -> wm_ok (close wm id).1.
Proof.
  intros Hok. unfold close. case_match eqn:Hc; [done|]. case_match eqn:Hw; [|done]. cbn [fst].
  apply Nat.leb_gt in Hc. rewrite windows_size in Hc by done.
  assert (Hne : all_leaves (layout wm) <> [id]) by (intros Heq; rewrite Heq in Hc; simpl in Hc; lia).
  destruct (drop_window_ok wm id (ok_but_focus _ Hok) Hne) as [Hd Hl]. case_match eqn:Hf.
  - apply refocus_ok; [done|]. apply first_leaf_elem.
  - apply refocus_same; [done|]. rewrite Hl, list_elem_of_filter.
    apply Nat.eqb_neq in Hf. split; [done|apply (ok_focus _ Hok)].
Qed.

(** *** Closing a group *)

Lemma collect_sublist l node : collect_group_leaves node l `sublist_of` all_leaves node.
Proof.
  induction node as [i|d r a IHa b IHb|l' a IHa]; simpl; [apply sublist_nil_l|by apply sublist_app|].
  by case_match.
Qed.

Lemma group_member_sublist wm id : group_member_ids wm id `sublist_of` all_leaves (layout wm).
Proof. unfold group_member_ids. case_match; [apply collect_sublist|apply sublist_nil_l]. Qed.

Definition drop_all wm (members : list nat) : WindowManager := foldl drop_window wm members.

Definition buffers_of wm (members : list nat) : list nat :=
  omap (fun id => w_buffer_idx <$> windows wm !! id) members.

Lemma buffers_of_drop wm id ms : id ∉ ms -> buffers_of (drop_window wm id) ms = buffers_of wm ms.
Proof.
  unfold buffers_of, drop_window. cbn [windows]. induction ms as [|i ms IH]; [done|].
  intros [Hne Hid]%not_elem_of_cons. cbn [omap list_omap]. rewrite lookup_delete_ne by done.
  by rewrite IH.
Qed.

Lemma close_group_fold members : forall wm bufs, NoDup members ->
  foldl (fun '(wm, bufs) wid =>
      (drop_window wm wid, (bufs ++ match windows wm !! wid with
                                    | Some w => [w_buffer_idx w]
                                    | None => []
                                    end)%list)) (wm, bufs) members
  = (drop_all wm members, (bufs ++ buffers_of wm members)%list).
Proof.
  induction members as [|id ms IH]; intros wm bufs Hn; simpl; [by rewrite app_nil_r|].
  apply NoDup_cons in Hn as [Hid Hn]. rewrite IH by done. f_equal.
  rewrite buffers_of_drop, <- app_assoc by done. f_equal. unfold buffers_of. simpl.
  by destruct (windows wm !! id).
Qed.

Lemma drop_all_ok members : forall wm, wm_ok_but_focus wm -> NoDup members ->
  (exists i, i ∈ all_leaves (layout wm) /\ i ∉ members) ->
  wm_ok_but_focus (drop_all wm members) /\
  all_leaves (layout (drop_all wm members)) = filter (fun i => i ∉ members) (all_leaves (layout wm)) /\
  (forall j, windows (drop_all wm members) !! j = if decide (j ∈ members) then None else windows wm !! j) /\
  focused (drop_all wm members) = focused wm /\ next_id (drop_all wm members) = next_id wm.
Proof.
  induction members as [|id ms IH]; intros wm Hb Hn (i & Hi & Him).
  { simpl. split_and!; [done| |done..]. symmetry. generalize (all_leaves (layout wm)). intros l.
    induction l as [|j l IH]; [done|]. rewrite filter_cons_True by apply not_elem_of_nil. by rewrite IH. }
  apply NoDup_cons in Hn as [Hid Hn]. apply not_elem_of_cons in Him as [Hii Him].
  destruct (drop_window_ok wm id Hb) as [Hd Hl].
  { intros Heq. rewrite Heq in Hi. by apply list_elem_of_singleton in Hi. }
  destruct (IH (drop_window wm id) Hd Hn) as (H1 & H2 & H3 & H4 & H5).
  { exists i. by rewrite Hl, list_elem_of_filter. }
  simpl. split_and!; [done| | |done|done].
  - rewrite H2, Hl, list_filter_filter. apply list_filter_iff. set_solver.
  - intros j. rewrite H3. cbn [drop_window windows]. destruct (decide (j = id)) as [->|Hj].
    + rewrite (decide_False (P := id ∈ ms)), decide_True, lookup_delete_eq by (done || left). done.
    + rewrite lookup_delete_ne by done. repeat case_decide; set_solver.
Qed.

Lemma close_group_ok wm id : wm_ok wm -> wm_ok (close_group wm id).1.
Proof.
  intros Hok. unfold close_group. case_match; [done|]. case_match eqn:Hc; [done|].
  assert (Hsub := group_member_sublist wm id). set (ms := group_member_ids wm id) in *.
  assert (Hn : NoDup ms) by (eapply sublist_NoDup; [apply Hok|done]).
  rewrite close_group_fold by done.
  apply Nat.leb_gt in Hc. rewrite windows_size in Hc by done.
  destruct (drop_all_ok ms wm (ok_but_focus _ Hok) Hn) as (H1 & H2 & H3 & H4 & H5).
  { destruct (decide (Forall (fun i => i ∈ ms) (all_leaves (layout wm)))) as [Hall|Hex].
    - exfalso. rewrite Forall_forall in Hall.
      assert (length (all_leaves (layout wm)) <= length ms)%nat; [|lia].
      apply submseteq_length, NoDup_submseteq; [apply Hok|done].
    - apply not_Forall_Exists in Hex; [|intros ?; apply _]. by apply Exists_exists in Hex. }
  cbn [fst]. case_decide as Hf.
  - apply refocus_ok; [done|]. apply first_leaf_elem.
  - apply refocus_same; [done|]. rewrite H2, H4, list_elem_of_filter. split; [done|apply (ok_focus _ Hok)].
Qed.

(** *** Moving the focus and the windows *)

Lemma compute_rects_ids node : forall area, (compute_rects node area).*1 = all_leaves node.
Proof.
  induction node as [i|d r a IHa b IHb|l a IHa]; intros area; cbn [compute_rects all_leaves]; [done| |done].
  destruct (split_area d r area) as [p q]. by rewrite fmap_app, IHa, IHb.
Qed.

Lemma find_rect node area id : id ∈ all_leaves node ->
  exists r, List.find (fun '(i, _) => (i =? id)%nat) (compute_rects node area) = Some (id, r) /\
    (id, r) ∈ compute_rects node area.
Proof.
  rewrite <- (compute_rects_ids node area). generalize (compute_rects node area) as l.
  induction l as [|[i r] l IH]; simpl; [set_solver|]. intros [->|Hin]%elem_of_cons.
  - rewrite Nat.eqb_refl. exists r. split; [done|left].
  - destruct (Nat.eqb_spec i id) as [->|]; [exists r; split; [done|left]|].
    destruct (IH Hin) as (r' & Hf & Hr). exists r'. split; [done|by right].
Qed.

(** What the search for the nearest window keeps: the best entry so far is in
    the direction, and no entry seen in the direction is nearer. *)
Definition candidate (me : nat) (dir : Direction) (f : Z * Z) (e : nat * Rect) : Prop :=
  e.1 <> me /\ is_valid_direction dir f (center e.2) = true.

Lemma best_step_spec me dir f l : forall best,
  let res := foldl (best_step me dir f) best l in
  match res with
  | None => best = None /\ forall e, e ∈ l -> ~ candidate me dir f e
  | Some (id, d) =>
      (best = Some (id, d) \/ exists r, (id, r) ∈ l /\ candidate me dir f (id, r) /\ d = dist f (center r)) /\
      (forall i d', best = Some (i, d') -> d <= d') /\
      (forall e, e ∈ l -> candidate me dir f e -> d <= dist f (center e.2))
  end.
Proof.
  induction l as [|[i r] l IH]; intros best; cbn [foldl].
  { destruct best as [[id d]|]; simpl; [|by set_solver]. split_and!; [by left|naive_solver lia|set_solver]. }
  specialize (IH (best_step me dir f best (i, r))). cbn zeta in *.
  assert (Hstep : forall P : option (nat * Z) -> Prop,
    (~ candidate me dir f (i, r) -> P best) ->
    (candidate me dir f (i, r) ->
       (forall j d, best = Some (j, d) -> dist f (center r) < d) -> P (Some (i, dist f (center r)))) ->
    (forall j d, candidate me dir f (i, r) -> best = Some (j, d) -> d <= dist f (center r) -> P best) ->
    P (best_step me dir f best (i, r))).
  { intros P H1 H2 H3. unfold best_step. unfold candidate in *. simpl in *.
    destruct (Nat.eqb_spec i me); [apply H1; naive_solver|].
    destruct (is_valid_direction _ _ _); [|apply H1; naive_solver].
    destruct best as [[j d]|]; [|apply H2; naive_solver].
    destruct (Z.ltb_spec (dist f (center r)) d); [apply H2; naive_solver|]. by eapply H3. }
  revert IH. apply Hstep.
  - intros Hc. destruct (foldl _ best l) as [[id d]|].
    + intros (H1 & H2 & H3). split_and!; [set_solver|done|].
      intros e [->|He]%elem_of_cons Hce; [done|by apply H3].
    + intros [H1 H2]. split; [done|]. intros e [->|He]%elem_of_cons; [done|by apply H2].
  - intros Hc Hd. destruct (foldl _ _ l) as [[id d]|]; [|intros [? _]; done].
    intros (H1 & H2 & H3). assert (Hle := H2 _ _ eq_refl). split_and!.
    + right. destruct H1 as [[= <- <-]|(r' & Hin & Hr')]; [exists r; split_and!; [left|done|done]|].
      exists r'. split; [by right|done].
    + intros j d' Hb. specialize (Hd j d' Hb). lia.
    + intros e [->|He]%elem_of_cons Hce; [done|by apply H3].
  - intros j d' Hc Hb Hle. destruct (foldl _ best l) as [[id d]|]; [|intros [? _]; congruence].
    intros (H1 & H2 & H3). split_and!; [set_solver|done|].
    intros e [->|He]%elem_of_cons Hce; [|by apply H3]. specialize (H2 _ _ Hb). simpl. lia.
Qed.

Lemma nearest_leaf wm dir total id : nearest wm dir total = Some id ->
  id ∈ all_leaves (layout wm) /\ id <> focused wm.
Proof.
  unfold nearest. case_match eqn:Hf; [|done]. destruct p as [i r].
  assert (Hb := best_step_spec (focused wm) dir (center r) (layout_rects wm total) None). cbn zeta in Hb.
  destruct (foldl _ None _) as [[j d]|]; [|done]. intros [= <-].
  destruct Hb as ([?|(r' & Hin & [Hne _] & _)] & _); [done|]. split; [|done].
  rewrite <- (compute_rects_ids _ total). apply list_elem_of_fmap. by exists (j, r').
Qed.

Lemma swap_id_inj a b i j : swap_id a b i = swap_id a b j -> i = j.
Proof. unfold swap_id. repeat case_match; rewrite ?Nat.eqb_eq, ?Nat.eqb_neq in *; lia. Qed.
Lemma swap_id_involutive a b i : swap_id a b (swap_id a b i) = i.
Proof.
  unfold swap_id. destruct (Nat.eqb_spec i a), (Nat.eqb_spec i b); subst;
    rewrite ?Nat.eqb_refl; repeat case_match; rewrite ?Nat.eqb_eq, ?Nat.eqb_neq in *; congruence.
Qed.

Lemma swap_leaves_perm a b node : NoDup (all_leaves node) -> a ∈ all_leaves node ->
  b ∈ all_leaves node -> all_leaves (swap_leaves node a b) ≡ₚ all_leaves node.
Proof.
  intros Hn Ha Hb. rewrite swap_leaves_map. apply NoDup_Permutation; [|done|].
  - apply NoDup_fmap_2; [|done]. intros i j. apply swap_id_inj.
  - intros i. rewrite list_elem_of_fmap. split.
    + intros (j & -> & Hj). unfold swap_id. by repeat case_match.
    + intros Hi. exists (swap_id a b i). rewrite swap_id_involutive. split; [done|].
      unfold swap_id. by repeat case_match.
Qed.

Lemma move_window_ok wm dir total : wm_ok wm -> wm_ok (move_window wm dir total).1.
Proof.
  intros Hok. unfold move_window.
  assert (Hp := structural_leaves (focused wm) dir (layout wm)).
  assert (Hr := structural_ratios (focused wm) dir (layout wm) (ok_ratios _ Hok)).
  destruct (move_window_structural _ _ _) as [node done_]. cbn [fst] in *.
  assert (Hok' : wm_ok (set_layout wm node)) by (by apply set_layout_ok).
  destruct done_; [done|]. unfold move_window_spatial. case_match eqn:Hn; [|done]. cbn [fst].
  apply nearest_leaf in Hn as [Hin _].
  apply set_layout_ok; [done|apply swap_leaves_ratios, Hok'|].
  apply swap_leaves_perm; [apply Hok'|apply (ok_focus _ Hok')|done].
Qed.

Lemma elem_of_window_ids wm id : id ∈ window_ids wm <-> is_Some (windows wm !! id).
Proof.
  unfold window_ids. rewrite merge_sort_Permutation, list_elem_of_fmap. split.
  - intros ([i w] & -> & Hin%elem_of_map_to_list). by exists w.
  - intros [w Hw]. exists (id, w). split; [done|]. by apply elem_of_map_to_list.
Qed.

Lemma window_ids_length wm : length (window_ids wm) = window_count wm.
Proof. unfold window_ids. rewrite merge_sort_Permutation, length_fmap. apply length_map_to_list. Qed.

Lemma NoDup_window_ids wm : NoDup (window_ids wm).
Proof. unfold window_ids. rewrite merge_sort_Permutation. apply NoDup_fst_map_to_list. Qed.

Lemma focus_next_ok wm : wm_ok wm -> wm_ok (focus_next wm).
Proof.
  intros Hok. unfold focus_next. case_match eqn:Hc; [done|]. apply Nat.leb_gt in Hc.
  apply focus_ok; [done|]. rewrite (ok_windows _ Hok), <- elem_of_window_ids.
  destruct (lookup_lt_is_Some_2 (window_ids wm) ((position (focused wm) (window_ids wm) + 1) mod length (window_ids wm)))
    as [i Hi].
  { apply Nat.mod_upper_bound. rewrite window_ids_length. lia. }
  rewrite Hi. simpl. by eapply list_elem_of_lookup_2.
Qed.

(** ** Reachable states *)

Lemma split_ok wm d b area wm' id : wm_ok wm -> split wm d b area = inl (wm', id) -> wm_ok wm'.
Proof.
  intros Hok. assert (Hgo : wm_ok (open_window wm b
    (split_for_leaf_recursive (layout wm) (focused wm) (next_id wm) d half32))).
  { apply open_window_ok; [done| |apply split_for_leaf_leaves, (ok_focus _ Hok)].
    apply split_for_leaf_ratios; [split; [apply half_ratio|done]|apply Hok]. }
  unfold split. repeat case_match; by intros [= <- _].
Qed.

Lemma split_with_ratio_ok wm d b area r wm' id : wm_ok wm -> f32_small r ->
  split_with_ratio wm d b area r = inl (wm', id) -> wm_ok wm'.
Proof.
  intros Hok Hr. assert (Hgo : wm_ok (open_window wm b
    (split_for_leaf_recursive (layout wm) (focused wm) (next_id wm) d
       (f32_clamp r tenth32 nine_tenths32)))).
  { apply open_window_ok; [done| |apply split_for_leaf_leaves, (ok_focus _ Hok)].
    apply split_for_leaf_ratios; [by apply clamp_ok|apply Hok]. }
  unfold split_with_ratio. intros He. destruct d.
  - destruct (_ <? _) in He; [done|]. injection He as <- _. exact Hgo.
  - destruct (_ <? _) in He; [done|]. injection He as <- _. exact Hgo.
Qed.

Lemma resolve_sizing_small s dim : match s with Ratio r => f32_small r | FixedPixels _ => True end ->
  f32_small (resolve_sizing s dim).
Proof.
  destruct s as [r|px]; cbn [resolve_sizing]; intros Hr; [by apply f32_clamp_small|].
  destruct (dim =? 0); [done|]. by apply f32_clamp_small; [apply f32_div_small|..].
Qed.

Lemma split_root_ok wm d b area r wm' id : wm_ok wm -> f32_small r -> rect16 area ->
  split_root wm d b area r = inl (wm', id) \/ split_root_prepend wm d b area r = inl (wm', id) ->
  wm_ok wm'.
Proof.
  intros Hok Hs [Hw Hh] Hsp. unfold split_root, split_root_prepend in Hsp.
  destruct (root_check d area r) eqn:Hc; [by destruct Hsp|].
  assert (Hr := root_check_ratio _ _ _ Hw Hh Hc). assert (Hrs := ok_ratios _ Hok).
  destruct Hsp as [[= <- _]|[= <- _]]; (apply open_window_ok; [done|by repeat split|]).
  - cbn [all_leaves]. symmetry. apply Permutation_cons_append.
  - done.
Qed.

(** The public operations that change the manager, over the manager and the
    layout [maximize_toggle] saved. *)
Inductive wm_op :=
  | OpReset (buffer_idx : nat)
  | OpFocus (id : nat)
  | OpFocusNext
  | OpSplit (d : SplitDirection) (buffer_idx : nat) (available : Rect)
  | OpSplitRatio (d : SplitDirection) (buffer_idx : nat) (available : Rect) (ratio : f32)
  | OpSplitSizing (d : SplitDirection) (buffer_idx : nat) (available : Rect) (sizing : SplitSizing)
  | OpSplitRoot (d : SplitDirection) (buffer_idx : nat) (available : Rect) (ratio : f32)
  | OpSplitRootPrepend (d : SplitDirection) (buffer_idx : nat) (available : Rect) (ratio : f32)
  | OpWrap (leaf_ids : list nat) (label : string)
  | OpClose (id : nat)
  | OpCloseGroup (id : nat)
  | OpFocusDirection (dir : Direction) (total : Rect)
  | OpAdjust (dir : Direction) (delta : f32)
  | OpBalance
  | OpMaximize
  | OpMove (dir : Direction) (total : Rect).

(** A [Result] keeps the manager when it is an error. *)
Definition or_same wm (r : (WindowManager * nat) + string) : WindowManager :=
  match r with inl (wm', _) => wm' | inr _ => wm end.

Definition run_op (st : WindowManager * option WindowManager) (o : wm_op)
    : WindowManager * option WindowManager :=
  let '(wm, saved) := st in
  match o with
  | OpReset b => (reset_to_single wm b, saved)
  | OpFocus id => (set_focused wm id, saved)
  | OpFocusNext => (focus_next wm, saved)
  | OpSplit d b a => (or_same wm (split wm d b a), saved)
  | OpSplitRatio d b a r => (or_same wm (split_with_ratio wm d b a r), saved)
  | OpSplitSizing d b a s => (or_same wm (split_with_sizing wm d b a s), saved)
  | OpSplitRoot d b a r => (or_same wm (split_root wm d b a r), saved)
  | OpSplitRootPrepend d b a r => (or_same wm (split_root_prepend wm d b a r), saved)
  | OpWrap l s => (wrap_subtree_as_group wm l s, saved)
  | OpClose id => ((close wm id).1, saved)
  | OpCloseGroup id => ((close_group wm id).1, saved)
  | OpFocusDirection dir t => (focus_direction wm dir t, saved)
  | OpAdjust dir delta => (adjust_ratio wm dir delta, saved)
  | OpBalance => (balance_splits wm, saved)
  | OpMaximize => maximize_toggle wm saved
  | OpMove dir t => ((move_window wm dir t).1, saved)
  end.

(** The arguments are values of their Rust types. *)
Definition op_typed (o : wm_op) : Prop :=
  match o with
  | OpSplitRatio _ _ _ r => valid_binary prec32 emax32 r = true
  | OpSplitSizing _ _ _ (Ratio r) => valid_binary prec32 emax32 r = true
  | OpSplitRoot _ _ a r | OpSplitRootPrepend _ _ a r => rect16 a /\ valid_binary prec32 emax32 r = true
  | OpAdjust _ delta => valid_binary prec32 emax32 delta = true
  | _ => True
  end.

Lemma fresh_ok b id : wm_ok (mkWM {[id := new_window id b]} (Leaf id) id (id + 1)).
Proof.
  split; cbn [layout windows focused next_id all_leaves]; try done.
  - apply NoDup_singleton.
  - intros i. rewrite list_elem_of_singleton, lookup_singleton_is_Some. naive_solver.
  - left.
  - intros i ->%list_elem_of_singleton. lia.
  - by intros i w [<- <-]%lookup_singleton_Some.
Qed.

Lemma maximized_ok wm : wm_ok wm -> wm_ok (maximize_toggle wm None).1.
Proof.
  intros [Hn Hw Hf Hi Hr Hid]. split; cbn [fst maximize_toggle layout windows focused next_id all_leaves].
  - apply NoDup_singleton.
  - intros i. rewrite list_elem_of_singleton. split.
    + intros ->. destruct (proj1 (Hw _) Hf) as [w Hl]. exists w. by apply map_lookup_filter_Some.
    + by intros [w [_ Hl]%map_lookup_filter_Some].
  - left.
  - intros i ->%list_elem_of_singleton. by apply Hi.
  - done.
  - intros i w [Hl _]%map_lookup_filter_Some. by apply Hid.
Qed.

Lemma or_same_ok wm r : wm_ok wm -> (forall wm' id, r = inl (wm', id) -> wm_ok wm') -> wm_ok (or_same wm r).
Proof. intros Hok Hr. destruct r as [[wm' id]|]; simpl; [by eapply Hr|done]. Qed.

Lemma run_op_ok o st : op_typed o -> wm_ok st.1 -> (forall s, st.2 = Some s -> wm_ok s) ->
  wm_ok (run_op st o).1 /\ (forall s, (run_op st o).2 = Some s -> wm_ok s).
Proof.
  destruct st as [wm saved]. cbn [fst snd]. intros Ho Hok Hs.
  destruct o; cbn [run_op fst snd op_typed] in *; try (split; [|exact Hs]).
  - apply fresh_ok.
  - unfold set_focused. case_decide as Hid; [|done]. apply focus_ok; [done|]. by apply (ok_windows _ Hok).
  - by apply focus_next_ok.
  - apply or_same_ok; [done|]. intros ? ?. by apply split_ok.
  - apply or_same_ok; [done|]. intros ? ?. by apply split_with_ratio_ok, valid_small.
  - apply or_same_ok; [done|]. intros ? ?. apply split_with_ratio_ok; [done|]. apply resolve_sizing_small.
    destruct sizing; [by apply valid_small|done].
  - apply or_same_ok; [done|]. intros ? ? He. eapply split_root_ok; [done| |apply Ho|by left; exact He].
    apply valid_small, Ho.
  - apply or_same_ok; [done|]. intros ? ? He. eapply split_root_ok; [done| |apply Ho|by right; exact He].
    apply valid_small, Ho.
  - apply set_layout_ok; [done|apply wrap_group_ratios, Hok|by rewrite wrap_group_leaves].
  - by apply close_ok.
  - by apply close_group_ok.
  - unfold focus_direction. case_match eqn:Hn; [|done]. apply focus_ok; [done|].
    by apply nearest_leaf in Hn as [? _].
  - apply set_layout_ok; [done| |by rewrite adjust_leaves].
    apply adjust_ratios; [by apply valid_small|apply Hok].
  - apply set_layout_ok; [done|apply balance_ratios|by rewrite balance_leaves].
  - destruct saved as [s|]; cbn [maximize_toggle fst snd].
    + split; [by apply Hs|done].
    + split; [by apply maximized_ok|]. by intros s [= <-].
  - by apply move_window_ok.
Qed.

Lemma run_ops_ok ops : Forall op_typed ops -> forall st, wm_ok st.1 ->
  (forall s, st.2 = Some s -> wm_ok s) ->
  wm_ok (foldl run_op st ops).1 /\ (forall s, (foldl run_op st ops).2 = Some s -> wm_ok s).
Proof.
  induction 1 as [|o ops Ho Hops IH]; intros st H1 H2; [done|]. cbn [foldl].
  destruct (run_op_ok o st Ho H1 H2). by apply IH.
Qed.

(** C25. Whatever the user does - open, close, group, resize, move, maximise and
    restore windows, in any order - the layout tree holds every open window
    exactly once and no other, the focused window is one of them (so
    [focused_window] never fails), the next identifier is not in use, and every
    stored ratio is at most one. *)
Theorem layout_invariant (b : nat) (ops : list wm_op) : Forall op_typed ops ->
  let st := foldl run_op (new b, None) ops in
  wm_ok st.1 /\ (forall saved, st.2 = Some saved -> wm_ok saved) /\
  exists w, focused_window st.1 = Some w /\ w_id w = focused st.1.
Proof.
  intros Hops. cbn zeta.
  destruct (run_ops_ok ops Hops (new b, None)) as [Hok Hs]; [apply (fresh_ok b 0)|done|].
  split; [done|]. split; [done|]. destruct (proj1 (ok_windows _ Hok _) (ok_focus _ Hok)) as [w Hw].
  exists w. split; [done|]. by apply (ok_ids _ Hok).
Qed.

(** ** The tiling *)

(** A rectangle on a screen whose coordinates fit a [u16]. *)
Definition on_screen (r : Rect) : Prop :=
  0 <= x r /\ 0 <= y r /\ 0 <= width r /\ 0 <= height r /\ x r + width r < 65536 /\ y r + height r < 65536.

(** A cell is in a rectangle, in plain arithmetic. *)
Definition inside (r : Rect) (c w : Z) : Prop := x r <= c < x r + width r /\ y r <= w < y r + height r.

Lemma rect_contains_inside r c w : on_screen r -> rect_contains r c w = true <-> inside r c w.
Proof.
  intros (? & ? & ? & ? & ? & ?). unfold rect_contains, inside, add16. rewrite !Z.mod_small by lia.
  rewrite !andb_true_iff, !Z.leb_le, !Z.ltb_lt. lia.
Qed.

(** A split divides its area: two screen rectangles, and every cell of the area
    is in exactly one. *)
Lemma split_area_spec d r area p q : on_screen area -> ratio_ok r -> split_area d r area = (p, q) ->
  on_screen p /\ on_screen q /\
  (forall c w, inside area c w <-> inside p c w \/ inside q c w) /\
  (forall c w, inside p c w -> inside q c w -> False) /\
  width area * height area = width p * height p + width q * height q.
Proof.
  intros (Hx & Hy & Hw & Hh & Hxw & Hyh) Hr.
  assert (Hsw := scale_le (width area) r ltac:(lia) Hr).
  assert (Hsh := scale_le (height area) r ltac:(lia) Hr).
  unfold split_area, on_screen, inside, add16, sub16.
  destruct d; intros [= <- <-]; cbn [x y width height];
    rewrite ?(Z.mod_small (_ + _)), ?(Z.mod_small (_ - _)) by lia;
    (split_and!; [lia..| | |nia]); intros; lia.
Qed.

Lemma tiles node : forall area, on_screen area -> ratios_ok node ->
  Forall (fun e => on_screen e.2 /\ forall c w, inside e.2 c w -> inside area c w)
    (compute_rects node area) /\
  (forall c w, inside area c w -> exists e, e ∈ compute_rects node area /\ inside e.2 c w) /\
  (forall c w e f, e ∈ compute_rects node area -> f ∈ compute_rects node area ->
     inside e.2 c w -> inside f.2 c w -> e = f) /\
  width area * height area =
    foldr Z.add 0 ((fun e => width e.2 * height e.2) <$> compute_rects node area).
Proof.
  induction node as [i|d r a IHa b IHb|l a IHa]; intros area Ha Hr; cbn [compute_rects].
  - split_and!.
    + apply Forall_singleton. by split.
    + intros c w Hin. exists (i, area). split; [left|done].
    + by intros c w e f ->%list_elem_of_singleton ->%list_elem_of_singleton.
    + simpl. lia.
  - destruct (split_area d r area) as [p q] eqn:Hs. destruct Hr as ([Hr _] & Hra & Hrb).
    destruct (split_area_spec d r area p q Ha Hr Hs) as (Hp & Hq & Hcov & Hdis & Har).
    destruct (IHa p Hp Hra) as (A1 & A2 & A3 & A4). destruct (IHb q Hq Hrb) as (B1 & B2 & B3 & B4).
    clear IHa IHb. rewrite Forall_forall in A1, B1. split_and!.
    + apply Forall_app. rewrite !Forall_forall. split; intros e He; (split; [first [by apply (A1 e He)|by apply (B1 e He)]|]).
      * intros c w Hc. apply Hcov. left. by apply (A1 e He).
      * intros c w Hc. apply Hcov. right. by apply (B1 e He).
    + intros c w [Hc|Hc]%Hcov; [destruct (A2 c w Hc) as (e & ? & ?)|destruct (B2 c w Hc) as (e & ? & ?)];
        exists e; rewrite elem_of_app; auto.
    + intros c w e f [He|He]%elem_of_app [Hf|Hf]%elem_of_app Hce Hcf.
      * by apply (A3 c w).
      * exfalso. apply (Hdis c w); [by apply (A1 e He)|by apply (B1 f Hf)].
      * exfalso. apply (Hdis c w); [by apply (A1 f Hf)|by apply (B1 e He)].
      * by apply (B3 c w).
    + rewrite fmap_app, Har, A4, B4. generalize ((fun e : nat * Rect => width e.2 * height e.2) <$>
        compute_rects a p) as l1. induction l1 as [|z l1 IH]; simpl; lia.
  - by apply IHa.
Qed.

(** C26. The windows tile the screen. For any screen whose coordinates fit a
    [u16], the rectangles are those of the open windows, once each; all lie on
    the screen; every cell of the screen is in exactly one of them, which is the
    window [window_at_cell] finds, and no cell outside is in any; and their
    areas add up to the screen's. No [u16] sum or difference on the way wraps. *)
Theorem windows_tile_the_screen wm total : wm_ok wm -> on_screen total ->
  (layout_rects wm total).*1 = all_leaves (layout wm) /\
  Forall (fun e => on_screen e.2) (layout_rects wm total) /\
  (forall c w, inside total c w -> exists id r, (id, r) ∈ layout_rects wm total /\ inside r c w /\
     window_at_cell wm c w total = Some id /\
     forall id' r', (id', r') ∈ layout_rects wm total -> inside r' c w -> (id', r') = (id, r)) /\
  (forall c w, ~ inside total c w -> window_at_cell wm c w total = None) /\
  width total * height total =
    foldr Z.add 0 ((fun e => width e.2 * height e.2) <$> layout_rects wm total).
Proof.
  intros Hok Ht. destruct (tiles (layout wm) total Ht (ok_ratios _ Hok)) as (H1 & H2 & H3 & H4).
  fold (layout_rects wm total) in *. rewrite Forall_forall in H1.
  assert (Hfind : forall c w, match List.find (fun '(_, rect) => rect_contains rect c w) (layout_rects wm total) with
    | Some e => e ∈ layout_rects wm total /\ inside e.2 c w
    | None => forall e, e ∈ layout_rects wm total -> ~ inside e.2 c w end).
  { intros c w. destruct (List.find _ _) as [[id r]|] eqn:Hf.
    - apply find_some in Hf as [Hin%list_elem_of_In Hc]. split; [done|].
      apply rect_contains_inside; [by apply (H1 _ Hin)|done].
    - intros [id r] Hin Hc. apply rect_contains_inside in Hc; [|by apply (H1 _ Hin)].
      assert (Hno := find_none _ _ Hf (id, r)). cbn [snd] in Hno, Hc.
      rewrite Hno in Hc; [done|by apply list_elem_of_In]. }
  split_and!; [by apply compute_rects_ids| | | |done].
  - apply Forall_forall. intros e He. by apply H1.
  - intros c w Hc. specialize (Hfind c w). unfold window_at_cell.
    destruct (List.find _ _) as [[id r]|].
    + destruct Hfind as [Hin Hi]. exists id, r. split_and!; [done..|]. intros id' r' Hin' Hi'. by apply (H3 c w).
    + destruct (H2 c w Hc) as (e & He & Hie). by destruct (Hfind e He).
  - intros c w Hn. specialize (Hfind c w). unfold window_at_cell. destruct (List.find _ _) as [e|]; [|done].
    destruct Hfind as [Hin Hi]. by destruct Hn; apply (H1 _ Hin).
Qed.

(** ** Closing *)

(** Closing a window removes exactly it: the tree keeps the other windows
    in their order, the focus only moves (to the first window of the tree) when
    the closed one had it, and the buffer it showed is returned; the last
    window, and a window that is not open, are left alone. *)
Theorem close_removes_one_window wm id : wm_ok wm ->
  match close wm id with
  | (wm', Some b) =>
      (1 < window_count wm)%nat /\ (exists w, windows wm !! id = Some w /\ w_buffer_idx w = b) /\
      windows wm' = delete id (windows wm) /\
      all_leaves (layout wm') = filter (fun i => i <> id) (all_leaves (layout wm)) /\
      focused wm' = (if decide (focused wm = id) then first_leaf_id (layout wm') else focused wm) /\
      next_id wm' = next_id wm
  | (wm', None) => wm' = wm /\ (window_count wm = 1%nat \/ windows wm !! id = None)
  end.
Proof.
  intros Hok. unfold close. assert (Hsz := windows_size wm Hok).
  assert (Hpos := all_leaves_pos (layout wm)).
  destruct (Nat.leb_spec (window_count wm) 1) as [Hc|Hc]; [split; [done|left; lia]|].
  destruct (windows wm !! id) as [w|] eqn:Hw; [|by split; [|right]].
  assert (Hne : all_leaves (layout wm) <> [id]).
  { intros Heq. rewrite Heq in Hsz. simpl in Hsz. lia. }
  destruct (drop_window_ok wm id (ok_but_focus _ Hok) Hne) as [_ Hl].
  destruct (Nat.eqb_spec (focused wm) id) as [->|Hf].
  - rewrite decide_True by done. split_and!; [done|by exists w|done|exact Hl|done|done].
  - rewrite decide_False by done. split_and!; [done|by exists w|done|exact Hl|done|done].
Qed.

(** Closing a group closes all of its members, keeps every other window in
    its place, returns the buffers of the closed windows in the order of the
    tree, and leaves the focus on an open window; it does nothing for a window
    in no group, and nothing when the group is all there is. *)
Theorem close_group_removes_members wm id : wm_ok wm ->
  let members := group_member_ids wm id in
  let '(wm', bufs) := close_group wm id in
  (members = [] \/ members ≡ₚ all_leaves (layout wm) -> wm' = wm /\ bufs = []) /\
  (members <> [] -> ~ members ≡ₚ all_leaves (layout wm) ->
     all_leaves (layout wm') = filter (fun i => i ∉ members) (all_leaves (layout wm)) /\
     (forall i, windows wm' !! i = if decide (i ∈ members) then None else windows wm !! i) /\
     length bufs = length members /\
     (forall k i, members !! k = Some i ->
        exists w, windows wm !! i = Some w /\ bufs !! k = Some (w_buffer_idx w)) /\
     focused wm' ∈ all_leaves (layout wm') /\
     (focused wm ∉ members -> focused wm' = focused wm)).
Proof.
  intros Hok. cbn zeta. unfold close_group. assert (Hsub := group_member_sublist wm id).
  set (ms := group_member_ids wm id) in *.
  assert (Hn : NoDup ms) by (eapply sublist_NoDup; [apply Hok|done]).
  assert (Hsz := windows_size wm Hok).
  destruct (Nat.eqb_spec (length ms) 0) as [H0|H0]; [by destruct ms|].
  destruct (Nat.leb_spec (window_count wm) (length ms)) as [Hc|Hc].
  { split; [done|]. intros _ Hnp. destruct Hnp. rewrite Hsz in Hc.
    by apply submseteq_length_Permutation; [apply sublist_submseteq|]. }
  rewrite close_group_fold by done.
  destruct (drop_all_ok ms wm (ok_but_focus _ Hok) Hn) as (H1 & H2 & H3 & H4 & H5).
  { destruct (decide (Forall (fun i => i ∈ ms) (all_leaves (layout wm)))) as [Hall|Hex].
    - exfalso. rewrite Forall_forall in Hall.
      assert (length (all_leaves (layout wm)) <= length ms)%nat; [|lia].
      apply submseteq_length, NoDup_submseteq; [apply Hok|done].
    - apply not_Forall_Exists in Hex; [|intros ?; apply _]. by apply Exists_exists in Hex. }
  assert (Hb : Forall2 (fun i b => exists w, windows wm !! i = Some w /\ b = w_buffer_idx w) ms
    (buffers_of wm ms)).
  { assert (Hopen : Forall (fun i => is_Some (windows wm !! i)) ms).
    { apply Forall_forall. intros i Hi. apply (ok_windows _ Hok). by apply (elem_of_sublist _ _ _ Hi). }
    clear -Hopen. unfold buffers_of. induction Hopen as [|i ms [w Hw] _ IH]; [constructor|].
    simpl. rewrite Hw. constructor; [by exists w|exact IH]. }
  split.
  { intros [->|Hp]; [done|]. rewrite Hp, <- Hsz in Hc. lia. }
  intros _ _. rewrite app_nil_l. split_and!.
  - by case_decide.
  - by case_decide.
  - symmetry. by eapply Forall2_length.
  - intros k i Hk. destruct (Forall2_lookup_l _ _ _ _ _ Hb Hk) as (b & Hbk & w & Hw & ->). by exists w.
  - case_decide as Hf; [apply first_leaf_elem|]. rewrite H2, H4, list_elem_of_filter.
    split; [done|apply (ok_focus _ Hok)].
  - intros Hf. by rewrite decide_False.
Qed.

(** ** Focus *)

Lemma position_spec id l : NoDup l -> id ∈ l -> l !! position id l = Some id.
Proof.
  intros Hn [i Hi]%list_elem_of_lookup. unfold position.
  assert (Hf : list_find (fun j => j = id) l = Some (i, id)); [|by rewrite Hf].
  apply list_find_Some. split_and!; [done|done|]. intros j z Hj Hlt ->.
  assert (i = j) by (eapply NoDup_lookup; eauto). lia.
Qed.

Lemma position_lookup l i id : NoDup l -> l !! i = Some id -> position id l = i.
Proof.
  intros Hn Hi. eapply NoDup_lookup; [done| |done]. apply position_spec; [done|].
  by eapply list_elem_of_lookup_2.
Qed.

Lemma focus_next_windows wm : windows (focus_next wm) = windows wm /\ layout (focus_next wm) = layout wm.
Proof. unfold focus_next. by case_match. Qed.

Lemma focus_next_at wm i : wm_ok wm -> window_ids wm !! i = Some (focused wm) ->
  window_ids wm !! ((i + 1) mod window_count wm)%nat = Some (focused (focus_next wm)).
Proof.
  intros Hok Hi. assert (Hlt := lookup_lt_Some _ _ _ Hi). rewrite window_ids_length in Hlt.
  unfold focus_next. destruct (Nat.leb_spec (window_count wm) 1) as [Hc|Hc].
  { replace (window_count wm) with 1%nat in * by lia. rewrite Nat.mod_1_r. by replace i with 0%nat in Hi by lia. }
  rewrite (position_lookup _ i) by (apply NoDup_window_ids || done). rewrite window_ids_length. cbn [focus focused].
  destruct (lookup_lt_is_Some_2 (window_ids wm) ((i + 1) mod window_count wm)) as [j ->]; [|done].
  rewrite window_ids_length. apply Nat.mod_upper_bound. lia.
Qed.

(** Cycling the focus visits the windows in the order of their
    identifiers, wrapping around: after [k] steps from the [i]-th window the
    focus is on the [i + k]-th modulo their number. So every window is reached,
    and as many steps as there are windows come back to the first. *)
Theorem focus_next_cycles wm : wm_ok wm ->
  exists i, window_ids wm !! i = Some (focused wm) /\ Sorted Nat.le (window_ids wm) /\
    (forall k, window_ids wm !! ((i + k) mod window_count wm)%nat =
       Some (focused (Nat.iter k focus_next wm))) /\
    (forall id, is_Some (windows wm !! id) -> exists k, (k < window_count wm)%nat /\
       focused (Nat.iter k focus_next wm) = id) /\
    Nat.iter (window_count wm) focus_next wm = wm.
Proof.
  intros Hok. assert (Hin : focused wm ∈ window_ids wm) by (apply elem_of_window_ids, (ok_windows _ Hok), (ok_focus _ Hok)).
  apply list_elem_of_lookup in Hin as [i Hi]. exists i.
  assert (Hlt := lookup_lt_Some _ _ _ Hi). rewrite window_ids_length in Hlt.
  assert (Hk : forall k, let wm' := Nat.iter k focus_next wm in
    wm_ok wm' /\ wm' = focus wm (focused wm') /\
    window_ids wm !! ((i + k) mod window_count wm)%nat = Some (focused wm')).
  { induction k as [|k (H1 & H2 & H3)]; cbn zeta.
    - simpl. split_and!; [done|by destruct wm|]. by rewrite Nat.add_0_r, Nat.mod_small.
    - rewrite Nat.iter_succ. set (v := Nat.iter k focus_next wm) in *.
      assert (Hids : window_ids v = window_ids wm) by (by rewrite H2). assert (Hwc : window_count v = window_count wm) by (by rewrite H2).
      rewrite <- Hids in H3. apply focus_next_at in H3; [|done]. split_and!; [by apply focus_next_ok| |].
      + unfold focus_next. rewrite H2. by case_match.
      + rewrite <- Hids, <- H3. f_equal. rewrite Hwc, Nat.Div0.add_mod_idemp_l. f_equal. lia. }
  split_and!; [done|apply (Sorted_merge_sort _)|intros k; apply Hk| |].
  - intros id [j Hj]%elem_of_window_ids%list_elem_of_lookup. assert (Hjl := lookup_lt_Some _ _ _ Hj).
    rewrite window_ids_length in Hjl. destruct (Nat.le_gt_cases i j).
    + exists (j - i)%nat. split; [lia|]. destruct (Hk (j - i)%nat) as (_ & _ & Hf).
      rewrite Nat.mod_small in Hf by lia. replace (i + (j - i))%nat with j in Hf by lia. congruence.
    + exists (window_count wm + j - i)%nat. split; [lia|].
      destruct (Hk (window_count wm + j - i)%nat) as (_ & _ & Hf).
      replace (i + (window_count wm + j - i))%nat with (j + 1 * window_count wm)%nat in Hf by lia.
      rewrite Nat.Div0.mod_add, Nat.mod_small in Hf by lia. congruence.
  - destruct (Hk (window_count wm)) as (_ & H2 & H3). rewrite H2.
    replace (i + window_count wm)%nat with (i + 1 * window_count wm)%nat in H3 by lia.
    rewrite Nat.Div0.mod_add, Nat.mod_small in H3 by lia. rewrite Hi in H3. injection H3 as <-. by destruct wm.
Qed.

(** Moving the focus in a direction goes to the nearest window whose centre
    lies that way - no other such window has a nearer centre, in steps along the
    two axes - and stays where it is exactly when there is none. *)
Theorem focus_direction_is_nearest wm dir total : wm_ok wm ->
  exists f, (focused wm, f) ∈ layout_rects wm total /\
  let eligible e := e ∈ layout_rects wm total /\ candidate (focused wm) dir (center f) e in
  match nearest wm dir total with
  | Some id =>
      focus_direction wm dir total = focus wm id /\
      exists r, eligible (id, r) /\
        forall e, eligible e -> dist (center f) (center r) <= dist (center f) (center e.2)
  | None => focus_direction wm dir total = wm /\ forall e, ~ eligible e
  end.
Proof.
  intros Hok. destruct (find_rect (layout wm) total (focused wm) (ok_focus _ Hok)) as (f & Hf & Hin).
  exists f. split; [done|]. cbn zeta. unfold focus_direction, nearest.
  fold (layout_rects wm total) in Hf. rewrite Hf.
  assert (Hb := best_step_spec (focused wm) dir (center f) (layout_rects wm total) None). cbn zeta in Hb.
  destruct (foldl _ None _) as [[id d]|]; cbn [fmap option_fmap option_map fst].
  - destruct Hb as ([?|(r & Hr & Hc & ->)] & _ & Hmin); [done|]. split; [done|].
    exists r. split; [done|]. intros e [He Hce]. by apply Hmin.
  - destruct Hb as [_ Hno]. split; [done|]. intros e [He Hce]. by apply (Hno e).
Qed.

(** ** Splitting *)

Definition size (d : SplitDirection) (r : Rect) : Z :=
  match d with Vertical => width r | Horizontal => height r end.
Definition minimum (d : SplitDirection) : Z :=
  match d with Vertical => MIN_WINDOW_WIDTH | Horizontal => MIN_WINDOW_HEIGHT end.

(** The rectangle of window [f] divided between it and a new window. *)
Definition divide (f new : nat) (d : SplitDirection) (r : f32) (e : nat * Rect) : list (nat * Rect) :=
  if (e.1 =? f)%nat then [(f, (split_area d r e.2).1); (new, (split_area d r e.2).2)] else [e].

Lemma divide_others f new d r l : f ∉ l.*1 -> flat_map (divide f new d r) l = l.
Proof.
  induction l as [|[i a] l IH]; [done|]. intros [Hne Hl]%not_elem_of_cons. simpl in *.
  unfold divide at 1. cbn [fst]. destruct (Nat.eqb_spec i f) as [->|]; [done|]. simpl. by rewrite IH.
Qed.

Lemma split_rects f new d r node : forall area, NoDup (all_leaves node) -> f ∈ all_leaves node ->
  group_label_recursive node f = None ->
  compute_rects (split_for_leaf_recursive node f new d r) area =
  flat_map (divide f new d r) (compute_rects node area).
Proof.
  induction node as [i|d' r' a IHa b IHb|l a IHa]; intros area; cbn [split_for_leaf_recursive all_leaves].
  - intros _ ->%list_elem_of_singleton _. rewrite Nat.eqb_refl. cbn [compute_rects flat_map]. unfold divide.
    cbn [fst snd]. rewrite Nat.eqb_refl. by destruct (split_area d r area).
  - intros (Hna & Hab & Hnb)%NoDup_app Hin Hg. cbn [group_label_recursive] in Hg.
    destruct (group_label_recursive a f) eqn:Hga; [done|].
    destruct (contains_leaf a f) eqn:Hc; cbn [compute_rects]; destruct (split_area d' r' area) as [p q].
    + rewrite contains_leaf_iff in Hc. rewrite IHa, flat_map_app by done. f_equal. symmetry.
      apply divide_others. rewrite compute_rects_ids. by apply Hab.
    + rewrite contains_leaf_false in Hc. apply elem_of_app in Hin as [?|Hb]; [done|].
      rewrite IHb, flat_map_app by done. f_equal. symmetry. apply divide_others. by rewrite compute_rects_ids.
  - intros _ Hin. cbn [group_label_recursive]. apply contains_leaf_iff in Hin. by rewrite Hin.
Qed.

Lemma half_panes d r : on_screen r -> minimum d <= size d r / 2 ->
  minimum d <= size d (split_area d half32 r).1 /\ minimum d <= size d (split_area d half32 r).2.
Proof.
  intros (? & ? & ? & ? & ? & ?) Hmin.
  assert (Hs := scale_half (size d r)). assert (Hd1 := Z.div_mod (size d r) 2). assert (Hd2 := Z.mod_pos_bound (size d r) 2).
  assert (Hd3 := Z.div_mod (size d r + 1) 2). assert (Hd4 := Z.mod_pos_bound (size d r + 1) 2).
  destruct d; cbn [size split_area fst snd width height] in *; unfold sub16;
    rewrite Z.mod_small by lia; lia.
Qed.

(** Splitting the focused window, when it is in no group, divides its
    rectangle in two and leaves every other window where it was; it succeeds
    exactly when half of the rectangle is at least the minimum, and then both
    panes are at least that large. *)
Theorem split_divides_focused_window wm d b area : wm_ok wm -> on_screen area ->
  is_in_group wm (focused wm) = false ->
  exists r, (focused wm, r) ∈ layout_rects wm area /\
  match split wm d b area with
  | inl (wm', id) =>
      id = next_id wm /\ focused wm' = focused wm /\ minimum d <= size d r / 2 /\
      layout_rects wm' area = flat_map (divide (focused wm) id d half32) (layout_rects wm area) /\
      minimum d <= size d (split_area d half32 r).1 /\ minimum d <= size d (split_area d half32 r).2
  | inr _ => size d r / 2 < minimum d
  end.
Proof.
  intros Hok Ha Hg.
  destruct (find_rect (layout wm) area (focused wm) (ok_focus _ Hok)) as (r & Hf & Hin).
  exists r. split; [done|]. assert (Hr : focused_rect wm area = r).
  { unfold focused_rect. fold (layout_rects wm area) in Hf. by rewrite Hf. }
  assert (Hon : on_screen r).
  { destruct (tiles _ area Ha (ok_ratios _ Hok)) as [Hall _]. rewrite Forall_forall in Hall. by apply (Hall _ Hin). }
  assert (Hrects : layout_rects (open_window wm b (split_for_leaf_recursive (layout wm) (focused wm)
      (next_id wm) d half32)) area = flat_map (divide (focused wm) (next_id wm) d half32) (layout_rects wm area)).
  { apply split_rects; [apply Hok|apply (ok_focus _ Hok)|]. unfold is_in_group, group_label in Hg.
    apply bool_decide_eq_false in Hg. by apply eq_None_not_Some. }
  unfold split. rewrite Hr. destruct d.
  - destruct (Z.ltb_spec (height r / 2) MIN_WINDOW_HEIGHT); [done|].
    split_and!; [done..|exact Hrects| |]; by apply half_panes.
  - destruct (Z.ltb_spec (width r / 2) MIN_WINDOW_WIDTH); [done|].
    split_and!; [done..|exact Hrects| |]; by apply half_panes.
Qed.

(** *** Groups *)

Lemma group_label_outside node i : i ∉ all_leaves node -> group_label_recursive node i = None.
Proof.
  induction node as [j|d r a IHa b IHb|l a IHa]; simpl; [done| |].
  - intros [Ha Hb]%not_elem_of_app. by rewrite IHa, IHb.
  - intros Hi. apply contains_leaf_false in Hi. by rewrite Hi.
Qed.

Lemma split_for_leaf_groups f new d r node : new ∉ all_leaves node ->
  (forall l, collect_group_leaves (split_for_leaf_recursive node f new d r) l = collect_group_leaves node l) /\
  (forall i, group_label_recursive (split_for_leaf_recursive node f new d r) i = group_label_recursive node i).
Proof.
  induction node as [j|d' r' a IHa b IHb|l' a IHa]; intros Hn; cbn [split_for_leaf_recursive].
  - by destruct (_ =? _)%nat.
  - cbn [all_leaves] in Hn. apply not_elem_of_app in Hn as [Ha Hb].
    destruct (IHa Ha) as [A1 A2]. destruct (IHb Hb) as [B1 B2].
    destruct (contains_leaf a f); split; intros z; cbn [collect_group_leaves group_label_recursive].
    + by rewrite A1.
    + by rewrite A2.
    + by rewrite B1.
    + by rewrite B2.
  - destruct (contains_leaf (Group l' a) f); [|done]. split; intros z;
      cbn [collect_group_leaves group_label_recursive].
    + by rewrite app_nil_r.
    + by destruct (contains_leaf a z).
Qed.

(** Opening a window never breaks a group: every split, of the focused
    window or of the root, keeps the members of every group and the group of
    every window, and the new window is in none. *)
Theorem splits_keep_groups wm d b area r wm' id : wm_ok wm ->
  split wm d b area = inl (wm', id) \/ split_with_ratio wm d b area r = inl (wm', id) \/
  split_root wm d b area r = inl (wm', id) \/ split_root_prepend wm d b area r = inl (wm', id) ->
  (forall l, collect_group_leaves (layout wm') l = collect_group_leaves (layout wm) l) /\
  (forall i, group_label wm' i = group_label wm i) /\ group_label wm' id = None.
Proof.
  intros Hok Hsp. assert (Hnew : next_id wm ∉ all_leaves (layout wm)).
  { intros ?%(ok_fresh _ Hok). lia. }
  assert (Hshape : id = next_id wm /\ (
    (exists r', layout wm' = split_for_leaf_recursive (layout wm) (focused wm) (next_id wm) d r') \/
    layout wm' = Split d r (layout wm) (Leaf (next_id wm)) \/
    layout wm' = Split d r (Leaf (next_id wm)) (layout wm))).
  { unfold split, split_with_ratio, split_root, split_root_prepend in Hsp.
    destruct Hsp as [Hsp|[Hsp|[Hsp|Hsp]]]; [destruct d|destruct d|destruct (root_check _ _ _)|destruct (root_check _ _ _)];
      try destruct (_ <? _); try discriminate Hsp; injection Hsp as <- <-; split; eauto. }
  destruct Hshape as [-> Hshape]. unfold group_label.
  assert (Hout := group_label_outside _ _ Hnew).
  destruct Hshape as [[r' ->] | [-> | -> ]].
  - destruct (split_for_leaf_groups (focused wm) (next_id wm) d r' _ Hnew) as [H1 H2].
    split_and!; [done|done|by rewrite H2].
  - split_and!; intros; cbn [collect_group_leaves group_label_recursive].
    + apply app_nil_r.
    + by destruct (group_label_recursive (layout wm) i).
    + by rewrite Hout.
  - by split_and!.
Qed.

(** ** Maximising *)

Lemma run_op_saved ops : (forall o, o ∈ ops -> o <> OpMaximize) -> forall wm saved,
  (foldl run_op (wm, saved) ops).2 = saved.
Proof.
  induction ops as [|o ops IH]; intros Hops wm saved; [done|]. cbn [foldl].
  assert (Ho : (run_op (wm, saved) o).2 = saved).
  { specialize (Hops o ltac:(left)). by destruct o. }
  destruct (run_op (wm, saved) o) as [v s]. simpl in Ho. subst s. apply IH. set_solver.
Qed.

(** Maximising leaves one window, the focused one, on the whole screen; and
    whatever is done in between, the next toggle restores the layout, the
    windows and the focus exactly as they were. *)
Theorem maximize_round_trip wm total ops : wm_ok wm -> (forall o, o ∈ ops -> o <> OpMaximize) ->
  let st := run_op (wm, None) OpMaximize in
  layout_rects st.1 total = [(focused wm, total)] /\ window_count st.1 = 1%nat /\
  focused_window st.1 = focused_window wm /\
  run_op (foldl run_op st ops) OpMaximize = (wm, None).
Proof.
  intros Hok Hops. cbn zeta. cbn [run_op maximize_toggle fst]. split_and!; [done| | |].
  - rewrite windows_size; [done|]. apply (maximized_ok wm Hok).
  - unfold focused_window. cbn [focused windows].
    destruct (proj1 (ok_windows _ Hok _) (ok_focus _ Hok)) as [w Hw]. rewrite Hw.
    by apply map_lookup_filter_Some.
  - assert (Hs := run_op_saved ops Hops (mkWM (filter (fun '(id, _) => id = focused wm) (windows wm))
      (Leaf (focused wm)) (focused wm) (next_id wm)) (Some (snapshot wm))).
    destruct (foldl _ _ ops) as [v s]. simpl in Hs. by subst s.
Qed.

(** ** Moving windows *)

Lemma structural_false f dir node node' :
  move_window_structural node f dir = (node', false) -> node' = node.
Proof.
  revert node'. induction node as [i|d r a IHa b IHb|l a IHa]; intros node';
    cbn [move_window_structural].
  - by intros [= <-].
  - destruct (negb _ && negb _); [by intros [= <-]|]. cbv zeta.
    destruct ((_ || _) && _).
    + destruct (negb _); [by destruct (Bool.eqb _ _)|]. destruct (_ || _); [done|by intros [= <-]].
    + destruct (contains_leaf a f).
      * destruct (move_window_structural a f dir) as [n o]. intros [= <- ->]. by rewrite (IHa n).
      * destruct (move_window_structural b f dir) as [n o]. intros [= <- ->]. by rewrite (IHb n).
  - destruct (move_window_structural a f dir) as [n o]. intros [= <- ->]. by rewrite (IHa n).
Qed.

Lemma swap_rects a b node : forall area,
  compute_rects (swap_leaves node a b) area = prod_map (swap_id a b) id <$> compute_rects node area.
Proof.
  induction node as [i|d r n1 IH1 n2 IH2|l n IH]; intros area; cbn [swap_leaves compute_rects].
  - unfold swap_id, prod_map. simpl. by repeat case_match.
  - destruct (split_area d r area). by rewrite IH1, IH2, fmap_app.
  - apply IH.
Qed.

(** Two sibling windows: the axis of a move, and the side it goes to. *)
Definition axis (dir : Direction) : SplitDirection :=
  match dir with Left | Right => Vertical | Up | Down => Horizontal end.
Definition toward_first (dir : Direction) : bool :=
  match dir with Left | Up => true | _ => false end.

(** Moving one of two sibling windows puts the pair along the axis of the
    move, with the moved window on the side it was moved to, in whichever
    orientation they were; it is refused exactly when they are that way
    already. *)
Theorem sibling_move_lands (d : SplitDirection) (r : f32) (n m : LayoutNode) (f g : nat)
    (dir : Direction) : f <> g -> sole_leaf_id n = Some f -> sole_leaf_id m = Some g ->
  let placed := if toward_first dir then Split (axis dir) r n m else Split (axis dir) r m n in
  move_window_structural (Split d r n m) f dir =
    (if bool_decide (d = axis dir) && toward_first dir then (Split d r n m, false) else (placed, true)) /\
  move_window_structural (Split d r m n) f dir =
    (if bool_decide (d = axis dir) && negb (toward_first dir) then (Split d r m n, false)
     else (placed, true)).
Proof.
  intros Hne Hn Hm. assert (Hln := proj1 (sole_leaf_iff _ _) Hn). assert (Hlm := proj1 (sole_leaf_iff _ _) Hm).
  assert (Hcn : contains_leaf n f = true) by (apply contains_leaf_iff; rewrite Hln; left).
  assert (Hcm : contains_leaf m f = false).
  { apply contains_leaf_false. rewrite Hlm. set_solver. }
  cbn zeta. cbn [move_window_structural]. rewrite Hcn, Hcm, Hn, Hm.
  rewrite (bool_decide_true (Some f = Some f)), (bool_decide_false (Some g = Some f)) by congruence.
  rewrite !(bool_decide_true (is_Some _)) by eauto. by destruct d, dir.
Qed.

(** A move that no pair of siblings can make falls back to the screen: the
    focused window and the nearest window in the direction exchange rectangles
    and every other window keeps its own; it is refused, and nothing changes,
    exactly when there is none. The focus stays on the moved window. *)
Theorem spatial_move_swaps wm dir total :
  (move_window_structural (layout wm) (focused wm) dir).2 = false ->
  match nearest wm dir total, move_window wm dir total with
  | Some id, (wm', moved) =>
      moved = true /\ focused wm' = focused wm /\ windows wm' = windows wm /\
      layout_rects wm' total = prod_map (swap_id (focused wm) id) (fun r => r) <$> layout_rects wm total
  | None, (wm', moved) => moved = false /\ wm' = wm
  end.
Proof.
  intros Hs. unfold move_window. destruct (move_window_structural _ _ _) as [node o] eqn:Hm.
  simpl in Hs. subst o. rewrite (structural_false _ _ _ _ Hm).
  assert (Hsame : set_layout wm (layout wm) = wm) by (by destruct wm). rewrite Hsame.
  unfold move_window_spatial. destruct (nearest wm dir total); [|done]. split_and!; [done..|]. apply swap_rects.
Qed.

(** ** Resizing *)

(** The ratio of the outermost split along the axis of [dir] around a leaf. *)
Fixpoint axis_split_around node (target : nat) (dir : Direction) : option f32 :=
  match node with
  | Leaf _ => None
  | Split d r a b =>
      if contains_leaf a target || contains_leaf b target then
        if matching d dir then Some r
        else if contains_leaf a target then axis_split_around a target dir
        else axis_split_around b target dir
      else None
  | Group _ a => axis_split_around a target dir
  end.

Lemma f32_clamp_range x lo hi : SFltb lo lo = false -> SFltb hi lo = false -> SFltb hi hi = false ->
  SFltb hi (f32_clamp x lo hi) = false /\ SFltb (f32_clamp x lo hi) lo = false.
Proof.
  intros H1 H2 H3. unfold f32_clamp. destruct (SFltb x lo) eqn:Hl; [by rewrite H2|].
  by destruct (SFltb hi x) eqn:Hh; [rewrite H3|].
Qed.

Lemma adjust_contains node t dir delta i :
  contains_leaf (adjust_ratio_recursive node t dir delta).1 i = contains_leaf node i.
Proof. apply eq_bool_prop_intro. rewrite !Is_true_true, !contains_leaf_iff. by rewrite adjust_leaves. Qed.

Lemma adjust_axis node t dir delta :
  let '(node', changed) := adjust_ratio_recursive node t dir delta in
  match axis_split_around node t dir with
  | None => node' = node /\ changed = false
  | Some r => changed = true /\ exists step, (step = delta \/ step = f32_neg delta) /\
      axis_split_around node' t dir = Some (f32_clamp (f32_add r step) tenth32 nine_tenths32)
  end.
Proof.
  induction node as [i|d r a IHa b IHb|l a IHa]; cbn [adjust_ratio_recursive axis_split_around]; [done| |].
  - assert (Ha := adjust_contains a t dir delta t). assert (Hb := adjust_contains b t dir delta t).
    destruct (contains_leaf a t) eqn:Hca; [|destruct (contains_leaf b t) eqn:Hcb]; cbn [negb andb orb]; [| |done].
    + destruct (matching d dir) eqn:Hm; cbn [axis_split_around].
      * rewrite Hca, Hm. split; [done|]. eexists; split; [|done]. destruct dir; auto.
      * destruct (adjust_ratio_recursive a t dir delta) as [a' ch]. cbn [fst] in Ha.
        destruct (axis_split_around a t dir) as [r0|]; [|by destruct IHa as [-> ->]].
        cbn [axis_split_around]. by rewrite Ha, Hm.
    + destruct (matching d dir) eqn:Hm; cbn [axis_split_around].
      * rewrite Hca, Hcb, Hm. split; [done|]. eexists; split; [|done]. destruct dir; auto.
      * destruct (adjust_ratio_recursive b t dir delta) as [b' ch]. cbn [fst] in Hb.
        destruct (axis_split_around b t dir) as [r0|]; [|by destruct IHb as [-> ->]].
        cbn [axis_split_around]. by rewrite Hca, Hb, Hm.
  - destruct (adjust_ratio_recursive a t dir delta) as [a' ch].
    destruct (axis_split_around a t dir); [done|]. by destruct IHa as [-> ->].
Qed.

(** Resizing moves one divider: that of the outermost split along the axis
    of the direction around the focused window, by the step one way or the
    other, and never past a tenth or nine tenths. With no such split nothing
    changes. *)
Theorem adjust_moves_one_divider wm dir delta :
  match axis_split_around (layout wm) (focused wm) dir with
  | None => adjust_ratio wm dir delta = wm
  | Some r =>
      all_leaves (layout (adjust_ratio wm dir delta)) = all_leaves (layout wm) /\
      exists step r', (step = delta \/ step = f32_neg delta) /\
        r' = f32_clamp (f32_add r step) tenth32 nine_tenths32 /\
        axis_split_around (layout (adjust_ratio wm dir delta)) (focused wm) dir = Some r' /\
        SFltb nine_tenths32 r' = false /\ SFltb r' tenth32 = false
  end.
Proof.
  assert (Ha := adjust_axis (layout wm) (focused wm) dir delta). unfold adjust_ratio.
  assert (Hl := adjust_leaves (focused wm) dir delta (layout wm)).
  destruct (adjust_ratio_recursive _ _ _ _) as [node ch]. cbn [fst] in *.
  destruct (axis_split_around (layout wm) (focused wm) dir) as [r|].
  - destruct Ha as (_ & step & Hs & Hax). split; [done|]. exists step, (f32_clamp (f32_add r step) tenth32 nine_tenths32).
    destruct (f32_clamp_range (f32_add r step) tenth32 nine_tenths32) as [H1 H2]; [done..|].
    by split_and!.
  - destruct Ha as [-> _]. by destruct wm.
Qed.

(** ** Concrete layouts *)

Module LayoutWitnesses.
Definition screen : Rect := mkRect 0 0 200 60.

(** Three windows, the first two of them a group, made by the operations. *)
Definition ops : list wm_op :=
  [OpSplitRatio Vertical 1 screen (f32_lit 3 4); OpSplit Horizontal 2 screen; OpWrap [0; 2]%nat "chat";
   OpAdjust Right (f32_lit 1 20); OpFocus 1].
Definition sample_layout : WindowManager := (foldl run_op (new 0, None) ops).1.

Lemma ops_typed : Forall op_typed ops.
Proof. by repeat constructor. Qed.

Lemma sample_layout_ok : wm_ok sample_layout.
Proof. destruct (run_ops_ok ops ops_typed (new 0, None)) as [H _]; [apply (fresh_ok 0 0)|done|exact H]. Qed.

Lemma screen_ok : on_screen screen.
Proof. by vm_compute. Qed.

Lemma layout_invariant_witness : Forall op_typed ops /\ wm_ok (foldl run_op (new 0, None) ops).1.
Proof. split; [apply ops_typed|]. exact (proj1 (layout_invariant 0 ops ops_typed)). Defined.

Lemma windows_tile_the_screen_witness :
  (layout_rects sample_layout screen).*1 = [0; 2; 1]%nat /\ window_at_cell sample_layout 10 50 screen = Some 2%nat /\
  width screen * height screen = foldr Z.add 0 ((fun e => width e.2 * height e.2) <$> layout_rects sample_layout screen).
Proof.
  split; [reflexivity|]. split; [reflexivity|].
  apply (windows_tile_the_screen sample_layout screen sample_layout_ok screen_ok).
Defined.

Lemma close_removes_one_window_witness :
  (close sample_layout 1).2 = Some 1%nat /\ next_id (close sample_layout 1).1 = next_id sample_layout /\
  windows (close sample_layout 1).1 = delete 1%nat (windows sample_layout).
Proof.
  assert (Hc : (close sample_layout 1).2 = Some 1%nat) by reflexivity. split; [exact Hc|].
  assert (H := close_removes_one_window sample_layout 1 sample_layout_ok).
  destruct (close sample_layout 1) as [wm' o]. cbn [snd] in Hc. subst o.
  destruct H as (_ & _ & Hw & _ & _ & Hn). split; [exact Hn|exact Hw].
Defined.

Lemma close_group_removes_members_witness :
  group_member_ids sample_layout 0 = [0; 2]%nat /\
  all_leaves (layout (close_group sample_layout 0).1) = [1%nat] /\ length (close_group sample_layout 0).2 = 2%nat.
Proof.
  assert (H := close_group_removes_members sample_layout 0 sample_layout_ok). cbn zeta in H.
  assert (Hm : group_member_ids sample_layout 0 = [0; 2]%nat) by reflexivity. split; [exact Hm|].
  destruct (close_group sample_layout 0) as [wm' bufs]. destruct H as [_ H]. rewrite Hm in H.
  destruct H as (H1 & _ & H2 & _); [done| |].
  - intros Hp%Permutation_length.
    assert (Hl : length (all_leaves (layout sample_layout)) = 3%nat) by reflexivity.
    rewrite Hl in Hp. by inversion Hp.
  - cbn [fst snd]. split; [rewrite H1; reflexivity|exact H2].
Defined.

Lemma focus_next_cycles_witness : focused sample_layout = 1%nat /\
  Nat.iter (window_count sample_layout) focus_next sample_layout = sample_layout.
Proof. split; [reflexivity|]. destruct (focus_next_cycles sample_layout sample_layout_ok) as (i & _ & _ & _ & _ & H). exact H. Defined.

Lemma focus_direction_is_nearest_witness :
  nearest sample_layout Left screen = Some 0%nat /\ focus_direction sample_layout Left screen = focus sample_layout 0.
Proof.
  assert (Hn : nearest sample_layout Left screen = Some 0%nat) by reflexivity. split; [exact Hn|].
  destruct (focus_direction_is_nearest sample_layout Left screen sample_layout_ok) as (f & _ & H). rewrite Hn in H. apply H.
Defined.

Lemma split_divides_focused_window_witness :
  is_in_group sample_layout (focused sample_layout) = false /\
  match split sample_layout Vertical 5 screen with
  | inl (wm', id) => id = 3%nat /\ focused wm' = 1%nat
  | inr _ => width (focused_rect sample_layout screen) / 2 < 20
  end.
Proof.
  assert (Hg : is_in_group sample_layout (focused sample_layout) = false) by reflexivity. split; [exact Hg|].
  destruct (split_divides_focused_window sample_layout Vertical 5 screen sample_layout_ok screen_ok Hg) as (r & _ & H).
  destruct (split sample_layout Vertical 5 screen) as [[wm' id]|e] eqn:Hs.
  - destruct H as (H1 & H2 & _). split; [exact H1|exact H2].
  - by vm_compute in Hs |- *.
Defined.

Lemma splits_keep_groups_witness :
  match split_root sample_layout Horizontal 5 screen half32 with
  | inl (wm', id) => group_label wm' 0 = Some "chat"%string /\ group_label wm' id = None
  | inr _ => False
  end.
Proof.
  destruct (split_root sample_layout Horizontal 5 screen half32) as [[wm' id]|e] eqn:Hs; [|by vm_compute in Hs].
  destruct (splits_keep_groups sample_layout Horizontal 5 screen half32 wm' id sample_layout_ok) as (_ & H1 & H2); [auto|].
  split; [rewrite H1; reflexivity|exact H2].
Defined.

Lemma maximize_round_trip_witness :
  run_op (foldl run_op (run_op (sample_layout, None) OpMaximize) [OpSplit Vertical 9 screen; OpFocusNext; OpBalance])
    OpMaximize = (sample_layout, None).
Proof.
  apply (maximize_round_trip sample_layout screen [OpSplit Vertical 9 screen; OpFocusNext; OpBalance] sample_layout_ok).
  intros o Ho ->. by repeat (apply elem_of_cons in Ho as [Ho|Ho]; [discriminate Ho|]); apply elem_of_nil in Ho.
Defined.

Lemma sibling_move_lands_witness :
  move_window_structural (Split Vertical half32 (Leaf 0) (Group "g" (Leaf 1))) 0 Down =
  (Split Horizontal half32 (Group "g" (Leaf 1)) (Leaf 0), true).
Proof.
  assert (Hne : 0%nat <> 1%nat) by discriminate.
  apply (sibling_move_lands Vertical half32 (Leaf 0) (Group "g" (Leaf 1)) 0 1 Down Hne); reflexivity.
Defined.

Lemma spatial_move_swaps_witness :
  nearest sample_layout Left screen = Some 0%nat /\
  layout_rects (move_window sample_layout Left screen).1 screen =
    prod_map (swap_id 1 0) (fun r => r) <$> layout_rects sample_layout screen.
Proof.
  assert (Hn : nearest sample_layout Left screen = Some 0%nat) by reflexivity. split; [exact Hn|].
  assert (H := spatial_move_swaps sample_layout Left screen ltac:(reflexivity)). rewrite Hn in H.
  destruct (move_window sample_layout Left screen) as [wm' moved]. destruct H as (_ & _ & _ & H). exact H.
Defined.
End LayoutWitnesses.

(** ** Where comments and code part *)

Module LayoutDepartures.
Import LayoutWitnesses.
Definition narrow : Rect := mkRect 0 0 100 30.
Definition grouped : WindowManager :=
  (foldl run_op (new 0, None)
     [OpSplitRatio Vertical 1 narrow (f32_lit 3 4); OpWrap [0; 1]%nat "chat"]).1.

(** "Fails if the resulting windows would be too small": the check looks at the
    focused window, the split divides its whole group. *)
Theorem group_split_squeezes_members :
  MIN_WINDOW_WIDTH = 20 /\
  match split grouped Vertical 2 narrow with
  | inl (wm', _) => map (fun e => width e.2) (layout_rects wm' narrow) = [37; 13; 50]
  | inr _ => False
  end.
Proof. by vm_compute. Qed.

(** "Target pixel width": the ratio it resolves to is clamped to a tenth, and
    single precision loses a cell. *)
Theorem fixed_pixels_are_not_kept :
  match split_with_sizing (new 0) Vertical 1 (mkRect 0 0 300 40) (FixedPixels 25) with
  | inl (wm', _) => map (fun e => width e.2) (layout_rects wm' (mkRect 0 0 300 40)) = [30; 270]
  | inr _ => False
  end /\
  match split_with_sizing (new 0) Vertical 1 (mkRect 0 0 100 40) (FixedPixels 53) with
  | inl (wm', _) => map (fun e => width e.2) (layout_rects wm' (mkRect 0 0 100 40)) = [52; 48]
  | inr _ => False
  end.
Proof. by vm_compute. Qed.

(** "Close all windows in the same group": groups are told apart by their
    label, so two groups of one name close together. *)
Theorem close_group_closes_namesakes :
  let wm := mkWM (list_to_map ((fun i => (i, new_window i i)) <$> [0; 1; 2]%nat))
    (Split Vertical half32 (Group "chat" (Leaf 0)) (Split Vertical half32 (Group "chat" (Leaf 1)) (Leaf 2)))
    0 3 in
  (close_group wm 0).2 = [0; 1]%nat /\ layout (close_group wm 0).1 = Leaf 2.
Proof. by vm_compute. Qed.

(** "Already at the edge of this split - try ancestor": no ancestor is tried,
    though an outer split has room on that side. *)
Theorem edge_moves_do_not_try_ancestors :
  let node := Split Vertical half32 (Leaf 0) (Split Vertical half32 (Leaf 1) (Leaf 2)) in
  move_window_structural node 1 Left = (node, false) /\
  move_window_structural node 2 Left =
    (Split Vertical half32 (Leaf 0) (Split Vertical half32 (Leaf 2) (Leaf 1)), true).
Proof. by vm_compute. Qed.

(** "The split containing the focused window": the divider moved is the
    outermost one along the axis, which need not be next to the window. *)
Theorem resize_moves_the_outermost_divider :
  let node := Split Vertical half32 (Leaf 0) (Split Vertical half32 (Leaf 1) (Leaf 2)) in
  exists r, (adjust_ratio_recursive node 2 Right (f32_lit 1 20)).1 =
    Split Vertical r (Leaf 0) (Split Vertical half32 (Leaf 1) (Leaf 2)) /\ r <> half32.
Proof. eexists. split; [reflexivity|]. by vm_compute. Qed.
End LayoutDepartures.
