(* ===== verification/Wrap.v ===== *)
(** * Wrap: word wrap and movement by display rows

    Models [crates/core/src/wrap.rs] (where a long line is broken, how many
    rows it takes, which row and column a cursor is shown at, where a row
    starts) and the four commands of [crates/core/src/editor/dispatch/nav.rs]
    that move by display rows. The bottom-of-screen walk of the same file is in
    [WindowView].

    A line is the list of its characters. The loops take a step count: [None] is
    a panic or a loop that has not ended within the steps it was given. *)
From S2P Require Import Prelude Rope Grapheme Word Buffer BufferHistory WindowMoves.

(** [is_break_char]: space, tab and the punctuation after which a line breaks. *)
Definition break_chars : list N :=
  [32; 9; 45; 44; 59; 58; 33; 63; 47; 92; 124; 38; 43; 123; 125; 40; 41; 91; 93; 60; 62]%N.
Definition is_break_char (c : N) : bool := bool_decide (c ∈ break_chars).
Definition is_blank (c : N) : bool := bool_decide (c = 32%N) || bool_decide (c = 9%N).
Definition digit_char (c : N) : bool := (48 <=? c)%N && (c <=? 57)%N.

Fixpoint take_while (f : N -> bool) (l : list N) : list N :=
  match l with [] => [] | c :: l' => if f c then c :: take_while f l' else [] end.

(** The last position in [lo..hi] after whose character a line may break. *)
Fixpoint last_break (chars : list N) (lo hi : nat) : option nat :=
  match hi with
  | 0 => None
  | S i => if hi <=? lo then None
           else if match chars !! i with Some c => is_break_char c | None => false end then Some i
           else last_break chars lo i
  end.

Section Wrap.
Context `{WidthTables} (policy : WidthPolicy).
Implicit Types (chars line_text : list N).

(** [char_width] and [slice_display_width] of this file. *)
Definition wrap_char_width (c : N) : nat := char_width_with c policy.
Definition slice_display_width chars : nat := sum_list (map wrap_char_width chars).

(** How many characters fit in [limit] columns after [width]. *)
Fixpoint fit (limit width : nat) chars : nat :=
  match chars with
  | [] => 0
  | c :: rest => let w := wrap_char_width c in
                 if limit <? width + w then 0 else S (fit limit (width + w) rest)
  end.
Definition find_wrap_break chars (start limit : nat) : option nat :=
  if length chars <? start then None
  else
    let end_ := start + fit limit 0 (drop start chars) in
    if length chars <=? end_ then Some (length chars)
    else
      let half_chars := (end_ - start) / 2 in
      match last_break chars (start + half_chars) end_ with
      | Some i => Some (i + 1)
      | None => Some end_
      end.

Definition leading_indent_len chars : nat := slice_display_width (take_while is_blank chars).
Definition content_indent_len chars : nat :=
  let ws := leading_indent_len chars in
  let rest := drop (length (take_while is_blank chars)) chars in
  match rest with
  | c0 :: c1 :: _ =>
      if bool_decide (c0 ∈ [45; 43; 42]%N) && bool_decide (c1 = 32%N) then ws + 2
      else if digit_char c0 then
        let i := length (take_while digit_char rest) in
        match rest !! i, rest !! (i + 1) with
        | Some p, Some s => if (bool_decide (p = 46%N) || bool_decide (p = 41%N)) && bool_decide (s = 32%N)
                            then ws + i + 2 else ws
        | _, _ => ws
        end
      else ws
  | _ => ws
  end.

(** The characters of a line without its line breaks. *)
Definition not_eol (c : N) : bool := negb (bool_decide (c = 10%N)) && negb (bool_decide (c = 13%N)).
Definition row_chars line_text : list N := List.filter not_eol line_text.

(** The columns left for the rows after the first. *)
Definition cont_text_width chars (text_width : nat) (break_indent : bool) (show_break_width : nat) : nat :=
  let cont_prefix_w := (if break_indent then content_indent_len chars else 0) + show_break_width in
  if cont_prefix_w <? text_width then text_width - cont_prefix_w else text_width.

(** [chars[a..b]]. *)
Definition char_slice chars (a b : nat) : option (list N) :=
  if (a <=? b) && (b <=? length chars) then Some (take (b - a) (drop a chars)) else None.

Section Rows.
Context (chars : list N) (text_width cont_text_w : nat).
Definition avail (row : nat) : nat := if row =? 0 then text_width else cont_text_w.

Fixpoint cursor_loop (fuel cursor_col pos row : nat) : option (nat * nat) :=
  match fuel with
  | 0 => None
  | S fuel' =>
      let? end_ := find_wrap_break chars pos (avail row) in
      if (cursor_col <? end_) || (length chars <=? end_)
      then let? s := char_slice chars pos (Nat.min cursor_col end_) in Some (row, slice_display_width s)
      else cursor_loop fuel' cursor_col end_ (row + 1)
  end.
Fixpoint rows_loop (fuel pos rows : nat) : option nat :=
  match fuel with
  | 0 => None
  | S fuel' =>
      let? end_ := find_wrap_break chars pos (avail rows) in
      if length chars <=? end_ then Some (rows + 1) else rows_loop fuel' end_ (rows + 1)
  end.
Fixpoint start_loop (fuel target_row pos row : nat) : option nat :=
  match fuel with
  | 0 => None
  | S fuel' =>
      let? end_ := find_wrap_break chars pos (avail row) in
      if (target_row <? row + 1) || (length chars <=? end_)
      then Some (byte_len (take pos chars))
      else start_loop fuel' target_row end_ (row + 1)
  end.
End Rows.

Definition wrap_cursor_position (fuel : nat) line_text (cursor_byte_col text_width : nat) (break_indent : bool)
    (show_break_width : nat) : option (nat * nat) :=
  let chars := row_chars line_text in
  let prefix_end := floor_char_boundary line_text cursor_byte_col in
  let? prefix := str_to line_text prefix_end in
  let cursor_col := length (row_chars prefix) in
  if text_width =? 0 then Some (0, cursor_col)
  else if length chars =? 0 then Some (0, 0)
  else cursor_loop chars text_width (cont_text_width chars text_width break_indent show_break_width) fuel cursor_col 0 0.

Definition is_ascii line_text : bool := forallb (fun c => (c <? 128)%N) line_text.
Definition wrap_line_display_rows (fuel : nat) line_text (text_width : nat) (break_indent : bool)
    (show_break_width : nat) : option nat :=
  if text_width =? 0 then Some 1
  else if (byte_len line_text <=? text_width) && is_ascii line_text then Some 1
  else
    let chars := row_chars line_text in
    if length chars =? 0 then Some 1
    else rows_loop chars text_width (cont_text_width chars text_width break_indent show_break_width) fuel 0 0.

Definition wrap_row_start_col (fuel : nat) line_text (target_row text_width : nat) (break_indent : bool)
    (show_break_width : nat) : option nat :=
  if (text_width =? 0) || (target_row =? 0) then Some 0
  else
    let chars := row_chars line_text in
    if length chars =? 0 then Some 0
    else start_loop chars text_width (cont_text_width chars text_width break_indent show_break_width) fuel target_row 0 0.
End Wrap.

(** ** Movement by display rows *)

Section DisplayMoves.
Context {R Doc : Type} `{Rope R, SyncDoc R Doc, ContentHash, Segmentation, Unicode, WidthTables}.
Implicit Types (b : Buffer R Doc) (w : Window).

(** The options the commands read: the width of the text area, whether the
    buffer wraps, the break indent, the characters of [show_break]. *)
Record WrapOptions := mkWrap {
  text_area_width : nat;
  word_wrap : bool;
  break_indent : bool;
  show_break_width : nat;
  width_policy : WidthPolicy;
}.
Implicit Types o : WrapOptions.

Definition wrapped_line b (row : nat) : option (list N) :=
  let? l := line (rope b) row in Some (trim_end 10 l).
Definition cursor_wrap_row o (lt : list N) (col : nat) : option nat :=
  fst <$> wrap_cursor_position (width_policy o) (S (length lt)) lt col (text_area_width o) (break_indent o) (show_break_width o).
Definition line_rows o (lt : list N) : option nat :=
  wrap_line_display_rows (width_policy o) (S (length lt)) lt (text_area_width o) (break_indent o) (show_break_width o).
Definition row_start o (lt : list N) (row : nat) : option nat :=
  wrap_row_start_col (width_policy o) (S (length lt)) lt row (text_area_width o) (break_indent o) (show_break_width o).
Definition wraps o : bool := word_wrap o && negb (text_area_width o =? 0).

Fixpoint times (n : nat) (f : Window -> option Window) w : option Window :=
  match n with 0 => Some w | S n' => let? moved := f w in times n' f moved end.

Definition display_down o b w : option Window :=
  let? lt := wrapped_line b (cursor_row w) in
  let? wrap_row := cursor_wrap_row o lt (cursor_col w) in
  let? total_rows := line_rows o lt in
  if wrap_row + 1 <? total_rows
  then let? next_start := row_start o lt (wrap_row + 1) in Some (set_col w next_start)
  else let? moved := move_down b w in Some (set_col moved 0).
Definition move_display_down o b (n : nat) w : option Window :=
  times n (if wraps o then display_down o b else move_down b) w.

Definition display_up o b w : option Window :=
  let? lt := wrapped_line b (cursor_row w) in
  let? wrap_row := cursor_wrap_row o lt (cursor_col w) in
  if 0 <? wrap_row
  then let? prev_start := row_start o lt (wrap_row - 1) in Some (set_col w prev_start)
  else if 0 <? cursor_row w
  then let? moved := move_up b w in
       let? plt := wrapped_line b (cursor_row moved) in
       let? prev_rows := line_rows o plt in
       if 1 <? prev_rows
       then let? last_start := row_start o plt (prev_rows - 1) in Some (set_col moved last_start)
       else Some moved
  else Some w.
Definition move_display_up o b (n : nat) w : option Window :=
  times n (if wraps o then display_up o b else move_up b) w.

Definition move_display_line_start o b w : option Window :=
  if negb (wraps o) then Some (move_to_line_start w)
  else
    let? lt := wrapped_line b (cursor_row w) in
    let? wrap_row := cursor_wrap_row o lt (cursor_col w) in
    let? start := row_start o lt wrap_row in
    Some (set_col w start).
Definition move_display_line_end o b w : option Window :=
  if negb (wraps o) then move_to_line_end b w
  else
    let? lt := wrapped_line b (cursor_row w) in
    let? wrap_row := cursor_wrap_row o lt (cursor_col w) in
    let? total_rows := line_rows o lt in
    if wrap_row + 1 <? total_rows
    then let? next := row_start o lt (wrap_row + 1) in Some (set_col w (prev_grapheme_boundary lt next))
    else Some (set_col w (prev_grapheme_boundary lt (byte_len lt))).
End DisplayMoves.

(** ** The rows of a line *)

Section RowProofs.
Context `{WidthTables} (policy : WidthPolicy).
Implicit Types (chars : list N).
Local Notation W := (slice_display_width policy).
Local Notation w1 := (wrap_char_width policy).

Lemma width_app a b : W (a ++ b) = W a + W b.
Proof. unfold slice_display_width. induction a as [|c a IH]; [done|]. cbn in *. lia. Qed.
Lemma fit_spec limit chars : forall width, width <= limit ->
  let k := fit policy limit width chars in
  k <= length chars /\ width + W (take k chars) <= limit /\
  (forall c, chars !! k = Some c -> limit < width + W (take k chars) + w1 c).
Proof.
  induction chars as [|c chars IH]; intros width Hw; cbn zeta; [cbn; split_and!; [lia|lia|done]|].
  cbn [fit]. destruct (Nat.ltb_spec limit (width + w1 c)) as [Hl|Hl].
  - cbn. split_and!; [lia|lia|]. intros ? [= <-]. lia.
  - destruct (IH (width + w1 c) Hl) as (H1 & H2 & H3). cbn [take]. unfold slice_display_width in *. cbn.
    split_and!; [lia|lia|]. intros c' Hc'. specialize (H3 c' Hc'). lia.
Qed.
Lemma last_break_spec chars lo hi i : last_break chars lo hi = Some i ->
  lo <= i < hi /\ exists c, chars !! i = Some c /\ is_break_char c = true.
Proof.
  induction hi as [|hi IH]; [done|]. cbn [last_break]. destruct (Nat.leb_spec (S hi) lo); [done|].
  destruct (chars !! hi) as [c|] eqn:E.
  - destruct (is_break_char c) eqn:Eb; [intros [= <-]; split; [lia|eauto]|]. intros Hi. apply IH in Hi as [? ?]. split; [lia|done].
  - intros Hi. apply IH in Hi as [? ?]. split; [lia|done].
Qed.

(** The characters from [a] to [b]. *)
Definition between chars (a b : nat) : list N := take (b - a) (drop a chars).
Lemma between_le chars a b c : a <= b -> b <= c -> W (between chars a b) <= W (between chars a c).
Proof.
  intros Hab Hbc. unfold between. replace (c - a) with ((b - a) + (c - b)) by lia.
  rewrite <- (take_take_drop (drop a chars) (b - a) (c - b)), width_app. lia.
Qed.

(** One break: the row it ends fits, it makes progress when the first character
    fits, and it is after a break character or where the next would not fit. *)
Lemma break_spec chars start limit : start < length chars ->
  exists e, find_wrap_break policy chars start limit = Some e /\ start <= e <= length chars /\
    W (between chars start e) <= limit /\
    ((forall c, chars !! start = Some c -> w1 c <= limit) -> start < e) /\
    (e < length chars -> (exists c, chars !! (e - 1) = Some c /\ is_break_char c = true) \/
                         limit < W (between chars start (e + 1))).
Proof.
  intros Hs. unfold find_wrap_break. destruct (Nat.ltb_spec (length chars) start); [lia|].
  destruct (fit_spec limit (drop start chars) 0 ltac:(lia)) as (H1 & H2 & H3).
  set (k := fit policy limit 0 (drop start chars)) in *. rewrite length_drop in H1. rewrite lookup_drop in H3. clearbody k.
  assert (W (between chars start (start + k)) <= limit) as Hk by (unfold between; replace (start + k - start) with k; lia).
  destruct (Nat.leb_spec (length chars) (start + k)) as [Hl|Hl].
  - exists (length chars). replace (start + k) with (length chars) in Hk by lia. split_and!; [done|lia|lia|done|lia|lia].
  - destruct (lookup_lt_is_Some_2 chars (start + k) Hl) as [c Hc]. specialize (H3 c Hc). cbn in H3.
    destruct (last_break chars _ _) as [i|] eqn:Ei.
    + apply last_break_spec in Ei as [Hi Hb]. exists (i + 1). split_and!; [done|lia|lia| |lia|].
      * etrans; [|exact Hk]. apply between_le; lia.
      * intros _. left. by replace (i + 1 - 1) with i by lia.
    + exists (start + k). split_and!; [done|lia|lia|done| |].
      * intros Hf. destruct k as [|k']; [|lia]. rewrite Nat.add_0_r in Hc. specialize (Hf c Hc). rewrite take_0 in H3. unfold slice_display_width in H3. cbn in H3. lia.
      * intros _. right. unfold between. replace (start + k + 1 - start) with (S k) by lia.
        rewrite (take_S_r (drop start chars) k c) by (by rewrite lookup_drop). rewrite width_app.
        unfold slice_display_width at 2. cbn. lia.
Qed.

(** *** The starts of the rows *)

Section Starts.
Context (chars : list N) (tw cw : nat).
Local Notation len := (length chars).
Local Notation break pos row := (find_wrap_break policy chars pos (avail tw cw row)).

Fixpoint row_starts (fuel pos row : nat) : list nat :=
  match fuel with
  | 0 => []
  | S fuel' => pos :: match break pos row with
                      | Some e => if len <=? e then [] else row_starts fuel' e (S row)
                      | None => []
                      end
  end.

(** Every character fits in every row. *)
Definition fits : Prop := forall c, c ∈ chars -> w1 c <= tw /\ w1 c <= cw.
Context (Hfit : fits).

Lemma row_break pos row : pos < len ->
  exists e, break pos row = Some e /\ pos < e <= len /\ W (between chars pos e) <= avail tw cw row /\
    (e < len -> (exists c, chars !! (e - 1) = Some c /\ is_break_char c = true) \/
                avail tw cw row < W (between chars pos (e + 1))).
Proof.
  intros Hp. destruct (break_spec chars pos (avail tw cw row) Hp) as (e & He & Hle & Hw & Hprog & Hrule).
  exists e. split_and!; [done| |lia|done|done]. apply Hprog. intros c Hc%list_elem_of_lookup_2.
  unfold avail. case_match; by apply Hfit.
Qed.

Lemma starts_ge fuel : forall pos row a, a ∈ row_starts fuel pos row -> pos <= a.
Proof.
  induction fuel as [|fuel IH]; intros pos row a; cbn; [by intros ?%not_elem_of_nil|].
  intros [->|Ha]%elem_of_cons; [done|]. destruct (Nat.lt_ge_cases pos len) as [Hp|Hp].
  - destruct (row_break pos row Hp) as (e & Ee & ? & _). rewrite Ee in Ha. destruct (len <=? e); [by apply not_elem_of_nil in Ha|].
    apply IH in Ha. lia.
  - unfold find_wrap_break in Ha. destruct (Nat.ltb_spec len pos); [by apply not_elem_of_nil in Ha|].
    destruct (Nat.leb_spec len (pos + fit policy (avail tw cw row) 0 (drop pos chars))); [|lia].
    rewrite Nat.leb_refl in Ha. by apply not_elem_of_nil in Ha.
Qed.

(** The shape of the rows: each starts where the one before it broke. *)
Lemma starts_shape fuel : forall pos row k a, pos < len -> len - pos <= fuel ->
  row_starts fuel pos row !! k = Some a ->
  a < len /\
  match row_starts fuel pos row !! S k with
  | Some b => a < b /\ W (between chars a b) <= avail tw cw (row + k) /\
              ((exists c, chars !! (b - 1) = Some c /\ is_break_char c = true) \/
               avail tw cw (row + k) < W (between chars a (b + 1)))
  | None => W (between chars a len) <= avail tw cw (row + k)
  end.
Proof.
  induction fuel as [|fuel IH]; intros pos row k a Hp Hf; [lia|]. cbn [row_starts].
  destruct (row_break pos row Hp) as (e & Ee & He & Hw & Hrule). rewrite Ee.
  destruct (Nat.leb_spec len e) as [Hl|Hl].
  - destruct k as [|k]; [|done]. intros [= <-]. split; [done|]. cbn. rewrite Nat.add_0_r.
    by replace len with e by lia.
  - destruct k as [|k].
    + intros [= <-]. split; [done|]. cbn [lookup list_lookup]. rewrite Nat.add_0_r.
      destruct fuel as [|fuel]; [lia|]. cbn. split_and!; [lia|done|by apply Hrule].
    + intros Ha. replace (row + S k) with (S row + k) by lia. apply IH; [lia|lia|done].
Qed.

Lemma rows_loop_starts fuel : forall pos row, pos < len -> len - pos <= fuel ->
  rows_loop policy chars tw cw fuel pos row = Some (row + length (row_starts fuel pos row)).
Proof.
  induction fuel as [|fuel IH]; intros pos row Hp Hf; [lia|]. cbn [rows_loop row_starts].
  destruct (row_break pos row Hp) as (e & Ee & He & _). rewrite Ee.
  destruct (Nat.leb_spec len e); cbn; [done|]. rewrite IH by lia. f_equal. rewrite (Nat.add_1_r row). lia.
Qed.

Lemma start_loop_starts fuel : forall pos row target k a, pos < len -> len - pos <= fuel ->
  row_starts fuel pos row !! k = Some a -> target = row + k ->
  start_loop policy chars tw cw fuel target pos row = Some (byte_len (take a chars)).
Proof.
  induction fuel as [|fuel IH]; intros pos row target k a Hp Hf; [lia|]. cbn [start_loop row_starts].
  destruct (row_break pos row Hp) as (e & Ee & He & _). rewrite Ee. intros Ha ->.
  destruct k as [|k].
  - injection Ha as <-. destruct (Nat.ltb_spec (row + 0) (row + 1)); [done|lia].
  - cbn in Ha. destruct (Nat.leb_spec len e) as [Hl|Hl]; [done|].
    destruct (Nat.ltb_spec (row + S k) (row + 1)); [lia|]. cbn.
    rewrite (Nat.add_1_r row). apply (IH e (S row) _ k a); [lia|lia|done|lia].
Qed.

Lemma cursor_loop_starts fuel : forall pos row k a cursor, pos < len -> len - pos <= fuel ->
  row_starts fuel pos row !! k = Some a -> a <= cursor <= len ->
  (forall b, row_starts fuel pos row !! S k = Some b -> cursor < b) ->
  cursor_loop policy chars tw cw fuel cursor pos row = Some (row + k, W (between chars a cursor)).
Proof.
  induction fuel as [|fuel IH]; intros pos row k a cursor Hp Hf; [lia|]. cbn [cursor_loop row_starts].
  destruct (row_break pos row Hp) as (e & Ee & He & _). rewrite Ee. intros Ha Hc Hn.
  destruct k as [|k].
  - injection Ha as <-. rewrite Nat.add_0_r.
    assert ((cursor <? e) || (len <=? e) = true) as ->.
    { apply orb_true_iff. destruct (Nat.leb_spec len e) as [|Hl]; [by right|left]. apply Nat.ltb_lt, Hn. cbn.
      destruct fuel; [lia|done]. }
    unfold char_slice. destruct (Nat.leb_spec pos (Nat.min cursor e)); [|lia].
    destruct (Nat.leb_spec (Nat.min cursor e) len); [|lia]. cbn. f_equal. f_equal. unfold between. f_equal. f_equal.
    destruct (Nat.lt_ge_cases cursor e); [lia|]. destruct (Nat.leb_spec len e) as [|Hl]; [lia|].
    exfalso. destruct fuel as [|fuel]; [lia|]. specialize (Hn e eq_refl). lia.
  - cbn in Ha. destruct (Nat.leb_spec len e) as [Hl|Hl]; [done|].
    assert (e <= a) as Hea by (eapply starts_ge, list_elem_of_lookup_2, Ha).
    destruct (Nat.ltb_spec cursor e); [lia|]. cbn. rewrite (Nat.add_1_r row).
    rewrite (IH e (S row) k a cursor); [|lia|lia|done|lia|done]. do 2 f_equal. lia.
Qed.
End Starts.

(** *** The functions of the file *)

Section Lines.
Context (body eol : list N) (tw sb : nat) (bi : bool).
Local Notation len := (length body).
Local Notation lt := (body ++ eol).
Local Notation cw := (cont_text_width policy body tw bi sb).

(** A line with at least one character before its line break, in an area where
    every character fits. *)
Record wrappable : Prop := {
  wrap_body : Forall (fun c => not_eol c = true) body;
  wrap_eol : Forall (fun c => not_eol c = false) eol;
  wrap_nonempty : 0 < len;
  wrap_area : 0 < tw;
  wrap_fits : forall c, c ∈ body -> w1 c <= cw;
  wrap_ascii : forall c, (c < 128)%N -> w1 c <= 1;
}.
Context (Hl : wrappable).

Lemma cont_le : cw <= tw.
Proof. unfold cont_text_width. cbv zeta. destruct (_ <? tw); lia. Qed.
Lemma line_fits : fits body tw cw.
Proof. intros c Hc. pose proof cont_le. pose proof (wrap_fits Hl c Hc). lia. Qed.
Lemma row_chars_app a b : row_chars (a ++ b) = row_chars a ++ row_chars b.
Proof. apply List.filter_app. Qed.
Lemma row_chars_id a : Forall (fun c => not_eol c = true) a -> row_chars a = a.
Proof. unfold row_chars. induction 1 as [|c a Hc _ IH]; cbn; [done|]. rewrite Hc. by f_equal. Qed.
Lemma row_chars_eol a : Forall (fun c => not_eol c = false) a -> row_chars a = [].
Proof. unfold row_chars. induction 1 as [|c a Hc _ IH]; cbn; [done|]. by rewrite Hc. Qed.
Lemma row_chars_line : row_chars lt = body.
Proof.
  rewrite row_chars_app, row_chars_id, row_chars_eol by apply Hl. apply app_nil_r.
Qed.

Lemma whole_line chars limit : W chars <= limit -> find_wrap_break policy chars 0 limit = Some (length chars).
Proof.
  intros Hw. unfold find_wrap_break. cbn [Nat.ltb Nat.leb drop].
  destruct (Nat.ltb_spec (length chars) 0); [lia|]. rewrite drop_0.
  destruct (fit_spec limit chars 0 ltac:(lia)) as (H1 & H2 & H3). set (k := fit policy limit 0 chars) in *.
  destruct (Nat.leb_spec (length chars) (0 + k)) as [|Hk]; [done|]. exfalso.
  destruct (lookup_lt_is_Some_2 chars k Hk) as [c Hc]. specialize (H3 c Hc).
  rewrite <- (take_drop_middle chars k c Hc), width_app in Hw. unfold slice_display_width at 2 in Hw. cbn in Hw. lia.
Qed.
Lemma ascii_narrow a : is_ascii a = true -> W a <= byte_len a.
Proof.
  unfold slice_display_width, is_ascii. induction a as [|c a IH]; [done|]. cbn. rewrite andb_true_iff, N.ltb_lt. intros [Hc Ha].
  pose proof (wrap_ascii Hl c Hc). pose proof (char_len_pos c). specialize (IH Ha). lia.
Qed.

Definition line_starts (fuel : nat) : list nat := row_starts body tw cw fuel 0 0.

Lemma rows_are_starts fuel : len <= fuel -> wrap_line_display_rows policy fuel lt tw bi sb = Some (length (line_starts fuel)).
Proof.
  intros Hf. pose proof (wrap_nonempty Hl). pose proof (wrap_area Hl). unfold wrap_line_display_rows. rewrite row_chars_line.
  destruct (Nat.eqb_spec tw 0); [lia|]. destruct (Nat.eqb_spec len 0); [lia|].
  rewrite (rows_loop_starts body tw cw line_fits) by lia.
  destruct ((byte_len lt <=? tw) && is_ascii lt) eqn:E; [|done]. apply andb_true_iff in E as [Hb Ha].
  apply Nat.leb_le in Hb. rewrite byte_len_app in Hb. unfold is_ascii in Ha. rewrite forallb_app in Ha.
  apply andb_true_iff in Ha as [Ha _]. pose proof (ascii_narrow body Ha). unfold line_starts.
  destruct fuel as [|fuel]; [lia|]. cbn [row_starts]. unfold avail. cbn [Nat.eqb].
  rewrite whole_line by lia. by rewrite Nat.leb_refl.
Qed.
Lemma row_start_is_start fuel k a : len <= fuel -> line_starts fuel !! k = Some a ->
  wrap_row_start_col policy fuel lt k tw bi sb = Some (byte_len (take a body)).
Proof.
  intros Hf Ha. pose proof (wrap_nonempty Hl). pose proof (wrap_area Hl). unfold wrap_row_start_col. rewrite row_chars_line.
  destruct (Nat.eqb_spec tw 0); [lia|]. destruct (Nat.eqb_spec len 0); [lia|]. destruct (Nat.eqb_spec k 0) as [->|]; cbn [orb].
  - destruct fuel; [lia|]. by injection Ha as <-.
  - by apply (start_loop_starts body tw cw line_fits fuel 0 0 k k a); [lia|lia|..].
Qed.
Lemma cursor_is_in_row fuel k a c : len <= fuel -> line_starts fuel !! k = Some a -> a <= c <= len ->
  (forall b, line_starts fuel !! S k = Some b -> c < b) ->
  wrap_cursor_position policy fuel lt (byte_len (take c body)) tw bi sb = Some (k, W (between body a c)).
Proof.
  intros Hf Ha Hc Hn. pose proof (wrap_nonempty Hl). pose proof (wrap_area Hl). unfold wrap_cursor_position.
  rewrite row_chars_line.
  assert (is_char_boundary lt (byte_len (take c body)) = true) as Hb.
  { apply is_char_boundary_spec. exists c. rewrite length_app, take_app_le by lia. split; [lia|done]. }
  rewrite floor_char_boundary_id by done. unfold str_to. rewrite Hb.
  assert (chars_before lt (byte_len (take c body)) = c) as ->.
  { destruct (chars_before_spec lt (byte_len (take c body))) as [Hle Hmax]. apply Nat.le_antisymm.
    - apply Nat.nlt_ge. intros Hlt. pose proof (chars_before_le lt (byte_len (take c body))).
      pose proof (byte_len_take_lt lt c _ Hlt ltac:(done)). rewrite (take_app_le body eol c) in * by lia. lia.
    - apply Hmax; [rewrite length_app; lia|]. by rewrite take_app_le by lia. }
  rewrite take_app_le by lia. rewrite (row_chars_id (take c body)) by (apply Forall_take, Hl).
  rewrite length_take_le by lia. destruct (Nat.eqb_spec tw 0); [lia|]. destruct (Nat.eqb_spec len 0); [lia|].
  rewrite (cursor_loop_starts body tw cw line_fits fuel 0 0 k a c) by (done || lia). done.
Qed.
Lemma start_bounds fuel k a : len <= fuel -> line_starts fuel !! k = Some a ->
  a < len /\ (forall b, line_starts fuel !! S k = Some b -> a < b).
Proof.
  intros Hf Ha. pose proof (wrap_nonempty Hl).
  destruct (starts_shape body tw cw line_fits fuel 0 0 k a) as [Hlt Hs]; [lia|lia|done|]. split; [done|].
  intros b Hb. unfold line_starts in Hb. rewrite Hb in Hs. by destruct Hs as [? _].
Qed.
Lemma cursor_at_start fuel k a : len <= fuel -> line_starts fuel !! k = Some a ->
  wrap_cursor_position policy fuel lt (byte_len (take a body)) tw bi sb = Some (k, 0).
Proof.
  intros Hf Ha. destruct (start_bounds fuel k a Hf Ha) as [Hlt Hn].
  rewrite (cursor_is_in_row fuel k a a) by (done || lia). unfold between. by rewrite Nat.sub_diag, take_0.
Qed.
End Lines.
End RowProofs.

Section WrapTheorems.
Context `{WidthTables}.
Local Notation W p := (slice_display_width p).


(** A character too wide for its row stops the walk for good: no number of steps
    is enough. *)
Theorem stuck_row_never_ends policy chars tw cw pos row c :
  chars !! pos = Some c -> avail tw cw row < wrap_char_width policy c -> cw < wrap_char_width policy c ->
  forall fuel, rows_loop policy chars tw cw fuel pos row = None.
Proof.
  intros Hc Ht Hw. pose proof (lookup_lt_Some _ _ _ Hc) as Hlt.
  assert (forall limit, limit < wrap_char_width policy c -> find_wrap_break policy chars pos limit = Some pos) as Hs.
  { intros limit Hl. unfold find_wrap_break. destruct (Nat.ltb_spec (length chars) pos); [lia|].
    rewrite (drop_S _ _ _ Hc). cbn [fit]. destruct (Nat.ltb_spec limit (0 + wrap_char_width policy c)); [|lia].
    rewrite Nat.add_0_r. destruct (Nat.leb_spec (length chars) pos); [lia|].
    destruct (last_break _ _ _) as [i|] eqn:Ei; [|done]. apply last_break_spec in Ei as [? _]. lia. }
  intros fuel. revert row Ht. induction fuel as [|fuel IH]; intros row Ht; [done|]. cbn [rows_loop]. rewrite Hs by done.
  destruct (Nat.leb_spec (length chars) pos); [lia|]. apply IH. rewrite Nat.add_1_r. exact Hw.
Qed.
End WrapTheorems.

(** ** Moving by rows *)

Section DisplayProofs.
Context {R Doc : Type} `{Rope R, SyncDoc R Doc, ContentHash, Segmentation, Unicode, WidthTables}.
Implicit Types (b : Buffer R Doc) (w : Window) (o : WrapOptions).

(** C20. In a wrapping buffer, moving down a display row inside a line puts the
    cursor at the start of the next row of the line and moving up at the start
    of the one before; moving to the start of the row, at the start of its own;
    the cursor is then shown at the left edge of that row. *)
Theorem display_moves_change_row o b w body eol k a c :
  let tw := text_area_width o in
  wraps o = true -> wrappable (width_policy o) body eol tw (show_break_width o) (break_indent o) ->
  let lt := body ++ eol in
  let starts := line_starts (width_policy o) body tw (show_break_width o) (break_indent o) (S (length lt)) in
  wrapped_line b (cursor_row w) = Some lt -> cursor_col w = byte_len (take c body) ->
  starts !! k = Some a -> a <= c -> c < default (length body) (starts !! S k) ->
  let at_row j w' := cursor_row w' = cursor_row w /\
                     (exists a', starts !! j = Some a' /\ cursor_col w' = byte_len (take a' body)) /\
                     wrap_cursor_position (width_policy o) (S (length lt)) lt (cursor_col w') tw (break_indent o)
                       (show_break_width o) = Some (j, 0) in
  (exists w', move_display_line_start o b w = Some w' /\ at_row k w') /\
  (S k < length starts -> exists w', display_down o b w = Some w' /\ at_row (S k) w') /\
  (0 < k -> exists w', display_up o b w = Some w' /\ at_row (k - 1) w').
Proof.
  intros tw Hw Hl lt starts Hb Hcol Hk Hac Hc at_row.
  assert (length body <= S (length lt)) as Hf by (unfold lt; rewrite length_app; lia).
  pose proof (rows_are_starts _ _ _ _ _ _ Hl _ Hf) as Hrows. fold lt starts in Hrows.
  pose proof (start_bounds _ _ _ _ _ _ Hl _ _ _ Hf Hk) as [Halen _].
  assert (cursor_wrap_row o lt (cursor_col w) = Some k) as Hrow.
  { assert (c <= length body) as Hcl.
    { destruct (starts !! S k) as [a2|] eqn:E2; cbn in Hc; [|lia].
      destruct (start_bounds _ _ _ _ _ _ Hl _ _ _ Hf E2) as [? _]. change (id a2) with a2 in Hc. lia. }
    unfold cursor_wrap_row. rewrite Hcol. fold tw. unfold lt. rewrite (cursor_is_in_row _ _ _ _ _ _ Hl _ k a c); [done..|lia|].
    intros a2 E2. change (starts !! S k = Some a2) in E2. by rewrite E2 in Hc. }
  assert (forall j a', starts !! j = Some a' -> row_start o lt j = Some (byte_len (take a' body)) /\
            at_row j (set_col w (byte_len (take a' body)))) as Hat.
  { intros j a' Ha'. split; [by apply row_start_is_start|]. split; [done|]. split; [by exists a'|]. by apply cursor_at_start. }
  split_and!.
  - destruct (Hat k a Hk) as [Hst Hr]. unfold move_display_line_start. rewrite Hw, Hb. cbn [negb]. rewrite Hrow, Hst. eauto.
  - intros Hlt. destruct (lookup_lt_is_Some_2 starts (S k) Hlt) as [a' Ha']. destruct (Hat (S k) a' Ha') as [Hst Hr].
    unfold display_down, line_rows. rewrite Hb, Hrow. fold tw. rewrite Hrows.
    destruct (Nat.ltb_spec (k + 1) (length starts)); [|lia]. rewrite Nat.add_1_r, Hst. eauto.
  - intros H0k. pose proof (lookup_lt_Some _ _ _ Hk). destruct (lookup_lt_is_Some_2 starts (k - 1)) as [a' Ha']; [lia|].
    destruct (Hat (k - 1) a' Ha') as [Hst Hr]. unfold display_up. rewrite Hb, Hrow.
    destruct (Nat.ltb_spec 0 k); [|lia]. rewrite Hst. eauto.
Qed.
End DisplayProofs.

Module WrapWitnesses.
Export PlainBuffer MoveWitnesses.

(** Controls have no width of their own, marks none, ideographs two columns. *)
#[export] Instance cjk_widths : WidthTables := {
  char_width c := if (c <? 32)%N then None else if (768 <=? c)%N && (c <=? 879)%N then Some 0
                  else if (12288 <=? c)%N then Some 2 else Some 1;
  char_width_cjk c := if (c <? 32)%N then None else Some 1;
  str_width _ := 1;
  str_width_cjk _ := 1;
}.
Definition of_string (s : string) : list N := map Ascii.N_of_ascii (String.list_ascii_of_string s).
Definition prose : list N := of_string "hello big world".
Definition narrow_area : WrapOptions := mkWrap 8 true false 0 default_width_policy.

Lemma prose_wrappable eol : eol = [] \/ eol = [10%N] -> wrappable default_width_policy prose eol 8 0 false.
Proof.
  intros He. split.
  - by repeat constructor.
  - destruct He as [-> | ->]; by repeat constructor.
  - vm_compute. lia.
  - lia.
  - apply Forall_forall. unfold prose, of_string. repeat constructor.
  - intros c Hc. unfold wrap_char_width, char_width_with. cbn. destruct (N.ltb_spec c 32); [cbn; lia|].
    destruct (N.leb_spec 768 c); [lia|]. destruct (N.leb_spec 12288 c); [lia|cbn; lia].
Qed.


Definition page : buffer := file "hello big world".
Lemma display_moves_change_row_witness :
  let w := mkWin 0 7 (0, 7) in
  (exists w', display_down narrow_area page w = Some w' /\ cursor_col w' = 14) /\
  (exists w', display_up narrow_area page w = Some w' /\ cursor_col w' = 0).
Proof.
  intros w.
  destruct (display_moves_change_row narrow_area page w prose [] 1 6 7 eq_refl (prose_wrappable _ (or_introl eq_refl)))
    as (_ & Hd & Hu); [vm_compute; reflexivity..|lia|vm_compute; lia|].
  split.
  - destruct Hd as (w' & E & _ & (a & Ha & Hc) & _); [vm_compute; lia|]. injection Ha as <-. by exists w'.
  - destruct Hu as (w' & E & _ & (a & Ha & Hc) & _); [lia|]. injection Ha as <-. by exists w'.
Defined.
Lemma stuck_row_never_ends_witness : forall fuel, rows_loop default_width_policy [19990%N] 1 1 fuel 0 0 = None.
Proof. apply (stuck_row_never_ends default_width_policy [19990%N] 1 1 0 0 19990%N); [reflexivity|vm_compute; lia..]. Defined.

End WrapWitnesses.

Module WrapDepartures.
Import WrapWitnesses.

(** With [break_indent], a line indented to the edge of the area leaves a single
    column for its continuation rows, in which an ideograph never fits: the row
    count is never computed. Here six blanks and three ideographs, in an area of
    eight columns with a one-column continuation mark. *)
Lemma indented_ideographs_hang fuel :
  let line := replicate 6 32%N ++ [19990; 30028; 33258]%N in
  wrap_line_display_rows default_width_policy fuel line 8 true 1 = None.
Proof.
  intros line. destruct fuel as [|fuel]; [done|].
  change (rows_loop default_width_policy line 8 1 fuel 6 1 = None).
  apply (stuck_row_never_ends default_width_policy line 8 1 6 1 19990%N); [reflexivity|vm_compute; lia..].
Qed.

(** The break is chosen by characters: after a hyphen that carries a combining
    mark, the next row starts inside the cluster, and so does the cursor that
    moves to it. *)
Lemma row_can_start_inside_cluster :
  let line := [97; 98; 45; 769; 99; 100; 101]%N in
  let o := mkWrap 4 true false 0 default_width_policy in
  wrap_row_start_col default_width_policy 7 line 1 4 false 0 = Some 3 /\
  snap_to_grapheme_boundary line 3 = 2 /\
  (forall b : buffer, wrapped_line b 0 = Some line ->
     display_down o b (mkWin 0 0 (0, 0)) = Some (mkWin 0 3 (0, 0))).
Proof. split; [reflexivity|]. split; [reflexivity|]. intros b Hb. unfold display_down. cbn [cursor_row]. by rewrite Hb. Qed.

(** The short cut for short ASCII lines counts bytes: where controls have a
    width, it says one row for a line whose cursor is shown in a second one. *)
Lemma short_cut_ignores_controls :
  let policy := mkWidthPolicy false 4 in
  let line := [9; 9; 97; 98]%N in
  wrap_line_display_rows policy 9 line 6 false 0 = Some 1 /\
  wrap_cursor_position policy 9 line 3 6 false 0 = Some (1, 5).
Proof. by vm_compute. Qed.

End WrapDepartures.
