(* ===== verification/Search.v ===== *)
(** * Search: matches of a pattern, the next one, and substitution

    Models [crates/core/src/search.rs]. The regular expression engine is the
    [regex] crate: class [Regex] has the byte ranges it finds in a text, class
    [RegexLaws] that they are in order, apart and on character boundaries. A
    text is the list of its characters; a panic is [None]. *)
From S2P Require Import Prelude Rope Word.

(** [find_iter] yields byte ranges; [replace_one] is [Regex::replace] with a text
    as its replacer, in which a dollar sign refers to a group of the match. *)
Class Regex (X : Type) := {
  find_iter : X -> list N -> list (nat * nat);
  replace_one : X -> list N -> list N -> list N;
}.

Inductive SearchDirection := Forward | Backward.
Record SearchMatch := mkMatch { m_start : nat; m_end : nat }.
#[export] Instance SearchMatch_eq_dec : EqDecision SearchMatch.
Proof. solve_decision. Defined.
Record SubstituteCommand := mkSubst { whole_buffer : bool; s_pattern : list N; s_replacement : list N; s_global : bool }.

Definition MAX_SEARCH_MATCHES : N := 10000.
Definition CHUNK_LIMIT : N := 500000.

(** ** Byte offsets to character offsets *)

(** [while map.len() < n { map.push(v) }]. *)
Definition pad (map : list nat) (n v : nat) : list nat := map ++ replicate (n - length map) v.
Definition map_step (st : list nat * nat) (ic : nat * N) : list nat * nat :=
  let map := pad st.1 (ic.1 + 1) st.2 in
  let char_idx := st.2 + 1 in
  (pad map (ic.1 + char_len ic.2) char_idx, char_idx).
Definition build_byte_to_char_map (text : list N) : list nat :=
  let '(map, char_idx) := foldl map_step ([], 0) (char_indices text) in
  pad map (byte_len text + 1) char_idx.

Section Search.
Context {R X : Type} `{Rope R, Regex X, Unicode}.
Implicit Types (r : R) (x : X).

(** The pushes of one text; the flag tells that the limit was reached. *)
Fixpoint push_matches (map : list nat) (offset : nat) (ms : list (nat * nat)) (acc : list SearchMatch)
    : option (list SearchMatch * bool) :=
  match ms with
  | [] => Some (acc, false)
  | (s, e) :: ms' =>
      let? s' := map !! s in
      let? e' := map !! e in
      let acc' := acc ++ [mkMatch (offset + s') (offset + e')] in
      if (MAX_SEARCH_MATCHES <=? N.of_nat (length acc'))%N then Some (acc', true)
      else push_matches map offset ms' acc'
  end.

Fixpoint chunked_from (x : X) (lines : list (list N)) (char_offset : nat) (acc : list SearchMatch)
    : option (list SearchMatch) :=
  match lines with
  | [] => Some acc
  | l :: lines' =>
      let? (acc', full) := push_matches (build_byte_to_char_map l) char_offset (find_iter x l) acc in
      if full then Some acc' else chunked_from x lines' (char_offset + length l) acc'
  end.
(** [rope.line(i)] for every [i] below [len_lines]. *)
Fixpoint rope_lines_from r (i k : nat) : option (list (list N)) :=
  match k with
  | 0 => Some []
  | S k' => let? l := line r i in let? ls := rope_lines_from r (S i) k' in Some (l :: ls)
  end.
Definition find_all_chunked r x : option (list SearchMatch) :=
  let? ls := rope_lines_from r 0 (len_lines r) in chunked_from x ls 0 [].
Definition find_all r x : option (list SearchMatch) :=
  if (CHUNK_LIMIT <? N.of_nat (len_chars r))%N then find_all_chunked r x
  else
    let text := rope_chars r in
    fst <$> push_matches (build_byte_to_char_map text) 0 (find_iter x text) [].

(** ** The next match *)

Definition find_match_at_or_adjacent r x (char_offset : nat) (direction : SearchDirection) : option (option SearchMatch) :=
  let? matches := find_all r x in
  Some match direction with
       | Forward => match List.find (fun m => char_offset <? m_end m) matches with
                    | Some m => Some m | None => head matches end
       | Backward => match List.find (fun m => m_start m <=? char_offset) (reverse matches) with
                     | Some m => Some m | None => last matches end
       end.
Definition find_next r x (char_offset : nat) (direction : SearchDirection) (wrap : bool) : option (option SearchMatch) :=
  let? matches := find_all r x in
  Some match direction with
       | Forward => match List.find (fun m => char_offset <? m_start m) matches with
                    | Some m => Some m
                    | None => if wrap then head matches else None
                    end
       | Backward => match List.find (fun m => m_start m <? char_offset) (reverse matches) with
                     | Some m => Some m
                     | None => if wrap then last matches else None
                     end
       end.

(** ** Substitution *)

Fixpoint drop_blank (s : list N) : list N :=
  match s with c :: s' => if is_whitespace c then drop_blank s' else s | [] => [] end.
Definition trim_text (s : list N) : list N := reverse (drop_blank (reverse (drop_blank s))).

(** Parts between unescaped slashes; an escape keeps its backslash, and a
    backslash at the end is dropped. *)
Fixpoint split_parts (current : list N) (s : list N) : list (list N) :=
  match s with
  | [] => [current]
  | ch :: s' =>
      if bool_decide (ch = 92%N) then
        match s' with
        | next :: s'' => split_parts (current ++ [ch; next]) s''
        | [] => [current]
        end
      else if bool_decide (ch = 47%N) then current :: split_parts [] s'
      else split_parts (current ++ [ch]) s'
  end.
Definition split_substitute_parts (s : list N) : list (list N) := split_parts [] s.

Inductive SubstError := NoPrefix | TooFewParts | EmptyPattern.
Definition parse_substitute (cmd : list N) : SubstError + SubstituteCommand :=
  let cmd := trim_text cmd in
  let '(whole, rest) := match cmd with 37%N :: stripped => (true, stripped) | _ => (false, cmd) end in
  match rest with
  | 115%N :: 47%N :: rest =>
      match split_substitute_parts rest with
      | pattern :: replacement :: more =>
          let flags := default [] (head more) in
          if bool_decide (pattern = []) then inl EmptyPattern
          else inr (mkSubst whole pattern replacement (bool_decide (103%N ∈ flags)))
      | _ => inl TooFewParts
      end
  | _ => inl NoPrefix
  end.

(** [Regex::replace_all] with a closure that returns a fixed text: what lies
    between the matches, and the text for each of them. *)
Fixpoint splice_matches (line replacement : list N) (from : nat) (ms : list (nat * nat)) : option (list N) :=
  match ms with
  | [] => str_from line from
  | (s, e) :: ms' =>
      let? upto := str_to line s in
      let? before := str_from upto from in
      let? rest := splice_matches line replacement e ms' in
      Some (before ++ replacement ++ rest)
  end.
Definition substitute_line (line : list N) x (replacement : list N) (global : bool) : option (list N * nat) :=
  let ms := find_iter x line in
  if global then let? result := splice_matches line replacement 0 ms in Some (result, length ms)
  else match ms with
       | [] => Some (line, 0)
       | _ => Some (replace_one x line replacement, 1)
       end.

(** ** The word under the cursor *)

Definition is_word r (i : nat) : option bool := let? c := char_at r i in Some (bool_decide (classify c = Word)).
Fixpoint word_start r (start : nat) : option nat :=
  match start with
  | 0 => Some 0
  | S p => let? w := is_word r p in if w then word_start r p else Some start
  end.
Fixpoint word_end (fuel : nat) r (end_ : nat) : option nat :=
  match fuel with
  | 0 => Some end_
  | S fuel' => if end_ <? len_chars r
               then let? w := is_word r end_ in if w then word_end fuel' r (S end_) else Some end_
               else Some end_
  end.
(** The range of the word; the pattern around it is made by [regex::escape]. *)
Definition word_range_at r (char_offset : nat) : option (option (nat * nat)) :=
  if (len_chars r =? 0) || (len_chars r <=? char_offset) then Some None
  else
    let? w := is_word r char_offset in
    if negb w then Some None
    else let? s := word_start r char_offset in
         let? e := word_end (len_chars r) r (char_offset + 1) in
         Some (Some (s, e)).
Definition word_at_offset (escape : list N -> list N) r (char_offset : nat) : option (option (list N)) :=
  let? range := word_range_at r char_offset in
  Some match range with
       | Some (s, e) => Some ([92; 98]%N ++ escape (take (e - s) (drop s (rope_chars r))) ++ [92; 98]%N)
       | None => None
       end.
End Search.

(** ** What the engine promises *)

(** Ranges from [from] on: on character boundaries, in order, apart. *)
Fixpoint ranges_ok (t : list N) (from : nat) (ms : list (nat * nat)) : Prop :=
  match ms with
  | [] => True
  | (s, e) :: ms' => from <= s <= e /\ is_char_boundary t s = true /\ is_char_boundary t e = true /\
                     ranges_ok t (Nat.max e (s + 1)) ms'
  end.
Class RegexLaws (X : Type) `{Regex X} : Prop := {
  find_iter_ok : forall (x : X) t, ranges_ok t 0 (find_iter x t);
  replace_literal : forall (x : X) t rep, 36%N ∉ rep -> find_iter x t <> [] ->
    Some (replace_one x t rep) = splice_matches t rep 0 (take 1 (find_iter x t));
}.

(** ** The table of offsets *)

Lemma char_indices_snoc b t c : char_indices_from b (t ++ [c]) = char_indices_from b t ++ [(b + byte_len t, c)].
Proof.
  revert b. induction t as [|d t IH]; intros b; cbn; [by rewrite Nat.add_0_r|]. by rewrite IH, Nat.add_assoc.
Qed.
Lemma pad_length map n v : length (pad map n v) = Nat.max (length map) n.
Proof. unfold pad. rewrite length_app, length_replicate. lia. Qed.
Lemma pad_lookup map n v i : i < length map -> pad map n v !! i = map !! i.
Proof. intros Hi. unfold pad. by rewrite lookup_app_l. Qed.
Lemma map_prefix t : let '(map, idx) := foldl map_step ([], 0) (char_indices t) in
  idx = length t /\ length map = byte_len t /\ forall i, i < length t -> map !! byte_len (take i t) = Some i.
Proof.
  induction t as [|c t IH] using rev_ind; [cbn; split_and!; [done..|intros i Hi; lia]|]. unfold char_indices in *. rewrite char_indices_snoc, foldl_app.
  destruct (foldl map_step ([], 0) (char_indices_from 0 t)) as [map idx]. destruct IH as (-> & Hl & Hm).
  cbn [foldl map_step]. pose proof (char_len_pos c). rewrite length_app, byte_len_app. cbn [length byte_len fst snd].
  split_and!; [done|rewrite !pad_length; lia|]. intros i Hi. destruct (decide (i < length t)) as [Hlt|Hge].
  - rewrite take_app_le by lia. pose proof (byte_len_take_lt t i (length t) Hlt ltac:(lia)) as Hb. rewrite (take_ge t (length t)) in Hb by lia.
    rewrite !pad_lookup by (rewrite ?pad_length; lia). by apply Hm.
  - assert (i = length t) as -> by lia. rewrite take_app_length.
    rewrite pad_lookup by (rewrite pad_length; lia). unfold pad. rewrite Hl.
    rewrite lookup_app_r by lia. rewrite Hl, Nat.sub_diag. apply lookup_replicate. split; [done|lia].
Qed.
Lemma byte_map_boundary t i : i <= length t -> build_byte_to_char_map t !! byte_len (take i t) = Some i.
Proof.
  intros Hi. unfold build_byte_to_char_map. pose proof (map_prefix t) as Hm.
  destruct (foldl map_step ([], 0) (char_indices t)) as [map idx]. destruct Hm as (-> & Hl & Hm).
  destruct (decide (i < length t)) as [Hlt|Hge].
  - pose proof (byte_len_take_lt t i (length t) Hlt ltac:(lia)) as Hb. rewrite (take_ge t (length t)) in Hb by lia.
    rewrite pad_lookup by lia. by apply Hm.
  - assert (i = length t) as -> by lia. rewrite take_ge by lia. unfold pad. rewrite lookup_app_r by lia.
    apply lookup_replicate. split; [done|lia].
Qed.
Lemma byte_map_lookup t b : is_char_boundary t b = true -> build_byte_to_char_map t !! b = Some (chars_before t b).
Proof.
  intros (i & Hi & ->)%is_char_boundary_spec. rewrite chars_before_boundary by done. by apply byte_map_boundary.
Qed.

Section SearchProofs.
Context {R X : Type} `{RopeLaws R, RegexLaws X, Unicode}.
Implicit Types (r : R) (x : X).

(** A match in characters. *)
Definition in_chars (t : list N) (m : nat * nat) : SearchMatch := mkMatch (chars_before t m.1) (chars_before t m.2).

Lemma push_all t ms : forall from acc, ranges_ok t from ms -> (N.of_nat (length acc) < MAX_SEARCH_MATCHES)%N ->
  fst <$> push_matches (build_byte_to_char_map t) 0 ms acc =
  Some (take (N.to_nat MAX_SEARCH_MATCHES) (acc ++ map (in_chars t) ms)).
Proof.
  induction ms as [|[s e] ms IH]; intros from acc Hok Hlen.
  - change (Some acc = Some (take (N.to_nat MAX_SEARCH_MATCHES) (acc ++ []))). by rewrite app_nil_r, take_ge by lia.
  - destruct Hok as (_ & Hs & He & Hok). cbn [push_matches map]. rewrite !byte_map_lookup by done. cbn [Nat.add].
    change (mkMatch (chars_before t s) (chars_before t e)) with (in_chars t (s, e)).
    replace (acc ++ in_chars t (s, e) :: map (in_chars t) ms) with ((acc ++ [in_chars t (s, e)]) ++ map (in_chars t) ms)
      by (by rewrite <- app_assoc). set (acc' := acc ++ [in_chars t (s, e)]).
    assert (length acc' = S (length acc)) as Hl by (unfold acc'; rewrite length_app; cbn; lia).
    destruct (N.leb_spec MAX_SEARCH_MATCHES (N.of_nat (length acc'))) as [Hm|Hm].
    + rewrite take_app_le by lia. by rewrite take_ge by lia.
    + by apply (IH (Nat.max e (s + 1))).
Qed.
(** In a buffer searched as one text the matches are those of the engine, up to
    the limit, in character offsets. *)
Lemma find_all_exact r x : (N.of_nat (length (rope_chars r)) <= CHUNK_LIMIT)%N ->
  find_all r x = Some (take (N.to_nat MAX_SEARCH_MATCHES) (map (in_chars (rope_chars r)) (find_iter x (rope_chars r)))).
Proof.
  intros Hs. unfold find_all. rewrite rope_len_chars. destruct (N.ltb_spec CHUNK_LIMIT (N.of_nat (length (rope_chars r)))); [lia|].
  rewrite (push_all _ _ 0) by (apply find_iter_ok || done). done.
Qed.

(** Starts grow. *)
Lemma chars_before_lt t a b : is_char_boundary t a = true -> is_char_boundary t b = true -> a < b ->
  chars_before t a < chars_before t b.
Proof.
  intros (i & Hi & ->)%is_char_boundary_spec (j & Hj & ->)%is_char_boundary_spec Hlt.
  rewrite !chars_before_boundary by done. destruct (decide (i < j)); [done|]. pose proof (byte_len_take_mono t j i). lia.
Qed.
Lemma starts_sorted t ms : forall from, ranges_ok t from ms ->
  StronglySorted (fun a b => m_start a < m_start b) (map (in_chars t) ms) /\
  Forall (fun m => from <= m.1 /\ is_char_boundary t m.1 = true) ms.
Proof.
  induction ms as [|[s e] ms IH]; intros from Hok; cbn; [by repeat constructor|].
  destruct Hok as (Hs & Hbs & Hbe & Hok). destruct (IH _ Hok) as [Hsort Hge]. split.
  - constructor; [done|]. apply List.Forall_map. eapply Forall_impl; [exact Hge|]. intros m [Hm Hb]. cbn.
    apply chars_before_lt; [done..|lia].
  - constructor; [cbn; split; [lia|done]|]. eapply Forall_impl; [exact Hge|]. cbn. intros m [? ?]. split; [lia|done].
Qed.

Notation by_start := (fun a b => m_start a < m_start b).
Lemma find_first (f : SearchMatch -> bool) l : StronglySorted by_start l ->
  match List.find f l with
  | Some m => m ∈ l /\ f m = true /\ forall m', m' ∈ l -> f m' = true -> m_start m <= m_start m'
  | None => forall m', m' ∈ l -> f m' = false
  end.
Proof.
  induction 1 as [|a l _ IH Ha]; cbn; [by intros m' ?%not_elem_of_nil|]. destruct (f a) eqn:Ef.
  - split_and!; [by left|done|]. intros m' [->|Hin]%elem_of_cons _; [done|]. rewrite Forall_forall in Ha. specialize (Ha m' Hin). lia.
  - destruct (List.find f l) as [m|].
    + destruct IH as (Hin & Hf & Hleast). split_and!; [by right|done|].
      intros m' [->|Hin']%elem_of_cons Hf'; [by rewrite Ef in Hf'|auto].
    + intros m' [->|Hin']%elem_of_cons; auto.
Qed.
Lemma find_last (f : SearchMatch -> bool) l : StronglySorted by_start l ->
  match List.find f (reverse l) with
  | Some m => m ∈ l /\ f m = true /\ forall m', m' ∈ l -> f m' = true -> m_start m' <= m_start m
  | None => forall m', m' ∈ l -> f m' = false
  end.
Proof.
  induction l as [|a l IH] using rev_ind; intros Hs; cbn; [by intros m' ?%not_elem_of_nil|].
  rewrite reverse_snoc. cbn. apply StronglySorted_app in Hs as (Hbefore & Hs & _).
  destruct (f a) eqn:Ef.
  - split_and!; [set_solver|done|]. intros m' [Hin| ->%list_elem_of_singleton]%elem_of_app _; [|done].
    specialize (Hbefore m' a Hin ltac:(set_solver)). cbn in Hbefore. lia.
  - specialize (IH Hs). destruct (List.find f (reverse l)) as [m|].
    + destruct IH as (Hin & Hf & Hg). split_and!; [set_solver|done|].
      intros m' [Hin'| ->%list_elem_of_singleton]%elem_of_app Hf'; [auto|by rewrite Ef in Hf'].
    + intros m' [Hin'| ->%list_elem_of_singleton]%elem_of_app; auto.
Qed.

Definition all_matches r x : list SearchMatch := map (in_chars (rope_chars r)) (find_iter x (rope_chars r)).
(** A buffer searched as one text with no more matches than the limit. *)
Definition searchable r x : Prop :=
  (N.of_nat (length (rope_chars r)) <= CHUNK_LIMIT)%N /\
  (N.of_nat (length (find_iter x (rope_chars r))) <= MAX_SEARCH_MATCHES)%N.
Lemma find_all_matches r x : searchable r x -> find_all r x = Some (all_matches r x).
Proof.
  intros [Hs Hm]. rewrite find_all_exact by done. unfold all_matches. rewrite take_ge; [done|]. rewrite length_map. lia.
Qed.

(** Searching forward finds, of the matches of the pattern that start after
    the cursor, the one that starts first, and searching backward, of those
    that start before it, the one that starts last; when there is none, the
    first or the last match of the buffer if the search may wrap and nothing
    otherwise. *)
Theorem find_next_goes_round r x offset wrap :
  searchable r x ->
  (exists found, find_next r x offset Forward wrap = Some found /\
    match found with
    | Some m => m ∈ all_matches r x /\
                ((offset < m_start m /\ forall m', m' ∈ all_matches r x -> offset < m_start m' -> m_start m <= m_start m') \/
                 (wrap = true /\ head (all_matches r x) = Some m /\ forall m', m' ∈ all_matches r x -> m_start m' <= offset))
    | None => (forall m', m' ∈ all_matches r x -> m_start m' <= offset) /\ (wrap = true -> all_matches r x = [])
    end) /\
  (exists found, find_next r x offset Backward wrap = Some found /\
    match found with
    | Some m => m ∈ all_matches r x /\
                ((m_start m < offset /\ forall m', m' ∈ all_matches r x -> m_start m' < offset -> m_start m' <= m_start m) \/
                 (wrap = true /\ last (all_matches r x) = Some m /\ forall m', m' ∈ all_matches r x -> offset <= m_start m'))
    | None => (forall m', m' ∈ all_matches r x -> offset <= m_start m') /\ (wrap = true -> all_matches r x = [])
    end).
Proof.
  intros Hs. unfold find_next. rewrite find_all_matches by done.
  assert (StronglySorted by_start (all_matches r x)) as Hsort by (eapply starts_sorted, find_iter_ok).
  set (l := all_matches r x) in *. split; eexists; (split; [reflexivity|]).
  - pose proof (find_first (fun m => offset <? m_start m) l Hsort) as Hf.
    destruct (List.find _ l) as [m|].
    + destruct Hf as (Hin & Hm%Nat.ltb_lt & Hleast). split; [done|]. left. split; [done|].
      intros m' Hin' Hlt. apply Hleast; [done|by apply Nat.ltb_lt].
    + assert (forall m', m' ∈ l -> m_start m' <= offset) as Hnone by (intros m' Hin; apply Nat.ltb_ge; auto).
      destruct wrap; [|done]. destruct l as [|m l']; [done|]. split; [by left|]. by right.
  - pose proof (find_last (fun m => m_start m <? offset) l Hsort) as Hf.
    destruct (List.find _ (reverse l)) as [m|].
    + destruct Hf as (Hin & Hm%Nat.ltb_lt & Hg). split; [done|]. left. split; [done|].
      intros m' Hin' Hlt. apply Hg; [done|by apply Nat.ltb_lt].
    + assert (forall m', m' ∈ l -> offset <= m_start m') as Hnone by (intros m' Hin; apply Nat.ltb_ge; auto).
      destruct wrap; [|done]. destruct (last l) as [m|] eqn:El; [|by apply last_None in El].
      split; [by apply last_Some_elem_of|]. by right.
Qed.

(** ** Substitution *)

(** The pieces of a line: what precedes each match, the match, and the end. *)
Definition piece_text (p : list N * list N) : list N := p.1 ++ p.2.
(** What the engine matched: the text of a byte range. *)
Definition range_text (t : list N) (m : nat * nat) : list N :=
  take (chars_before t m.2 - chars_before t m.1) (drop (chars_before t m.1) t).
Lemma splice_pieces t rep ms : forall from, ranges_ok t from ms -> is_char_boundary t from = true ->
  exists pieces tail, map snd pieces = map (range_text t) ms /\
    drop (chars_before t from) t = concat (map piece_text pieces) ++ tail /\
    splice_matches t rep from ms = Some (concat (map (fun p => p.1 ++ rep) pieces) ++ tail).
Proof.
  induction ms as [|[s e] ms IH]; intros from Hok Hfrom.
  - exists [], (drop (chars_before t from) t). split_and!; [done|done|]. cbn. unfold str_from. by rewrite Hfrom.
  - destruct Hok as (Hle & Hs & He & Hok).
    assert (ranges_ok t e ms) as Hok'.
    { destruct ms as [|[s' e'] ms']; [done|]. destruct Hok as (? & ? & ? & ?). cbn. split_and!; try done; lia. }
    destruct (IH e Hok' He) as (pieces & tail & Hl & Hd & Hsp). cbn [splice_matches]. rewrite Hsp.
    apply is_char_boundary_spec in Hfrom as (i & Hi & ->). apply is_char_boundary_spec in He as (k & Hk & ->).
    pose proof Hs as Hs'. apply is_char_boundary_spec in Hs as (j & Hj & ->). rewrite !chars_before_boundary in * by done.
    assert (i <= j) as Hij by (destruct (decide (i <= j)); [done|pose proof (byte_len_take_lt t j i); lia]).
    assert (j <= k) as Hjk by (destruct (decide (j <= k)); [done|pose proof (byte_len_take_lt t k j); lia]).
    unfold str_to, str_from. rewrite Hs', chars_before_boundary by done.
    assert (is_char_boundary (take j t) (byte_len (take i t)) = true) as Hb.
    { apply is_char_boundary_spec. exists i. rewrite length_take, take_take. replace (i `min` j) with i by lia. split; [lia|done]. }
    rewrite Hb.
    assert (chars_before (take j t) (byte_len (take i t)) = i) as ->.
    { assert (take i (take j t) = take i t) as <- by (rewrite take_take; f_equal; lia).
      apply chars_before_boundary. rewrite length_take. lia. }
    exists ((drop i (take j t), take (k - j) (drop j t)) :: pieces), tail. split_and!.
    + cbn [map snd]. rewrite Hl. unfold range_text at 2. cbn [fst snd]. by rewrite !chars_before_boundary by done.
    + cbn [map concat piece_text fst snd]. rewrite <- !app_assoc, <- Hd.
      assert (drop k t = drop (k - j) (drop j t)) as -> by (rewrite drop_drop; f_equal; lia).
      unfold piece_text. cbn [fst snd]. rewrite <- app_assoc, (take_drop (k - j) (drop j t)). rewrite <- (take_drop j t) at 1.
      by rewrite drop_app_le by (rewrite length_take; lia).
    + cbn [map concat fst]. by rewrite !app_assoc.
Qed.

Lemma snd_lengths t (pieces : list (list N * list N)) ms : map snd pieces = map (range_text t) ms -> length pieces = length ms.
Proof. intros Hl%(f_equal length). by rewrite !length_map in Hl. Qed.

(** A substitution replaces what the pattern matches and nothing else: the
    line is a sequence of pieces, each what precedes a match and the match, and
    an end; the result has the replacement in place of every match, or of the
    first one without the global flag (with a replacement that refers to no
    group), and the count is the number of replacements. *)
Theorem substitution_replaces_matches line x rep global :
  36%N ∉ rep ->
  exists pieces tail,
    line = concat (map piece_text pieces) ++ tail /\
    substitute_line line x rep global = Some (concat (map (fun p => p.1 ++ rep) pieces) ++ tail, length pieces) /\
    map snd pieces = map (range_text line) (if global then find_iter x line else take 1 (find_iter x line)).
Proof.
  intros Hrep. pose proof (find_iter_ok x line) as Hok. unfold substitute_line. destruct global.
  - destruct (splice_pieces line rep (find_iter x line) 0 Hok) as (pieces & tail & Hl & Hd & Hs); [by destruct line|].
    exists pieces, tail. rewrite Hs, (snd_lengths _ _ _ Hl). split_and!; [|done|done]. rewrite <- Hd.
    change 0 with (byte_len (take 0 line)). by rewrite chars_before_boundary by lia.
  - destruct (find_iter x line) as [|m ms] eqn:E.
    + exists [], line. done.
    + assert (ranges_ok line 0 [m]) as Hok1 by (destruct m as [s e]; cbn in *; tauto).
      destruct (splice_pieces line rep [m] 0 Hok1) as (pieces & tail & Hl & Hd & Hs); [by destruct line|].
      exists pieces, tail. rewrite (snd_lengths _ _ _ Hl). split_and!; [| |done].
      * rewrite <- Hd. change 0 with (byte_len (take 0 line)). by rewrite chars_before_boundary by lia.
      * pose proof (replace_literal x line rep Hrep) as Hr. rewrite E in Hr. specialize (Hr ltac:(done)).
        change (take 1 (m :: ms)) with [m] in Hr. rewrite Hs in Hr. injection Hr as ->. done.
Qed.

(** *** Parsing the command *)

Definition unescaped (c : N) : bool := negb (bool_decide (c = 92%N)) && negb (bool_decide (c = 47%N)).
Lemma split_parts_plain p : forallb unescaped p = true -> forall current s,
  split_parts current (p ++ 47%N :: s) = (current ++ p) :: split_parts [] s /\
  split_parts current p = [current ++ p].
Proof.
  induction p as [|c p IH]; cbn [forallb]; intros Hp current s; [by rewrite !app_nil_r|].
  apply andb_true_iff in Hp as [Hc Hp]. unfold unescaped in Hc. rewrite andb_true_iff, !negb_true_iff, !bool_decide_eq_false in Hc.
  destruct Hc as [Hc1 Hc2]. cbn [app split_parts].
  rewrite (bool_decide_eq_false_2 (c = 92%N)), (bool_decide_eq_false_2 (c = 47%N)) by done.
  destruct (IH Hp (current ++ [c]) s) as [-> ->]. by rewrite <- !app_assoc.
Qed.
Lemma drop_blank_solid c s : is_whitespace c = false -> drop_blank (c :: s) = c :: s.
Proof. intros Hc. cbn. by rewrite Hc. Qed.
Lemma trim_ends l c d : head l = Some c -> last l = Some d -> is_whitespace c = false -> is_whitespace d = false -> trim_text l = l.
Proof.
  intros Hh Hl Hc Hd. unfold trim_text. destruct l as [|c' l]; [done|]. injection Hh as ->. rewrite drop_blank_solid by done.
  apply last_Some in Hl as (l' & ->). rewrite reverse_snoc, drop_blank_solid by done.
  by rewrite reverse_cons, reverse_involutive.
Qed.

(** The text of a command. *)
Definition print_substitute (c : SubstituteCommand) : list N :=
  (if whole_buffer c then [37%N] else []) ++ [115; 47]%N ++ s_pattern c ++ [47%N] ++ s_replacement c ++ [47%N] ++
  (if s_global c then [103%N] else []).
(** A printed command is parsed back. *)
Theorem substitute_round_trip c : s_pattern c <> [] -> forallb unescaped (s_pattern c) = true ->
  forallb unescaped (s_replacement c) = true -> parse_substitute (print_substitute c) = inr c.
Proof.
  intros Hne Hp Hr. unfold parse_substitute, print_substitute. destruct c as [w p rep g]. cbn [whole_buffer s_pattern s_replacement s_global] in *.
  assert (trim_text ((if w then [37%N] else []) ++ [115; 47]%N ++ p ++ [47%N] ++ rep ++ [47%N] ++ (if g then [103%N] else [])) =
          (if w then [37%N] else []) ++ [115; 47]%N ++ p ++ [47%N] ++ rep ++ [47%N] ++ (if g then [103%N] else [])) as ->.
  { apply (trim_ends _ (if w then 37 else 115)%N (if g then 103 else 47)%N); [by destruct w| |by destruct w|by destruct g].
    destruct g; by rewrite ?app_nil_r, !app_assoc, last_snoc. }
  assert (split_substitute_parts (p ++ [47%N] ++ rep ++ [47%N] ++ (if g then [103%N] else [])) = [p; rep; if g then [103%N] else []]) as Hsp.
  { unfold split_substitute_parts. cbn [app]. destruct (split_parts_plain p Hp [] (rep ++ 47%N :: if g then [103%N] else [])) as [-> _].
    destruct (split_parts_plain rep Hr [] (if g then [103%N] else [])) as [-> _]. by destruct g. }
  destruct w; cbn [app] in *; rewrite Hsp; cbn; rewrite bool_decide_eq_false_2 by done; destruct g; done.
Qed.

(** ** The word under the cursor *)

Lemma is_word_lookup r i : is_word r i = (fun c => bool_decide (classify c = Word)) <$> rope_chars r !! i.
Proof. unfold is_word. rewrite rope_char_at. by destruct (rope_chars r !! i). Qed.
Definition word_char r (i : nat) : Prop := exists c, rope_chars r !! i = Some c /\ classify c = Word.
Lemma is_word_iff r i : i < length (rope_chars r) -> exists w, is_word r i = Some w /\ (w = true <-> word_char r i).
Proof.
  intros Hi. rewrite is_word_lookup. destruct (lookup_lt_is_Some_2 _ _ Hi) as [c Hc]. rewrite Hc. eexists. split; [reflexivity|].
  rewrite bool_decide_eq_true. unfold word_char. rewrite Hc. naive_solver.
Qed.
Lemma word_start_spec r p : p <= length (rope_chars r) ->
  exists s, word_start r p = Some s /\ s <= p /\ (forall i, s <= i < p -> word_char r i) /\ (s = 0 \/ ~ word_char r (s - 1)).
Proof.
  induction p as [|p IH]; intros Hp; cbn.
  - exists 0. split_and!; [done|lia|intros; lia|by left].
  - destruct (is_word_iff r p ltac:(lia)) as (w & -> & Hw). destruct w.
    + destruct (IH ltac:(lia)) as (s & Hs & Hle & Hin & Hb). exists s. split_and!; [done|lia| |done].
      intros i Hi. destruct (decide (i = p)) as [->|]; [by apply Hw|apply Hin; lia].
    + exists (S p). split_and!; [done|lia|intros; lia|right]. replace (S p - 1) with p by lia. intros Hc. by apply Hw in Hc.
Qed.
Lemma word_end_spec r fuel : forall e, e <= length (rope_chars r) -> length (rope_chars r) - e <= fuel ->
  exists e', word_end fuel r e = Some e' /\ e <= e' <= length (rope_chars r) /\
    (forall i, e <= i < e' -> word_char r i) /\ ~ word_char r e'.
Proof.
  assert (forall i, length (rope_chars r) <= i -> ~ word_char r i) as Hout.
  { intros i Hi (c & Hc & _). apply lookup_lt_Some in Hc. lia. }
  induction fuel as [|fuel IH]; intros e He Hf; cbn [word_end].
  - exists e. split_and!; [done|lia|lia|intros; lia|apply Hout; lia].
  - rewrite rope_len_chars. destruct (Nat.ltb_spec e (length (rope_chars r))) as [Hlt|Hge].
    + destruct (is_word_iff r e Hlt) as (w & -> & Hw). destruct w.
      * destruct (IH (S e) ltac:(lia) ltac:(lia)) as (e' & He' & Hle & Hin & Hb). exists e'. split_and!; [exact He'|lia|lia| |done].
        intros i Hi. destruct (decide (i = e)) as [->|]; [by apply Hw|apply Hin; lia].
      * exists e. split_and!; [done|lia|lia|intros; lia|]. intros Hc. by apply Hw in Hc.
    + exists e. split_and!; [done|lia|lia|intros; lia|apply Hout; lia].
Qed.

(** The word under the cursor is the longest run of word characters around it;
    there is none off a word character, and looking for it never panics. *)
Theorem word_under_cursor_is_maximal r offset :
  exists range, word_range_at r offset = Some range /\
  match range with
  | Some (s, e) => s <= offset < e /\ e <= length (rope_chars r) /\ (forall i, s <= i < e -> word_char r i) /\
                   (s = 0 \/ ~ word_char r (s - 1)) /\ ~ word_char r e
  | None => ~ word_char r offset
  end.
Proof.
  unfold word_range_at. rewrite rope_len_chars. destruct (Nat.leb_spec (length (rope_chars r)) offset) as [Hge|Hlt].
  - rewrite orb_true_r. eexists. split; [done|]. intros (c & Hc & _). apply lookup_lt_Some in Hc. lia.
  - destruct (Nat.eqb_spec (length (rope_chars r)) 0); [lia|]. cbn [orb].
    destruct (is_word_iff r offset Hlt) as (w & -> & Hw). destruct w; cbn [negb].
    + destruct (word_start_spec r offset ltac:(lia)) as (s & -> & Hs & Hin & Hb).
      destruct (word_end_spec r (length (rope_chars r)) (offset + 1)) as (e & -> & He & Hin' & Hb'); [lia|lia|].
      eexists. split; [reflexivity|]. split_and!; [lia|lia|lia| |done|done].
      intros i Hi. destruct (decide (i = offset)) as [->|]; [by apply Hw|].
      destruct (decide (i < offset)); [apply Hin; lia|apply Hin'; lia].
    + eexists. split; [done|]. intros Hc. by apply Hw in Hc.
Qed.
End SearchProofs.


(** ** A concrete engine *)

(** Patterns that are one character, which match every occurrence of it. A
    dollar sign and a zero in a replacement stand for the match. *)
Module CharRegex.
Fixpoint hits (c : N) (l : list (nat * N)) : list (nat * nat) :=
  match l with
  | [] => []
  | (b, d) :: l' => if bool_decide (d = c) then (b, b + char_len d) :: hits c l' else hits c l'
  end.
Fixpoint expand_dollar (m rep : list N) : list N :=
  match rep with
  | [] => []
  | d :: rep' => if bool_decide (d = 36%N)
                 then match rep' with 48%N :: rep'' => m ++ expand_dollar m rep'' | _ => d :: expand_dollar m rep' end
                 else d :: expand_dollar m rep'
  end.
#[export] Instance char_regex : Regex N := {|
  find_iter c t := hits c (char_indices t);
  replace_one c t rep := match hits c (char_indices t) with
                         | m :: _ => default t (splice_matches t (expand_dollar [c] rep) 0 [m])
                         | [] => t
                         end;
|}.

Lemma ranges_ok_weaken t ms a b : a <= b -> ranges_ok t b ms -> ranges_ok t a ms.
Proof. destruct ms as [|[s e] ms]; [done|]. intros Hab ([? ?] & ? & ? & ?). cbn. split_and!; try done; lia. Qed.
Lemma hits_ok c suf : forall pre, ranges_ok (pre ++ suf) (byte_len pre) (hits c (char_indices_from (byte_len pre) suf)).
Proof.
  induction suf as [|d suf IH]; intros pre; [done|]. specialize (IH (pre ++ [d])). cbn [char_indices_from hits].
  rewrite <- app_assoc, byte_len_app in IH. cbn [byte_len app] in IH. rewrite Nat.add_0_r in IH. pose proof (char_len_pos d).
  assert (is_char_boundary (pre ++ d :: suf) (byte_len pre) = true) as Hb.
  { apply is_char_boundary_spec. exists (length pre). rewrite take_app_length, length_app. split; [lia|done]. }
  assert (is_char_boundary (pre ++ d :: suf) (byte_len pre + char_len d) = true) as He.
  { apply is_char_boundary_spec. exists (length pre + 1). rewrite length_app, take_app_add. cbn [length take].
    rewrite byte_len_app. cbn. rewrite take_0. cbn. split; lia. }
  case_bool_decide.
  - cbn [ranges_ok]. split_and!; [lia|lia|done|done|]. by replace (_ `max` _) with (byte_len pre + char_len d) by lia.
  - eapply ranges_ok_weaken; [|exact IH]. lia.
Qed.
Lemma expand_dollar_plain m rep : 36%N ∉ rep -> expand_dollar m rep = rep.
Proof.
  induction rep as [|d rep IH]; intros Hr; [done|]. cbn. rewrite bool_decide_eq_false_2 by set_solver. f_equal. set_solver.
Qed.
#[export] Instance char_regex_laws : RegexLaws N.
Proof.
  split.
  - intros c t. apply (hits_ok c t []).
  - intros c t rep Hr Hne. cbn [find_iter replace_one char_regex] in *. rewrite expand_dollar_plain by done.
    pose proof (hits_ok c t []) as Hok. unfold char_indices in *. cbn in Hok.
    destruct (hits c (char_indices_from 0 t)) as [|m ms]; [done|].
    assert (ranges_ok t 0 [m]) as Hok1 by (destruct m as [s e]; cbn in *; tauto).
    destruct (splice_pieces t rep [m] 0 Hok1) as (pieces & tail & _ & _ & Hs); [by destruct t|].
    change (take 1 (m :: ms)) with [m]. by rewrite Hs.
Qed.
End CharRegex.

(** An engine whose pattern is the start of the text, as a caret is unless the
    pattern turns on the multi-line mode. *)
Module StartRegex.
#[export] Instance start_regex : Regex unit := {|
  find_iter _ _ := [(0, 0)];
  replace_one _ t rep := rep ++ t;
|}.
#[export] Instance start_regex_laws : RegexLaws unit.
Proof.
  split.
  - intros x t. cbn. split_and!; by destruct t.
  - intros x t rep _ _. cbn. unfold str_to, str_from. destruct t as [|c t]; cbn; [done|].
    rewrite (proj2 (Nat.leb_gt (char_len c) 0)) by (pose proof (char_len_pos c); lia). done.
Qed.
End StartRegex.

Module SearchWitnesses.
Import ListRope CharRegex.
Definition sample : list N := ascii_text "banana".

Lemma find_next_goes_round_witness :
  searchable sample 97%N /\
  find_next sample 97%N 5 Forward true = Some (Some (mkMatch 1 2)) /\
  exists found, find_next sample 97%N 5 Forward true = Some found /\
    match found with
    | Some m => m ∈ all_matches sample 97%N /\
                ((5 < m_start m /\ forall m', m' ∈ all_matches sample 97%N -> 5 < m_start m' -> m_start m <= m_start m') \/
                 (true = true /\ head (all_matches sample 97%N) = Some m /\ forall m', m' ∈ all_matches sample 97%N -> m_start m' <= 5))
    | None => (forall m', m' ∈ all_matches sample 97%N -> m_start m' <= 5) /\ (true = true -> all_matches sample 97%N = [])
    end.
Proof.
  assert (searchable sample 97%N) as Hs by (by vm_compute).
  split_and!; [done|by vm_compute|]. exact (proj1 (find_next_goes_round sample 97%N 5 true Hs)).
Defined.
Lemma substitution_replaces_matches_witness :
  (36%N ∉ ascii_text "oo") /\
  substitute_line sample 97%N (ascii_text "oo") true = Some (ascii_text "boonoonoo", 3) /\
  exists pieces tail,
    sample = concat (map piece_text pieces) ++ tail /\
    substitute_line sample 97%N (ascii_text "oo") true = Some (concat (map (fun p => p.1 ++ ascii_text "oo") pieces) ++ tail, length pieces) /\
    map snd pieces = map (range_text sample) (find_iter 97%N sample).
Proof.
  assert (36%N ∉ ascii_text "oo") as Hr by (apply (bool_decide_unpack _); by vm_compute).
  split_and!; [done|by vm_compute|]. exact (substitution_replaces_matches sample 97%N (ascii_text "oo") true Hr).
Defined.
Lemma substitute_round_trip_witness :
  parse_substitute (ascii_text "%s/ab/c/g") = inr (mkSubst true (ascii_text "ab") (ascii_text "c") true).
Proof.
  exact (substitute_round_trip (mkSubst true (ascii_text "ab") (ascii_text "c") true) ltac:(done) eq_refl eq_refl).
Defined.
#[local] Instance ascii_letters : Unicode := {| is_alphanumeric c := (97 <=? c)%N && (c <=? 122)%N |}.
Example word_of_sample : word_range_at (ascii_text "to be or") 4 = Some (Some (3, 5)).
Proof. reflexivity. Qed.
End SearchWitnesses.

(** ** Where the code departs from its contract *)
Module SearchDepartures.
Import ListRope CharRegex.

(** A dollar sign in a replacement refers to a group of the match without the
    global flag, and stands for itself with it. *)
Theorem dollar_depends_on_the_flag :
  substitute_line (ascii_text "banana") 110%N (ascii_text "<$0>") false = Some (ascii_text "ba<n>ana", 1) /\
  substitute_line (ascii_text "banana") 110%N (ascii_text "<$0>") true = Some (ascii_text "ba<$0>a<$0>a", 2).
Proof. split; by vm_compute. Qed.

(** An escaped slash keeps its backslash, so a replacement cannot contain a
    slash alone; a backslash at the end of the command is lost. *)
Theorem replacement_keeps_the_escape :
  parse_substitute (ascii_text "s/a/x\/y/") = inr (mkSubst false (ascii_text "a") (ascii_text "x\/y") false) /\
  substitute_line (ascii_text "a") 97%N (ascii_text "x\/y") true = Some (ascii_text "x\/y", 1) /\
  parse_substitute (ascii_text "s/a/x\") = inr (mkSubst false (ascii_text "a") (ascii_text "x") false).
Proof. split_and!; by vm_compute. Qed.

(** The search of a large buffer, line by line, does not find what the search
    of the whole text finds: the start of the text is found on every line. *)
Theorem chunked_search_differs :
  find_all (R := list N) (H0 := StartRegex.start_regex) (ascii_text "one
two") tt = Some [mkMatch 0 0] /\
  find_all_chunked (R := list N) (H0 := StartRegex.start_regex) (ascii_text "one
two") tt = Some [mkMatch 0 0; mkMatch 4 4].
Proof. split; by vm_compute. Qed.

(** Only the first 10,000 matches count: past the last of them the search wraps
    to the first match, whatever follows in the buffer. *)
Theorem next_match_is_lost {R X} `{RopeLaws R, RegexLaws X} (r : R) (x : X) offset m :
  (N.of_nat (length (rope_chars r)) <= CHUNK_LIMIT)%N -> head (all_matches r x) = Some m ->
  (forall m', m' ∈ take (N.to_nat MAX_SEARCH_MATCHES) (all_matches r x) -> m_start m' <= offset) ->
  find_next r x offset Forward true = Some (Some m).
Proof.
  intros Hs Hm Hall. unfold find_next. rewrite find_all_exact by done. fold (all_matches r x).
  destruct (List.find _ _) as [m'|] eqn:E.
  - apply List.find_some in E as [Hin Hlt]. apply list_elem_of_In in Hin. apply Hall in Hin. apply Nat.ltb_lt in Hlt. lia.
  - destruct (all_matches r x) as [|m1 l]; [done|]. destruct (N.to_nat MAX_SEARCH_MATCHES) eqn:En; [unfold MAX_SEARCH_MATCHES in En; lia|]. exact (f_equal Some Hm).
Qed.
End SearchDepartures.
