(* ===== verification/SearchOps.v ===== *)
(** * SearchOps: searching and substituting in the active buffer

    Models [crates/core/src/editor/search_ops.rs] and the forms of
    [try_ex_line_form] in [crates/core/src/editor/command.rs] that reach it:
    searches that move the cursor, the word under the cursor, the selection of
    a match, substitutions over a range of lines, and the global command.

    The editor is the part of its state these commands use: the active buffer,
    the focused window, the last search, the options of the search, the visual
    selection, the messages it showed (the last one first) and the bell. A
    panic is [None]. The commands a global command sends to the editor are an
    argument. *)
From S2P Require Import Prelude Rope Grapheme Word Buffer BufferHistory WindowMoves Search.

(** [Regex::new], with the text of its error, and [char::is_uppercase]. *)
Class RegexNew (X : Type) := { regex_new : list N -> list N + X }.
Class UnicodeCase := { is_uppercase : N -> bool }.

Record SearchState (X : Type) := mkSearch {
  ss_pattern : list N; ss_regex : option X; ss_direction : SearchDirection; ss_matches : list SearchMatch;
  ss_highlight : bool }.
Arguments mkSearch {X}. Arguments ss_pattern {X}. Arguments ss_regex {X}. Arguments ss_direction {X}.
Arguments ss_matches {X}. Arguments ss_highlight {X}.

(** The messages. *)
Inductive Shown :=
  | PatternNotFound | NoPreviousSearch | NoWordUnderCursor | MatchNumber (i n : nat)
  | InvalidRegex (e : list N) | InvalidPattern (e : list N) | InvalidSubstitutePattern (e : list N)
  | SubstituteError (e : SubstError) | Substituted (subs lines : nat) | NoSubstitutions
  | GlobalUsage | GlobalEmptyPattern | LinesDeleted (n : nat) | LinesProcessed (n : nat) | Unsupported (cmd : list N).

Record SearchEditor (R Doc X : Type) := mkSearchEditor {
  e_buf : Buffer R Doc; e_win : Window; e_input : list N; e_search : SearchState X;
  e_ignorecase : bool; e_smartcase : bool;
  e_anchor : nat * nat; e_visual : bool; e_normal_only : bool;
  e_mode_hooks : list string; e_pending_hooks : list (string * string);
  e_shown : list Shown; e_bell : bool }.
Arguments mkSearchEditor {R Doc X}. Arguments e_buf {R Doc X}. Arguments e_win {R Doc X}. Arguments e_input {R Doc X}.
Arguments e_search {R Doc X}. Arguments e_ignorecase {R Doc X}. Arguments e_smartcase {R Doc X}. Arguments e_anchor {R Doc X}.
Arguments e_visual {R Doc X}. Arguments e_normal_only {R Doc X}. Arguments e_mode_hooks {R Doc X}.
Arguments e_pending_hooks {R Doc X}. Arguments e_shown {R Doc X}. Arguments e_bell {R Doc X}.

(** A loop over lines with a state. *)
Fixpoint each_line {S : Type} (f : S -> nat -> option S) (s : S) (ks : list nat) : option S :=
  match ks with [] => Some s | k :: ks' => let? s' := f s k in each_line f s' ks' end.

(** *** Line numbers *)

Definition USIZE_MAX : N := 18446744073709551615.
Fixpoint digits (acc : N) (s : list N) : option N :=
  match s with
  | [] => Some acc
  | c :: s' => if (48 <=? c)%N && (c <=? 57)%N
               then let acc' := (acc * 10 + (c - 48))%N in if (acc' <=? USIZE_MAX)%N then digits acc' s' else None
               else None
  end.
(** [str::parse::<usize>]. *)
Definition parse_number (s : list N) : option N :=
  match s with
  | [] => None
  | c :: s' => if bool_decide (c = 43%N) then match s' with [] => None | _ => digits 0 s' end else digits 0 s
  end.
(** [cursor_row + n], which wraps at the width of [usize]. *)
Definition usize_add (a n : N) : N := ((a + n) mod (USIZE_MAX + 1))%N.

(** The text before the first ["s/"] and the text from it on. *)
Fixpoint find_sub (s : list N) : option (list N * list N) :=
  match s with
  | [] => None
  | c :: s' => if bool_decide (take 2 s = [115; 47]%N) then Some ([], s)
               else let? (before, rest) := find_sub s' in Some (c :: before, rest)
  end.
(** [splitn(2, c)] and [find(c)]: the text up to the first [c] and the text after it. *)
Fixpoint cut_at (c : N) (s : list N) : option (list N * list N) :=
  match s with
  | [] => None
  | d :: s' => if bool_decide (d = c) then Some ([], s') else let? (before, after) := cut_at c s' in Some (d :: before, after)
  end.

Section SearchOps.
Context {R Doc X : Type} `{Rope R, SyncDoc R Doc, ContentHash, Segmentation, Regex X, RegexNew X, Unicode, UnicodeCase}.
Context (escape : list N -> list N).
Implicit Types (e : SearchEditor R Doc X) (b : Buffer R Doc) (x : X).

Definition set_buf e b : SearchEditor R Doc X :=
  mkSearchEditor b (e_win e) (e_input e) (e_search e) (e_ignorecase e) (e_smartcase e) (e_anchor e) (e_visual e)
    (e_normal_only e) (e_mode_hooks e) (e_pending_hooks e) (e_shown e) (e_bell e).
Definition set_win e (w : Window) : SearchEditor R Doc X :=
  mkSearchEditor (e_buf e) w (e_input e) (e_search e) (e_ignorecase e) (e_smartcase e) (e_anchor e) (e_visual e)
    (e_normal_only e) (e_mode_hooks e) (e_pending_hooks e) (e_shown e) (e_bell e).
Definition set_search e (input : list N) (s : SearchState X) : SearchEditor R Doc X :=
  mkSearchEditor (e_buf e) (e_win e) input s (e_ignorecase e) (e_smartcase e) (e_anchor e) (e_visual e)
    (e_normal_only e) (e_mode_hooks e) (e_pending_hooks e) (e_shown e) (e_bell e).
Definition set_anchor e (a : nat * nat) : SearchEditor R Doc X :=
  mkSearchEditor (e_buf e) (e_win e) (e_input e) (e_search e) (e_ignorecase e) (e_smartcase e) a (e_visual e)
    (e_normal_only e) (e_mode_hooks e) (e_pending_hooks e) (e_shown e) (e_bell e).
Definition set_status e (m : Shown) : SearchEditor R Doc X :=
  mkSearchEditor (e_buf e) (e_win e) (e_input e) (e_search e) (e_ignorecase e) (e_smartcase e) (e_anchor e) (e_visual e)
    (e_normal_only e) (e_mode_hooks e) (e_pending_hooks e) (m :: e_shown e) (e_bell e).
Definition ring_bell e : SearchEditor R Doc X :=
  mkSearchEditor (e_buf e) (e_win e) (e_input e) (e_search e) (e_ignorecase e) (e_smartcase e) (e_anchor e) (e_visual e)
    (e_normal_only e) (e_mode_hooks e) (e_pending_hooks e) (e_shown e) true.
(** [set_mode(Mode::Visual(VisualType::Char))] with [fire_hook]. *)
Definition set_visual_mode e : SearchEditor R Doc X :=
  if e_normal_only e || e_visual e then e
  else mkSearchEditor (e_buf e) (e_win e) (e_input e) (e_search e) (e_ignorecase e) (e_smartcase e) (e_anchor e) true
         (e_normal_only e) (e_mode_hooks e) (e_pending_hooks e ++ map (fun f => ("mode-change", f)) (e_mode_hooks e))
         (e_shown e) (e_bell e).

(** ** Searching *)

Definition apply_case_sensitivity e (pattern : list N) : list N :=
  if e_ignorecase e then
    if e_smartcase e && existsb is_uppercase pattern then pattern else [40; 63; 105; 41]%N ++ pattern
  else pattern.

Definition opposite (d : SearchDirection) : SearchDirection := match d with Forward => Backward | Backward => Forward end.
Fixpoint position_of (start : nat) (ms : list SearchMatch) : option nat :=
  match ms with
  | [] => None
  | m :: ms' => if m_start m =? start then Some 0 else S <$> position_of start ms'
  end.

Definition jump_to_next_match e (same_direction : bool) : option (SearchEditor R Doc X) :=
  match ss_regex (e_search e) with
  | None => Some (set_status e NoPreviousSearch)
  | Some re =>
      let direction := if same_direction then ss_direction (e_search e) else opposite (ss_direction (e_search e)) in
      let b := e_buf e in
      let? char_offset := char_offset_at b (cursor_row (e_win e)) (cursor_col (e_win e)) in
      let? found := find_next (rope b) re char_offset direction true in
      match found with
      | Some m =>
          let? new_row := char_to_line (rope b) (m_start m) in
          let? new_col := byte_col_of_char_offset b new_row (m_start m) in
          let e := set_win e (mkWin new_row new_col (primary (e_win e))) in
          let matches := ss_matches (e_search e) in
          let idx := match position_of (m_start m) matches with Some i => i + 1 | None => 0 end in
          Some (set_status e (MatchNumber idx (length matches)))
      | None => Some (ring_bell (set_status e PatternNotFound))
      end
  end.

Definition execute_search e : option (SearchEditor R Doc X) :=
  let pattern := e_input e in
  if bool_decide (pattern = []) then Some e
  else match regex_new (apply_case_sensitivity e pattern) with
       | inr re =>
           let? matches := find_all (rope (e_buf e)) re in
           let e := set_search e (e_input e) (mkSearch pattern (Some re) (ss_direction (e_search e)) matches true) in
           if 0 <? length matches then jump_to_next_match e true
           else Some (ring_bell (set_status e PatternNotFound))
       | inl err => Some (set_status e (InvalidRegex err))
       end.

Definition recompute_search_matches e : option (SearchEditor R Doc X) :=
  match ss_regex (e_search e) with
  | Some re =>
      let? matches := find_all (rope (e_buf e)) re in
      Some (set_search e (e_input e)
              (mkSearch (ss_pattern (e_search e)) (Some re) (ss_direction (e_search e)) matches (ss_highlight (e_search e))))
  | None => Some e
  end.

Definition visual_select_match e (forward : bool) : option (SearchEditor R Doc X * bool) :=
  match ss_regex (e_search e) with
  | None => Some (set_status e NoPreviousSearch, false)
  | Some re =>
      let direction := if forward then Forward else Backward in
      let b := e_buf e in
      let? char_offset := char_offset_at b (cursor_row (e_win e)) (cursor_col (e_win e)) in
      let? found := find_match_at_or_adjacent (rope b) re char_offset direction in
      match found with
      | None => Some (ring_bell (set_status e PatternNotFound), false)
      | Some m =>
          let? anchor_row := char_to_line (rope b) (m_start m) in
          let? anchor_start := line_to_char (rope b) anchor_row in
          let end_inclusive := Nat.max (m_end m - 1) (m_start m) in
          let? row := char_to_line (rope b) end_inclusive in
          let? row_start := line_to_char (rope b) row in
          let e := set_anchor e (anchor_row, m_start m - anchor_start) in
          let e := set_win e (mkWin row (end_inclusive - row_start) (primary (e_win e))) in
          Some (set_visual_mode e, true)
      end
  end.

(** [search_word_at_cursor] and its backward twin. *)
Definition search_word (d : SearchDirection) e : option (SearchEditor R Doc X) :=
  let b := e_buf e in
  let? char_offset := char_offset_at b (cursor_row (e_win e)) (cursor_col (e_win e)) in
  let? word := word_at_offset escape (rope b) char_offset in
  match word with
  | None => Some (set_status e NoWordUnderCursor)
  | Some pattern =>
      let s := e_search e in
      let e := set_search e pattern (mkSearch (ss_pattern s) (ss_regex s) d (ss_matches s) (ss_highlight s)) in
      match regex_new (apply_case_sensitivity e pattern) with
      | inr re =>
          let? matches := find_all (rope b) re in
          jump_to_next_match (set_search e pattern (mkSearch pattern (Some re) d matches true)) true
      | inl err => Some (set_status e (InvalidRegex err))
      end
  end.
Definition search_word_at_cursor e := search_word Forward e.
Definition search_word_at_cursor_backward e := search_word Backward e.

(** ** Substituting in lines *)

(** One line: the buffer, the number of replacements and of lines changed. *)
Definition substitute_at x (replacement : list N) (global : bool) (st : Buffer R Doc * nat * nat) (line_idx : nat)
    : option (Buffer R Doc * nat * nat) :=
  let '(b, total_subs, lines_changed) := st in
  let? line_start := line_to_char (rope b) line_idx in
  let? line_text := Buffer.line_text b line_idx in
  let line_content := trim_end 10 line_text in
  let? (new_text, count) := substitute_line line_content x replacement global in
  if 0 <? count then
    let? cut := delete_range b line_start (line_start + length line_content) in
    let? new := insert_text_at cut line_start new_text in
    Some (new, total_subs + count, lines_changed + 1)
  else Some (b, total_subs, lines_changed).

(** The lines of [start_line..end_line], last first. *)
Definition lines_down (start_line end_line : nat) : list nat := reverse (seq start_line (end_line - start_line)).

Definition execute_substitute_with_range e (cmd : list N) (range : option (nat * nat)) : option (SearchEditor R Doc X) :=
  match parse_substitute cmd with
  | inl err => Some (set_status e (SubstituteError err))
  | inr sub =>
      match regex_new (s_pattern sub) with
      | inl err => Some (set_status e (InvalidPattern err))
      | inr re =>
          let win_row := cursor_row (e_win e) in
          let '(start_line, end_line) :=
            match range with
            | Some r => r
            | None => if whole_buffer sub then (0, line_count (e_buf e)) else (win_row, win_row + 1)
            end in
          (* [end_line - start_line > 1]: the difference wraps below zero *)
          let multi_line := (end_line <? start_line) || (1 <? end_line - start_line) in
          let b := if multi_line then begin_undo_group (e_buf e) else e_buf e in
          let? (done_, total_subs, lines_changed) :=
            each_line (substitute_at re (s_replacement sub) (s_global sub)) (b, 0, 0) (lines_down start_line end_line) in
          let b := if multi_line then end_undo_group done_ else done_ in
          let e := set_buf e b in
          if 0 <? total_subs then recompute_search_matches (set_status e (Substituted total_subs lines_changed))
          else Some (ring_bell (set_status e PatternNotFound))
      end
  end.
Definition execute_substitute_command e (cmd : list N) := execute_substitute_with_range e cmd None.

(** *** Ranges *)

Definition parse_line_address e (addr : list N) : option nat :=
  let addr := trim_text addr in
  let row := cursor_row (e_win e) in
  let last_line := line_count (e_buf e) - 1 in
  if bool_decide (addr = [46%N]) then Some row
  else if bool_decide (addr = [36%N]) then Some last_line
  else
    let rel := match addr with 46%N :: r => r | _ => addr end in
    match rel with
    | 43%N :: offset => let? n := parse_number offset in
                        Some (N.to_nat (N.min (usize_add (N.of_nat row) n) (N.of_nat last_line)))
    | 45%N :: offset => let? n := parse_number offset in Some (N.to_nat (N.of_nat row - n))
    | _ => let? n := parse_number addr in Some (N.to_nat (N.min (n - 1) (N.of_nat last_line)))
    end.

Definition parse_ex_range e (cmd : list N) : option (nat * nat * list N) :=
  match cmd with
  | 37%N :: rest => Some (0, line_count (e_buf e), rest)
  | _ =>
      let? (range_str, rest) := find_sub cmd in
      if bool_decide (range_str = []) then None
      else match cut_at 44 range_str with
           | None => let? ln := parse_line_address e range_str in Some (ln, ln + 1, rest)
           | Some (p0, p1) =>
               let? start := parse_line_address e p0 in
               let? end_ := parse_line_address e p1 in
               Some (start, end_ + 1, rest)
           end
  end.

(** ** The global command *)

Context (dispatch_builtin : string -> SearchEditor R Doc X -> option (SearchEditor R Doc X)).

Definition line_matches x b (line_idx : nat) : option bool :=
  let? line_text := Buffer.line_text b line_idx in
  Some (negb (bool_decide (find_iter x (trim_end 10 line_text) = []))).
Definition collect_lines x b (invert : bool) : option (list nat) :=
  each_line (fun acc i => let? m := line_matches x b i in Some (if bool_decide (m = invert) then acc else acc ++ [i]))
    [] (seq 0 (line_count b)).

Definition delete_line_at b (line_idx : nat) : option (Buffer R Doc) :=
  let? line_start := line_to_char (rope b) line_idx in
  let? line_end := (if line_idx + 1 <? line_count b then line_to_char (rope b) (line_idx + 1)
                    else Some (len_chars (rope b))) in
  if line_start <? line_end then delete_range b line_start line_end else Some b.

(** The normal-mode keys a global command accepts. *)
Definition key_command (ch : N) : option string :=
  if bool_decide (ch = 100%N) then Some "delete-line"
  else if bool_decide (ch = 120%N) then Some "delete-char"
  else if bool_decide (ch = 65%N) then Some "append-end-of-line"
  else if bool_decide (ch = 73%N) then Some "insert-beginning-of-line"
  else if bool_decide (ch = 48%N) then Some "move-line-start"
  else if bool_decide (ch = 36%N) then Some "move-line-end"
  else if bool_decide (ch = 74%N) then Some "join-lines"
  else None.
Fixpoint press_keys (keys : list N) e : option (SearchEditor R Doc X) :=
  match keys with
  | [] => Some e
  | ch :: keys' => match key_command ch with
                   | Some c => let? next := dispatch_builtin c e in press_keys keys' next
                   | None => press_keys keys' e
                   end
  end.
Definition keys_at (keys : list N) e (line_idx : nat) : option (SearchEditor R Doc X) :=
  let? shown := display_line_count (e_buf e) in
  press_keys keys (set_win e (mkWin (Nat.min line_idx (shown - 1)) 0 (primary (e_win e)))).

Definition normal_prefix : list N := [110; 111; 114; 109; 97; 108; 32]%N.
Definition execute_global_command e (cmd : list N) : option (SearchEditor R Doc X) :=
  let invert := bool_decide (take 2 cmd = [118; 47]%N) in
  let? rest := str_from cmd 2 in
  match cut_at 47 rest with
  | None => Some (set_status e GlobalUsage)
  | Some (pattern, after) =>
      let subcmd := trim_text after in
      if bool_decide (pattern = []) then Some (set_status e GlobalEmptyPattern)
      else match regex_new (apply_case_sensitivity e pattern) with
      | inl err => Some (set_status e (InvalidPattern err))
      | inr re =>
          let? matching_lines := collect_lines re (e_buf e) invert in
          if bool_decide (matching_lines = []) then Some (ring_bell (set_status e PatternNotFound))
          else if bool_decide (subcmd = [100%N]) then
            let? done_ := each_line delete_line_at (begin_undo_group (e_buf e)) (reverse matching_lines) in
            let b := end_undo_group done_ in
            let e := set_status (set_buf e b) (LinesDeleted (length matching_lines)) in
            let? w := clamp_cursor (e_win e) b in
            Some (set_win e w)
          else if bool_decide (take 2 subcmd = [115; 47]%N) then
            match parse_substitute subcmd with
            | inl err => Some (set_status e (SubstituteError err))
            | inr sub =>
                match regex_new (s_pattern sub) with
                | inl err => Some (set_status e (InvalidSubstitutePattern err))
                | inr sub_re =>
                    let? (done_, total_subs, lines_changed) :=
                      each_line (substitute_at sub_re (s_replacement sub) (s_global sub)) (e_buf e, 0, 0)
                        (reverse matching_lines) in
                    let e := set_buf e done_ in
                    Some (set_status e (if 0 <? total_subs then Substituted total_subs lines_changed else NoSubstitutions))
                end
            end
          else if bool_decide (take 7 subcmd = normal_prefix) then
            let? next := each_line (keys_at (drop 7 subcmd)) e (reverse matching_lines) in
            Some (set_status next (LinesProcessed (length matching_lines)))
          else Some (set_status e (Unsupported subcmd))
      end
  end.

(** The forms of a command line that reach these; [None] inside says that the
    line is another command's. *)
Definition try_search_line e (cmd : list N) : option (option (SearchEditor R Doc X)) :=
  if bool_decide (take 2 cmd = [103; 47]%N) || bool_decide (take 2 cmd = [118; 47]%N)
  then Some <$> execute_global_command e cmd
  else if bool_decide (take 2 cmd = [115; 47]%N) || bool_decide (take 3 cmd = [37; 115; 47]%N)
  then Some <$> execute_substitute_command e cmd
  else if bool_decide (is_Some (find_sub cmd)) then
    match parse_ex_range e cmd with
    | Some (start, end_, sub_cmd) => Some <$> execute_substitute_with_range e sub_cmd (Some (start, end_))
    | None => Some None
    end
  else Some None.
End SearchOps.

(** ** Lines of an edited text *)

Definition breaks : list N := [10; 11; 12; 133; 8232; 8233]%N.
(** A line with its break, and one without. *)
Definition ended_line (l : list N) : Prop := exists p c, l = p ++ [c] /\ c ∈ breaks /\ Forall (fun d => d ∉ breaks) p /\ 13%N ∉ l.
Definition open_line (l : list N) : Prop := Forall (fun d => d ∉ breaks) l /\ 13%N ∉ l.

Lemma breaks_no_return c s : c <> 13%N -> breaks_line c s = bool_decide (c ∈ breaks).
Proof. intros Hc. unfold breaks_line. rewrite (bool_decide_eq_false_2 (c = 13%N)) by done. by rewrite orb_false_r. Qed.
Lemma split_ended_line l rest : ended_line l -> split_lines (l ++ rest) = l :: split_lines rest.
Proof.
  intros (p & c & -> & Hc & Hp & Hr). induction p as [|d p IH]; cbn [app split_lines].
  - rewrite breaks_no_return by set_solver. by rewrite bool_decide_eq_true_2.
  - rewrite breaks_no_return by set_solver. inversion_clear Hp. rewrite bool_decide_eq_false_2 by done.
    by rewrite IH by set_solver.
Qed.
Lemma split_open_line l : open_line l -> split_lines l = [l].
Proof.
  intros [Hl Hr]. induction l as [|d l IH]; cbn [split_lines]; [done|]. inversion_clear Hl.
  rewrite breaks_no_return by set_solver. rewrite bool_decide_eq_false_2 by done. by rewrite IH by set_solver.
Qed.
(** Every line of a text without carriage returns but the last is whole. *)
Lemma split_lines_shape t : 13%N ∉ t -> exists ls l, split_lines t = ls ++ [l] /\ Forall ended_line ls /\ open_line l.
Proof.
  induction t as [|c t IH]; intros Hr; cbn [split_lines].
  - exists [], []. split; [done|]. split; [constructor|]. split; [constructor|set_solver].
  - destruct IH as (ls & l & -> & Hls & Hl); [set_solver|]. rewrite breaks_no_return by set_solver. case_bool_decide as Hc.
    + exists ([c] :: ls), l. split_and!; [done| |done]. constructor; [|done]. exists [], c. split_and!; [done|done|by constructor|set_solver].
    + destruct ls as [|l1 ls]; cbn [app].
      * exists [], (c :: l). destruct Hl as [Hl Hlr]. split_and!; [done|done|]. split; [by constructor|set_solver].
      * inversion_clear Hls as [|? ? Hl1 Hls']. destruct Hl1 as (p & d & -> & Hd & Hp & Hdr).
        exists ((c :: p ++ [d]) :: ls), l. split_and!; [done| |done]. constructor; [|done].
        exists (c :: p), d. split_and!; [done|done|by constructor|set_solver].
Qed.
Lemma split_ended_lines ls rest : Forall ended_line ls -> split_lines (concat ls ++ rest) = ls ++ split_lines rest.
Proof.
  induction 1 as [|l ls Hl _ IH]; [done|]. cbn [concat app]. by rewrite <- app_assoc, split_ended_line, IH.
Qed.

Section Edited.
Context {R Doc : Type} `{RopeLaws R, SyncDoc R Doc, ContentHash, SegmentationLaws}.
Implicit Types (b : Buffer R Doc).

(** A buffer that can be edited and is not shared. *)
Definition editable b : Prop := read_only b = false /\ sync_doc b = None.

Lemma push_undo_same b a : rope (push_undo b a) = rope b /\ read_only (push_undo b a) = read_only b /\ sync_doc (push_undo b a) = sync_doc b.
Proof. unfold push_undo. by destruct (undo_group_acc b). Qed.
Lemma char_to_line_in b i : i <= length (text b) -> exists l, char_to_line (rope b) i = Some l.
Proof. intros Hi. rewrite rope_char_to_line. rewrite (proj2 (Nat.leb_le _ _)) by done. by eexists. Qed.

Lemma edit_delete b s e b' : delete_range b s e = Some b' -> edit b b'.
Proof. intros He. exists (mkWin 0 0 (0, 0)). by eapply op_delete_range. Qed.
Lemma edit_insert b p s b' : insert_text_at b p s = Some b' -> edit b b'.
Proof. intros He. exists (mkWin 0 0 (0, 0)). by eapply op_insert_text_at. Qed.

Lemma edited_same b a : rope (edited (push_undo b a)) = rope b /\ read_only (edited (push_undo b a)) = read_only b /\
  sync_doc (edited (push_undo b a)) = sync_doc b.
Proof. apply (push_undo_same b a). Qed.
Lemma delete_range_text b s e : editable b -> s <= e -> e <= length (text b) ->
  exists b', delete_range b s e = Some b' /\ text b' = take s (text b) ++ drop e (text b) /\ editable b'.
Proof.
  intros [Hr Hs] Hse He. unfold delete_range. rewrite Hr, !rope_len_chars. fold (text b). rewrite !Nat.min_l by lia.
  destruct (Nat.leb_spec e s) as [Hle|Hlt].
  { exists b. assert (e = s) as -> by lia. by rewrite take_drop. }
  destruct (char_to_line_in b s) as [l Hl]; [lia|]. rewrite Hl, rope_slice. fold (text b).
  pose proof (rope_remove (rope b) s e) as Hrem. fold (text b) in Hrem.
  rewrite (proj2 (andb_true_iff _ _)) in Hrem |- * by (rewrite !Nat.leb_le; lia).
  destruct (remove (rope b) s e) as [r'|] eqn:Er; [|done]. injection Hrem as Hrem. eexists. split; [reflexivity|].
  unfold text, editable.
  match goal with |- context [edited (push_undo ?x ?a)] => destruct (edited_same x a) as (-> & -> & ->) end.
  unfold mark_changed. rewrite sync_delete_none by done. split; [exact Hrem|done].
Qed.
Lemma insert_text_at_text b p s : editable b -> p <= length (text b) ->
  exists b', insert_text_at b p s = Some b' /\ text b' = take p (text b) ++ s ++ drop p (text b) /\ editable b'.
Proof.
  intros [Hr Hs] Hp. unfold insert_text_at. rewrite Hr, !rope_len_chars. fold (text b). rewrite !Nat.min_l by lia.
  destruct (char_to_line_in b p) as [l Hl]; [lia|]. rewrite Hl.
  pose proof (rope_insert (rope b) p s) as Hins. fold (text b) in Hins. rewrite (proj2 (Nat.leb_le _ _)) in Hins by lia.
  destruct (insert (rope b) p s) as [r'|] eqn:Er; [|done]. injection Hins as Hins. rewrite sync_insert_none by done.
  destruct (char_to_line_in (set_rope b r') (Nat.min (p + length s) (length (text (set_rope b r'))))) as [l' Hl']; [lia|].
  rewrite rope_len_chars. unfold text in Hl'. rewrite Hl'. eexists. split; [reflexivity|]. unfold text, editable.
  match goal with |- context [edited (push_undo ?x ?a)] => destruct (edited_same x a) as (-> & -> & ->) end.
  split; [exact Hins|done].
Qed.

Lemma end_group_text b : text (end_undo_group b) = text b.
Proof. unfold end_undo_group, sync_undo_boundary, text. destruct (undo_group_acc b); cbn; by case_match. Qed.

(** The line at [k] of a text whose lines before it are those of [t]. *)
Lemma line_in_place b t k l rest : 13%N ∉ t -> split_lines t !! k = Some l ->
  text b = concat (take k (split_lines t)) ++ l ++ rest -> (S k = length (split_lines t) -> rest = []) ->
  line_to_char (rope b) k = Some (length (concat (take k (split_lines t)))) /\
  Buffer.line_text b k = Some l /\
  (if k + 1 <? line_count b then line_to_char (rope b) (k + 1) else Some (len_chars (rope b))) =
    Some (length (concat (take k (split_lines t))) + length l).
Proof.
  intros Ht Hk Htext Hlast. destruct (split_lines_shape t Ht) as (ls & z & Els & Hls & Hz). rewrite Els in *.
  assert (split_lines (text b) = take k (ls ++ [z]) ++ l :: (if k <? length ls then split_lines rest else [])) as Hsp.
  { rewrite Htext. destruct (Nat.ltb_spec k (length ls)) as [Hlt|Hge].
    - rewrite take_app_le by lia. rewrite lookup_app_l in Hk by done.
      rewrite split_ended_lines by by apply Forall_take. f_equal. apply split_ended_line. by eapply Forall_lookup_1.
    - rewrite lookup_app_r in Hk by done. assert (k = length ls) as ->.
      { apply lookup_lt_Some in Hk. cbn in Hk. lia. }
      rewrite Nat.sub_diag in Hk. injection Hk as ->. rewrite Hlast by (rewrite length_app; cbn; lia). rewrite app_nil_r.
      rewrite take_app_length, split_ended_lines by done. by rewrite split_open_line. }
  pose proof (lookup_lt_Some _ _ _ Hk) as Hlt. assert (length (take k (ls ++ [z])) = k) as Hlen by (rewrite length_take; lia).
  assert (length (split_lines (text b)) = k + 1 + (if k <? length ls then length (split_lines rest) else 0)) as Hcount.
  { rewrite Hsp, length_app, Hlen. cbn [length]. destruct (k <? length ls); cbn [length]; lia. }
  unfold Buffer.line_text, line_count. rewrite !rope_line_to_char, rope_len_lines, rope_line, rope_len_chars. fold (text b).
  rewrite !Hcount, Hsp. set (count := k + 1 + _).
  rewrite (proj2 (Nat.leb_le k count)), (proj2 (Nat.leb_le (k + 1) count)), (proj2 (Nat.leb_gt count k)) by lia.
  rewrite take_app_length' by done. split_and!; [done|by rewrite lookup_app_r, Hlen, Nat.sub_diag by lia|].
  destruct (Nat.ltb_spec (k + 1) count) as [Hin|Hout]; subst count.
  - f_equal. rewrite take_app_ge by lia. rewrite Hlen. replace (k + 1 - k) with 1 by lia. cbn [take]. rewrite take_0, concat_app, length_app.
    cbn. by rewrite app_nil_r.
  - f_equal. destruct (Nat.ltb_spec k (length ls)); [pose proof (split_lines_length rest); lia|].
    rewrite Htext, Hlast by (rewrite length_app in *; cbn in *; lia). rewrite app_nil_r, length_app. done.
Qed.

(** A loop over lines from the last to the first: what [step] does to the line
    at hand is what happens to the line of the text. *)
Lemma each_line_down {S : Type} (get : S -> Buffer R Doc) (step : S -> nat -> option S) (F : list N -> list N) t js :
  13%N ∉ t ->
  (forall s k l rest, editable (get s) -> split_lines t !! k = Some l ->
    text (get s) = concat (take k (split_lines t)) ++ l ++ rest -> (Datatypes.S k = length (split_lines t) -> rest = []) ->
    exists s', step s k = Some s' /\ editable (get s') /\ rtc edit (get s) (get s') /\
      text (get s') = concat (take k (split_lines t)) ++ F l ++ rest) ->
  StronglySorted lt js -> forall s n rest, editable (get s) -> n <= length (split_lines t) -> Forall (fun j => j < n) js ->
  text (get s) = concat (take n (split_lines t)) ++ rest -> (n = length (split_lines t) -> rest = []) ->
  exists s', each_line step s (reverse js) = Some s' /\ editable (get s') /\ rtc edit (get s) (get s') /\
    text (get s') = concat (imap (fun i l => if bool_decide (i ∈ js) then F l else l) (take n (split_lines t))) ++ rest.
Proof.
  intros Ht Hstep Hsort. set (ls := split_lines t) in *. induction js as [|j js IH] using rev_ind; intros s n rest Hs Hn Hjs Htext Hlast.
  - exists s. split_and!; [done|done|done|]. rewrite Htext. f_equal. f_equal. apply list_eq. intros i. rewrite list_lookup_imap.
    by destruct (take n ls !! i).
  - rewrite reverse_snoc. cbn [each_line]. apply Forall_app in Hjs as [Hjs Hj]. inversion_clear Hj as [|? ? Hjn _].
    apply StronglySorted_app in Hsort as (Hbefore & Hsort & _).
    destruct (lookup_lt_is_Some_2 ls j ltac:(lia)) as [l Hl].
    assert (take n ls = take j ls ++ l :: drop (Datatypes.S j) (take n ls)) as Hsplit.
    { rewrite <- (take_drop_middle (take n ls) j l) at 1 by (by rewrite lookup_take_lt). by rewrite take_take, Nat.min_l by lia. }
    set (after := drop (Datatypes.S j) (take n ls)) in *.
    destruct (Hstep s j l (concat after ++ rest) Hs Hl) as (s1 & -> & Hs1 & Hr1 & Ht1).
    { rewrite Htext, Hsplit, concat_app. cbn. by rewrite <- !app_assoc. }
    { intros Hend. rewrite Hlast by lia. unfold after. rewrite drop_ge by (rewrite length_take; lia). done. }
    destruct (IH Hsort s1 j (F l ++ concat after ++ rest) Hs1 ltac:(lia)) as (s2 & -> & Hs2 & Hr2 & Ht2).
    { apply Forall_forall. intros i Hi. apply (Hbefore i j Hi). by apply list_elem_of_singleton. }
    { done. }
    { intros ->. apply lookup_lt_Some in Hl. lia. }
    exists s2. split_and!; [done|done|by etrans|]. rewrite Ht2, Hsplit, imap_app, concat_app. cbn [imap concat].
    rewrite length_take, Nat.min_l, Nat.add_0_r by (apply lookup_lt_Some in Hl; lia).
    rewrite (bool_decide_eq_true_2 (j ∈ js ++ [j])) by set_solver. rewrite <- !app_assoc. f_equal; [|f_equal; f_equal].
    + f_equal. apply list_eq. intros i. rewrite !list_lookup_imap. destruct (take j ls !! i) as [li|] eqn:Ei; [|done]. cbn. f_equal.
      apply lookup_lt_Some in Ei. rewrite length_take in Ei.
      by rewrite (bool_decide_ext (i ∈ js ++ [j]) (i ∈ js)) by (rewrite elem_of_app, list_elem_of_singleton; naive_solver lia).
    + f_equal. apply list_eq. intros i. rewrite list_lookup_imap. destruct (after !! i) as [li|] eqn:Ei; [|done]. cbn. f_equal.
      rewrite bool_decide_eq_false_2; [done|]. rewrite elem_of_app, list_elem_of_singleton. intros [Hin|Heq]; [|lia].
      specialize (Hbefore _ j Hin ltac:(by apply list_elem_of_singleton)). lia.
Qed.
End Edited.

Section SearchOpsProofs.
Context {R Doc X : Type} `{RopeLaws R, SyncDoc R Doc, ContentHash, SegmentationLaws, RegexLaws X, RegexNew X, Unicode, UnicodeCase}.
Implicit Types (e : SearchEditor R Doc X) (b : Buffer R Doc) (x : X).

(** *** Searching never panics *)

Lemma push_total t ms off : forall from acc, ranges_ok t from ms ->
  exists res, push_matches (build_byte_to_char_map t) off ms acc = Some res.
Proof.
  induction ms as [|[s en] ms IH]; intros from acc Hok; [by eexists|]. destruct Hok as (_ & Hs & He & Hok). cbn [push_matches].
  rewrite !byte_map_lookup by done. case_match; [by eexists|]. by eapply IH.
Qed.
Lemma chunked_total x ls : forall off acc, exists ms, chunked_from x ls off acc = Some ms.
Proof.
  induction ls as [|l ls IH]; intros off acc; [by eexists|]. cbn [chunked_from].
  destruct (push_total l (find_iter x l) off 0 acc (find_iter_ok x l)) as [[acc' full] ->]. destruct full; [by eexists|apply IH].
Qed.
Lemma rope_lines_total (r : R) k : forall i, i + k <= len_lines r -> exists ls, rope_lines_from r i k = Some ls.
Proof.
  induction k as [|k IH]; intros i Hi; [by eexists|]. cbn [rope_lines_from]. rewrite rope_line.
  destruct (lookup_lt_is_Some_2 (split_lines (rope_chars r)) i) as [l ->]; [rewrite <- rope_len_lines; lia|].
  destruct (IH (S i)) as [ls ->]; [lia|]. by eexists.
Qed.
Lemma find_all_total (r : R) x : exists ms, find_all r x = Some ms.
Proof.
  unfold find_all. case_match.
  - unfold find_all_chunked. destruct (rope_lines_total r (len_lines r) 0) as [ls ->]; [lia|]. apply chunked_total.
  - destruct (push_total (rope_chars r) (find_iter x (rope_chars r)) 0 0 [] (find_iter_ok _ _)) as [res ->]. by eexists.
Qed.
Lemma recompute_total e : exists e', recompute_search_matches e = Some e' /\ e_buf e' = e_buf e /\ e_win e' = e_win e.
Proof.
  unfold recompute_search_matches. destruct (ss_regex (e_search e)) as [re|]; [|by eexists].
  destruct (find_all_total (rope (e_buf e)) re) as [ms ->]. by eexists.
Qed.

(** *** Substitution *)

Lemma substitute_line_total l x rep g : exists new n, substitute_line l x rep g = Some (new, n).
Proof.
  unfold substitute_line. destruct g; [|destruct (find_iter x l); by do 2 eexists].
  destruct (splice_pieces l rep (find_iter x l) 0 (find_iter_ok x l)) as (pieces & tail & _ & _ & ->); [by destruct l|]. by do 2 eexists.
Qed.
(** A line after a substitution: its content replaced, its newline kept. *)
Definition substituted x (rep : list N) (g : bool) (l : list N) : list N :=
  match substitute_line (trim_end 10 l) x rep g with
  | Some (new, n) => if 0 <? n then new ++ drop (length (trim_end 10 l)) l else l
  | None => l
  end.

Lemma substitute_at_step x rep g t (s : Buffer R Doc * nat * nat) k l rest :
  13%N ∉ t -> editable s.1.1 -> split_lines t !! k = Some l ->
  text s.1.1 = concat (take k (split_lines t)) ++ l ++ rest -> (S k = length (split_lines t) -> rest = []) ->
  exists s', substitute_at x rep g s k = Some s' /\ editable s'.1.1 /\ rtc edit s.1.1 s'.1.1 /\
    text s'.1.1 = concat (take k (split_lines t)) ++ substituted x rep g l ++ rest.
Proof.
  intros Hcr Hs Hl Ht Hlast. destruct s as [[b total] changed]. cbn [fst snd] in *.
  destruct (line_in_place b t k l rest Hcr Hl Ht Hlast) as (Hstart & Hline & _).
  unfold substitute_at, substituted. rewrite Hstart, Hline. destruct (trim_end_prefix 10 l) as (tl & Etl & _).
  set (content := trim_end 10 l) in *. destruct (substitute_line_total content x rep g) as (new & n & ->).
  set (before := concat (take k (split_lines t))) in *. destruct (0 <? n).
  - destruct (delete_range_text b (length before) (length before + length content)) as (b1 & E1 & T1 & Hb1); [done|lia| |].
    { rewrite Ht, Etl, !length_app. lia. }
    assert (text b1 = before ++ tl ++ rest) as T1'.
    { rewrite T1, Ht, Etl, take_app_length, drop_app_add, <- !app_assoc. by rewrite drop_app_length. }
    destruct (insert_text_at_text b1 (length before) new) as (b2 & E2 & T2 & Hb2); [done|rewrite T1', length_app; lia|].
    rewrite E1, E2. eexists. split; [reflexivity|]. cbn [fst snd]. split_and!; [done| |].
    + eapply rtc_l; [by eapply edit_delete|]. apply rtc_once. by eapply edit_insert.
    + rewrite T2, T1', take_app_length, drop_app_length, Etl. by rewrite drop_app_length, <- !app_assoc.
  - eexists. split; [reflexivity|]. cbn. done.
Qed.

(** The lines a substitution works on. *)
Definition target_lines e (sub : SubstituteCommand) (range : option (nat * nat)) : nat * nat :=
  match range with
  | Some r => r
  | None => if whole_buffer sub then (0, line_count (e_buf e)) else (cursor_row (e_win e), cursor_row (e_win e) + 1)
  end.
(** The text after it. *)
Definition substituted_text (t : list N) x (sub : SubstituteCommand) (lines : nat * nat) : list N :=
  concat (imap (fun i l => if (lines.1 <=? i) && (i <? lines.2) then substituted x (s_replacement sub) (s_global sub) l else l)
            (split_lines t)).

Lemma seq_sorted n : forall a, StronglySorted lt (seq a n).
Proof.
  induction n as [|n IH]; intros a; cbn [seq]; constructor; [apply IH|]. apply Forall_forall. intros i Hi%elem_of_seq. lia.
Qed.
Lemma substitution_run e cmd range sub re :
  parse_substitute cmd = inr sub -> regex_new (s_pattern sub) = inr re -> editable (e_buf e) -> 13%N ∉ text (e_buf e) ->
  (target_lines e sub range).2 <= line_count (e_buf e) ->
  let multi := ((target_lines e sub range).2 <? (target_lines e sub range).1) ||
               (1 <? (target_lines e sub range).2 - (target_lines e sub range).1) in
  exists e' b', execute_substitute_with_range e cmd range = Some e' /\ e_win e' = e_win e /\
    e_buf e' = (if multi then end_undo_group b' else b') /\
    rtc edit (if multi then begin_undo_group (e_buf e) else e_buf e) b' /\
    text b' = substituted_text (text (e_buf e)) re sub (target_lines e sub range).
Proof.
  intros Hp Hre Hed Hcr Hend multi. unfold execute_substitute_with_range. rewrite Hp, Hre. fold (target_lines e sub range).
  unfold substituted_text. destruct (target_lines e sub range) as [s en] eqn:Et. cbn [fst snd] in *. fold multi.
  set (b0 := if multi then begin_undo_group (e_buf e) else e_buf e).
  assert (editable b0 /\ text b0 = text (e_buf e)) as [Hb0 Ht0] by (unfold b0; by destruct multi).
  pose proof (rope_len_lines (rope (e_buf e))) as Hn. fold (text (e_buf e)) in Hn. unfold line_count in Hend. rewrite Hn in Hend.
  destruct (each_line_down (fun s : Buffer R Doc * nat * nat => s.1.1) (substitute_at re (s_replacement sub) (s_global sub))
    (substituted re (s_replacement sub) (s_global sub)) (text (e_buf e)) (seq s (en - s)) Hcr) with
    (s := (b0, 0, 0)) (n := length (split_lines (text (e_buf e)))) (rest := @nil N) as (st & Est & _ & Hr & Htext).
  { intros. by apply (substitute_at_step _ _ _ (text (e_buf e))). }
  { apply seq_sorted. }
  { done. }
  { done. }
  { apply Forall_forall. intros i Hi%elem_of_seq. lia. }
  { cbn [fst]. by rewrite take_ge, split_lines_concat, app_nil_r. }
  { done. }
  destruct st as [[b' total] changed]. unfold lines_down. rewrite Est. cbn [fst snd] in *.
  rewrite app_nil_r, (take_ge (split_lines (text (e_buf e)))) in Htext by lia.
  assert (text b' = concat (imap (fun i l => if (s <=? i) && (i <? en) then substituted re (s_replacement sub) (s_global sub) l else l)
            (split_lines (text (e_buf e))))) as Htext'.
  { rewrite Htext. f_equal. apply list_eq. intros i. rewrite !list_lookup_imap.
    destruct (split_lines (text (e_buf e)) !! i) as [l|]; [|done]. apply (f_equal Some).
    destruct (Nat.leb_spec s i), (Nat.ltb_spec i en); cbn [andb]; case_bool_decide as Hin; try done; rewrite elem_of_seq in Hin; lia. }
  destruct (0 <? total).
  - match goal with |- context [recompute_search_matches ?a] => destruct (recompute_total a) as (e' & -> & Hbuf & Hwin) end.
    exists e', b'. by rewrite Hbuf, Hwin.
  - eexists _, b'. split; [reflexivity|]. done.
Qed.


(** A substitution over several lines is one step of the history: whatever it
    changed, one undo restores. *)
Theorem lines_substitution_is_one_undo e cmd range sub re w :
  parse_substitute cmd = inr sub -> regex_new (s_pattern sub) = inr re -> history_ok (e_buf e) -> undo_group_acc (e_buf e) = None ->
  read_only (e_buf e) = false -> 13%N ∉ text (e_buf e) -> (target_lines e sub range).2 <= line_count (e_buf e) ->
  (target_lines e sub range).1 + 1 < (target_lines e sub range).2 ->
  substituted_text (text (e_buf e)) re sub (target_lines e sub range) <> text (e_buf e) ->
  exists e' b2 w2, execute_substitute_with_range e cmd range = Some e' /\
    undo (e_buf e') w = Some (b2, w2) /\ text b2 = text (e_buf e).
Proof.
  intros Hp Hre Hok Ha Hro Hcr Hend Hmulti Hne.
  destruct (substitution_run e cmd range sub re Hp Hre (conj Hro (ho_sync _ Hok)) Hcr Hend) as (e' & b' & He & Hw & Hb & Hr & Ht).
  rewrite (proj2 (Nat.ltb_lt 1 _)), orb_true_r in Hb, Hr by lia.
  destruct (undo_group_is_atomic (e_buf e) b' w Hok Ha Hr) as (b2 & w2 & Hu & Ht2); [by rewrite Ht|].
  exists e', b2, w2. by rewrite Hb.
Qed.

(** ** The global command *)

Definition matches_line x (l : list N) : bool := negb (bool_decide (find_iter x (trim_end 10 l) = [])).
Lemma line_matches_eq x b i l : split_lines (text b) !! i = Some l -> line_matches x b i = Some (matches_line x l).
Proof.
  intros Hl. unfold line_matches, Buffer.line_text. rewrite rope_len_lines, rope_line. fold (text b).
  rewrite (proj2 (Nat.leb_gt _ _)) by (by eapply lookup_lt_Some). by rewrite Hl.
Qed.
Definition picked x (ls : list (list N)) (invert : bool) (i : nat) : bool :=
  match ls !! i with Some l => negb (bool_decide (matches_line x l = invert)) | None => false end.
Lemma collect_from x b invert ks : forall acc, Forall (fun k => k < length (split_lines (text b))) ks ->
  each_line (fun acc i => let? m := line_matches x b i in Some (if bool_decide (m = invert) then acc else acc ++ [i])) acc ks =
  Some (acc ++ List.filter (picked x (split_lines (text b)) invert) ks).
Proof.
  induction ks as [|k ks IH]; intros acc Hks; cbn [each_line List.filter]; [by rewrite app_nil_r|]. inversion_clear Hks as [|? ? Hk Hks'].
  destruct (lookup_lt_is_Some_2 _ _ Hk) as [l Hl]. rewrite (line_matches_eq x b k l Hl), IH by done.
  destruct (picked x (split_lines (text b)) invert k) eqn:Ep; unfold picked in Ep; rewrite Hl in Ep; case_bool_decide; try done.
  by rewrite <- app_assoc.
Qed.
Lemma filter_sorted (f : nat -> bool) ks : StronglySorted lt ks -> StronglySorted lt (List.filter f ks).
Proof.
  induction 1 as [|k ks _ IH Hk]; cbn; [constructor|]. case_match; [|done]. constructor; [done|].
  rewrite Forall_forall in *. intros i Hi. apply list_elem_of_In, List.filter_In in Hi as [Hi _]. by apply Hk, list_elem_of_In.
Qed.
Lemma collect_lines_eq x b invert :
  collect_lines x b invert = Some (List.filter (picked x (split_lines (text b)) invert) (seq 0 (length (split_lines (text b))))).
Proof.
  unfold collect_lines, line_count. rewrite rope_len_lines. fold (text b). rewrite collect_from; [done|].
  apply Forall_forall. intros i Hi%elem_of_seq. lia.
Qed.

Lemma delete_line_step t (b : Buffer R Doc) k l rest :
  13%N ∉ t -> editable b -> split_lines t !! k = Some l ->
  text b = concat (take k (split_lines t)) ++ l ++ rest -> (S k = length (split_lines t) -> rest = []) ->
  exists b', delete_line_at b k = Some b' /\ editable b' /\ rtc edit b b' /\ text b' = concat (take k (split_lines t)) ++ [] ++ rest.
Proof.
  intros Hcr Hb Hl Ht Hlast. destruct (line_in_place b t k l rest Hcr Hl Ht Hlast) as (Hstart & _ & Hend).
  unfold delete_line_at. rewrite Hstart, Hend. set (before := concat (take k (split_lines t))) in *.
  destruct (Nat.ltb_spec (length before) (length before + length l)) as [Hlt|Hge].
  - destruct (delete_range_text b (length before) (length before + length l)) as (b1 & E1 & T1 & Hb1); [done|lia| |].
    { rewrite Ht, !length_app. lia. }
    exists b1. split_and!; [done|done|apply rtc_once; by eapply edit_delete|].
    by rewrite T1, Ht, take_app_length, drop_app_add, drop_app_length.
  - destruct l; cbn in *; [|lia]. by exists b.
Qed.
Lemma concat_filter (f : list N -> bool) (ls : list (list N)) :
  concat (map (fun l => if f l then l else []) ls) = concat (List.filter f ls).
Proof. induction ls as [|l ls IH]; cbn; [done|]. rewrite IH. by destruct (f l). Qed.
Lemma deleted_lines x invert (ls : list (list N)) :
  concat (imap (fun i l => if bool_decide (i ∈ List.filter (picked x ls invert) (seq 0 (length ls))) then [] else l) ls) =
  concat (List.filter (fun l => bool_decide (matches_line x l = invert)) ls).
Proof.
  rewrite <- concat_filter. f_equal. apply list_eq. intros i. rewrite list_lookup_imap.
  destruct (ls !! i) as [l|] eqn:El.
  - pose proof (lookup_lt_Some _ _ _ El). change (map ?f ?l) with (f <$> l). rewrite list_lookup_fmap, El. apply (f_equal Some).
    assert (i ∈ List.filter (picked x ls invert) (seq 0 (length ls)) <-> matches_line x l <> invert) as Hin.
    { rewrite list_elem_of_In, List.filter_In, <- list_elem_of_In, elem_of_seq. unfold picked. rewrite El, negb_true_iff, bool_decide_eq_false. naive_solver lia. }
    rewrite (bool_decide_ext _ _ Hin). case_bool_decide; case_bool_decide; done.
  - change (map ?f ?l) with (f <$> l). by rewrite list_lookup_fmap, El.
Qed.

(** C22. The global delete command removes exactly the lines that match its
    pattern (that do not, when it starts with a [v]) and never panics; what it
    removed, one undo brings back. *)
Theorem global_delete_keeps_the_rest dispatch e cmd rest pattern after re :
  str_from cmd 2 = Some rest -> cut_at 47 rest = Some (pattern, after) -> pattern <> [] -> trim_text after = [100%N] ->
  regex_new (apply_case_sensitivity e pattern) = inr re -> history_ok (e_buf e) -> undo_group_acc (e_buf e) = None ->
  read_only (e_buf e) = false -> 13%N ∉ text (e_buf e) ->
  exists e', execute_global_command dispatch e cmd = Some e' /\
    text (e_buf e') = concat (List.filter (fun l => bool_decide (matches_line re l = bool_decide (take 2 cmd = [118; 47]%N)))
                                (split_lines (text (e_buf e)))) /\
    (text (e_buf e') <> text (e_buf e) -> forall w, exists b2 w2, undo (e_buf e') w = Some (b2, w2) /\ text b2 = text (e_buf e)).
Proof.
  intros Hrest Hcut Hne Hd Hre Hok Ha Hro Hcr. unfold execute_global_command. rewrite Hrest, Hcut, Hd, Hre.
  rewrite (bool_decide_eq_false_2 (pattern = [])) by done. set (invert := bool_decide (take 2 cmd = _)).
  rewrite collect_lines_eq, (bool_decide_eq_true_2 ([100%N] = [100%N])) by done. rewrite <- deleted_lines.
  set (ls := split_lines (text (e_buf e))). set (js := List.filter _ _). case_bool_decide as Hjs.
  - eexists. split; [reflexivity|]. split; [|done]. cbn [e_buf ring_bell set_status]. rewrite Hjs.
    rewrite <- (split_lines_concat (text (e_buf e))) at 1. fold ls. f_equal. apply list_eq. intros i. rewrite list_lookup_imap. by destruct (ls !! i).
  - destruct (each_line_down (fun b : Buffer R Doc => b) delete_line_at (fun _ => []) (text (e_buf e)) js Hcr) with
      (s := begin_undo_group (e_buf e)) (n := length ls) (rest := @nil N) as (b' & -> & _ & Hr & Htext).
    { intros. by apply (delete_line_step (text (e_buf e)) _ _ l). }
    { apply filter_sorted, seq_sorted. }
    { split; [done|apply Hok]. }
    { done. }
    { apply Forall_forall. intros i Hi. unfold js in Hi. rewrite list_elem_of_In, List.filter_In, <- list_elem_of_In, elem_of_seq in Hi. lia. }
    { fold ls. rewrite take_ge, app_nil_r by done. symmetry. apply split_lines_concat. }
    { done. }
    fold ls in Htext. rewrite take_ge, app_nil_r in Htext by done.
    destruct (clamp_cursor_total (e_win e) (end_undo_group b')) as [w' Hw]. cbn [e_win set_status set_buf]. rewrite Hw. eexists. split; [reflexivity|].
    cbn [e_buf set_win set_status set_buf].
    rewrite end_group_text. split; [done|]. intros Hchg w. by apply undo_group_is_atomic.
Qed.

(** ** Where the cursor goes *)

Lemma byte_len_concat_take (ls : list (list N)) k p : length (concat (take k ls)) <= p ->
  byte_len (concat (take k ls)) <= byte_len (take p (concat ls)).
Proof.
  intros Hp. assert (concat ls = concat (take k ls) ++ concat (drop k ls)) as E by (by rewrite <- concat_app, take_drop).
  rewrite E, take_app_ge by done. rewrite byte_len_app. lia.
Qed.
(** The row and the byte column of a character lead back to it. *)
Lemma position_of_offset b p row col : p <= length (text b) ->
  char_to_line (rope b) p = Some row -> byte_col_of_char_offset b row p = Some col -> char_offset_at b row col = Some p.
Proof.
  intros Hp Hrow Hcol. unfold byte_col_of_char_offset, char_offset_at, byte_offset_at, floor_rope_byte, line_count in *.
  rewrite !rope_len_lines, !rope_len_chars, !rope_len_bytes, !rope_char_to_line, !rope_line_to_byte in *. fold (text b) in *.
  rewrite (proj2 (Nat.leb_le p _)) in Hrow by done. injection Hrow as Hrow. rewrite Nat.min_l in Hcol by done.
  rewrite rope_char_to_byte in Hcol. fold (text b) in Hcol. rewrite (proj2 (Nat.leb_le p _)) in Hcol by done.
  set (ls := split_lines (text b)) in *. destruct (line_of_spec ls p) as (Hk & Hge & Hnext).
  { unfold ls. pose proof (split_lines_length (text b)). by destruct (split_lines (text b)); cbn in *; [lia|]. }
  rewrite Hrow in Hk, Hge, Hnext. rewrite Nat.min_l in Hcol |- * by lia. rewrite (proj2 (Nat.leb_le row _)) in Hcol |- * by lia. injection Hcol as Hcol.
  case_bool_decide as Hempty; [rewrite Hempty in Hp; f_equal; lia|]. case_bool_decide as Hzero.
  { exfalso. destruct (text b) as [|c t]; [done|]. cbn in Hzero. pose proof (char_len_pos c). lia. }
  rewrite rope_line. fold (text b) ls. destruct (lookup_lt_is_Some_2 ls row Hk) as [l Hl]. rewrite Hl.
  assert (text b = concat ls) as Ecat by (symmetry; apply split_lines_concat).
  assert (concat ls = concat (take row ls) ++ l ++ concat (drop (S row) ls)) as E.
  { rewrite <- (take_drop_middle ls row l Hl) at 1. by rewrite concat_app. }
  pose proof (byte_len_concat_take ls row p Hge) as Hb. rewrite <- Ecat in Hb.
  assert (byte_len (take p (text b)) <= byte_len (concat (take row ls)) + byte_len l) as Hend.
  { rewrite Ecat, E, take_app_ge by done. rewrite byte_len_app. apply Nat.add_le_mono_l.
    destruct (decide (S row < length ls)) as [Hlt|Hlast].
    - specialize (Hnext Hlt). rewrite (take_S_r _ _ l Hl), concat_app, length_app in Hnext. cbn in Hnext. rewrite app_nil_r in Hnext.
      rewrite take_app_le by lia. apply byte_len_take_le.
    - rewrite (drop_ge ls) by lia. cbn. rewrite app_nil_r. apply byte_len_take_le. }
  pose proof (byte_len_take_le (text b) p) as Hle.
  replace (Nat.min (Nat.min _ _) _) with (byte_len (take p (text b))) by lia.
  assert (byte_to_char (rope b) (byte_len (take p (text b))) = Some p) as Hback.
  { rewrite rope_byte_to_char. fold (text b). rewrite (proj2 (Nat.leb_le _ _)) by done. by rewrite chars_before_boundary. }
  rewrite Hback, rope_char_to_byte. fold (text b). by rewrite (proj2 (Nat.leb_le p _)) by done.
Qed.

Lemma match_in_text r x offset d m : (N.of_nat (length (rope_chars (r : R))) <= CHUNK_LIMIT)%N ->
  find_next r x offset d true = Some (Some m) -> m_start m <= length (rope_chars r).
Proof.
  intros Hs Hf. unfold find_next in Hf. rewrite find_all_exact in Hf by done. injection Hf as Hf.
  assert (m ∈ take (N.to_nat MAX_SEARCH_MATCHES) (map (in_chars (rope_chars r)) (find_iter x (rope_chars r)))) as Hin.
  { set (l := take _ _) in *. destruct d.
    - destruct (List.find _ l) as [m'|] eqn:E.
      + injection Hf as ->. apply List.find_some in E as [E _]. by apply list_elem_of_In.
      + destruct l; [done|]. injection Hf as ->. by left.
    - destruct (List.find _ (reverse l)) as [m'|] eqn:E.
      + injection Hf as ->. apply List.find_some in E as [E _]. apply list_elem_of_In in E. by rewrite elem_of_reverse in E.
      + by apply last_Some_elem_of. }
  apply elem_of_take in Hin as (i & Hi & _). change (map ?f ?l) with (f <$> l) in Hi. rewrite list_lookup_fmap in Hi.
  destruct (find_iter x (rope_chars r) !! i) as [q|]; [|done]. injection Hi as <-. apply chars_before_le.
Qed.

(** C23. The cursor after a search is on the match that [find_next] finds from
    where it was, in the direction of the search or, for the command that goes
    back, in the other; without a match it stays and the bell rings. *)
Theorem search_moves_to_match e same re offset :
  ss_regex (e_search e) = Some re -> (N.of_nat (length (text (e_buf e))) <= CHUNK_LIMIT)%N ->
  char_offset_at (e_buf e) (cursor_row (e_win e)) (cursor_col (e_win e)) = Some offset ->
  exists e' found, jump_to_next_match e same = Some e' /\
    find_next (rope (e_buf e)) re offset
      (if same then ss_direction (e_search e) else opposite (ss_direction (e_search e))) true = Some found /\
    e_buf e' = e_buf e /\
    match found with
    | Some m => char_offset_at (e_buf e') (cursor_row (e_win e')) (cursor_col (e_win e')) = Some (m_start m)
    | None => e_win e' = e_win e /\ e_bell e' = true
    end.
Proof.
  intros Hre Hs Hoff. unfold jump_to_next_match. rewrite Hre, Hoff. set (d := if same then _ else _).
  destruct (find_next (rope (e_buf e)) re offset d true) as [[m|]|] eqn:Ef.
  - pose proof (match_in_text _ _ _ _ _ Hs Ef) as Hm. fold (text (e_buf e)) in Hm.
    destruct (char_to_line_in (e_buf e) (m_start m) Hm) as [row Hrow]. rewrite Hrow.
    destruct (byte_col_of_char_offset (e_buf e) row (m_start m)) as [col|] eqn:Ec.
    + eexists _, (Some m). split; [reflexivity|]. split_and!; [done|done|]. cbn. by apply position_of_offset.
    + exfalso. unfold byte_col_of_char_offset in Ec. rewrite rope_char_to_byte, rope_len_chars in Ec. fold (text (e_buf e)) in Ec.
      rewrite (proj2 (Nat.leb_le _ _)) in Ec by lia. rewrite rope_line_to_byte, rope_len_lines in Ec. fold (text (e_buf e)) in Ec.
      rewrite (proj2 (Nat.leb_le _ _)) in Ec by lia. done.
  - eexists _, None. by split_and!.
  - exfalso. unfold find_next in Ef. by rewrite find_all_exact in Ef.
Qed.

(** *** Ranges *)

Lemma line_address_in_buffer e addr n : cursor_row (e_win e) < line_count (e_buf e) ->
  parse_line_address e addr = Some n -> n < line_count (e_buf e).
Proof.
  intros Hrow. unfold parse_line_address. set (last_line := line_count (e_buf e) - 1). set (row := cursor_row (e_win e)) in *.
  repeat case_match; intros [= <-]; try done; subst last_line; lia.
Qed.
(** A range in front of a substitution names lines of the buffer. *)
Theorem ranges_stay_in_buffer e cmd s en rest : cursor_row (e_win e) < line_count (e_buf e) ->
  parse_ex_range e cmd = Some (s, en, rest) -> s < line_count (e_buf e) /\ en <= line_count (e_buf e).
Proof.
  intros Hrow. assert (forall n addr, parse_line_address e addr = Some n -> n < line_count (e_buf e)) as Haddr
    by (intros n addr; by apply line_address_in_buffer).
  assert ((let? (range_str, rest) := find_sub cmd in
      if bool_decide (range_str = []) then None
      else match cut_at 44 range_str with
           | None => let? ln := parse_line_address e range_str in Some (ln, ln + 1, rest)
           | Some (p0, p1) => let? start := parse_line_address e p0 in let? end_ := parse_line_address e p1 in Some (start, end_ + 1, rest)
           end) = Some (s, en, rest) -> s < line_count (e_buf e) /\ en <= line_count (e_buf e)) as Hsub.
  { destruct (find_sub cmd) as [[rs rest']|]; [|done]. case_bool_decide; [done|]. destruct (cut_at 44 rs) as [[p0 p1]|].
    - destruct (parse_line_address e p0) as [n0|] eqn:E0; [|done]. destruct (parse_line_address e p1) as [n1|] eqn:E1; [|done].
      intros [= <- <- <-]. apply Haddr in E0, E1. lia.
    - destruct (parse_line_address e rs) as [n0|] eqn:E0; [|done]. intros [= <- <- <-]. apply Haddr in E0. lia. }
  unfold parse_ex_range. destruct cmd as [|c cmd]; [apply Hsub|]. destruct (decide (c = 37%N)) as [->|Hc].
  - intros [= <- <- <-]. lia.
  - intros Hp. apply Hsub. rewrite <- Hp. repeat case_match; congruence.
Qed.
End SearchOpsProofs.

(** ** Witnesses *)
Module SearchOpsWitnesses.
Import PlainBuffer CharRegex ListRope.
(** The patterns of [CharRegex] are the texts of one character. *)
#[export] Instance one_char : RegexNew N := {| regex_new p := match p with [c] => inr c | _ => inl p end |}.
#[export] Instance ascii_words : Unicode := {| is_alphanumeric c := (97 <=? c)%N && (c <=? 122)%N |}.
#[export] Instance ascii_case : UnicodeCase := {| is_uppercase c := (65 <=? c)%N && (c <=? 90)%N |}.
Definition search_editor := SearchEditor (list N) unit N.
Definition editing (t : list N) (w : Window) : search_editor :=
  mkSearchEditor (from_content t) w [] (mkSearch [] None Forward [] false) false false (0, 0) false false [] [] [] false.
Definition nothing (c : string) (e : search_editor) : option search_editor := Some e.

Definition two_lines : search_editor := editing (ascii_text "one
two") home.
Definition replaced : list N := ascii_text "0ne
tw0".
Definition all_o : SubstituteCommand := mkSubst true (ascii_text "o") (ascii_text "0") true.


Lemma lines_substitution_is_one_undo_witness :
  exists e' b2 w2, execute_substitute_with_range two_lines (ascii_text "%s/o/0/g") None = Some e' /\
    undo (e_buf e') home = Some (b2, w2) /\ text b2 = text (e_buf two_lines).
Proof.
  apply (lines_substitution_is_one_undo two_lines (ascii_text "%s/o/0/g") None
           all_o 111%N home);
    [reflexivity|reflexivity|by apply history_cleared|reflexivity|reflexivity| |vm_compute; lia|vm_compute; lia|by vm_compute].
  apply (bool_decide_unpack _). by vm_compute.
Defined.

Lemma global_delete_keeps_the_rest_witness :
  exists e', execute_global_command nothing two_lines (ascii_text "v/w/d") = Some e' /\
    text (e_buf e') = ascii_text "two" /\
    (text (e_buf e') <> text (e_buf two_lines) ->
     forall w, exists b2 w2, undo (e_buf e') w = Some (b2, w2) /\ text b2 = text (e_buf two_lines)).
Proof.
  replace (ascii_text "two") with (concat (List.filter (fun l => bool_decide (matches_line 119%N l =
    bool_decide (take 2 (ascii_text "v/w/d") = [118; 47]%N))) (split_lines (text (e_buf two_lines))))) by (by vm_compute).
  apply (global_delete_keeps_the_rest nothing two_lines (ascii_text "v/w/d") (ascii_text "w/d") (ascii_text "w") (ascii_text "d") 119%N);
    [reflexivity|reflexivity|done|reflexivity|reflexivity|by apply history_cleared|reflexivity|reflexivity|].
  apply (bool_decide_unpack _). by vm_compute.
Defined.

Definition searching : search_editor :=
  set_search two_lines (ascii_text "o") (mkSearch (ascii_text "o") (Some 111%N) Forward [] true).
Lemma search_moves_to_match_witness :
  exists e' found, jump_to_next_match searching true = Some e' /\
    find_next (rope (e_buf searching)) 111%N 0 Forward true = Some found /\
    e_buf e' = e_buf searching /\
    match found with
    | Some m => char_offset_at (e_buf e') (cursor_row (e_win e')) (cursor_col (e_win e')) = Some (m_start m)
    | None => e_win e' = e_win searching /\ e_bell e' = true
    end.
Proof. apply (search_moves_to_match searching true 111%N 0); [reflexivity|by vm_compute|reflexivity]. Defined.
Example search_reaches_second_line :
  (fun e => (cursor_row (e_win e), cursor_col (e_win e))) <$> jump_to_next_match searching true = Some (1, 2).
Proof. reflexivity. Qed.

Lemma ranges_stay_in_buffer_witness :
  parse_ex_range two_lines (ascii_text ".,+9s/o/0/") = Some (0, 2, ascii_text "s/o/0/") /\
  0 < line_count (e_buf two_lines) /\ 2 <= line_count (e_buf two_lines).
Proof.
  split; [reflexivity|]. apply (ranges_stay_in_buffer two_lines (ascii_text ".,+9s/o/0/") 0 2 (ascii_text "s/o/0/")); [vm_compute; lia|reflexivity].
Defined.
End SearchOpsWitnesses.

(** ** Where the code departs from its contract *)
Module SearchOpsDepartures.
Import PlainBuffer CharRegex ListRope SearchOpsWitnesses.

(** A substitution in one line is two steps of the history: one undo leaves the
    buffer without the line. *)
Theorem line_substitution_takes_two_undos :
  (let? done_ := execute_substitute_command two_lines (ascii_text "s/o/0/") in
   let? (b1, w1) := undo (e_buf done_) home in
   let? (b2, w2) := undo b1 w1 in
   Some (text (e_buf done_), text b1, text b2)) =
  Some (ascii_text "0ne
two", ascii_text "
two", text (e_buf two_lines)).
Proof. by vm_compute. Qed.

(** So is each line of a global substitution. *)
Theorem global_substitution_takes_many_undos :
  (let? done_ := execute_global_command nothing two_lines (ascii_text "g/o/s/o/0/") in
   Some (text (e_buf done_), length (undo_stack (e_buf done_)))) = Some (replaced, 4).
Proof. by vm_compute. Qed.

(** A range whose end precedes its start wraps the difference of its lines: no
    line changes, the message is that the pattern was not found, and what was
    undone can no longer be redone. *)
Theorem backward_range_drops_the_redo :
  let start := editing (ascii_text "o
o
o") home in
  parse_ex_range start (ascii_text "3,1s/o/0/") = Some (2, 1, ascii_text "s/o/0/") /\
  (let? done_ := execute_substitute_command start (ascii_text "s/o/0/") in
   let? (undone, w1) := undo (e_buf done_) home in
   let? again := execute_substitute_with_range (set_buf done_ undone) (ascii_text "s/o/0/") (Some (2, 1)) in
   Some (has_redo undone, has_redo (e_buf again), bool_decide (text (e_buf again) = text undone), head (e_shown again))) =
  Some (true, false, true, Some PatternNotFound).
Proof. split; by vm_compute. Qed.

(** The selection of a match counts the column in characters where the cursor
    counts bytes: after characters of two bytes it is off the match. *)
Theorem selection_misses_match :
  let start := set_search (editing [233; 233; 97]%N home) [97%N] (mkSearch [97%N] (Some 97%N) Forward [] true) in
  (let? (shown, ok) := visual_select_match start true in
   Some (ok, e_anchor shown, char_offset_at (e_buf shown) (cursor_row (e_win shown)) (cursor_col (e_win shown)))) =
  Some (true, (0, 2), Some 1) /\
  find_next (rope (e_buf start)) 97%N 0 Forward true = Some (Some (mkMatch 2 3)).
Proof. split; by vm_compute. Qed.

(** The empty line after the last newline counts among the lines deleted. *)
Theorem deleted_line_count_is_off :
  (let? done_ := execute_global_command nothing (editing (ascii_text "one
two
") home) (ascii_text "v/w/d") in Some (text (e_buf done_), head (e_shown done_))) =
  Some (ascii_text "two
", Some (LinesDeleted 2)).
Proof. by vm_compute. Qed.

(** A carriage return that ends a line of its own joins a newline that a
    substitution brings next to it: the two lines become one. *)
Theorem carriage_return_joins_lines :
  (let? done_ := execute_substitute_command (editing [97; 13; 98; 10; 99]%N home) (ascii_text "%s/b//") in
   Some (line_count (from_content [97; 13; 98; 10; 99]%N : buffer), line_count (e_buf done_))) = Some (3, 2).
Proof. by vm_compute. Qed.
End SearchOpsDepartures.
