(* ===== verification/Identity.v ===== *)
(** * Identity: key files and the trust they record

    Models [shared/mcp/src/identity.rs] (public keys and their text forms, the
    signing identity and its files, the pinned hosts of a client, the
    authorized keys of a daemon, the host-key policy and the signed transcript
    of a handshake) and [shared/mcp/src/keystore.rs] (the pre-shared keys).

    A file is [option string]: its UTF-8 text, or [None] when it cannot be read.
    What a write to disk does is an argument of the operation that makes it. *)
From S2P Require Import Prelude Membership OpLog DeriveCache ContentOps Rotation DocAddress OrgLinks.

(** ** Text *)

(** The encodings of the scalars that [char::is_whitespace] accepts. *)
Definition blanks : list string := map utf8 white_space.

(** [s.split_whitespace()]; [cur] is the word being read. A continuation byte
    starts no encoding, so the walk may go byte by byte. *)
Definition flush (cur : string) : list string := if is_empty cur then [] else [cur].
Fixpoint words_from (fuel : nat) (cur s : string) : list string :=
  match fuel with
  | 0 => flush cur
  | S fuel' =>
      match strip_one blanks s with
      | Some r => flush cur ++ words_from fuel' "" r
      | None => match s with
                | "" => flush cur
                | String c s' => words_from fuel' (cur +:+ String c "") s'
                end
      end
  end.
Definition split_whitespace (s : string) : list string := words_from (S (String.length s)) "" s.

(** [s.split_once(char::is_whitespace)]. *)
Fixpoint split_once_blank (s : string) : option (string * string) :=
  match strip_one blanks s with
  | Some r => Some ("", r)
  | None => match s with
            | "" => None
            | String c s' => let? (a, b) := split_once_blank s' in Some (String c a, b)
            end
  end.

(** The lines of a trust file that carry an entry. *)
Definition entry_lines (content : string) : list string :=
  List.filter (fun l => negb (is_empty l) && negb (starts_with "#" l)) (map trim (lines content)).

(** [format!("{b:02x}")] over a byte string. *)
Definition hex_char (n : N) : Ascii.ascii := Ascii.ascii_of_N (if (n <? 10)%N then 48 + n else 87 + n)%N.
Fixpoint hex_text (b : string) : string :=
  match b with
  | "" => ""
  | String c r => let n := Ascii.N_of_ascii c in
                  String (hex_char (n / 16)%N) (String (hex_char (n mod 16)%N) (hex_text r))
  end.

(** [char::to_digit(16)], and [u8::from_str_radix(_, 16)] of a two-byte text: a
    leading plus sign is part of the number's grammar. *)
Definition to_digit16 (c : Ascii.ascii) : option N :=
  let n := Ascii.N_of_ascii c in
  if (48 <=? n)%N && (n <=? 57)%N then Some (n - 48)%N
  else if (97 <=? n)%N && (n <=? 102)%N then Some (n - 87)%N
  else if (65 <=? n)%N && (n <=? 70)%N then Some (n - 55)%N
  else None.
Definition from_str_radix16 (a b : Ascii.ascii) : option N :=
  if bool_decide (a = "+"%char) then to_digit16 b
  else let? x := to_digit16 a in let? y := to_digit16 b in Some (16 * x + y)%N.

(** Is the next byte inside a character? Slicing there panics. *)
Definition mid_char (s : string) : bool :=
  match s with
  | "" => false
  | String c _ => let n := Ascii.N_of_ascii c in (128 <=? n)%N && (n <? 192)%N
  end.

(** ** Outcomes of writing *)

(** [write_secure]: on failure the file is left as [Some kept] says, since it is
    truncated before it is written. *)
Definition write_secure (fault : option (option string)) (content : string) : option string * bool :=
  match fault with
  | None => (Some content, true)
  | Some kept => (kept, false)
  end.

(** What goes wrong when a trust file is rewritten. *)
Inductive DiskFault := DirFails | WriteFails (kept : option string).
Definition persist (fault : option DiskFault) (file : option string) (content : string) : option string * bool :=
  match fault with
  | Some DirFails => (file, false)
  | Some (WriteFails kept) => write_secure (Some kept) content
  | None => write_secure None content
  end.
Definition ALGO : string := "mae-ed25519".
Definition TRANSCRIPT_DOMAIN : string := "mae-collab-key-auth-v1".

Record PublicKey := mkPub { pk_key : string; pk_label : option string }.
#[export] Instance PublicKey_eq_dec : EqDecision PublicKey.
Proof. solve_decision. Defined.
Record PeerIdentity := mkPeer { pi_label : string; pi_fingerprint : string; pi_pubkey : string }.
Record Identity := mkIdentity { signing : string; id_label : string }.

(** ** Peers *)

Definition zero_key : string := String.concat "" (replicate 32 (String Ascii.zero "")).
Definition synthetic (label : string) : PeerIdentity := mkPeer label "" zero_key.
Definition synthetic_psk (keyid : string) : PeerIdentity := mkPeer keyid ("psk:" +:+ keyid) zero_key.
Definition is_authenticated (p : PeerIdentity) : bool := negb (bool_decide (pi_pubkey p = zero_key)).
Definition principal_of (p : PeerIdentity) : option string :=
  if is_authenticated p || starts_with "psk:" (pi_fingerprint p) then Some (pi_fingerprint p) else None.

(** The signed transcript: both keys and both nonces. *)
Definition transcript (client_pub server_pub client_nonce server_nonce : string) : string :=
  TRANSCRIPT_DOMAIN +:+ client_pub +:+ server_pub +:+ client_nonce +:+ server_nonce.

Section Keys.
Context `{Crypto, Base64, Signer}.

(** ** Public keys *)

Definition from_bytes (bytes : string) (label : option string) : option PublicKey :=
  if vk_from_bytes bytes then Some (mkPub bytes label) else None.
Definition encoded (k : PublicKey) : string := b64_encode (pk_key k).
Definition from_encoded (b64 : string) (label : option string) : option PublicKey :=
  let? bytes := b64_decode b64 in let? arr := array32 bytes in from_bytes arr label.

Definition to_line (k : PublicKey) : string :=
  match pk_label k with
  | Some l => ALGO +:+ " " +:+ encoded k +:+ " " +:+ l
  | None => ALGO +:+ " " +:+ encoded k
  end.
Definition from_line (line : string) : option PublicKey :=
  match split_whitespace line with
  | tag :: rest =>
      if negb (bool_decide (tag = ALGO)) then None
      else match rest with
           | b64 :: more => from_encoded b64 (head more)
           | [] => None
           end
  | [] => None
  end.

(** A length-prefixed field of the SSH wire form: where it starts, how long it
    is; [None] past the end of the buffer. *)
Definition be32 (s : string) : N :=
  match s with
  | String a (String b (String c (String d _))) =>
      (((Ascii.N_of_ascii a * 256 + Ascii.N_of_ascii b) * 256 + Ascii.N_of_ascii c) * 256 + Ascii.N_of_ascii d)%N
  | _ => 0%N
  end.
Definition ssh_field (buf : string) (off : nat) : option (nat * nat) :=
  if String.length buf <? off + 4 then None
  else let len := N.to_nat (be32 (drop_str off buf)) in
       let start := off + 4 in
       if String.length buf <? start + len then None else Some (start, len).
Definition from_ssh_line (line : string) (label : option string) : option PublicKey :=
  match split_whitespace line with
  | tag :: b64 :: more =>
      if negb (bool_decide (tag = "ssh-ed25519")) then None
      else
        let? blob := b64_decode b64 in
        let? (a_start, a_len) := ssh_field blob 0 in
        if negb (bool_decide (take_str a_len (drop_str a_start blob) = "ssh-ed25519")) then None
        else
          let? (k_start, k_len) := ssh_field blob (a_start + a_len) in
          if negb (k_len =? 32) then None
          else from_bytes (take_str 32 (drop_str k_start blob))
                 match label with Some l => Some l | None => head more end
  | _ => None
  end.

Definition pk_fingerprint (k : PublicKey) : string := fingerprint_of (pk_key k).
Definition pk_verify (k : PublicKey) (msg sig_bytes : string) : bool :=
  if negb (String.length sig_bytes =? 64) then false else ed25519_verify (pk_key k) msg sig_bytes.

(** ** The signing identity *)

Definition public (i : Identity) : PublicKey := mkPub (public_of (signing i)) (Some (id_label i)).
Definition id_fingerprint (i : Identity) : string := pk_fingerprint (public i).
Definition id_sign (i : Identity) (msg : string) : string := sign (signing i) msg.
Definition from_seed (seed label : string) : Identity := mkIdentity seed label.

(** The pairs of digits of a private key file; the outer [None] is the panic of
    a slice that cuts a character. *)
Fixpoint parse_pairs (s : string) : option (option string) :=
  match s with
  | String a (String b r) =>
      if mid_char s || mid_char r then None
      else match from_str_radix16 a b with
           | None => Some None
           | Some n => let? rest := parse_pairs r in Some (String (Ascii.ascii_of_N n) <$> rest)
           end
  | _ => Some (Some "")
  end.
Definition parse_private (hex label : string) : option (option Identity) :=
  match split_whitespace hex with
  | [] => Some None
  | hex :: _ =>
      if negb (String.length hex =? 64) then Some None
      else let? secret := parse_pairs hex in Some ((fun s => mkIdentity s label) <$> secret)
  end.

(** The directory of an identity: [id_ed25519] and [id_ed25519.pub]. *)
Record KeyDir := mkDir { id_file : option string; pub_file : option string }.
Inductive SaveFault := NoDir | NoPriv (kept : option string) | NoPub (kept : option string).
Definition save (fault : option SaveFault) (i : Identity) (d : KeyDir) : KeyDir * bool :=
  let nl := String newline "" in
  let priv := hex_text (signing i) +:+ nl in
  let pub := to_line (public i) +:+ nl in
  match fault with
  | Some NoDir => (d, false)
  | Some (NoPriv kept) => (mkDir (write_secure (Some kept) priv).1 (pub_file d), false)
  | Some (NoPub kept) => (mkDir (write_secure None priv).1 kept, false)
  | None => (mkDir (write_secure None priv).1 (Some pub), true)
  end.

(** [fresh] is the seed the random source gives; [inl tt] is an I/O error, and
    the flag tells whether the identity is new. *)
Definition load_or_generate_reporting (fault : option SaveFault) (d : KeyDir) (label fresh : string)
    : option (KeyDir * (unit + Identity * bool)) :=
  let generate :=
    let i := from_seed fresh label in
    match save fault i d with
    | (d', true) => Some (d', inr (i, true))
    | (d', false) => Some (d', inl tt)
    end in
  match id_file d with
  | Some content =>
      let? parsed := parse_private (trim content) label in
      match parsed with Some i => Some (d, inr (i, false)) | None => generate end
  | None => generate
  end.
Definition load_or_generate (fault : option SaveFault) (d : KeyDir) (label fresh : string)
    : option (KeyDir * (unit + Identity)) :=
  let? (d', r) := load_or_generate_reporting fault d label fresh in
  Some (d', match r with inl e => inl e | inr (i, _) => inr i end).
Definition load_secret (d : KeyDir) (label : string) : option (option Identity) :=
  match id_file d with
  | None => Some None
  | Some content => parse_private (trim content) label
  end.

(** ** The hosts a client has pinned *)

Notation KnownHosts := (list (string * PublicKey)).
Definition hosts_load (file : option string) : KnownHosts :=
  match file with
  | Some content =>
      omap (fun l => let? (addr, rest) := split_once_blank l in
                     let? pk := from_line (trim rest) in Some (addr, pk)) (entry_lines content)
  | None => []
  end.
Definition hosts_get (kh : KnownHosts) (addr : string) : option PublicKey :=
  snd <$> List.find (fun e => bool_decide (e.1 = addr)) kh.
Definition hosts_render (kh : KnownHosts) : string :=
  "# MAE collab known_hosts — <addr> mae-ed25519 <b64>" +:+ String newline
    (String.concat "" (map (fun e => e.1 +:+ " " +:+ ALGO +:+ " " +:+ encoded e.2 +:+ String newline "") kh)).
Definition pin (fault : option DiskFault) (kh : KnownHosts) (file : option string) (addr : string) (pk : PublicKey)
    : KnownHosts * option string * bool :=
  match fault with
  | Some DirFails => (kh, file, false)
  | _ => let kh' := kh ++ [(addr, pk)] in
         let '(file', ok) := persist fault file (hosts_render kh') in (kh', file', ok)
  end.

Inductive HostKeyPolicy := AcceptNew | Strict | Prompt.
Definition from_str_opt (s : string) : HostKeyPolicy :=
  if bool_decide (s = "strict") then Strict else if bool_decide (s = "accept-new") then AcceptNew else Prompt.

(** [FileHostKeyVerifier::verify]: the file afterwards and the verdict. *)
Definition host_verify (policy : HostKeyPolicy) (fault : option DiskFault) (file : option string) (addr : string)
    (server_pub : PublicKey) : option string * bool :=
  let kh := hosts_load file in
  match hosts_get kh addr with
  | Some pinned => (file, bool_decide (pk_key pinned = pk_key server_pub))
  | None => match policy with
            | AcceptNew => let '(_, file', ok) := pin fault kh file addr server_pub in (file', ok)
            | Strict | Prompt => (file, false)
            end
  end.

(** ** The keys a daemon authorizes *)

Notation AuthorizedKeys := (list PublicKey).
Implicit Types (ak : AuthorizedKeys).
Definition keys_load (file : option string) : AuthorizedKeys :=
  match file with Some content => omap from_line (entry_lines content) | None => [] end.
Definition keys_render ak : string :=
  "# MAE collab authorized_keys — mae-ed25519 <b64> <label>" +:+ String newline
    (String.concat "" (map (fun k => to_line k +:+ String newline "") ak)).
Definition authorize_full ak (bytes : string) : option PublicKey := List.find (fun k => bool_decide (pk_key k = bytes)) ak.
Definition authorize ak (bytes : string) : option string := (fun k => default "" (pk_label k)) <$> authorize_full ak bytes.
Definition lookup_by_fingerprint ak (fp : string) : option PublicKey :=
  List.find (fun k => bool_decide (pk_fingerprint k = fp)) ak.
Definition lookup_by_label ak (label : string) : option PublicKey :=
  List.find (fun k => bool_decide (pk_label k = Some label)) ak.

Inductive AddError := KeyExists | LabelTaken | AddIo.
Definition add_authorized (fault : option DiskFault) ak (file : option string) (pk : PublicKey)
    : AuthorizedKeys * option string * (AddError + unit) :=
  if existsb (fun k => bool_decide (pk_key k = pk_key pk)) ak then (ak, file, inl KeyExists)
  else if match pk_label pk with
          | Some l => negb (is_empty l) && existsb (fun k => bool_decide (pk_label k = Some l)) ak
          | None => false
          end then (ak, file, inl LabelTaken)
  else match fault with
       | Some DirFails => (ak, file, inl AddIo)
       | _ => let ak' := ak ++ [pk] in
              let '(file', ok) := persist fault file (keys_render ak') in
              (ak', file', if ok then inr tt else inl AddIo)
       end.

(** [retain] and the rewrite of the file; [None] is an I/O error. *)
Definition retain_keys (keep : PublicKey -> bool) (fault : option (option string)) ak (file : option string)
    : AuthorizedKeys * option string * option nat :=
  let ak' := List.filter keep ak in
  let removed := length ak - length ak' in
  if 0 <? removed
  then let '(file', ok) := write_secure fault (keys_render ak') in (ak', file', if ok then Some removed else None)
  else (ak', file, Some removed).
Definition revoke (fault : option (option string)) ak (file : option string) (label : string) :=
  retain_keys (fun k => negb (bool_decide (pk_label k = Some label))) fault ak file.
Definition revoke_by_fingerprint (fault : option (option string)) ak (file : option string) (fp : string) :=
  retain_keys (fun k => negb (bool_decide (pk_fingerprint k = fp))) fault ak file.

End Keys.

(** ** Pre-shared keys *)

Record KeyEntry := mkEntry { ke_name : option string; ke_secret : string }.
Definition keystore_parse (content : string) : list KeyEntry :=
  omap (fun l => match split_whitespace l with
                 | [] => None
                 | [secret] => Some (mkEntry None secret)
                 | name :: secret :: _ => Some (mkEntry (Some name) secret)
                 end) (entry_lines content).
Definition keystore_render (entries : list KeyEntry) : string :=
  "# MAE collab trusted keys — one per line: `[name] <secret>`" +:+ String newline
    (String.concat "" (map (fun e => match ke_name e with Some n => n +:+ " " | None => "" end +:+
                                     ke_secret e +:+ String newline "") entries)).
Definition keystore_primary (entries : list KeyEntry) : option KeyEntry := head entries.
Definition keystore_find (entries : list KeyEntry) (name : string) : option KeyEntry :=
  List.find (fun e => bool_decide (ke_name e = Some name)) entries.

(** The keystore's file: absent, unreadable, or its text. *)
Inductive StoreFile := Absent | Unreadable | Text (content : string).
Inductive KeyError := NameTaken | KeyIo.
Definition load_optional (f : StoreFile) : option (option (list KeyEntry)) :=
  match f with
  | Absent => Some None
  | Unreadable => None
  | Text content => Some (Some (keystore_parse content))
  end.
(** [add_key]: the file afterwards and the number of keys in it. *)
Definition add_key (fault : option DiskFault) (f : StoreFile) (name : option string) (secret : string)
    : StoreFile * (KeyError + nat) :=
  match fault with
  | Some DirFails => (f, inl KeyIo)
  | _ =>
      match load_optional f with
      | None => (f, inl KeyIo)
      | Some loaded =>
          let existing := default [] loaded in
          if match name with Some n => bool_decide (is_Some (keystore_find existing n)) | None => false end
          then (f, inl NameTaken)
          else
            let entries := existing ++ [mkEntry name secret] in
            match fault with
            | Some (WriteFails kept) => (match kept with Some t => Text t | None => f end, inl KeyIo)
            | _ => (Text (keystore_render entries), inr (length entries))
            end
      end
  end.

(** ** Text that survives a trust file *)

Definition graphic (c : Ascii.ascii) : bool := let n := Ascii.N_of_ascii c in (33 <=? n)%N && (n <=? 126)%N.
Fixpoint all_graphic (s : string) : bool := match s with "" => true | String c s' => graphic c && all_graphic s' end.
Definition plain_word (s : string) : bool := negb (is_empty s) && all_graphic s.
Definition starts_graphic (s : string) : bool := match s with "" => false | String c _ => graphic c end.
(** A line without a newline whose ends are not blank. *)
Definition tidy (s : string) : bool := avoids [newline] s && starts_graphic s && starts_graphic (String.rev s).
Definition entry_line_ok (s : string) : bool := tidy s && negb (starts_with "#" s).

Lemma strip_one_heads ws c s :
  Forall (fun w => match w with "" => False | String a _ => a <> c end) ws -> strip_one ws (String c s) = None.
Proof.
  induction 1 as [|w ws Hw _ IH]; [done|]. cbn [strip_one]. destruct w as [|a w]; [done|].
  cbn [strip_prefix]. by rewrite bool_decide_eq_false_2.
Qed.
Definition heads_differ (ws : list string) (c : Ascii.ascii) : bool :=
  forallb (fun w => match w with "" => false | String a _ => negb (bool_decide (a = c)) end) ws.
Lemma strip_one_differ ws c s : heads_differ ws c = true -> strip_one ws (String c s) = None.
Proof.
  intros Hd. apply strip_one_heads, Forall_forall. intros w Hw. unfold heads_differ in Hd.
  rewrite forallb_forall in Hd. specialize (Hd w (proj1 (list_elem_of_In _ _) Hw)). destruct w as [|a w]; [done|].
  apply negb_true_iff, bool_decide_eq_false in Hd. done.
Qed.
Lemma graphic_differs c : graphic c = true -> heads_differ blanks c && heads_differ (map String.rev blanks) c = true.
Proof. destruct c as [[] [] [] [] [] [] [] []]; vm_compute; congruence. Qed.
Lemma graphic_not_blank c s : graphic c = true -> strip_one blanks (String c s) = None.
Proof. intros Hc. apply strip_one_differ. by apply graphic_differs, andb_true_iff in Hc as [? _]. Qed.
Lemma graphic_not_blank_rev c s : graphic c = true -> strip_one (map String.rev blanks) (String c s) = None.
Proof. intros Hc. apply strip_one_differ. by apply graphic_differs, andb_true_iff in Hc as [_ ?]. Qed.

Lemma strip_many_stop fuel ws s : strip_one ws s = None -> strip_many fuel ws s = s.
Proof. intros Hs. destruct fuel; [done|]. cbn [strip_many]. by rewrite Hs. Qed.

Lemma rev_app_spec s : forall acc, String.rev_app s acc = String.rev s +:+ acc.
Proof.
  induction s as [|c s IH]; intros acc; [done|]. unfold String.rev. cbn [String.rev_app]. rewrite !IH.
  by rewrite string_app_assoc.
Qed.
Lemma rev_cons c s : String.rev (String c s) = String.rev s +:+ String c "".
Proof. unfold String.rev at 1. cbn [String.rev_app]. apply rev_app_spec. Qed.
Lemma rev_append a b : String.rev (a +:+ b) = String.rev b +:+ String.rev a.
Proof.
  induction a as [|c a IH]; [by rewrite string_app_nil_r|].
  change (String c a +:+ b) with (String c (a +:+ b)). by rewrite !rev_cons, IH, string_app_assoc.
Qed.
Lemma rev_involutive s : String.rev (String.rev s) = s.
Proof. induction s as [|c s IH]; [done|]. by rewrite rev_cons, rev_append, IH. Qed.

Lemma starts_graphic_strip s fuel : starts_graphic s = true -> strip_many fuel blanks s = s.
Proof. intros Hs. apply strip_many_stop. destruct s; [done|]. by apply graphic_not_blank. Qed.
Lemma starts_graphic_strip_rev s fuel : starts_graphic s = true -> strip_many fuel (map String.rev blanks) s = s.
Proof. intros Hs. apply strip_many_stop. destruct s; [done|]. by apply graphic_not_blank_rev. Qed.

Lemma trim_tidy s : starts_graphic s = true -> starts_graphic (String.rev s) = true -> trim s = s.
Proof.
  intros Hs Hr. unfold trim. fold blanks. rewrite (starts_graphic_strip s) by done.
  rewrite starts_graphic_strip_rev by done. apply rev_involutive.
Qed.
Lemma trim_newline s : starts_graphic s = true -> starts_graphic (String.rev s) = true ->
  trim (s +:+ String newline "") = s.
Proof.
  intros Hs Hr. unfold trim. fold blanks. rewrite (starts_graphic_strip (s +:+ _)) by (by destruct s).
  rewrite rev_append, string_length_app, Nat.add_comm. cbn [String.length Nat.add].
  change (String.rev (String newline "") +:+ String.rev s) with (String newline (String.rev s)).
  cbn [strip_many]. change (strip_one (map String.rev blanks) (String newline (String.rev s))) with (Some (String.rev s)).
  cbn match. rewrite starts_graphic_strip_rev by done. apply rev_involutive.
Qed.

Lemma all_graphic_app a b : all_graphic (a +:+ b) = all_graphic a && all_graphic b.
Proof.
  induction a as [|c a IH]; [done|]. change (String c a +:+ b) with (String c (a +:+ b)). cbn [all_graphic].
  by rewrite IH, andb_assoc.
Qed.
Lemma all_graphic_rev s : all_graphic (String.rev s) = all_graphic s.
Proof.
  induction s as [|c s IH]; [done|]. rewrite rev_cons, all_graphic_app, IH. cbn [all_graphic].
  rewrite andb_true_r. apply andb_comm.
Qed.
Lemma plain_starts s r : plain_word s = true -> starts_graphic (s +:+ r) = true.
Proof.
  unfold plain_word. destruct s as [|c s]; [done|]. cbn [all_graphic]. rewrite !andb_true_iff. by intros (_ & ? & _).
Qed.
Lemma plain_rev s : plain_word s = true -> plain_word (String.rev s) = true.
Proof.
  unfold plain_word. rewrite !andb_true_iff, all_graphic_rev. intros [Hn Hg]. split; [|done].
  destruct s as [|c s]; [done|]. rewrite rev_cons. by destruct (String.rev s).
Qed.
Lemma plain_ends p s : plain_word s = true -> starts_graphic (String.rev (p +:+ s)) = true.
Proof. intros Hs. rewrite rev_append. by apply plain_starts, plain_rev. Qed.
Lemma all_graphic_avoids s : all_graphic s = true -> avoids [newline] s = true.
Proof.
  induction s as [|c s IH]; [done|]. cbn [all_graphic]. rewrite andb_true_iff. intros [Hc Hs]. apply avoids_cons.
  split; [|by apply IH]. intros ->%list_elem_of_singleton. done.
Qed.

(** *** Words of a line *)

Lemma words_word w : all_graphic w = true -> forall fuel cur s,
  words_from (String.length w + fuel) cur (w +:+ s) = words_from fuel (cur +:+ w) s.
Proof.
  induction w as [|c w IH]; intros Hw fuel cur s; [by rewrite string_app_nil_r|].
  cbn [all_graphic] in Hw. apply andb_true_iff in Hw as [Hc Hw].
  change (String c w +:+ s) with (String c (w +:+ s)). cbn [String.length Nat.add words_from].
  rewrite graphic_not_blank by done. rewrite IH by done. by rewrite string_app_assoc.
Qed.
Lemma flush_plain w : plain_word w = true -> flush w = [w].
Proof. unfold plain_word, flush. by destruct (is_empty w). Qed.
Lemma plain_all w : plain_word w = true -> all_graphic w = true.
Proof. unfold plain_word. by intros [_ ?]%andb_true_iff. Qed.

(** Plain words survive being joined by blanks. *)
Lemma split_whitespace_join ws : Forall (fun w => plain_word w = true) ws ->
  split_whitespace (String.concat " " ws) = ws.
Proof.
  unfold split_whitespace. intros Hw.
  assert (forall fuel, String.length (String.concat " " ws) < fuel ->
            words_from fuel "" (String.concat " " ws) = ws) as Hall; [|by apply Hall; lia].
  induction Hw as [|w ws Hp Hw IH]; intros fuel Hf; [by destruct fuel|].
  destruct ws as [|w' ws].
  - cbn [String.concat] in *. rewrite <- (string_app_nil_r w) at 1.
    replace fuel with (String.length w + S (fuel - S (String.length w))) by lia.
    rewrite words_word by (by apply plain_all). cbn. by apply flush_plain.
  - change (String.concat " " (w :: w' :: ws)) with (w +:+ String " " (String.concat " " (w' :: ws))) in *.
    rewrite string_length_app in Hf. cbn [String.length] in Hf.
    replace fuel with (String.length w + S (fuel - S (String.length w))) by lia.
    rewrite words_word by (by apply plain_all). cbn [words_from].
    change (strip_one blanks (String " " ?r)) with (Some r). cbn match.
    change ("" +:+ w) with w. rewrite flush_plain by done. cbn [app]. f_equal. apply IH. lia.
Qed.
Lemma split_once_blank_word w r : all_graphic w = true -> split_once_blank (w +:+ String " " r) = Some (w, r).
Proof.
  induction w as [|c w IH]; [done|]. cbn [all_graphic]. rewrite andb_true_iff. intros [Hc Hw].
  change (String c w +:+ ?x) with (String c (w +:+ x)). cbn [split_once_blank].
  by rewrite graphic_not_blank, IH by done.
Qed.

(** *** Lines of a file *)

Lemma split_char_line c x r : avoids [c] x = true -> split_char c (x +:+ String c r) = x :: split_char c r.
Proof.
  induction x as [|b x IH]; intros Hx.
  - change ("" +:+ String c r) with (String c r). cbn [split_char]. by rewrite bool_decide_eq_true_2.
  - apply avoids_cons in Hx as [Hb Hx]. change (String b x +:+ ?y) with (String b (x +:+ y)). cbn [split_char].
    rewrite bool_decide_eq_false_2 by set_solver. by rewrite IH.
Qed.
Lemma split_char_nonempty c s : split_char c s <> [].
Proof. destruct s as [|b s]; [done|]. cbn. case_bool_decide; [done|]. by destruct (split_char c s). Qed.
Lemma lines_cons x r : avoids [newline] x = true -> lines (x +:+ String newline r) = strip_cr x :: lines r.
Proof.
  intros Hx. unfold lines. rewrite split_char_line by done.
  pose proof (split_char_nonempty newline r). by destruct (split_char newline r).
Qed.
Lemma strip_cr_graphic x : starts_graphic (String.rev x) = true -> strip_cr x = x.
Proof.
  unfold strip_cr. destruct (String.rev x) as [|c r]; [done|]. intros Hc. rewrite bool_decide_eq_false_2; [done|].
  by intros ->.
Qed.
Definition block (ls : list string) : string := String.concat "" (map (fun l => l +:+ String newline "") ls).
Lemma block_cons l ls : block (l :: ls) = l +:+ String newline (block ls).
Proof.
  unfold block. cbn [map]. destruct ls as [|l' ls]; [done|].
  change (String.concat "" ((l +:+ String newline "") :: ?r)) with ((l +:+ String newline "") +:+ String.concat "" r).
  by rewrite string_app_assoc.
Qed.
Lemma entry_lines_block ls : Forall (fun l => entry_line_ok l = true) ls -> entry_lines (block ls) = ls.
Proof.
  unfold entry_lines. induction 1 as [|l ls Hl _ IH]; [done|]. unfold entry_line_ok, tidy in Hl. rewrite !andb_true_iff in Hl.
  destruct Hl as [[[Ha Hs] Hr] Hc]. rewrite block_cons, lines_cons, strip_cr_graphic by done. cbn [map List.filter].
  rewrite trim_tidy by done. rewrite Hc. replace (is_empty l) with false by (by destruct l). cbn. by f_equal.
Qed.

(** A trust file as the program writes it: a comment line, then the entries. *)
Lemma entry_lines_file h ls : avoids [newline] h = true -> starts_with "#" (trim (strip_cr h)) = true ->
  Forall (fun l => entry_line_ok l = true) ls -> entry_lines (h +:+ String newline (block ls)) = ls.
Proof.
  intros Hh Hc Hls. unfold entry_lines. rewrite lines_cons by done. cbn [map List.filter]. rewrite Hc, andb_false_r.
  by apply entry_lines_block.
Qed.

(** Lines made of plain words. *)
Lemma join_tidy ws : ws <> [] -> Forall (fun w => plain_word w = true) ws -> tidy (String.concat " " ws) = true.
Proof.
  intros Hne Hw. unfold tidy. rewrite !andb_true_iff. split_and!.
  - clear Hne. induction Hw as [|w ws Hp _ IH]; [done|]. destruct ws as [|w' ws]; [by apply all_graphic_avoids, plain_all|].
    change (String.concat " " (w :: w' :: ws)) with (w +:+ String " " (String.concat " " (w' :: ws))).
    rewrite avoids_app, all_graphic_avoids by (by apply plain_all). apply avoids_cons. split; [|done].
    by intros Hin%list_elem_of_singleton.
  - destruct Hw as [|w ws Hp _]; [done|]. destruct ws as [|w' ws]; [|by apply plain_starts].
    rewrite <- (string_app_nil_r w). by apply plain_starts.
  - induction Hw as [|w ws Hp Hws IH]; [done|]. destruct ws as [|w' ws].
    + by apply (plain_ends "" w).
    + change (String.concat " " (w :: w' :: ws)) with (w +:+ (" " +:+ String.concat " " (w' :: ws))).
      rewrite <- string_app_assoc. specialize (IH ltac:(done)). rewrite rev_append. by destruct (String.rev (String.concat " " (w' :: ws))).
Qed.

Lemma starts_hash c s : starts_with "#" (String c s) = bool_decide ("#"%char = c).
Proof. unfold starts_with. cbn [strip_prefix]. case (bool_decide ("#"%char = c)); [by destruct s|done]. Qed.
Lemma join_entry w ws : Forall (fun w => plain_word w = true) (w :: ws) -> starts_with "#" w = false ->
  entry_line_ok (String.concat " " (w :: ws)) = true.
Proof.
  intros Hw Hc. unfold entry_line_ok. rewrite join_tidy by done. apply negb_true_iff.
  apply Forall_cons in Hw as [Hw _]. destruct w as [|c w]; [done|].
  rewrite starts_hash in Hc. destruct ws; [by cbn [String.concat]; rewrite starts_hash|].
  change (String.concat " " (String c w :: s :: ws)) with (String c (w +:+ " " +:+ String.concat " " (s :: ws))).
  by rewrite starts_hash.
Qed.

(** ** Reloading what was written *)

(** What the files rely on of base64: its output is graphic ASCII. *)
Class Base64Text (B : Base64) : Prop := {
  b64_graphic b : all_graphic (b64_encode b) = true;
  b64_nonempty b : b <> "" -> b64_encode b <> "";
}.

Section Reload.
Context `{C : Crypto, B : Base64, !Base64Laws B, !Base64Text B, S : Signer}.
Implicit Types (k : PublicKey) (ak : list PublicKey) (file : option string).

Definition public_ok k : bool := (String.length (pk_key k) =? 32) && vk_from_bytes (pk_key k).
Definition label_ok k : bool := match pk_label k with Some l => plain_word l | None => true end.

Lemma encoded_plain k : public_ok k = true -> plain_word (encoded k) = true.
Proof.
  unfold public_ok, plain_word, encoded. rewrite andb_true_iff, b64_graphic, andb_true_r. intros [Hl%Nat.eqb_eq _].
  apply negb_true_iff, bool_decide_eq_false_2, b64_nonempty. by intros E; rewrite E in Hl.
Qed.
Lemma decode_encoded k l : public_ok k = true -> from_encoded (encoded k) l = Some (mkPub (pk_key k) l).
Proof.
  unfold public_ok, from_encoded, encoded, from_bytes, array32. rewrite andb_true_iff, b64_decode_encode. intros [Hl Hv]. cbn.
  rewrite Hl. cbn. by rewrite Hv.
Qed.
Lemma line_words k : to_line k = String.concat " " ([ALGO; encoded k] ++ option_list (pk_label k)).
Proof. unfold to_line. by destruct (pk_label k). Qed.
Lemma line_words_plain k : public_ok k = true -> label_ok k = true ->
  Forall (fun w => plain_word w = true) ([ALGO; encoded k] ++ option_list (pk_label k)).
Proof.
  intros Hk Hl. unfold label_ok in Hl. repeat constructor; [by apply encoded_plain|].
  destruct (pk_label k); by repeat constructor.
Qed.
Lemma from_to_line k : public_ok k = true -> label_ok k = true -> from_line (to_line k) = Some k.
Proof.
  intros Hk Hl. unfold from_line. rewrite line_words, split_whitespace_join by (by apply line_words_plain). cbn.
  rewrite decode_encoded by done. destruct k as [key [l|]]; done.
Qed.
Lemma line_entry k : public_ok k = true -> label_ok k = true -> entry_line_ok (to_line k) = true.
Proof. intros Hk Hl. rewrite line_words. apply join_entry; [by apply line_words_plain|done]. Qed.

Lemma keys_render_block ak : keys_render ak =
  "# MAE collab authorized_keys — mae-ed25519 <b64> <label>" +:+ String newline (block (map to_line ak)).
Proof. unfold keys_render, block. by rewrite map_map. Qed.
Lemma keys_reload ak : Forall (fun k => public_ok k && label_ok k = true) ak ->
  keys_load (Some (keys_render ak)) = ak.
Proof.
  intros Hak. unfold keys_load. rewrite keys_render_block, entry_lines_file; [|by vm_compute..|].
  - induction Hak as [|k ak Hk _ IH]; [done|]. apply andb_true_iff in Hk as [Hk Hl]. cbn. rewrite from_to_line by done.
    cbn. by f_equal.
  - apply List.Forall_map. eapply Forall_impl; [exact Hak|]. intros k [? ?]%andb_true_iff. by apply line_entry.
Qed.

(** *** The authorized keys as a map from keys to labels *)

Inductive KeyOp := OpAdd (k : PublicKey) | OpRevoke (label : string) | OpRevokeFp (fp : string).
Definition key_op_ok (o : KeyOp) : bool := match o with OpAdd k => public_ok k && label_ok k | _ => true end.

(** [AuthorizedKeys::update]: load, change, write back. *)
Definition update_keys {A} file (mutate : list PublicKey -> option string -> list PublicKey * option string * A) :
    list PublicKey * option string * A := mutate (keys_load file) file.
Definition key_op file (o : KeyOp) : option string :=
  match o with
  | OpAdd k => (update_keys file (fun ak f => add_authorized None ak f k)).1.2
  | OpRevoke l => (update_keys file (fun ak f => revoke None ak f l)).1.2
  | OpRevokeFp fp => (update_keys file (fun ak f => revoke_by_fingerprint None ak f fp)).1.2
  end.

Notation Trust := (gmap string (option string)).
Definition label_taken (m : Trust) k : bool :=
  match pk_label k with
  | Some l => negb (is_empty l) && bool_decide (map_Exists (fun _ v => v = Some l) m)
  | None => false
  end.
Definition trust_op (m : Trust) (o : KeyOp) : Trust :=
  match o with
  | OpAdd k => if bool_decide (is_Some (m !! pk_key k)) || label_taken m k then m else <[pk_key k := pk_label k]> m
  | OpRevoke l => filter (fun kv => kv.2 <> Some l) m
  | OpRevokeFp fp => filter (fun kv => fingerprint_of kv.1 <> fp) m
  end.
Definition trusted ak : Trust := list_to_map (map (fun k => (pk_key k, pk_label k)) ak).
Definition distinct ak : Prop := NoDup (map pk_key ak).
Definition written_keys file : Prop :=
  exists ak, keys_load file = ak /\ Forall (fun k => public_ok k && label_ok k = true) ak /\ distinct ak.

Lemma keys_fst ak : (map (fun k => (pk_key k, pk_label k)) ak).*1 = map pk_key ak.
Proof. induction ak as [|k ak IH]; [done|]. cbn. by f_equal. Qed.
Lemma trusted_lookup ak b l : distinct ak -> trusted ak !! b = Some l <-> mkPub b l ∈ ak.
Proof.
  intros Hd. unfold trusted. rewrite <- elem_of_list_to_map by (by rewrite keys_fst).
  rewrite list_elem_of_fmap. split.
  - by intros ([? ?] & [= -> ->] & Hin).
  - intros Hin. by exists (mkPub b l).
Qed.
Lemma trusted_is_some ak b : distinct ak -> is_Some (trusted ak !! b) <-> b ∈ map pk_key ak.
Proof.
  intros Hd. split.
  - intros [l Hl]. apply list_elem_of_fmap. exists (mkPub b l). split; [done|]. by apply trusted_lookup.
  - intros ([b' l] & -> & Hin)%list_elem_of_fmap. exists l. by apply trusted_lookup.
Qed.
Lemma existsb_key ak b : distinct ak ->
  existsb (fun k => bool_decide (pk_key k = b)) ak = bool_decide (is_Some (trusted ak !! b)).
Proof.
  intros Hd. apply eq_true_iff_eq. rewrite existsb_exists, bool_decide_eq_true, trusted_is_some, list_elem_of_fmap by done.
  split.
  - intros (k & Hin & Hk%bool_decide_eq_true). exists k. by rewrite list_elem_of_In.
  - intros (k & -> & Hin). exists k. rewrite <- list_elem_of_In. by rewrite bool_decide_eq_true.
Qed.
Lemma existsb_label ak l : distinct ak ->
  existsb (fun k => bool_decide (pk_label k = Some l)) ak = bool_decide (map_Exists (fun _ v => v = Some l) (trusted ak)).
Proof.
  intros Hd. apply eq_true_iff_eq. rewrite existsb_exists, bool_decide_eq_true. split.
  - intros ([b l'] & Hin%list_elem_of_In & Hk%bool_decide_eq_true). exists b, l'. by rewrite trusted_lookup.
  - intros (b & l' & Hb & ->). apply trusted_lookup in Hb; [|done]. exists (mkPub b (Some l)).
    rewrite <- list_elem_of_In. by rewrite bool_decide_eq_true.
Qed.
Lemma distinct_filter f ak : distinct ak -> distinct (List.filter f ak).
Proof.
  unfold distinct. induction ak as [|k ak IH]; [done|]. cbn. intros [Hn Hd]%NoDup_cons. destruct (f k); [|by apply IH].
  cbn. apply NoDup_cons. split; [|by apply IH]. intros (k' & Hk & Hin)%list_elem_of_fmap. apply Hn.
  rewrite Hk. apply list_elem_of_fmap_2. by apply elem_of_List_filter in Hin as [? _].
Qed.
Lemma trusted_filter (f : PublicKey -> bool) (P : string * option string -> Prop) `{!forall x, Decision (P x)} ak :
  distinct ak -> (forall k, f k = true <-> P (pk_key k, pk_label k)) ->
  trusted (List.filter f ak) = filter P (trusted ak).
Proof.
  intros Hd Hf. apply map_eq_iff. intros b. apply option_eq. intros l.
  rewrite trusted_lookup by (by apply distinct_filter). rewrite map_lookup_filter_Some, trusted_lookup by done.
  rewrite elem_of_List_filter, Hf. cbn. tauto.
Qed.
Lemma authorize_lookup ak b : distinct ak -> authorize ak b = default "" <$> trusted ak !! b.
Proof.
  unfold authorize, authorize_full, trusted, distinct. induction ak as [|k ak IH]; intros Hd; [done|]. cbn in *.
  apply NoDup_cons in Hd as [_ Hd]. case_bool_decide as E; [subst|].
  - by rewrite lookup_insert_eq.
  - rewrite lookup_insert_ne by done. by apply IH.
Qed.

Lemma persisted_keys ak : Forall (fun k => public_ok k && label_ok k = true) ak -> distinct ak ->
  written_keys (Some (keys_render ak)) /\ trusted (keys_load (Some (keys_render ak))) = trusted ak.
Proof. intros Hak Hd. unfold written_keys. rewrite keys_reload by done. eauto. Qed.

Lemma filter_all {A} (f : A -> bool) (l : list A) : length l <= length (List.filter f l) -> List.filter f l = l.
Proof.
  induction l as [|x l IH]; [done|]. cbn. pose proof (List.filter_length_le f l).
  destruct (f x); cbn; intros Hl; [|lia]. f_equal. apply IH. lia.
Qed.
Lemma retain_follows keep (P : string * option string -> Prop) `{!forall x, Decision (P x)} file :
  written_keys file -> (forall k, keep k = true <-> P (pk_key k, pk_label k)) ->
  let file' := (update_keys file (retain_keys keep None)).1.2 in
  written_keys file' /\ trusted (keys_load file') = filter P (trusted (keys_load file)).
Proof.
  intros (ak & Ea & Hak & Hd) HP. unfold update_keys, retain_keys. rewrite Ea. destruct (Nat.ltb_spec 0 (length ak - length (List.filter keep ak))) as [Hlt|Hlt].
  - cbn. rewrite <- (trusted_filter keep P) by done. apply persisted_keys; [|by apply distinct_filter].
    apply Forall_forall. intros k Hk. rewrite Forall_forall in Hak. apply Hak. by apply elem_of_List_filter in Hk as [? _].
  - cbn. rewrite <- (trusted_filter keep P) by done. split; [by exists ak|]. rewrite Ea.
    by rewrite filter_all by lia.
Qed.

Lemma key_op_follows file o : written_keys file -> key_op_ok o = true ->
  written_keys (key_op file o) /\ trusted (keys_load (key_op file o)) = trust_op (trusted (keys_load file)) o.
Proof.
  intros Hw Ho. destruct o as [k|l|fp].
  - destruct Hw as (ak & Ea & Hak & Hd). unfold key_op, update_keys, add_authorized, trust_op, label_taken. rewrite Ea.
    rewrite existsb_key by done. case_bool_decide as Hk; [cbn; split; [by exists ak|by rewrite Ea]|]. cbn [orb].
    assert (distinct (ak ++ [k])) as Hd'.
    { unfold distinct. rewrite map_app. apply NoDup_app. split_and!; [done| |apply NoDup_singleton].
      intros b Hb ->%list_elem_of_singleton. apply Hk. by apply trusted_is_some. }
    assert (trusted (ak ++ [k]) = <[pk_key k := pk_label k]> (trusted ak)) as Ht.
    { apply map_eq_iff. intros b. apply option_eq. intros l. rewrite trusted_lookup by done.
      rewrite elem_of_app, list_elem_of_singleton, <- trusted_lookup by done. rewrite lookup_insert_Some.
      split; [|by intros [[<- <-]|[? ?]]; [right; by destruct k|left]]. intros [Hb|<-]; [right; split; [|done]|by left]. intros <-. by destruct Hk. }
    assert (Forall (fun k => public_ok k && label_ok k = true) (ak ++ [k])) as Hak' by (apply Forall_app; auto).
    destruct (pk_label k) as [l|] eqn:El.
    + rewrite existsb_label by done. destruct (negb _ && _); cbn; [cbn; split; [by exists ak|by rewrite Ea]|].
      rewrite <- Ht. by apply persisted_keys.
    + cbn. rewrite <- Ht. by apply persisted_keys.
  - apply retain_follows; [done|]. intros k. cbn. by rewrite negb_true_iff, bool_decide_eq_false.
  - apply retain_follows; [done|]. intros k. cbn. by rewrite negb_true_iff, bool_decide_eq_false.
Qed.


(** *** Pinned hosts *)

Definition addr_ok (addr : string) : bool := plain_word addr && negb (starts_with "#" addr).
Definition host_ok (e : string * PublicKey) : bool := addr_ok e.1 && public_ok e.2.
Definition bare (e : string * PublicKey) : string * PublicKey := (e.1, mkPub (pk_key e.2) None).
Definition written_hosts file : Prop := Forall (fun e => host_ok e = true) (hosts_load file).

Definition host_line (e : string * PublicKey) : string := e.1 +:+ " " +:+ (ALGO +:+ " " +:+ encoded e.2).
Lemma hosts_render_block (kh : list (string * PublicKey)) : hosts_render kh =
  "# MAE collab known_hosts — <addr> mae-ed25519 <b64>" +:+ String newline (block (map host_line kh)).
Proof.
  unfold hosts_render, block. rewrite map_map. do 3 f_equal. apply map_ext. intros e. unfold host_line.
  by rewrite !string_app_assoc.
Qed.
Lemma host_line_words e : host_ok e = true -> Forall (fun w => plain_word w = true) [e.1; ALGO; encoded e.2].
Proof. unfold host_ok, addr_ok. rewrite !andb_true_iff. intros [[? ?] ?]. repeat constructor; auto using encoded_plain. Qed.
Lemma host_line_parse e : host_ok e = true ->
  (let? (addr, rest) := split_once_blank (host_line e) in let? pk := from_line (trim rest) in Some (addr, pk)) = Some (bare e).
Proof.
  intros He. pose proof (host_line_words e He) as Hw. apply Forall_cons in Hw as [Ha Hw].
  pose proof (join_tidy [ALGO; encoded e.2] ltac:(done) Hw) as Ht. unfold tidy in Ht. rewrite !andb_true_iff in Ht.
  destruct Ht as [[_ Hs] Hr]. unfold host_line.
  change (" " +:+ ?r) with (String " " r). rewrite split_once_blank_word by (by apply plain_all). cbn match.
  match goal with |- context [trim ?r] => change r with (String.concat " " [ALGO; encoded e.2]) end.
  rewrite trim_tidy by done. unfold from_line. rewrite split_whitespace_join by done. cbn.
  rewrite decode_encoded; [done|]. unfold host_ok in He. by apply andb_true_iff in He as [_ ?].
Qed.
Lemma hosts_reload (kh : list (string * PublicKey)) : Forall (fun e => host_ok e = true) kh ->
  hosts_load (Some (hosts_render kh)) = map bare kh.
Proof.
  intros Hkh. unfold hosts_load. rewrite hosts_render_block, entry_lines_file; [|by vm_compute..|].
  - induction Hkh as [|e kh He _ IH]; [done|]. cbn [map omap list_omap]. rewrite host_line_parse by done. by f_equal.
  - apply List.Forall_map. eapply Forall_impl; [exact Hkh|]. intros e He.
    change (host_line e) with (String.concat " " [e.1; ALGO; encoded e.2]). apply join_entry; [by apply host_line_words|].
    unfold host_ok, addr_ok in He. rewrite !andb_true_iff in He. destruct He as [[_ ?] _]. by apply negb_true_iff.
Qed.

Definition pinned_key file (addr : string) : option string := pk_key <$> hosts_get (hosts_load file) addr.
Lemma get_bare (kh : list (string * PublicKey)) addr :
  pk_key <$> hosts_get (map bare kh) addr = pk_key <$> hosts_get kh addr.
Proof. unfold hosts_get. induction kh as [|e kh IH]; [done|]. cbn. by case_bool_decide. Qed.
Lemma get_snoc (kh : list (string * PublicKey)) addr addr' k :
  hosts_get (kh ++ [(addr', k)]) addr =
  match hosts_get kh addr with Some k' => Some k' | None => if bool_decide (addr' = addr) then Some k else None end.
Proof. unfold hosts_get. induction kh as [|e kh IH]; cbn; [by case_bool_decide|]. by destruct (bool_decide (e.1 = addr)). Qed.

(** A verification without a write error keeps every pin; it accepts a key only
    if that key is the pinned one afterwards. *)
Lemma verify_step policy file addr k file' ok : written_hosts file -> addr_ok addr = true -> public_ok k = true ->
  host_verify policy None file addr k = (file', ok) ->
  written_hosts file' /\
  (forall a b, pinned_key file a = Some b -> pinned_key file' a = Some b) /\
  (ok = true -> pinned_key file' addr = Some (pk_key k)).
Proof.
  intros Hw Ha Hk. unfold host_verify. destruct (hosts_get (hosts_load file) addr) as [pk|] eqn:Eg.
  - intros [= <- <-]. split_and!; [done..|]. intros Hb%bool_decide_eq_true. unfold pinned_key. by rewrite Eg, <- Hb.
  - destruct policy; [|by intros [= <- <-]..]. cbn. intros [= <- <-].
    set (kh := hosts_load file) in *.
    assert (Forall (fun e => host_ok e = true) (kh ++ [(addr, k)])) as Hkh.
    { apply Forall_app. split; [done|]. repeat constructor. unfold host_ok. cbn. by rewrite Ha, Hk. }
    unfold written_hosts, pinned_key. rewrite hosts_reload by done. split_and!.
    + apply List.Forall_map. by eapply Forall_impl; [exact Hkh|].
    + intros a b. rewrite get_bare, get_snoc. fold kh. by destruct (hosts_get kh a).
    + intros _. rewrite get_bare, get_snoc, Eg. by rewrite bool_decide_eq_true_2.
Qed.

(** One connection: the policy in force, the address and the key presented. *)
Definition connect_host file (v : HostKeyPolicy * string * PublicKey) : option string :=
  (host_verify v.1.1 None file v.1.2 v.2).1.
Definition connect_ok (v : HostKeyPolicy * string * PublicKey) : bool := addr_ok v.1.2 && public_ok v.2.
Lemma visits_keep_pins visits : Forall (fun v => connect_ok v = true) visits -> forall file addr b,
  written_hosts file -> pinned_key file addr = Some b -> pinned_key (foldl connect_host file visits) addr = Some b.
Proof.
  induction 1 as [|v visits Hv _ IH]; intros file addr b Hw Hp; [done|]. cbn.
  unfold connect_ok in Hv. apply andb_true_iff in Hv as [Ha Hk].
  destruct (host_verify v.1.1 None file v.1.2 v.2) as [file' ok] eqn:E.
  destruct (verify_step _ _ _ _ _ _ Hw Ha Hk E) as (Hw' & Hkeep & _).
  apply IH; unfold connect_host; rewrite E; [done|by apply Hkeep].
Qed.


(** *** The files of an identity *)

Lemma hex_pair c : let n := Ascii.N_of_ascii c in
  graphic (hex_char (n / 16)) && graphic (hex_char (n mod 16)) = true /\
  from_str_radix16 (hex_char (n / 16)) (hex_char (n mod 16)) = Some n /\
  mid_char (String (hex_char (n / 16)) "") = false.
Proof. destruct c as [[] [] [] [] [] [] [] []]; by vm_compute. Qed.
Lemma hex_graphic b : all_graphic (hex_text b) = true.
Proof.
  induction b as [|c b IH]; [done|]. cbn [hex_text all_graphic]. rewrite IH, andb_true_r. apply hex_pair.
Qed.
Lemma hex_length b : String.length (hex_text b) = 2 * String.length b.
Proof. induction b as [|c b IH]; [done|]. cbn [hex_text String.length]. lia. Qed.
Lemma hex_not_mid b : mid_char (hex_text b) = false.
Proof. destruct b as [|c b]; [done|]. apply (hex_pair c). Qed.
Lemma parse_hex b : parse_pairs (hex_text b) = Some (Some b).
Proof.
  induction b as [|c b IH]; [done|]. destruct (hex_pair c) as (_ & Hr & Hm). cbn [hex_text parse_pairs].
  change (mid_char (String ?a (String ?x ?y))) with (mid_char (String a "")). rewrite Hm, hex_not_mid, Hr, IH. cbn.
  by rewrite Ascii.ascii_N_embedding.
Qed.
Lemma parse_private_hex b label : String.length b = 32 ->
  parse_private (trim (hex_text b +:+ String newline "")) label = Some (Some (mkIdentity b label)).
Proof.
  intros Hb. assert (plain_word (hex_text b) = true) as Hp.
  { unfold plain_word. rewrite hex_graphic, andb_true_r. by destruct b. }
  rewrite trim_newline; [|rewrite <- (string_app_nil_r (hex_text b)); by apply plain_starts|by apply (plain_ends "")].
  unfold parse_private. change (hex_text b) with (String.concat " " [hex_text b]).
  rewrite split_whitespace_join by (by repeat constructor). rewrite hex_length, Hb. cbn. by rewrite parse_hex.
Qed.

(** An identity that was saved is loaded again with the same signing key,
    by the strict and by the generating loader, which then leaves the directory
    alone; the public line beside it reads back as its public key. *)
Theorem saved_identity_reloads i d label fresh fault :
  String.length (signing i) = 32 -> public_ok (public i) = true -> plain_word (id_label i) = true ->
  let d' := (save None i d).1 in
  (save None i d).2 = true /\
  load_secret d' label = Some (Some (mkIdentity (signing i) label)) /\
  load_or_generate_reporting fault d' label fresh = Some (d', inr (mkIdentity (signing i) label, false)) /\
  (let? l := pub_file d' in from_line (trim l)) = Some (public i).
Proof.
  intros Hs Hk Hl. cbn [save fst snd]. unfold load_secret, load_or_generate_reporting. cbn [id_file pub_file write_secure fst].
  rewrite parse_private_hex by done. split_and!; [done..|].
  pose proof (line_entry (public i) Hk Hl) as He. unfold entry_line_ok, tidy in He. rewrite !andb_true_iff in He.
  destruct He as [[[_ ?] ?] _]. rewrite trim_newline by done. by apply from_to_line.
Qed.

End Reload.

(** ** Pre-shared keys survive their file *)

Definition secret_ok (e : KeyEntry) : bool :=
  match ke_name e with Some n => plain_word n && negb (starts_with "#" n) && plain_word (ke_secret e)
                     | None => plain_word (ke_secret e) && negb (starts_with "#" (ke_secret e)) end.
Definition secret_words (e : KeyEntry) : list string := option_list (ke_name e) ++ [ke_secret e].
Lemma secret_line e : secret_ok e = true ->
  split_whitespace (String.concat " " (secret_words e)) = secret_words e /\
  entry_line_ok (String.concat " " (secret_words e)) = true.
Proof.
  unfold secret_ok, secret_words. destruct (ke_name e) as [n|]; rewrite !andb_true_iff.
  - intros [[Hn Hc] Hs]. apply negb_true_iff in Hc. cbn [option_list app].
    split; [apply split_whitespace_join|apply join_entry; [|done]]; by repeat constructor.
  - intros [Hs Hc]. apply negb_true_iff in Hc. cbn [option_list app].
    split; [apply split_whitespace_join|apply join_entry; [|done]]; by repeat constructor.
Qed.
Lemma keystore_render_block l : keystore_render l =
  "# MAE collab trusted keys — one per line: `[name] <secret>`" +:+
  String newline (block (map (fun e => String.concat " " (secret_words e)) l)).
Proof.
  unfold keystore_render, block. rewrite map_map. do 3 f_equal. apply map_ext. intros e. unfold secret_words.
  destruct (ke_name e) as [n|]; [|done].
  change (String.concat " " (option_list (Some n) ++ [ke_secret e])) with (n +:+ (" " +:+ ke_secret e)).
  by rewrite !string_app_assoc.
Qed.
Lemma keystore_reload l : Forall (fun e => secret_ok e = true) l -> keystore_parse (keystore_render l) = l.
Proof.
  intros Hl. unfold keystore_parse. rewrite keystore_render_block, entry_lines_file; [|by vm_compute..|].
  - induction Hl as [|e l He _ IH]; [done|]. cbn [map omap list_omap]. rewrite (proj1 (secret_line e He)), IH.
    destruct e as [[n|] s]; done.
  - apply List.Forall_map. eapply Forall_impl; [exact Hl|]. intros e He. by apply secret_line.
Qed.

(** Adding a key keeps the keys of the file, in order, and a name stays unique. *)
Theorem add_key_appends l name secret : Forall (fun e => secret_ok e = true) l ->
  secret_ok (mkEntry name secret) = true -> (forall n, name = Some n -> keystore_find l n = None) ->
  let '(f, r) := add_key None (Text (keystore_render l)) name secret in
  r = inr (S (length l)) /\ load_optional f = Some (Some (l ++ [mkEntry name secret])).
Proof.
  intros Hl Hs Hn. unfold add_key. cbn [load_optional]. rewrite keystore_reload by done. cbn [default].
  replace (match name with Some n => bool_decide (is_Some (keystore_find l n)) | None => false end) with false.
  - cbn [load_optional]. rewrite keystore_reload by (apply Forall_app; auto). rewrite length_app. cbn. split; [f_equal; lia|done].
  - destruct name as [n|]; [|done]. symmetry. apply bool_decide_eq_false_2. change (id l) with l. rewrite (Hn n eq_refl). by intros [? ?].
Qed.

(** The signed transcript determines the keys and both nonces, given the length
    of the nonce each side makes for itself. *)
Lemma string_app_split a b c d : String.length a = String.length b -> a +:+ c = b +:+ d -> a = b /\ c = d.
Proof.
  revert b. induction a as [|x a IH]; intros [|y b]; cbn [String.length]; intros Hl; try done.
  change (String x a +:+ c) with (String x (a +:+ c)). change (String y b +:+ d) with (String y (b +:+ d)).
  intros [= -> E]. apply IH in E as [-> ->]; [done|lia].
Qed.
Lemma transcript_binds cp sp cn sn cp' sp' cn' sn' :
  String.length cp = String.length cp' -> String.length sp = String.length sp' ->
  String.length cn = String.length cn' \/ String.length sn = String.length sn' ->
  transcript cp sp cn sn = transcript cp' sp' cn' sn' -> cp = cp' /\ sp = sp' /\ cn = cn' /\ sn = sn'.
Proof.
  intros Hc Hs Hn E. unfold transcript in E. apply string_app_split in E as [_ E]; [|done].
  apply string_app_split in E as [-> E]; [|done]. apply string_app_split in E as [-> E]; [|done].
  assert (String.length cn = String.length cn') as Hl.
  { destruct Hn as [|Hn]; [done|]. apply (f_equal String.length) in E. rewrite !string_length_app in E. lia. }
  by apply string_app_split in E as [-> ->].
Qed.

Module IdentityWitnesses.
Export RotationWitnesses.

(** Base64 as hexadecimal digits: text without blanks. *)
#[export] Instance hex64 : Base64 := {| b64_encode := hex_text; b64_decode s := match parse_pairs s with Some r => r | None => None end |}.
#[export] Instance hex64_laws : Base64Laws hex64.
Proof. split. intros b. cbn. by rewrite parse_hex. Qed.
#[export] Instance hex64_text : Base64Text hex64.
Proof. split; [exact hex_graphic|]. intros [|c b]; [done|]. by intros _. Qed.

(** Signatures that name the first two bytes of the key; a 32-byte seed is its
    own public key. *)
Definition seed_key (k : string) : string := String.substring 0 32 (k +:+ String.concat "" (replicate 32 "0")).
#[export] Instance seed_signer : Signer := {|
  sign k m := String.substring 0 2 (seed_key k) +:+ String.concat "" (replicate 62 "0");
  public_of := seed_key;
|}.
#[export] Instance seed_signer_laws : SignerLaws seed_signer.
Proof.
  split.
  - intros k m. destruct k as [|a [|b [|c k]]]; reflexivity.
  - done.
  - intros k m. apply bool_decide_eq_true_2. destruct k as [|a [|b [|c k]]]; reflexivity.
Qed.

Definition laptop : PublicKey := mkPub (key "la") (Some "laptop").
Definition phone : PublicKey := mkPub (key "ph") (Some "phone").



Lemma saved_identity_reloads_witness :
  let i := mkIdentity (key "la") "laptop" in
  let d' := (save None i (mkDir None None)).1 in
  (save None i (mkDir None None)).2 = true /\
  load_secret d' "x" = Some (Some (mkIdentity (key "la") "x")) /\
  load_or_generate_reporting None d' "x" (key "zz") = Some (d', inr (mkIdentity (key "la") "x", false)) /\
  (let? l := pub_file d' in from_line (trim l)) = Some (public i).
Proof. apply (saved_identity_reloads (mkIdentity (key "la") "laptop")); by vm_compute. Defined.

(** An [authorized_keys] file with a comment, a foreign key type and a key. *)
Example keys_file_example :
  keys_load (Some ("# trusted" +:+ String newline ("ssh-rsa AAAA x" +:+ String newline
    ("  mae-ed25519 " +:+ hex_text (key "la") +:+ " laptop extra")))) = [laptop].
Proof. by vm_compute. Qed.

End IdentityWitnesses.

(** ** Where the files depart from what they promise *)

Module IdentityDepartures.
Import IdentityWitnesses.

(** Labels are unique when they are added, but only their first word survives
    the file: two labels with a common first word become one, revoking by the
    full label removes nothing and revoking by the word removes both keys. *)
Lemma blank_labels_collide :
  let work := mkPub (key "la") (Some "my laptop") in
  let home := mkPub (key "ph") (Some "my phone") in
  let file := foldl key_op None [OpAdd work; OpAdd home] in
  map pk_label (keys_load file) = [Some "my"; Some "my"] /\
  (update_keys file (fun ak f => revoke None ak f "my laptop")).2 = Some 0 /\
  (update_keys file (fun ak f => revoke None ak f "my")).2 = Some 2.
Proof. by vm_compute. Qed.

(** A private key file that does not parse is not an error: it is overwritten
    with a fresh key. *)
Lemma malformed_key_is_replaced `{Crypto, Base64, Signer} content pub label fresh :
  parse_private (trim content) label = Some None ->
  exists pub', load_or_generate_reporting None (mkDir (Some content) pub) label fresh =
    Some (mkDir (Some (hex_text fresh +:+ String newline "")) pub', inr (mkIdentity fresh label, true)).
Proof. intros E. unfold load_or_generate_reporting. cbn [id_file]. rewrite E. eexists. reflexivity. Qed.

(** A key file of 64 bytes in which a character sits across a pair panics; a
    plus sign counts as a digit. *)
Lemma key_file_oddities :
  parse_private (String.concat "" ("é" :: "0" :: replicate 61 "0")) "x" = Some None /\
  parse_private (String.concat "" ("0" :: "é" :: replicate 61 "0")) "x" = None /\
  parse_private (String.concat "" (replicate 32 "+a")) "x" =
    Some (Some (mkIdentity (String.concat "" (replicate 32 (String newline ""))) "x")).
Proof. by vm_compute. Qed.

(** A failed write of [known_hosts] leaves it truncated: the pins are gone and
    the next key presented for a pinned address is accepted. *)
Lemma failed_write_forgets_pins :
  let file := (host_verify AcceptNew None None "host:9000" laptop).1 in
  let file' := host_verify AcceptNew (Some (WriteFails (Some ""))) file "other:1" phone in
  (host_verify AcceptNew None file "host:9000" phone).2 = false /\
  file'.2 = false /\ (host_verify AcceptNew None file'.1 "host:9000" phone).2 = true.
Proof. by vm_compute. Qed.

End IdentityDepartures.
