(* ===== verification/Handshake.v ===== *)
(** * Handshake: who may open a connection

    Models [shared/mcp/src/auth.rs]: the authentication providers [NoAuth],
    [PskAuth] and [KeyAuth], their handshakes on both sides and the messages,
    and the two places that turn the outcome into a session:
    [handle_client_with_auth] of [daemon/src/collab_handler/mod.rs] with the
    session identity of [shared/mcp/src/session.rs], and [handle_client] of
    [shared/mcp/src/lib.rs].

    A handshake is a process that sends and receives lines. HMAC, hexadecimal
    and base64 text, signatures and the JSON text format are parameters; random
    bytes are arguments. Errors carry the text the code puts before the message
    of the parser. *)
From S2P Require Import Prelude Rope Buffer Membership OpLog CollabText DocAddress Storage DocStore DeriveCache Json.
From S2P Require Import ContentOps Collection Access Broadcast Session Rotation OrgLinks Identity.

(** [HmacSha256] of a key and a message, fed in parts. *)
Class Hmac := { hmac_sha256 : string -> string -> string }.

(** [serde_json]: the text of a value, and the value of a text. A handshake
    message is an object of strings and integers. *)
Class JsonText := { json_text : Json -> string; json_parse : string -> option Json }.
Definition scalar_json (v : Json) : bool := match v with JString _ | JPosInt _ => true | _ => false end.
Definition flat (v : Json) : bool :=
  match v with JObject o => forallb (fun kv => scalar_json kv.2) (map_to_list o) | _ => false end.
Class JsonTextLaws (J : JsonText) : Prop := {
  json_read v : flat v = true -> json_parse (trim (json_text v +:+ String newline "")) = Some v;
  json_empty : json_parse "" = None;
}.

(** ** Processes *)

(** [Send] continues with whether the write succeeded, [Recv] with the line, its
    newline included; [Some ""] is the end of the stream, [None] an I/O error. *)
Inductive Proc (R : Type) : Type :=
  | Done (r : R)
  | Send (line : string) (k : bool -> Proc R)
  | Recv (k : option string -> Proc R)
  | Panic.
Arguments Done {R}. Arguments Send {R}. Arguments Recv {R}. Arguments Panic {R}.

Inductive AuthError := IoError | Protocol (msg : string) | Rejected (reason : string).
Notation "'send!' l ; k" := (Send l (fun ok : bool => if ok then k else Done (inl IoError)))
  (at level 100, l at level 99, k at level 200, right associativity).
Notation "'recv!' x ; k" := (Recv (fun r : option string => match r with Some x => k | None => Done (inl IoError) end))
  (at level 100, x binder, k at level 200, right associativity).
Notation "'let!' x ':=' e 'else' err 'in' k" := (match e with Some x => k | None => Done (inl err) end)
  (at level 200, x pattern, e at level 100, err at level 100, k at level 200).

(** What one side does, and what it has of the other. *)
Inductive Event := Sent (line : string) (ok : bool) | Got (line : option string).
Inductive trace {R : Type} : Proc R -> list Event -> R -> Prop :=
  | trace_done r : trace (Done r) [] r
  | trace_send line k ok es r : trace (k ok) es r -> trace (Send line k) (Sent line ok :: es) r
  | trace_recv k l es r : trace (k l) es r -> trace (Recv k) (Got l :: es) r.

(** Two processes joined by a connection without errors; [ip] and [iq] are the
    lines on their way. A side that is done has closed the connection. [None]
    is a deadlock, a panic or too little fuel. *)
Fixpoint converse {A B : Type} (fuel : nat) (p : Proc A) (q : Proc B) (ip iq : list string) : option (A * B) :=
  match fuel with
  | 0 => None
  | S n =>
      match p, ip with
      | Send l k, _ => converse n (k true) q ip (iq ++ [l +:+ String newline ""])
      | Recv k, l :: ip' => converse n (k (Some l)) q ip' iq
      | Panic, _ => None
      | _, _ =>
          match q, iq with
          | Send l k, _ => converse n p (k true) (ip ++ [l +:+ String newline ""]) iq
          | Recv k, l :: iq' => converse n p (k (Some l)) ip iq'
          | Panic, _ => None
          | Done b, _ => match p with
                         | Done a => Some (a, b)
                         | Recv k => converse n (k (Some "")) q [] iq
                         | _ => None
                         end
          | Recv k, [] => match p with Done _ => converse n p (k (Some "")) ip [] | _ => None end
          end
      end
  end.

(** The moves of a run, for rewriting. *)
Section Moves.
Context {A B : Type}.
Implicit Types (p : Proc A) (q : Proc B) (n : nat).
Local Notation nl := (String newline "").
Lemma run_send l k q n ip iq : converse (S n) (@Send A l k) q ip iq = converse n (k true) q ip (iq ++ [l +:+ nl]).
Proof. done. Qed.
Lemma run_recv k q n l ip iq : converse (S n) (@Recv A k) q (l :: ip) iq = converse n (k (Some l)) q ip iq.
Proof. done. Qed.
Lemma run_peer_sends k l k' n iq : converse (S n) (@Recv A k) (@Send B l k') [] iq = converse n (Recv k) (k' true) [l +:+ nl] iq.
Proof. done. Qed.
Lemma run_peer_recvs k k' l n iq : converse (S n) (@Recv A k) (@Recv B k') [] (l :: iq) = converse n (Recv k) (k' (Some l)) [] iq.
Proof. done. Qed.
Lemma run_peer_closed k b n iq : converse (S n) (@Recv A k) (@Done B b) [] iq = converse n (k (Some "")) (Done b) [] iq.
Proof. done. Qed.
Lemma run_finishes_send a l k n ip iq : converse (S n) (@Done A a) (@Send B l k) ip iq = converse n (Done a) (k true) (ip ++ [l +:+ nl]) iq.
Proof. by destruct ip. Qed.
Lemma run_finishes_recv a k l n ip iq : converse (S n) (@Done A a) (@Recv B k) ip (l :: iq) = converse n (Done a) (k (Some l)) ip iq.
Proof. by destruct ip. Qed.
Lemma run_closed a k n ip : converse (S n) (@Done A a) (@Recv B k) ip [] = converse n (Done a) (k (Some "")) ip [].
Proof. by destruct ip. Qed.
Lemma run_done a b n ip iq : converse (S n) (@Done A a) (@Done B b) ip iq = Some (a, b).
Proof. by destruct ip. Qed.
End Moves.
Ltac moves := repeat (first [rewrite run_send | rewrite run_recv | rewrite run_peer_sends | rewrite run_peer_recvs
  | rewrite run_peer_closed | rewrite run_finishes_send | rewrite run_finishes_recv | rewrite run_closed | rewrite run_done];
  cbv beta match; cbn [app]).

(** Inversion of a trace, through the tests of the process. *)
Ltac trace_inv T :=
  lazymatch type of T with
  | trace (Send _ _) _ _ => inversion T; clear T; subst;
      match goal with T' : trace _ _ _ |- _ => rename T' into T; cbv beta in T; trace_inv T end
  | trace (Recv _) _ _ => inversion T; clear T; subst;
      match goal with T' : trace _ _ _ |- _ => rename T' into T; cbv beta in T; trace_inv T end
  | trace (Done _) _ _ => inversion T; clear T; subst
  | trace Panic _ _ => inversion T
  | trace (match ?e with _ => _ end) _ _ => destruct e eqn:?; trace_inv T
  | _ => idtac
  end.

(** ** Messages *)

Record AuthHello := mkHello { h_auth : string; h_version : N; h_nonce : string; h_key_id : option string }.
Record AuthChallenge := mkChallenge { c_auth : string; c_server_nonce : string; c_proof : string }.
Record AuthResponse := mkResponse { r_auth : string; r_proof : string }.
Record AuthOk := mkOk { ok_auth : string }.
Record AuthFail := mkFail { f_auth : string; f_reason : string }.
Record KeyHello := mkKeyHello { kh_auth : string; kh_v : N; kh_client_pub : string; kh_client_nonce : string }.
Record KeyOffer := mkKeyOffer { ko_auth : string; ko_server_pub : string; ko_server_nonce : string; ko_sig : string }.
Record KeyAuthMsg := mkKeyAuth { ka_auth : string; ka_sig : string }.

Definition hello_json (m : AuthHello) : Json :=
  obj ([("auth", JString (h_auth m)); ("version", JPosInt (h_version m)); ("nonce", JString (h_nonce m))] ++
       match h_key_id m with Some id => [("key_id", JString id)] | None => [] end).
Definition challenge_json (m : AuthChallenge) : Json :=
  obj [("auth", JString (c_auth m)); ("server_nonce", JString (c_server_nonce m)); ("proof", JString (c_proof m))].
Definition response_json (m : AuthResponse) : Json := obj [("auth", JString (r_auth m)); ("proof", JString (r_proof m))].
Definition ok_json (m : AuthOk) : Json := obj [("auth", JString (ok_auth m))].
Definition fail_json (m : AuthFail) : Json := obj [("auth", JString (f_auth m)); ("reason", JString (f_reason m))].
Definition key_hello_json (m : KeyHello) : Json :=
  obj [("auth", JString (kh_auth m)); ("v", JPosInt (kh_v m)); ("client_pub", JString (kh_client_pub m));
       ("client_nonce", JString (kh_client_nonce m))].
Definition key_offer_json (m : KeyOffer) : Json :=
  obj [("auth", JString (ko_auth m)); ("server_pub", JString (ko_server_pub m));
       ("server_nonce", JString (ko_server_nonce m)); ("sig", JString (ko_sig m))].
Definition key_auth_json (m : KeyAuthMsg) : Json := obj [("auth", JString (ka_auth m)); ("sig", JString (ka_sig m))].

(** A derived reader takes the fields of an object by name, and of an array in
    order: unknown members are ignored, a longer array is refused. *)
Definition struct_fields (names : list string) (v : Json) : option (list (option Json)) :=
  match v with
  | JObject o => Some (map (fun n => o !! n) names)
  | JArray l => if length names <? length l then None else Some (map (fun i => l !! i) (seq 0 (length names)))
  | _ => None
  end.
Definition str_field (f : option Json) : option string := let? v := f in as_str v.
Definition u32_field (f : option Json) : option N :=
  let? v := f in let? n := as_u64 v in if (n <? 2 ^ 32)%N then Some n else None.
(** [Option<String>] with a default. *)
Definition opt_str_field (f : option Json) : option (option string) :=
  match f with
  | None | Some JNull => Some None
  | Some (JString s) => Some (Some s)
  | Some _ => None
  end.
Definition as_hello (v : Json) : option AuthHello :=
  let? fs := struct_fields ["auth"; "version"; "nonce"; "key_id"] v in
  match fs with
  | [a; ver; n; k] =>
      let? a := str_field a in let? ver := u32_field ver in let? n := str_field n in
      let? k := opt_str_field k in Some (mkHello a ver n k)
  | _ => None
  end.
Definition as_challenge (v : Json) : option AuthChallenge :=
  let? fs := struct_fields ["auth"; "server_nonce"; "proof"] v in
  match fs with
  | [a; n; p] => let? a := str_field a in let? n := str_field n in let? p := str_field p in Some (mkChallenge a n p)
  | _ => None
  end.
Definition as_pair {A} (mk : string -> string -> A) (second : string) (v : Json) : option A :=
  let? fs := struct_fields ["auth"; second] v in
  match fs with
  | [a; b] => let? a := str_field a in let? b := str_field b in Some (mk a b)
  | _ => None
  end.
Definition as_response : Json -> option AuthResponse := as_pair mkResponse "proof".
Definition as_fail : Json -> option AuthFail := as_pair mkFail "reason".
Definition as_key_auth : Json -> option KeyAuthMsg := as_pair mkKeyAuth "sig".
Definition as_ok (v : Json) : option AuthOk :=
  let? fs := struct_fields ["auth"] v in
  match fs with [a] => mkOk <$> str_field a | _ => None end.
Definition as_key_hello (v : Json) : option KeyHello :=
  let? fs := struct_fields ["auth"; "v"; "client_pub"; "client_nonce"] v in
  match fs with
  | [a; ver; p; n] =>
      let? a := str_field a in let? ver := u32_field ver in let? p := str_field p in let? n := str_field n in
      Some (mkKeyHello a ver p n)
  | _ => None
  end.
Definition as_key_offer (v : Json) : option KeyOffer :=
  let? fs := struct_fields ["auth"; "server_pub"; "server_nonce"; "sig"] v in
  match fs with
  | [a; p; n; s] =>
      let? a := str_field a in let? p := str_field p in let? n := str_field n in let? s := str_field s in
      Some (mkKeyOffer a p n s)
  | _ => None
  end.

Record AuthResult := mkResult { client_label : string }.

Section Handshake.
Context `{JsonText}.

(** [serde_json::from_str(line.trim())]. *)
Definition from_line_as {A} (as_ : Json -> option A) (line : string) : option A :=
  let? v := json_parse (trim line) in as_ v.

(** ** No authentication *)

Definition no_auth_server : Proc (AuthError + AuthResult) := Done (inr (mkResult "anonymous")).
Definition no_auth_client : Proc (AuthError + unit) := Done (inr tt).

(** The last step of both clients: read the verdict. *)
Definition read_verdict (otherwise : string) : Proc (AuthError + unit) :=
  recv! line;
  if match from_line_as as_ok line with Some m => bool_decide (ok_auth m = "ok") | None => false end
  then Done (inr tt)
  else match from_line_as as_fail line with
       | Some fail => Done (inl (Rejected (f_reason fail)))
       | None => Done (inl (Protocol otherwise))
       end.
Definition send_fail {R} (reason : string) (e : AuthError) : Proc (AuthError + R) :=
  send! json_text (fail_json (mkFail "fail" reason)); Done (inl e).
Definition send_ok (r : AuthResult) : Proc (AuthError + AuthResult) :=
  send! json_text (ok_json (mkOk "ok")); Done (inr r).

(** ** Pre-shared keys *)

Section Psk.
Context `{Crypto, Hmac}.
Implicit Types keys : list KeyEntry.

(** [PskAuth::select]. *)
Definition select keys (key_id : option string) : option KeyEntry :=
  match key_id with
  | Some id => List.find (fun k => bool_decide (ke_name k = Some id)) keys
  | None => head keys
  end.
Definition proof_with (secret nonce_a nonce_b : string) : string := hex_encode (hmac_sha256 secret (nonce_a +:+ nonce_b)).
Definition verify_with (secret nonce_a nonce_b proof_hex : string) : bool :=
  match hex_decode proof_hex with
  | None => false
  | Some proof => bool_decide (hmac_sha256 secret (nonce_a +:+ nonce_b) = proof)
  end.

Definition psk_server keys (random : string) : Proc (AuthError + AuthResult) :=
  recv! line;
  let! hello := from_line_as as_hello line else Protocol "invalid hello" in
  if negb (bool_decide (h_auth hello = "hello")) || negb (h_version hello =? 1)%N
  then Done (inl (Protocol "unexpected hello format"))
  else match select keys (h_key_id hello) with
       | None => send_fail "unknown key id" (Rejected "unknown key id")
       | Some key =>
           let label := default "psk" (ke_name key) in
           let server_nonce := hex_encode random in
           let server_proof := proof_with (ke_secret key) (h_nonce hello) server_nonce in
           send! json_text (challenge_json (mkChallenge "challenge" server_nonce server_proof));
           recv! line;
           let! response := from_line_as as_response line else Protocol "invalid response" in
           if negb (bool_decide (r_auth response = "response")) then Done (inl (Protocol "expected 'response'"))
           else if negb (verify_with (ke_secret key) server_nonce (h_nonce hello) (r_proof response))
           then send_fail "invalid proof" (Rejected "invalid proof")
           else send_ok (mkResult label)
       end.

Definition psk_client keys (offer_id : option string) (random : string) : Proc (AuthError + unit) :=
  let! key := head keys else Protocol "client has no PSK" in
  let secret := ke_secret key in
  let client_nonce := hex_encode random in
  send! json_text (hello_json (mkHello "hello" 1 client_nonce offer_id));
  recv! line;
  let! challenge := from_line_as as_challenge line else Protocol "invalid challenge" in
  if negb (bool_decide (c_auth challenge = "challenge")) then Done (inl (Protocol "expected 'challenge'"))
  else
    let server_nonce := c_server_nonce challenge in
    if negb (verify_with secret client_nonce server_nonce (c_proof challenge))
    then Done (inl (Rejected "server proof invalid — wrong key?"))
    else
      send! json_text (response_json (mkResponse "response" (proof_with secret server_nonce client_nonce)));
      read_verdict "unexpected auth result".
End Psk.

(** [perform_psk_auth] of the editor: no key, no handshake. *)
Definition perform_psk_auth `{Crypto, Hmac} (psk : string) (key_id : option string) (random : string)
    : Proc (AuthError + unit) :=
  if is_empty psk then Done (inr tt) else psk_client [mkEntry None psk] key_id random.

(** [load_psk]: the output of the command, when it ran and succeeded. *)
Inductive CommandOutcome := CommandFailed | CommandOutput (stdout : string).
Definition load_psk (psk_command : option CommandOutcome) (psk : option string) : option string :=
  match psk_command with
  | Some (CommandOutput out) => let key := trim out in if is_empty key then psk else Some key
  | _ => psk
  end.

(** ** Signing keys *)

Section KeyMode.
Context `{Crypto, Base64, Signer}.
Implicit Types (i : Identity) (ak : list PublicKey).

(** [KeyAuth::server_handshake] with the role [Server]. *)
Definition key_server i ak (random : string) : Proc (AuthError + AuthResult) :=
  recv! line;
  let! hello := from_line_as as_key_hello line else Protocol "invalid key hello" in
  if negb (bool_decide (kh_auth hello = "key-hello")) || negb (kh_v hello =? 1)%N
  then Done (inl (Protocol "unexpected key hello"))
  else
    let! client_pub := from_encoded (kh_client_pub hello) None else Protocol "bad client public key" in
    let! client_nonce := b64_decode (kh_client_nonce hello) else Protocol "bad nonce" in
    let server_nonce_b64 := b64_encode random in
    match b64_decode server_nonce_b64 with
    | None => Panic
    | Some server_nonce =>
        let t := transcript (pk_key client_pub) (pk_key (public i)) client_nonce server_nonce in
        send! json_text (key_offer_json (mkKeyOffer "key-offer" (encoded (public i)) server_nonce_b64 (b64_encode (id_sign i t))));
        recv! line;
        let! auth_msg := from_line_as as_key_auth line else Protocol "invalid key auth" in
        let! sig_c := b64_decode (ka_sig auth_msg) else Protocol "bad client sig" in
        if negb (pk_verify client_pub t sig_c)
        then send_fail "invalid client signature" (Rejected "invalid client signature")
        else match authorize ak (pk_key client_pub) with
             | Some label => send_ok (mkResult (if is_empty label then pk_fingerprint client_pub else label))
             | None => send_fail "public key not authorized"
                         (Rejected ("client key not authorized (fingerprint " +:+ pk_fingerprint client_pub +:+ ")"))
             end
    end.

(** [KeyAuth::client_handshake] with the role [Client]; [verify] is the
    verdict of the host-key verifier on the address. *)
Definition key_client i (verify : PublicKey -> bool) (random : string) : Proc (AuthError + unit) :=
  let client_nonce_b64 := b64_encode random in
  match b64_decode client_nonce_b64 with
  | None => Panic
  | Some client_nonce =>
      send! json_text (key_hello_json (mkKeyHello "key-hello" 1 (encoded (public i)) client_nonce_b64));
      recv! line;
      let! offer := from_line_as as_key_offer line else Protocol "invalid key offer" in
      if negb (bool_decide (ko_auth offer = "key-offer")) then Done (inl (Protocol "expected key offer"))
      else
        let! server_pub := from_encoded (ko_server_pub offer) None else Protocol "bad server public key" in
        let! server_nonce := b64_decode (ko_server_nonce offer) else Protocol "bad nonce" in
        let! sig_s := b64_decode (ko_sig offer) else Protocol "bad server sig" in
        let t := transcript (pk_key (public i)) (pk_key server_pub) client_nonce server_nonce in
        if negb (pk_verify server_pub t sig_s) then Done (inl (Rejected "server signature invalid"))
        else if negb (verify server_pub)
        then Done (inl (Rejected ("daemon host key not trusted (fingerprint " +:+ pk_fingerprint server_pub +:+ ")")))
        else
          send! json_text (key_auth_json (mkKeyAuth "key-auth" (b64_encode (id_sign i t))));
          read_verdict "unexpected key auth result"
  end.

(** A provider is built for one side; used as the other it fails at once. *)
Inductive KeyRole := ServerRole (authorized : list PublicKey) | ClientRole (verify : PublicKey -> bool).
Definition key_auth_server i (role : KeyRole) (random : string) : Proc (AuthError + AuthResult) :=
  match role with
  | ServerRole ak => key_server i ak random
  | ClientRole _ => Done (inl (Protocol "KeyAuth client used as server"))
  end.
Definition key_auth_client i (role : KeyRole) (random : string) : Proc (AuthError + unit) :=
  match role with
  | ClientRole verify => key_client i verify random
  | ServerRole _ => Done (inl (Protocol "KeyAuth server used as client"))
  end.
End KeyMode.

(** ** Sessions *)

(** [handle_client_with_auth]: the peer bound to the session, [None] when the
    connection is dropped (also when the handshake took too long). *)
Definition collab_peer (handshake : option (AuthError + AuthResult)) : option PeerIdentity :=
  match handshake with
  | Some (inr result) => Some (synthetic (client_label result))
  | _ => None
  end.
(** [run_session] and [ClientSession]: what the handlers see of the peer. *)
Definition session_of (id : N) (peer : option PeerIdentity) (tr : Transport) : Session :=
  mkSession id (let? p := peer in principal_of p)
    (let? p := peer in if is_authenticated p then Some (pi_label p) else None) tr.

(** [handle_client] of the tool socket: the identity after its handshake. *)
Definition mcp_peer (handshake : AuthError + AuthResult) : option PeerIdentity :=
  match handshake with
  | inr result => Some (synthetic_psk (client_label result))
  | inl _ => None
  end.


(** ** Reading what was sent *)

Section Proofs.
Context {JL : JsonTextLaws H}.
Local Notation wire v := (json_text v +:+ String newline "").

Lemma flat_obj l : Forall (fun kv => scalar_json kv.2 = true) l -> flat (obj l) = true.
Proof.
  intros Hl. unfold flat, obj. apply forallb_forall. intros [k v] Hin%list_elem_of_In. cbn.
  apply elem_of_map_to_list, elem_of_list_to_map_2 in Hin. rewrite Forall_forall in Hl. by apply (Hl (k, v)).
Qed.
Lemma wire_read {A} (as_ : Json -> option A) v : flat v = true -> from_line_as as_ (wire v) = as_ v.
Proof. intros Hv. unfold from_line_as. by rewrite json_read. Qed.
Lemma end_of_stream {A} (as_ : Json -> option A) : from_line_as as_ "" = None.
Proof. unfold from_line_as. change (trim "") with "". by rewrite json_empty. Qed.

Ltac read_tac := rewrite wire_read by (apply flat_obj; repeat constructor); reflexivity.
Lemma read_hello n id : from_line_as as_hello (wire (hello_json (mkHello "hello" 1 n id))) = Some (mkHello "hello" 1 n id).
Proof. destruct id; read_tac. Qed.
Lemma read_challenge n p : from_line_as as_challenge (wire (challenge_json (mkChallenge "challenge" n p))) = Some (mkChallenge "challenge" n p).
Proof. read_tac. Qed.
Lemma read_response p : from_line_as as_response (wire (response_json (mkResponse "response" p))) = Some (mkResponse "response" p).
Proof. read_tac. Qed.
Lemma read_accept : from_line_as as_ok (wire (ok_json (mkOk "ok"))) = Some (mkOk "ok").
Proof. read_tac. Qed.
Lemma read_fail_as_ok reason : from_line_as as_ok (wire (fail_json (mkFail "fail" reason))) = Some (mkOk "fail").
Proof. read_tac. Qed.
Lemma read_fail reason : from_line_as as_fail (wire (fail_json (mkFail "fail" reason))) = Some (mkFail "fail" reason).
Proof. read_tac. Qed.
Lemma read_key_hello p n : from_line_as as_key_hello (wire (key_hello_json (mkKeyHello "key-hello" 1 p n))) = Some (mkKeyHello "key-hello" 1 p n).
Proof. read_tac. Qed.
Lemma read_key_offer p n s : from_line_as as_key_offer (wire (key_offer_json (mkKeyOffer "key-offer" p n s))) = Some (mkKeyOffer "key-offer" p n s).
Proof. read_tac. Qed.
Lemma read_key_auth s : from_line_as as_key_auth (wire (key_auth_json (mkKeyAuth "key-auth" s))) = Some (mkKeyAuth "key-auth" s).
Proof. read_tac. Qed.

(** ** Pre-shared keys *)

Section PskProofs.
Context `{C : Crypto, M : Hmac, !HexLaws C}.
Implicit Types (keys : list KeyEntry) (key : KeyEntry).

Lemma verify_exact secret a b p :
  verify_with secret a b p = true <-> hex_decode p = Some (hmac_sha256 secret (a +:+ b)).
Proof.
  unfold verify_with. destruct (hex_decode p) as [q|]; [|done]. rewrite bool_decide_eq_true. split; [by intros ->|by intros [= ->]].
Qed.
Lemma verify_proof secret secret' a b :
  verify_with secret a b (proof_with secret' a b) = bool_decide (hmac_sha256 secret (a +:+ b) = hmac_sha256 secret' (a +:+ b)).
Proof. unfold verify_with, proof_with. by rewrite hex_decode_encode. Qed.

(** The results of the server and of the client. *)
Definition psk_outcome keys mine (offer : option string) (rs rc : string) : (AuthError + AuthResult) * (AuthError + unit) :=
  let cn := hex_encode rc in let sn := hex_encode rs in
  match head mine with
  | None => (inl (Protocol "invalid hello"), inl (Protocol "client has no PSK"))
  | Some m =>
      match select keys offer with
      | None => (inl (Rejected "unknown key id"), inl (Protocol "invalid challenge"))
      | Some key =>
          let agree x y := bool_decide (hmac_sha256 (ke_secret key) (x +:+ y) = hmac_sha256 (ke_secret m) (x +:+ y)) in
          if agree cn sn then
            if agree sn cn then (inr (mkResult (default "psk" (ke_name key))), inr tt)
            else (inl (Rejected "invalid proof"), inl (Rejected "invalid proof"))
          else (inl (Protocol "invalid response"), inl (Rejected "server proof invalid — wrong key?"))
      end
  end.
Lemma read_fail_as_challenge reason : from_line_as as_challenge (wire (fail_json (mkFail "fail" reason))) = None.
Proof. read_tac. Qed.

(** C14. The pre-shared-key handshake of any client with any server ends on both
    sides, for any keys, key names and nonces, and ends as follows: with the
    server accepting under the key's name and the client satisfied, if the
    client's key computes both proofs as the selected key does; with the client
    refusing an unknown server and sending nothing more, if the first proof
    differs; with a refusal for a wrong second proof, for a key name the server
    does not know, or for a client without a key. *)
Theorem psk_handshake_outcome keys mine offer rs rc :
  converse 12 (psk_server keys rs) (psk_client mine offer rc) [] [] = Some (psk_outcome keys mine offer rs rc).
Proof.
  unfold psk_outcome, psk_client, psk_server. cbv zeta. destruct (head mine) as [m|].
  2: { moves. rewrite end_of_stream. by moves. }
  moves. rewrite read_hello. cbn [h_auth h_version h_key_id h_nonce]. change (negb _ || negb _) with false. cbv match.
  destruct (select keys offer) as [key|].
  - moves. rewrite read_challenge. cbn [c_auth c_server_nonce c_proof]. rewrite verify_proof.
    change (negb (bool_decide ("challenge" = "challenge"))) with false. cbv match.
    destruct (decide (hmac_sha256 (ke_secret key) (hex_encode rc +:+ hex_encode rs) = hmac_sha256 (ke_secret m) (hex_encode rc +:+ hex_encode rs))) as [E|E].
    + rewrite !bool_decide_eq_true_2 by done. cbn [negb]. moves. rewrite read_response. cbn [r_auth r_proof].
      change (negb (bool_decide ("response" = "response"))) with false. cbv match. rewrite verify_proof.
      unfold read_verdict, send_fail, send_ok. case_bool_decide; cbn [negb]; moves.
      * rewrite read_accept. by moves.
      * rewrite read_fail_as_ok, read_fail. by moves.
    + rewrite (bool_decide_eq_false_2 (hmac_sha256 (ke_secret m) _ = _)) by done.
      rewrite (bool_decide_eq_false_2 (hmac_sha256 (ke_secret key) _ = _)) by done.
      cbn [negb]. moves. rewrite end_of_stream. by moves.
  - unfold send_fail. moves. rewrite read_fail_as_challenge. by moves.
Qed.

(** C13. The server's side of the pre-shared-key handshake accepts a peer,
    whatever lines the peer sends, only after a well-formed hello that names a
    trusted key (or no key, for the first one) and a response whose proof is
    the HMAC, under that key, of the server's own nonce followed by the peer's;
    the session is labelled with that key's name. *)
Theorem psk_accepts_only_proofs keys random es r :
  trace (psk_server keys random) es (inr r) ->
  exists l1 l2 challenge verdict hello key resp,
    es = [Got (Some l1); Sent challenge true; Got (Some l2); Sent verdict true] /\
    from_line_as as_hello l1 = Some hello /\ h_auth hello = "hello" /\ h_version hello = 1%N /\
    select keys (h_key_id hello) = Some key /\
    from_line_as as_response l2 = Some resp /\ r_auth resp = "response" /\
    hex_decode (r_proof resp) = Some (hmac_sha256 (ke_secret key) (hex_encode random +:+ h_nonce hello)) /\
    client_label r = default "psk" (ke_name key).
Proof.
  intros T. unfold psk_server, send_fail, send_ok in T. cbv zeta in T. trace_inv T.
  repeat match goal with
  | E : _ || _ = false |- _ => apply orb_false_iff in E as [? ?]
  | E : negb _ = false |- _ => apply negb_false_iff in E
  | E : bool_decide _ = true |- _ => apply bool_decide_eq_true in E
  | E : (_ =? _)%N = true |- _ => apply N.eqb_eq in E
  | E : verify_with _ _ _ _ = true |- _ => apply verify_exact in E
  end.
  eexists _, _, _, _, _, _, _. split_and!; try done.
Qed.

(** Proofs of the two sides are told apart by the order of the nonces alone.
    With nonces of one length, a server's proof passes for the client's only if
    the nonces are equal. *)
Lemma equal_lengths_separate_roles secret cn sn :
  String.length cn = String.length sn ->
  (forall m m', hmac_sha256 secret m = hmac_sha256 secret m' -> m = m') ->
  verify_with secret sn cn (proof_with secret cn sn) = true <-> cn = sn.
Proof.
  intros Hl Hinj. rewrite verify_exact. unfold proof_with. rewrite hex_decode_encode. split.
  - intros [= E%Hinj]. by apply string_app_split in E as [-> _].
  - by intros ->.
Qed.

End PskProofs.

(** ** A peer without the key *)

(** It sends an empty nonce and hands the server's proof back. *)
Definition keyless_peer (key_id : option string) : Proc unit :=
  Send (json_text (hello_json (mkHello "hello" 1 "" key_id))) (fun _ =>
  Recv (fun l =>
    match (let? l := l in from_line_as as_challenge l) with
    | Some c => Send (json_text (response_json (mkResponse "response" (c_proof c)))) (fun _ => Recv (fun _ => Done tt))
    | None => Done tt
    end)).

(** The length of the peer's nonce is not checked: with an empty one the two
    proofs are the same, and a peer that knows no key is accepted. *)
Theorem keyless_peer_is_accepted `{C : Crypto, Hmac, !HexLaws C} keys key_id key random :
  select keys key_id = Some key ->
  converse 12 (psk_server keys random) (keyless_peer key_id) [] [] = Some (inr (mkResult (default "psk" (ke_name key))), tt).
Proof.
  intros Hk. unfold keyless_peer, psk_server. cbv zeta. moves. rewrite read_hello. cbn [h_auth h_version h_key_id h_nonce].
  change (negb _ || negb _) with false. cbv match. rewrite Hk. moves. rewrite read_challenge. cbn [c_proof]. moves.
  rewrite read_response. cbn [r_auth r_proof]. change (negb (bool_decide ("response" = "response"))) with false. cbv match.
  replace (verify_with _ _ _ _) with true; [cbn [negb]; unfold send_ok; by moves|].
  symmetry. apply verify_exact. unfold proof_with. rewrite hex_decode_encode. by rewrite string_app_nil_r.
Qed.

(** ** Signing keys *)

Section KeyProofs.
Context `{C : Crypto, B : Base64, !Base64Laws B, S : Signer, !SignerLaws S}.
Implicit Types (i j : Identity) (ak : list PublicKey).

Lemma signed_verifies i msg : pk_verify (public i) msg (id_sign i msg) = true.
Proof. unfold pk_verify, id_sign, public. cbn [pk_key]. rewrite sign_length. cbn. apply sign_verifies. Qed.
Lemma decode_public i l : public_ok (public i) = true -> from_encoded (encoded (public i)) l = Some (mkPub (pk_key (public i)) l).
Proof. apply decode_encoded. Qed.

Definition label_of (label : string) (k : PublicKey) : string := if is_empty label then pk_fingerprint k else label.

(** C16. The signed-challenge handshake of an honest client and an honest daemon
    succeeds on both sides, for any nonces, when the client's verifier trusts
    the daemon's key and the daemon authorizes the client's; the daemon labels
    the session with the label of that key, or its fingerprint. *)
Theorem key_handshake_completes i j ak verify rs rc label :
  public_ok (public i) = true -> public_ok (public j) = true ->
  verify (mkPub (pk_key (public i)) None) = true ->
  authorize ak (pk_key (public j)) = Some label ->
  converse 12 (key_auth_server i (ServerRole ak) rs) (key_auth_client j (ClientRole verify) rc) [] [] =
  Some (inr (mkResult (label_of label (public j))), inr tt).
Proof.
  intros Hi Hj Hv Ha. cbn [key_auth_server key_auth_client]. unfold key_server, key_client. cbv zeta.
  rewrite !b64_decode_encode. moves. rewrite read_key_hello. cbn [kh_auth kh_v kh_client_pub kh_client_nonce].
  change (negb _ || negb _) with false. cbv match. rewrite decode_public, b64_decode_encode by done. moves.
  rewrite read_key_offer. cbn [ko_auth ko_server_pub ko_server_nonce ko_sig].
  change (negb (bool_decide ("key-offer" = "key-offer"))) with false. cbv match.
  rewrite decode_public, !b64_decode_encode by done. cbn [pk_key]. cbv match.
  pose proof (signed_verifies i) as Vi. pose proof (signed_verifies j) as Vj. unfold pk_verify in *. cbn [pk_key] in *.
  rewrite Vi, Hv. cbn [negb]. moves. rewrite read_key_auth. cbn [ka_sig]. rewrite b64_decode_encode, Vj. cbn [negb].
  rewrite Ha. unfold send_ok, read_verdict. moves. rewrite read_accept. by moves.
Qed.

(** C15. The daemon's side accepts a peer, whatever lines the peer sends, only
    if the peer's key is authorized and the peer sent a signature that verifies
    under that key over both keys, the peer's nonce and the nonce the daemon
    made for this connection. *)
Theorem key_accepts_only_signers i role random es r :
  trace (key_auth_server i role random) es (inr r) ->
  exists ak l1 l2 offer verdict hello client_pub client_nonce msg sig_c label,
    role = ServerRole ak /\
    es = [Got (Some l1); Sent offer true; Got (Some l2); Sent verdict true] /\
    from_line_as as_key_hello l1 = Some hello /\
    from_encoded (kh_client_pub hello) None = Some client_pub /\ b64_decode (kh_client_nonce hello) = Some client_nonce /\
    from_line_as as_key_auth l2 = Some msg /\ b64_decode (ka_sig msg) = Some sig_c /\
    pk_verify client_pub (transcript (pk_key client_pub) (pk_key (public i)) client_nonce random) sig_c = true /\
    authorize ak (pk_key client_pub) = Some label /\ client_label r = label_of label client_pub.
Proof.
  intros T. destruct role as [ak|v]; [|inversion T]. cbn [key_auth_server] in T. unfold key_server, send_fail, send_ok in T.
  cbv zeta in T. rewrite b64_decode_encode in T. trace_inv T.
  repeat match goal with E : negb _ = false |- _ => apply negb_false_iff in E end.
  eexists _, _, _, _, _, _, _, _, _, _, _. split_and!; done.
Qed.

(** It presents the daemon's own key and hands the daemon's signature back. *)
Definition mirror_peer (server_pub : PublicKey) (nonce : string) : Proc unit :=
  Send (json_text (key_hello_json (mkKeyHello "key-hello" 1 (encoded server_pub) (b64_encode nonce)))) (fun _ =>
  Recv (fun l =>
    match (let? l := l in from_line_as as_key_offer l) with
    | Some o => Send (json_text (key_auth_json (mkKeyAuth "key-auth" (ko_sig o)))) (fun _ => Recv (fun _ => Done tt))
    | None => Done tt
    end)).

(** Both sides sign the same bytes: where the daemon's own key is among the
    authorized ones, a peer that knows only that public key is accepted. *)
Theorem mirrored_signature_is_accepted i ak label random nonce :
  public_ok (public i) = true -> authorize ak (pk_key (public i)) = Some label ->
  converse 12 (key_server i ak random) (mirror_peer (public i) nonce) [] [] =
  Some (inr (mkResult (label_of label (public i))), tt).
Proof.
  intros Hi Ha. unfold mirror_peer, key_server. cbv zeta. moves. rewrite read_key_hello.
  cbn [kh_auth kh_v kh_client_pub kh_client_nonce]. change (negb _ || negb _) with false. cbv match.
  rewrite decode_public, !b64_decode_encode by done. moves. rewrite read_key_offer. cbn [ko_sig]. moves.
  rewrite read_key_auth. cbn [ka_sig]. rewrite b64_decode_encode. cbn [pk_key].
  pose proof (signed_verifies i) as Vi. unfold pk_verify in *. cbn [pk_key] in *. rewrite Vi. cbn [negb].
  rewrite Ha. unfold send_ok. by moves.
Qed.

End KeyProofs.
End Proofs.

(** ** What a session is worth *)

(** A session that came through a JSON handshake has no principal, whichever
    key proved it: every access question about a KB is answered with yes. *)
Theorem json_sessions_pass_every_gate {R : Type} `{Rope R, Yrs, Crypto, Base64, CollCodec} (show : Out -> string)
    handshake peer id tr c w kb_id o :
  collab_peer handshake = Some peer ->
  auth_principal (session_of id (Some peer) tr) = None /\
  access (R := R) show c (session_of id (Some peer) tr) w kb_id o = (w, Some Allow).
Proof.
  destruct handshake as [[e|r]|]; [done| |done]. intros [= <-].
  assert (auth_principal (session_of id (Some (synthetic (client_label r))) tr) = None) as E; [done|].
  split; [done|]. unfold access. by rewrite E.
Qed.
(** The tool socket gives the same handshake a principal. *)
Lemma tool_sessions_have_principal r peer : mcp_peer (inr r) = Some peer -> principal_of peer = Some ("psk:" +:+ client_label r).
Proof.
  intros [= <-]. unfold principal_of, synthetic_psk. cbn [pi_fingerprint]. unfold starts_with.
  rewrite strip_prefix_app, (bool_decide_eq_true_2 (is_Some _)) by eauto. by rewrite orb_true_r.
Qed.

End Handshake.

Module HandshakeWitnesses.
Export IdentityWitnesses.

(** A text format for handshake messages: the number of the object in binary. *)
Definition flatten (v : Json) : gmap string (string + N) :=
  match v with
  | JObject o => omap (fun x => match x with JString s => Some (inl s) | JPosInt n => Some (inr n) | _ => None end) o
  | _ => ∅
  end.
Definition unflatten (m : gmap string (string + N)) : Json :=
  JObject ((fun x => match x with inl s => JString s | inr n => JPosInt n end) <$> m).
Lemma unflatten_flatten v : flat v = true -> unflatten (flatten v) = v.
Proof.
  destruct v as [| | | | | | |o]; try done. unfold flat, unflatten, flatten. rewrite forallb_forall. intros Ho. f_equal.
  apply map_eq. intros k. rewrite lookup_fmap, lookup_omap. destruct (o !! k) as [v|] eqn:E; [|done].
  apply elem_of_map_to_list, list_elem_of_In in E. specialize (Ho _ E). by destruct v.
Qed.
#[export] Instance binary_text : JsonText := {|
  json_text v := String "{" (bits (encode (flatten v)) +:+ "}");
  json_parse s := match s with
                  | String "{" r => unflatten <$> decode (unbits (String.substring 0 (String.length r - 1) r))
                  | _ => None
                  end;
|}.
Lemma bits_graphic p : all_graphic (bits p) = true.
Proof. by induction p. Qed.
Lemma substring_app a b : String.substring 0 (String.length a) (a +:+ b) = a.
Proof. induction a as [|c a IH]; [by destruct b|]. exact (f_equal (String c) IH). Qed.
#[export] Instance binary_text_laws : JsonTextLaws binary_text.
Proof.
  split; [|done]. intros v Hv. cbn [json_text json_parse binary_text].
  rewrite trim_newline; [|done|by apply (plain_ends (String "{" (bits (encode (flatten v)))))].
  rewrite string_length_app. cbn [String.length]. rewrite Nat.add_sub, substring_app, unbits_bits, countable.decode_encode.
  cbn. by rewrite unflatten_flatten.
Qed.

#[export] Instance tagged_hmac : Hmac := {| hmac_sha256 k m := k +:+ ":" +:+ m |}.
#[export] Instance wide_hex : HexLaws wide := ContentWitnesses.wide_hex_laws.
Definition team_key : KeyEntry := mkEntry (Some "team") "secret".
Definition sent_line (v : Json) : string := json_text v +:+ String newline "".

Lemma psk_accepts_only_proofs_witness :
  let sn := hex_encode "r" in
  let l1 := sent_line (hello_json (mkHello "hello" 1 "aa" (Some "team"))) in
  let l2 := sent_line (response_json (mkResponse "response" (proof_with "secret" sn "aa"))) in
  let es := [Got (Some l1); Sent (json_text (challenge_json (mkChallenge "challenge" sn (proof_with "secret" "aa" sn)))) true;
             Got (Some l2); Sent (json_text (ok_json (mkOk "ok"))) true] in
  exists l1 l2 challenge verdict hello key resp,
    es = [Got (Some l1); Sent challenge true; Got (Some l2); Sent verdict true] /\
    from_line_as as_hello l1 = Some hello /\ h_auth hello = "hello" /\ h_version hello = 1%N /\
    select [team_key] (h_key_id hello) = Some key /\
    from_line_as as_response l2 = Some resp /\ r_auth resp = "response" /\
    hex_decode (r_proof resp) = Some (hmac_sha256 (ke_secret key) (hex_encode "r" +:+ h_nonce hello)) /\
    client_label (mkResult "team") = default "psk" (ke_name key).
Proof.
  intros sn l1 l2 es. apply (psk_accepts_only_proofs [team_key] "r" es).
  unfold psk_server. apply trace_recv. unfold l1, sent_line. rewrite read_hello.
  apply trace_send. apply trace_recv. unfold l2, sent_line. rewrite read_response.
  apply trace_send. apply trace_done.
Defined.

(** A client that offers the right name with another secret. *)
Lemma psk_handshake_outcome_witness :
  converse 12 (psk_server [team_key] "rs") (psk_client [mkEntry None "guess"] (Some "team") "rc") [] [] =
  Some (inl (Protocol "invalid response"), inl (Rejected "server proof invalid — wrong key?")).
Proof. rewrite (psk_handshake_outcome [team_key] [mkEntry None "guess"] (Some "team") "rs" "rc"). reflexivity. Defined.

Definition daemon : Identity := mkIdentity (key "da") "daemon".
Definition editor_id : Identity := mkIdentity (key "ed") "laptop".
Lemma key_handshake_completes_witness :
  converse 12 (key_auth_server daemon (ServerRole [public editor_id]) "nonce-s")
         (key_auth_client editor_id (ClientRole (fun k => (host_verify AcceptNew None None "host:9000" k).2)) "nonce-c") [] [] =
  Some (inr (mkResult (label_of "laptop" (public editor_id))), inr tt).
Proof. apply key_handshake_completes; by vm_compute. Defined.

Lemma key_accepts_only_signers_witness :
  let t := transcript (key "ed") (key "da") "nonce-c" "nonce-s" in
  let l1 := sent_line (key_hello_json (mkKeyHello "key-hello" 1 (encoded (public editor_id)) (b64_encode "nonce-c"))) in
  let l2 := sent_line (key_auth_json (mkKeyAuth "key-auth" (b64_encode (id_sign editor_id t)))) in
  exists es label, trace (key_auth_server daemon (ServerRole [public editor_id]) "nonce-s") es (inr (mkResult label)) /\
  exists ak l1 l2 offer verdict hello client_pub client_nonce msg sig_c label',
    ServerRole [public editor_id] = ServerRole ak /\
    es = [Got (Some l1); Sent offer true; Got (Some l2); Sent verdict true] /\
    from_line_as as_key_hello l1 = Some hello /\
    from_encoded (kh_client_pub hello) None = Some client_pub /\ b64_decode (kh_client_nonce hello) = Some client_nonce /\
    from_line_as as_key_auth l2 = Some msg /\ b64_decode (ka_sig msg) = Some sig_c /\
    pk_verify client_pub (transcript (pk_key client_pub) (pk_key (public daemon)) client_nonce "nonce-s") sig_c = true /\
    authorize ak (pk_key client_pub) = Some label' /\ client_label (mkResult label) = label_of label' client_pub.
Proof.
  intros t l1 l2. do 2 eexists.
  match goal with |- ?T /\ _ => assert T as Tr end.
  { cbn [key_auth_server]. unfold key_server. apply trace_recv with (l := Some l1). unfold l1, sent_line. rewrite read_key_hello.
    apply (trace_send _ _ true). apply trace_recv with (l := Some l2). unfold l2, sent_line. rewrite read_key_auth.
    apply (trace_send _ _ true). apply trace_done. }
  split; [exact Tr|exact (key_accepts_only_signers _ _ _ _ _ Tr)].
Defined.

(** The peer without a key, on a daemon with one named key. *)
Lemma keyless_peer_is_accepted_witness :
  converse 12 (psk_server [team_key] "r") (keyless_peer None) [] [] = Some (inr (mkResult "team"), tt).
Proof. exact (keyless_peer_is_accepted [team_key] None team_key "r" eq_refl). Defined.
(** A daemon whose own key is authorized. *)
Lemma mirrored_signature_is_accepted_witness :
  converse 12 (key_server daemon [public daemon] "r") (mirror_peer (public daemon) "n") [] [] = Some (inr (mkResult "daemon"), tt).
Proof. exact (mirrored_signature_is_accepted daemon [public daemon] "daemon" "r" "n" eq_refl eq_refl). Defined.

End HandshakeWitnesses.
