(* ===== verification/Framing.v ===== *)
(** * Framing: messages on a byte stream

    Models [read_message] and [write_framed] of [shared/mcp/src/lib.rs], through
    which every JSON-RPC message of the daemon, the tool socket and their
    clients passes: Content-Length frames, and single lines for old clients.

    A stream is the bytes still to come; [peek] is how many of them the first
    [fill_buf] returns, which depends on how the peer's writes arrive. *)
From S2P Require Import Prelude Membership DocAddress OrgLinks Identity.

(** ** UTF-8 *)

(** [String::from_utf8]: well-formed sequences, without overlong forms and
    surrogates. *)
Definition byte_in (lo hi : N) (c : Ascii.ascii) : bool := let n := Ascii.N_of_ascii c in (lo <=? n)%N && (n <=? hi)%N.
Definition cont (c : Ascii.ascii) : bool := byte_in 128 191 c.
Fixpoint utf8_valid (s : string) : bool :=
  match s with
  | "" => true
  | String a r =>
      if byte_in 0 127 a then utf8_valid r
      else match r with
           | "" => false
           | String b r2 =>
               if byte_in 194 223 a then cont b && utf8_valid r2
               else match r2 with
                    | "" => false
                    | String c r3 =>
                        if bool_decide (Ascii.N_of_ascii a = 224%N) then byte_in 160 191 b && cont c && utf8_valid r3
                        else if bool_decide (Ascii.N_of_ascii a = 237%N) then byte_in 128 159 b && cont c && utf8_valid r3
                        else if byte_in 225 239 a then cont b && cont c && utf8_valid r3
                        else match r3 with
                             | "" => false
                             | String d r4 =>
                                 if bool_decide (Ascii.N_of_ascii a = 240%N) then byte_in 144 191 b && cont c && cont d && utf8_valid r4
                                 else if bool_decide (Ascii.N_of_ascii a = 244%N) then byte_in 128 143 b && cont c && cont d && utf8_valid r4
                                 else byte_in 241 243 a && cont b && cont c && cont d && utf8_valid r4
                             end
                    end
           end
  end.

(** ** Reading *)

Definition MAX_MESSAGE_SIZE : N := 10 * 1024 * 1024.
Definition MAX_HEADER_SIZE : N := 16384.
Definition cl_prefix : string := "Content-Length:".

Inductive FrameError :=
  | HeaderTooLarge | NonNumeric (raw : string) | MissingLength | ZeroLength | TooLong (len : N)
  | UnexpectedEof | InvalidData.

(** The next line with its newline, and what follows it. *)
Fixpoint next_line (s : string) : string * string :=
  match s with
  | "" => ("", "")
  | String c s' => if bool_decide (c = newline) then (String c "", s')
                   else let '(l, r) := next_line s' in (String c l, r)
  end.
Definition read_line (s : string) : (FrameError + string) * string :=
  let '(l, r) := next_line s in (if utf8_valid l then inr l else inl InvalidData, r).

(** [raw.parse::<usize>()]. *)
Definition parse_usize (s : string) : option N := parse_uint u64_max s.

(** The header lines; [inr None] is the end of the stream. *)
Fixpoint read_headers (fuel : nat) (s : string) (content_length : option N) (header_bytes : N)
    : (FrameError + option (option N)) * string :=
  match fuel with
  | 0 => (inr None, s)
  | S fuel' =>
      let '(r, rest) := read_line s in
      match r with
      | inl e => (inl e, rest)
      | inr header_line =>
          if is_empty header_line then (inr None, rest)
          else
            let header_bytes := (header_bytes + N.of_nat (String.length header_line))%N in
            if (MAX_HEADER_SIZE <? header_bytes)%N then (inl HeaderTooLarge, rest)
            else
              let trimmed := trim header_line in
              if is_empty trimmed then (inr (Some content_length), rest)
              else match strip_prefix cl_prefix trimmed with
                   | Some val =>
                       let raw := trim val in
                       match parse_usize raw with
                       | Some v => read_headers fuel' rest (Some v) header_bytes
                       | None => (inl (NonNumeric raw), rest)
                       end
                   | None => read_headers fuel' rest content_length header_bytes
                   end
      end
  end.

(** [read_exact] of [len] bytes; a stream that ends before is used up. *)
Definition read_body (len : N) (s : string) : (FrameError + string) * string :=
  let n := N.to_nat len in
  if (N.of_nat (String.length s) <? len)%N then (inl UnexpectedEof, "")
  else let body := take_str n s in (if utf8_valid body then inr body else inl InvalidData, drop_str n s).

(** The line framing: the first line that is not blank. *)
Fixpoint read_legacy (fuel : nat) (s : string) : (FrameError + option string) * string :=
  match fuel with
  | 0 => (inr None, s)
  | S fuel' =>
      let '(r, rest) := read_line s in
      match r with
      | inl e => (inl e, rest)
      | inr line =>
          if is_empty line then (inr None, rest)
          else let trimmed := trim line in
               if is_empty trimmed then read_legacy fuel' rest else (inr (Some trimmed), rest)
      end
  end.

Definition looks_like_cl (peek : nat) (s : string) : bool :=
  let peek_len := Nat.min (String.length (take_str peek s)) (String.length cl_prefix) in
  (0 <? peek_len) && bool_decide (take_str peek_len s = take_str peek_len cl_prefix).
Definition read_message (peek : nat) (s : string) : (FrameError + option string) * string :=
  if is_empty s then (inr None, "")
  else if looks_like_cl peek s then
    let '(h, rest) := read_headers (S (String.length s)) s None 0 in
    match h with
    | inl e => (inl e, rest)
    | inr None => (inr None, rest)
    | inr (Some None) => (inl MissingLength, rest)
    | inr (Some (Some len)) =>
        if (len =? 0)%N then (inl ZeroLength, rest)
        else if (MAX_MESSAGE_SIZE <? len)%N then (inl (TooLong len), rest)
        else let '(b, rest) := read_body len rest in
             (match b with inl e => inl e | inr msg => inr (Some msg) end, rest)
    end
  else read_legacy (S (String.length s)) s.

(** ** Writing *)

Definition crlf : string := String (Ascii.ascii_of_N 13) (String newline "").
Definition write_framed (body : string) : string :=
  cl_prefix +:+ " " +:+ to_dec (N.of_nat (String.length body)) +:+ crlf +:+ crlf +:+ body.

(** ** Lemmas *)

Lemma take_str_app n a b : n <= String.length a -> take_str n (a +:+ b) = take_str n a.
Proof.
  revert a. induction n as [|n IH]; intros a Hn; [done|]. destruct a as [|c a]; [cbn in Hn; lia|].
  change (String c a +:+ b) with (String c (a +:+ b)). cbn [take_str]. f_equal. apply IH. cbn in Hn. lia.
Qed.
Lemma take_str_all a b : take_str (String.length a) (a +:+ b) = a.
Proof. induction a as [|c a IH]; [by destruct b|]. exact (f_equal (String c) IH). Qed.
Lemma drop_str_all a b : drop_str (String.length a) (a +:+ b) = b.
Proof. by induction a as [|c a IH]; [destruct b|]. Qed.
Lemma next_line_app x r : avoids [newline] x = true -> next_line (x +:+ String newline r) = (x +:+ String newline "", r).
Proof.
  induction x as [|c x IH]; intros Hx; [done|]. apply avoids_cons in Hx as [Hc Hx].
  change (String c x +:+ ?y) with (String c (x +:+ y)). cbn [next_line].
  rewrite bool_decide_eq_false_2 by set_solver. by rewrite IH.
Qed.
Lemma graphic_ascii s r : all_graphic s = true -> utf8_valid (s +:+ r) = utf8_valid r.
Proof.
  induction s as [|c s IH]; intros Hs; [done|]. cbn [all_graphic] in Hs. apply andb_true_iff in Hs as [Hc Hs].
  change (String c s +:+ r) with (String c (s +:+ r)). cbn [utf8_valid].
  assert (byte_in 0 127 c = true) as ->; [|by apply IH].
  unfold graphic, byte_in in *. apply andb_true_iff in Hc as [_ Hc%N.leb_le]. apply andb_true_iff.
  split; apply N.leb_le; lia.
Qed.

(** Trimming a line that ends in a carriage return and a newline. *)
Lemma trim_crlf s : starts_graphic s = true -> starts_graphic (String.rev s) = true -> trim (s +:+ crlf) = s.
Proof.
  intros Hs Hr. unfold trim. fold blanks. rewrite (starts_graphic_strip (s +:+ _)) by (by destruct s).
  rewrite rev_append, string_length_app, Nat.add_comm. cbn [String.length Nat.add crlf].
  change (String.rev crlf +:+ String.rev s) with (String newline (String (Ascii.ascii_of_N 13) (String.rev s))).
  cbn [strip_many].
  change (strip_one (map String.rev blanks) (String newline ?r)) with (Some r). cbn match.
  change (strip_one (map String.rev blanks) (String (Ascii.ascii_of_N 13) ?r)) with (Some r). cbn match.
  rewrite starts_graphic_strip_rev by done. apply rev_involutive.
Qed.
Lemma trim_leading s : starts_graphic s = true -> starts_graphic (String.rev s) = true -> trim (String " " s) = s.
Proof.
  intros Hs Hr. unfold trim. fold blanks. cbn [String.length strip_many].
  change (strip_one blanks (String " " ?r)) with (Some r). cbn match.
  rewrite (starts_graphic_strip s) by done. rewrite starts_graphic_strip_rev by done. apply rev_involutive.
Qed.

(** Decimal text. *)
Lemma dec_graphic_go n s : all_graphic s = true -> all_graphic (pretty_N_go n s) = true.
Proof.
  revert s. induction (N.lt_wf_0 n) as [n _ IH]. intros s Hs. destruct (decide (0 < n)%N) as [Hn|Hn].
  - rewrite pretty_N_go_step by done. apply IH; [apply N.div_lt; lia|]. cbn [all_graphic]. rewrite Hs, andb_true_r.
    unfold pretty_N_char. pose proof (N.mod_lt n 10 ltac:(lia)). destruct (n `mod` 10)%N as [|p]; [done|].
    do 4 (destruct p as [p|p|]; try done); lia.
  - replace n with 0%N by lia. by rewrite pretty_N_go_0.
Qed.
Lemma dec_plain n : plain_word (to_dec n) = true.
Proof.
  unfold plain_word. rewrite andb_true_iff. split.
  - apply negb_true_iff, bool_decide_eq_false_2, to_dec_nonempty.
  - unfold to_dec, pretty, pretty_N. case_decide; [done|]. by apply dec_graphic_go.
Qed.
Lemma dec_length_go k : forall n s, (n < 10 ^ N.of_nat k)%N -> String.length (pretty_N_go n s) <= k + String.length s.
Proof.
  induction k as [|k IH]; intros n s Hn; [by replace n with 0%N by (cbn in Hn; lia); rewrite pretty_N_go_0|].
  destruct (decide (0 < n)%N) as [Hp|Hp]; [|replace n with 0%N by lia; rewrite pretty_N_go_0; lia].
  rewrite pretty_N_go_step by done. etrans; [apply IH|cbn [String.length]; lia].
  apply N.Div0.div_lt_upper_bound. rewrite Nat2N.inj_succ, N.pow_succ_r' in Hn. lia.
Qed.
Lemma dec_length n : (n < 10 ^ 8)%N -> String.length (to_dec n) <= 8.
Proof.
  intros Hn. unfold to_dec, pretty, pretty_N. case_decide; [cbn; lia|]. etrans; [by apply (dec_length_go 8)|]. cbn. lia.
Qed.

(** ** Frames are read back *)

Definition sendable (body : string) : bool :=
  utf8_valid body && negb (is_empty body) && (N.of_nat (String.length body) <=? MAX_MESSAGE_SIZE)%N.

Section Frame.
Context (body rest : string).
Local Notation n := (N.of_nat (String.length body)).
Local Notation header := (cl_prefix +:+ String " " (to_dec n)).

Lemma frame_split : write_framed body +:+ rest =
  (header +:+ String (Ascii.ascii_of_N 13) "") +:+ String newline (String (Ascii.ascii_of_N 13) (String newline (body +:+ rest))).
Proof. unfold write_framed, crlf. rewrite !string_app_assoc. reflexivity. Qed.
Lemma header_ends : starts_graphic header = true /\ starts_graphic (String.rev header) = true.
Proof.
  split; [done|]. change header with ((cl_prefix +:+ " ") +:+ to_dec n). apply plain_ends, dec_plain.
Qed.
Lemma header_avoids : avoids [newline] (header +:+ String (Ascii.ascii_of_N 13) "") = true.
Proof.
  change header with ((cl_prefix +:+ " ") +:+ to_dec n). rewrite !avoids_app.
  rewrite (all_graphic_avoids (to_dec n)) by (apply plain_all, dec_plain). by vm_compute.
Qed.
Lemma header_utf8 : utf8_valid (header +:+ crlf) = true.
Proof.
  rewrite string_app_assoc. rewrite graphic_ascii by done. change (String " " (to_dec n) +:+ crlf) with (String " " (to_dec n +:+ crlf)).
  change (utf8_valid (String " " ?s)) with (utf8_valid s). rewrite graphic_ascii by (apply plain_all, dec_plain). by vm_compute.
Qed.
Lemma first_line : read_line (write_framed body +:+ rest) =
  (inr (header +:+ crlf), String (Ascii.ascii_of_N 13) (String newline (body +:+ rest))).
Proof.
  rewrite frame_split. unfold read_line. rewrite next_line_app by apply header_avoids.
  rewrite string_app_assoc. change (String (Ascii.ascii_of_N 13) "" +:+ String newline "") with crlf.
  by rewrite header_utf8.
Qed.

Lemma headers_read fuel : (n < 10 ^ 8)%N ->
  read_headers (S (S fuel)) (write_framed body +:+ rest) None 0 = (inr (Some (Some n)), body +:+ rest).
Proof.
  intros Hmax. pose proof (dec_length n Hmax) as Hlen. destruct header_ends as [Hs Hr].
  cbn [read_headers]. rewrite first_line. cbn [is_empty].
  assert (String.length (header +:+ crlf) <= 26) as Hl by (rewrite !string_length_app; cbn [String.length]; cbn; lia).
  destruct (N.ltb_spec MAX_HEADER_SIZE (0 + N.of_nat (String.length (header +:+ crlf)))) as [Hb|_]; [unfold MAX_HEADER_SIZE in Hb; lia|].
  rewrite trim_crlf by done. change (is_empty header) with false. cbn match.
  rewrite strip_prefix_app, trim_leading.
  - unfold parse_usize. rewrite parse_to_dec by (unfold u64_max; lia).
    change (read_line (String (Ascii.ascii_of_N 13) (String newline ?r))) with (@inr FrameError _ crlf, r). cbn match.
    change (is_empty crlf) with false. cbn match.
    destruct (N.ltb_spec MAX_HEADER_SIZE (0 + N.of_nat (String.length (header +:+ crlf)) + N.of_nat (String.length crlf))) as [Hb|_];
      [unfold MAX_HEADER_SIZE in Hb; cbn in Hb; lia|].
    done.
  - rewrite <- (string_app_nil_r (to_dec n)). apply plain_starts, dec_plain.
  - apply (plain_ends ""), dec_plain.
Qed.
Lemma peeks_prefix peek : 0 < peek -> looks_like_cl peek (write_framed body +:+ rest) = true.
Proof.
  intros Hp. unfold looks_like_cl, write_framed. rewrite string_app_assoc.
  destruct peek as [|peek]; [lia|]. apply andb_true_iff. split.
  - apply Nat.ltb_lt, Nat.min_glb_lt; [apply Nat.lt_0_succ|cbn; lia].
  - apply bool_decide_eq_true_2. rewrite take_str_app; [done|lia].
Qed.

Lemma frame_read peek : 0 < peek -> sendable body = true ->
  read_message peek (write_framed body +:+ rest) = (inr (Some body), rest).
Proof.
  intros Hp Hs. unfold read_message. change (is_empty (write_framed body +:+ rest)) with false. cbn match.
  rewrite peeks_prefix by done.
  assert (exists f, String.length (write_framed body +:+ rest) = S f) as [f ->] by (eexists; reflexivity).
  unfold sendable in Hs. rewrite !andb_true_iff in Hs. destruct Hs as [[Hu Hne] Hmax]. apply N.leb_le in Hmax.
  rewrite headers_read by (unfold MAX_MESSAGE_SIZE in Hmax; lia). cbn match.
  destruct (N.eqb_spec n 0) as [E|_]; [by destruct body|].
  destruct (N.ltb_spec MAX_MESSAGE_SIZE n); [lia|]. unfold read_body.
  destruct (N.ltb_spec (N.of_nat (String.length (body +:+ rest))) n) as [Hl|_]; [rewrite string_length_app in Hl; lia|].
  rewrite Nat2N.id, take_str_all, drop_str_all, Hu. done.
Qed.
End Frame.

(** Messages read one after the other, with the sizes of the first reads. *)
Fixpoint read_messages (peeks : list nat) (s : string) : list (FrameError + option string) * string :=
  match peeks with
  | [] => ([], s)
  | peek :: peeks' => let '(m, s') := read_message peek s in
                      let '(ms, s'') := read_messages peeks' s' in (m :: ms, s'')
  end.

(** C24. Frames written one after the other are read back as exactly the bodies
    that were written, in order, with nothing of what follows them consumed,
    whatever the sizes of the first reads: for bodies that are not empty, are
    UTF-8 text and do not exceed the maximum. *)
Theorem frames_are_read_back bodies peeks rest :
  Forall (fun b => sendable b = true) bodies -> length peeks = length bodies -> Forall (fun p => 0 < p) peeks ->
  read_messages peeks (foldr (fun b s => write_framed b +:+ s) rest bodies) =
  (map (fun b => inr (Some b)) bodies, rest).
Proof.
  intros Hb. revert peeks. induction Hb as [|b bodies Hs _ IH]; intros [|p peeks] Hl Hp; try done.
  apply Forall_cons in Hp as [Hp0 Hp]. cbn [read_messages foldr map]. rewrite frame_read by done.
  rewrite IH; [done|cbn in Hl; lia|done].
Qed.

Module FramingWitnesses.
Lemma frames_are_read_back_witness :
  read_messages [1; 40] (write_framed "{}" +:+ (write_framed "[1,2]" +:+ "tail")) =
  ([inr (Some "{}"); inr (Some "[1,2]")], "tail").
Proof. apply (frames_are_read_back ["{}"; "[1,2]"] [1; 40] "tail"); by repeat constructor. Defined.
End FramingWitnesses.

Module FramingDepartures.
(** The reader refuses what the writer sends when it is too long, and leaves the
    body in the stream, to be taken for the next message. *)
Lemma long_message_is_unreadable body rest peek : 0 < peek -> utf8_valid body = true ->
  (MAX_MESSAGE_SIZE < N.of_nat (String.length body) < 10 ^ 8)%N ->
  read_message peek (write_framed body +:+ rest) = (inl (TooLong (N.of_nat (String.length body))), body +:+ rest).
Proof.
  intros Hp Hu [Hl Hm]. unfold read_message. change (is_empty (write_framed body +:+ rest)) with false. cbn match.
  rewrite peeks_prefix by done.
  assert (exists f, String.length (write_framed body +:+ rest) = S f) as [f ->] by (eexists; reflexivity).
  rewrite headers_read by done. cbn match. destruct (N.eqb_spec (N.of_nat (String.length body)) 0) as [E|_]; [lia|].
  destruct (N.ltb_spec MAX_MESSAGE_SIZE (N.of_nat (String.length body))); [done|lia].
Qed.

(** The limit of 16 KB on headers is applied to a line once it was read: a header
    without a newline is taken in whole, whatever its length. *)
Lemma header_limit_comes_late s : avoids [newline] s = true -> utf8_valid s = true ->
  (MAX_HEADER_SIZE < N.of_nat (String.length s))%N -> read_headers (S (String.length s)) s None 0 = (inl HeaderTooLarge, "").
Proof.
  intros Ha Hu Hl. assert (next_line s = (s, "")) as E.
  { clear Hu Hl. induction s as [|c s IH]; [done|]. apply avoids_cons in Ha as [Hc Ha]. cbn [next_line].
    rewrite bool_decide_eq_false_2 by set_solver. by rewrite IH. }
  cbn [read_headers]. unfold read_line. rewrite E, Hu. destruct s as [|c s]; [done|]. cbn [is_empty].
  change (is_empty (String c s)) with false. cbn match.
  destruct (N.ltb_spec MAX_HEADER_SIZE (0 + N.of_nat (String.length (String c s)))); [done|lia].
Qed.
(** How a line is read depends on how much of it arrived first: a line that
    starts like the header and arrives byte by byte is taken for one. *)
Lemma framing_depends_on_chunks :
  let s := "Count" +:+ String newline ("x" +:+ String newline "") in
  (read_message 5 s).1 = inr (Some "Count") /\ (read_message 1 s).1 = inr None.
Proof. by vm_compute. Qed.
End FramingDepartures.
